(** * claude-pr-reviewer: review session, reconciliation and dispatch

    A shallow embedding of the TypeScript sources of the reviewer
    (types/review.ts, reviewer/reconciler.ts, reviewer/cli-runner.ts,
    reviewer/comment-builder.ts, reviewer/github-client.ts,
    reviewer/index.ts and the two webhook dispatchers) together with the
    properties of the specification that concern them.

    Conventions of the embedding.
    - A JavaScript string is a Rocq [string]; a character stands for one
      UTF-16 code unit below 256 ([charCodeAt] is [nat_of_ascii]).  Literals
      of the source that hold characters above that range are kept in UTF-8.
    - A JavaScript number that the code uses as an integer (line numbers,
      comment ids, counts) is a [Z]; the 32-bit wrap-around of the bit
      operators is written out with [toInt32].
    - [undefined]/[null] members are [option]s; truthiness tests of the
      source are written out ([truthyNumber], [truthyString]).
    - Remote calls are commands of a small state-and-exception monad that
      records every call in a log and asks an oracle for the answer. *)

From Stdlib Require Import ZArith NArith Lia List Bool Ascii String Permutation.
Import ListNotations.

#[local] Set Warnings "-register-all".

#[local] Open Scope string_scope.
#[local] Open Scope Z_scope.

(* ================================================================= *)
(** ** Built-ins of the JavaScript platform used by the sources *)

Module JS.

(** The double-quote character and the line feed, as one-character strings. *)
Definition dq : string := String (ascii_of_nat 34) EmptyString.
Definition lf : string := String (ascii_of_nat 10) EmptyString.

(** [s.charCodeAt(i)] for every [i], in order. *)
Definition charCodes (s : string) : list Z :=
  map (fun c => Z.of_nat (nat_of_ascii c)) (list_ascii_of_string s).

(** [ToInt32]: reduction modulo 2^32 into [-2^31, 2^31). *)
Definition toInt32 (z : Z) : Z := (z + 2 ^ 31) mod 2 ^ 32 - 2 ^ 31.

(** [a << n] and [a & b] on numbers: operands and result pass [ToInt32]. *)
Definition shl32 (a n : Z) : Z := toInt32 (Z.shiftl (toInt32 a) n).
Definition and32 (a b : Z) : Z := toInt32 (Z.land (toInt32 a) (toInt32 b)).

(** Truthiness of an optional number ([undefined] and [0] are falsy)
    and of an optional string ([undefined] and the empty string are). *)
Definition truthyNumber (n : option Z) : bool :=
  match n with
  | Some v => negb (v =? 0)
  | None => false
  end.

Definition truthyString (s : option string) : bool :=
  match s with
  | Some (String _ _) => true
  | _ => false
  end.

(** One digit of a radix up to 16, lower case as [Number.prototype.toString]
    prints it. *)
Definition digitChar (d : N) : ascii :=
  if (d <? 10)%N then ascii_of_N (48 + d) else ascii_of_N (87 + d).

(** Digits of [n] in [radix], most significant first, pushed in front of
    [acc]; [fuel] bounds the number of digits. *)
Fixpoint digitsOf (fuel : nat) (radix n : N) (acc : string) : string :=
  match fuel with
  | O => acc
  | S fuel' =>
      let acc' := String (digitChar (n mod radix)%N) acc in
      if (n / radix =? 0)%N then acc'
      else digitsOf fuel' radix (n / radix)%N acc'
  end.

(** [n.toString(radix)] for a non-negative integer [n]. *)
Definition natToString (radix n : N) : string :=
  digitsOf (S (N.to_nat (N.log2 n))) radix n EmptyString.

(** [n.toString(radix)] for an integer, and the template-literal
    rendering [`${n}`] of an integer of fewer than 22 digits (from 10^21
    on the platform prints an exponent). *)
Definition toStringRadix (radix : N) (n : Z) : string :=
  if n <? 0 then "-" ++ natToString radix (Z.to_N (- n))
  else natToString radix (Z.to_N n).

Definition numberToString (n : Z) : string := toStringRadix 10 n.

(** A number that need not be an integer: [parseInt] returns an integer,
    [NaN] (no digit to read) or an infinity (more digits than a number
    holds). *)
Inductive number :=
| Int (z : Z)
| NaN
| Infinity (negative : bool).

(** [a > b] for an integer [a]: false whenever [b] is [NaN]. *)
Definition greaterThan (a : Z) (b : number) : bool :=
  match b with
  | Int z => z <? a
  | NaN => false
  | Infinity negative => negative
  end.

(** [`${n}`] for such a number. *)
Definition showNumber (n : number) : string :=
  match n with
  | Int z => numberToString z
  | NaN => "NaN"
  | Infinity false => "Infinity"
  | Infinity true => "-Infinity"
  end.

(** [s.padStart(width, c)] with a one-character filler. *)
Fixpoint repeatChar (c : ascii) (n : nat) : string :=
  match n with
  | O => EmptyString
  | S n' => String c (repeatChar c n')
  end.

Definition padStart (width : nat) (c : ascii) (s : string) : string :=
  repeatChar c (width - String.length s) ++ s.

(** [`${ms / 1000}`] for an integer [ms]: the quotient is printed with
    the digits of its fraction, at most three, and without trailing zeros
    (the text of the quotient as long as [ms] has at most 15 digits). *)
Definition fractionDigits (r : Z) : string :=
  if r mod 100 =? 0 then numberToString (r / 100)
  else if r mod 10 =? 0 then padStart 2 "0"%char (numberToString (r / 10))
  else padStart 3 "0"%char (numberToString r).

Definition showThousandths (ms : Z) : string :=
  let a := Z.abs ms in
  let text :=
    if a mod 1000 =? 0 then numberToString (a / 1000)
    else numberToString (a / 1000) ++ "." ++ fractionDigits (a mod 1000) in
  if ms <? 0 then "-" ++ text else text.

(** [c.toLowerCase()] on a code unit below 256: the ASCII capitals and
    the Latin-1 capitals (all but the multiplication sign) move by 32. *)
Definition lowerChar (c : ascii) : ascii :=
  let n := nat_of_ascii c in
  if ((65 <=? n) && (n <=? 90))%nat then ascii_of_nat (n + 32)
  else if ((192 <=? n) && (n <=? 222) && negb (n =? 215))%nat
       then ascii_of_nat (n + 32)
  else c.

Fixpoint mapString (f : ascii -> ascii) (s : string) : string :=
  match s with
  | EmptyString => EmptyString
  | String c s' => String (f c) (mapString f s')
  end.

Fixpoint filterString (p : ascii -> bool) (s : string) : string :=
  match s with
  | EmptyString => EmptyString
  | String c s' => if p c then String c (filterString p s') else filterString p s'
  end.

Definition toLowerCase (s : string) : string := mapString lowerChar s.

(** The character class [a-z0-9]. *)
Definition isLowerAlnum (c : ascii) : bool :=
  let n := nat_of_ascii c in
  (((97 <=? n) && (n <=? 122)) || ((48 <=? n) && (n <=? 57)))%nat.

(** Lower-case hexadecimal digits. *)
Definition isLowerHex (c : ascii) : bool :=
  let n := nat_of_ascii c in
  (((48 <=? n) && (n <=? 57)) || ((97 <=? n) && (n <=? 102)))%nat.

Fixpoint forallString (p : ascii -> bool) (s : string) : bool :=
  match s with
  | EmptyString => true
  | String c s' => p c && forallString p s'
  end.

(** [s.substring(0, n)]. *)
Definition substring0 (n : nat) (s : string) : string := String.substring 0 n s.

(** [lines.join('\n')]. *)
Definition joinLines (lines : list string) : string := String.concat lf lines.

(** [c.toUpperCase()] on a code unit below 256 whose capital is one code
    unit below 256 as well: the ASCII and the Latin-1 small letters.  The
    three code units whose capital is not of that kind, 181 (micro sign),
    223 (sharp s) and 255 (y with diaeresis), are outside its range and
    are returned as they are; [capitalRepresented] tells them apart. *)
Definition upperChar (c : ascii) : ascii :=
  let n := nat_of_ascii c in
  if ((97 <=? n) && (n <=? 122))%nat then ascii_of_nat (n - 32)
  else if ((224 <=? n) && (n <=? 254) && negb (n =? 247))%nat
       then ascii_of_nat (n - 32)
  else c.

Definition capitalRepresented (c : ascii) : bool :=
  let n := nat_of_ascii c in
  negb ((n =? 181) || (n =? 223) || (n =? 255))%nat.

(** [s.charAt(0).toUpperCase() + s.slice(1)]. *)
Definition capitalize (s : string) : string :=
  match s with
  | EmptyString => EmptyString
  | String c s' => String (upperChar c) s'
  end.

(** [s.startsWith(t)] and [s.includes(t)]. *)
Fixpoint startsWith (t s : string) : bool :=
  match t, s with
  | EmptyString, _ => true
  | String c t', String d s' => Ascii.eqb c d && startsWith t' s'
  | String _ _, EmptyString => false
  end.

Fixpoint includes (t s : string) : bool :=
  startsWith t s ||
  match s with
  | EmptyString => false
  | String _ s' => includes t s'
  end.

(** *** Regular expressions

    The fragment the sources use: literal characters, a starred character
    class (greedy [*] or lazy [*?]) and one capture group.  [matchAt] is
    the backtracking matcher anchored at the head of the subject; it
    explores the alternatives in the priority order of ECMAScript, so the
    first success is the match the engine reports. *)
Inductive atom :=
| Lit (c : ascii)
| Many (greedy : bool) (cls : ascii -> bool)
| GroupOpen
| GroupClose.

(** The text consumed, and the offsets in it where the group opens and
    closes. *)
Record MatchResult := mkMatch {
  matched : string;
  gopen : nat;
  gclose : nat
}.

Definition consume (c : ascii) (r : MatchResult) : MatchResult :=
  mkMatch (String c (matched r)) (S (gopen r)) (S (gclose r)).

Fixpoint matchAt (p : list atom) : string -> option MatchResult :=
  match p with
  | [] => fun _ => Some (mkMatch EmptyString 0 0)
  | Lit c :: p' =>
      fun s =>
        match s with
        | String d s' =>
            if Ascii.eqb c d then option_map (consume d) (matchAt p' s') else None
        | EmptyString => None
        end
  | Many greedy cls :: p' =>
      fix star (s : string) : option MatchResult :=
        if greedy then
          match
            match s with
            | String d s' => if cls d then option_map (consume d) (star s') else None
            | EmptyString => None
            end
          with
          | Some r => Some r
          | None => matchAt p' s
          end
        else
          match matchAt p' s with
          | Some r => Some r
          | None =>
              match s with
              | String d s' => if cls d then option_map (consume d) (star s') else None
              | EmptyString => None
              end
          end
  | GroupOpen :: p' =>
      fun s => option_map (fun r => mkMatch (matched r) 0 (gclose r)) (matchAt p' s)
  | GroupClose :: p' =>
      fun s => option_map (fun r => mkMatch (matched r) (gopen r) 0) (matchAt p' s)
  end.

(** [s.match(p)] for a pattern without the global flag: the match at the
    leftmost position that has one, with its index. *)
Fixpoint search (p : list atom) (s : string) : option (nat * MatchResult) :=
  match matchAt p s with
  | Some r => Some (O, r)
  | None =>
      match s with
      | String _ s' =>
          match search p s' with
          | Some (i, r) => Some (S i, r)
          | None => None
          end
      | EmptyString => None
      end
  end.

(** [m[1]]: the text of the capture group. *)
Definition group1 (r : MatchResult) : string :=
  String.substring (gopen r) (gclose r - gopen r) (matched r).

Definition lits (s : string) : list atom := map Lit (list_ascii_of_string s).

(** [[\s\S]]: every character; [.]: every character but a line terminator. *)
Definition anyChar (c : ascii) : bool := true.
Definition dotChar (c : ascii) : bool :=
  let n := nat_of_ascii c in negb ((n =? 10) || (n =? 13))%nat.

(** *** JSON.parse

    Values keep the text of a number as it was written.  A [\u] escape
    above 255 names a code unit outside the strings of this embedding and
    is not accepted. *)
Inductive json :=
| JNull
| JBool (b : bool)
| JNumber (lexeme : string)
| JString (s : string)
| JArray (items : list json)
| JObject (members : list (string * json)).

Definition isWs (c : ascii) : bool :=
  let n := nat_of_ascii c in ((n =? 32) || (n =? 9) || (n =? 10) || (n =? 13))%nat.

Fixpoint skipWs (s : string) : string :=
  match s with
  | String c s' => if isWs c then skipWs s' else s
  | EmptyString => s
  end.

Definition isDigit (c : ascii) : bool :=
  let n := nat_of_ascii c in ((48 <=? n) && (n <=? 57))%nat.

Definition hexVal (c : ascii) : option nat :=
  let n := nat_of_ascii c in
  if ((48 <=? n) && (n <=? 57))%nat then Some (n - 48)%nat
  else if ((97 <=? n) && (n <=? 102))%nat then Some (n - 87)%nat
  else if ((65 <=? n) && (n <=? 70))%nat then Some (n - 55)%nat
  else None.

Definition hex4 (a b c d : ascii) : option nat :=
  match hexVal a, hexVal b, hexVal c, hexVal d with
  | Some x, Some y, Some z, Some w => Some (((x * 16 + y) * 16 + z) * 16 + w)%nat
  | _, _, _, _ => None
  end.

(** The character a two-character escape stands for. *)
Definition simpleEscape (e : ascii) : option ascii :=
  let n := nat_of_ascii e in
  if (n =? 34)%nat then Some e
  else if (n =? 92)%nat then Some e
  else if (n =? 47)%nat then Some e
  else if (n =? 98)%nat then Some (ascii_of_nat 8)
  else if (n =? 102)%nat then Some (ascii_of_nat 12)
  else if (n =? 110)%nat then Some (ascii_of_nat 10)
  else if (n =? 114)%nat then Some (ascii_of_nat 13)
  else if (n =? 116)%nat then Some (ascii_of_nat 9)
  else None.

(** The rest of a string literal after its opening quote: the value and
    what follows the closing quote. *)
Fixpoint parseStringBody (s : string) : option (string * string) :=
  match s with
  | EmptyString => None
  | String c s' =>
      if (nat_of_ascii c =? 34)%nat then Some (EmptyString, s')
      else if (nat_of_ascii c =? 92)%nat then
        match s' with
        | EmptyString => None
        | String e s'' =>
            match simpleEscape e with
            | Some ch =>
                match parseStringBody s'' with
                | Some (t, r) => Some (String ch t, r)
                | None => None
                end
            | None =>
                if (nat_of_ascii e =? 117)%nat then
                  match s'' with
                  | String h1 (String h2 (String h3 (String h4 s5))) =>
                      match hex4 h1 h2 h3 h4 with
                      | Some n =>
                          if (n <? 256)%nat then
                            match parseStringBody s5 with
                            | Some (t, r) => Some (String (ascii_of_nat n) t, r)
                            | None => None
                            end
                          else None
                      | None => None
                      end
                  | _ => None
                  end
                else None
            end
        end
      else if (nat_of_ascii c <? 32)%nat then None
      else
        match parseStringBody s' with
        | Some (t, r) => Some (String c t, r)
        | None => None
        end
  end.

Fixpoint spanDigits (s : string) : string * string :=
  match s with
  | String c s' =>
      if isDigit c then let (ds, r) := spanDigits s' in (String c ds, r)
      else (EmptyString, s)
  | EmptyString => (EmptyString, s)
  end.

(** A number: an optional minus sign, an integer part without a leading
    zero (or a lone zero), an optional fraction of a point and digits, an
    optional exponent of [e] or [E], an optional sign and digits. *)
Definition parseNumber (s : string) : option (string * string) :=
  let (sign, s1) :=
    match s with
    | String "-"%char r => ("-", r)
    | _ => (EmptyString, s)
    end in
  match s1 with
  | EmptyString => None
  | String c r =>
      if isDigit c then
        let (int, r1) :=
          if Ascii.eqb c "0"%char then (String c EmptyString, r)
          else let (ds, r') := spanDigits r in (String c ds, r') in
        let frac :=
          match r1 with
          | String "."%char r2 =>
              match spanDigits r2 with
              | (EmptyString, _) => None
              | (ds, r3) => Some ("." ++ ds, r3)
              end
          | _ => Some (EmptyString, r1)
          end in
        match frac with
        | None => None
        | Some (f, r3) =>
            let isE c := (Ascii.eqb c "e"%char || Ascii.eqb c "E"%char)%bool in
            let isSign c := (Ascii.eqb c "+"%char || Ascii.eqb c "-"%char)%bool in
            match r3 with
            | String e r4 =>
                if isE e then
                  let (sg, r5) :=
                    match r4 with
                    | String g r5 =>
                        if isSign g then (String g EmptyString, r5) else (EmptyString, r4)
                    | EmptyString => (EmptyString, r4)
                    end in
                  match spanDigits r5 with
                  | (EmptyString, _) => None
                  | (ds, r6) => Some (sign ++ int ++ f ++ String e sg ++ ds, r6)
                  end
                else Some (sign ++ int ++ f, r3)
            | EmptyString => Some (sign ++ int ++ f, r3)
            end
        end
      else None
  end.

(** The elements of an array after its opening bracket, and the members
    of an object after its opening brace, given the parser of a value;
    the subject stands at the first element or member. *)
Fixpoint parseItemsWith (pv : string -> option (json * string))
         (fuel : nat) (s : string) : option (list json * string) :=
  match fuel with
  | O => None
  | S fuel' =>
      match pv s with
      | None => None
      | Some (v, r) =>
          match skipWs r with
          | String c r' =>
              if Ascii.eqb c ","%char then
                match parseItemsWith pv fuel' r' with
                | Some (vs, r'') => Some (v :: vs, r'')
                | None => None
                end
              else if Ascii.eqb c "]"%char then Some ([v], r')
              else None
          | EmptyString => None
          end
      end
  end.

Fixpoint parseMembersWith (pv : string -> option (json * string))
         (fuel : nat) (s : string) : option (list (string * json) * string) :=
  match fuel with
  | O => None
  | S fuel' =>
      match skipWs s with
      | String q s1 =>
          if (nat_of_ascii q =? 34)%nat then
            match parseStringBody s1 with
            | None => None
            | Some (key, s2) =>
                match skipWs s2 with
                | String colon s3 =>
                    if Ascii.eqb colon ":"%char then
                      match pv s3 with
                      | None => None
                      | Some (v, r) =>
                          match skipWs r with
                          | String c r' =>
                              if Ascii.eqb c ","%char then
                                match parseMembersWith pv fuel' r' with
                                | Some (ms, r'') => Some ((key, v) :: ms, r'')
                                | None => None
                                end
                              else if Ascii.eqb c "}"%char then Some ([(key, v)], r')
                              else None
                          | EmptyString => None
                          end
                      end
                    else None
                | EmptyString => None
                end
            end
          else None
      | EmptyString => None
      end
  end.

Fixpoint parseValue (fuel : nat) (s : string) : option (json * string) :=
  match fuel with
  | O => None
  | S fuel' =>
      match skipWs s with
      | EmptyString => None
      | String c r =>
          if (nat_of_ascii c =? 34)%nat then
            match parseStringBody r with
            | Some (t, r') => Some (JString t, r')
            | None => None
            end
          else if Ascii.eqb c "{"%char then
            match skipWs r with
            | String "}"%char r' => Some (JObject [], r')
            | _ =>
                match parseMembersWith (parseValue fuel') (String.length r) r with
                | Some (ms, r') => Some (JObject ms, r')
                | None => None
                end
            end
          else if Ascii.eqb c "["%char then
            match skipWs r with
            | String "]"%char r' => Some (JArray [], r')
            | _ =>
                match parseItemsWith (parseValue fuel') (String.length r) r with
                | Some (vs, r') => Some (JArray vs, r')
                | None => None
                end
            end
          else if startsWith "true" (String c r) then
            Some (JBool true, String.substring 4 (String.length r) (String c r))
          else if startsWith "false" (String c r) then
            Some (JBool false, String.substring 5 (String.length r) (String c r))
          else if startsWith "null" (String c r) then
            Some (JNull, String.substring 4 (String.length r) (String c r))
          else
            match parseNumber (String c r) with
            | Some (lexeme, r') => Some (JNumber lexeme, r')
            | None => None
            end
      end
  end.

(** [JSON.parse(text)]: [None] when the engine throws a [SyntaxError]. *)
Definition JSON_parse (text : string) : option json :=
  match parseValue (S (String.length text)) text with
  | Some (v, r) =>
      match skipWs r with
      | EmptyString => Some v
      | String _ _ => None
      end
  | None => None
  end.

(** [obj[key]] on a parsed object: the last member of that name. *)
Fixpoint member (key : string) (ms : list (string * json)) : option json :=
  match ms with
  | [] => None
  | (k, v) :: ms' =>
      match member key ms' with
      | Some v' => Some v'
      | None => if String.eqb k key then Some v else None
      end
  end.

End JS.

(* ================================================================= *)
(** ** types/review.ts *)

Module Review.

Inductive Severity := critical | high | medium | low.
Inductive Confidence := conf_high | conf_medium | conf_low.
Inductive Category :=
  security | performance | logic | error_handling | type_safety | maintainability.

Definition Severity_eqb (a b : Severity) : bool :=
  match a, b with
  | critical, critical | high, high | medium, medium | low, low => true
  | _, _ => false
  end.

Record Finding := mkFinding {
  severity : Severity;
  category : Category;
  confidence : Confidence;
  file : string;
  line : Z;
  endLine : option Z;
  title : string;
  description : string;
  suggestion : option string;
  severityReason : string;
  references : option (list string);
  hash : string
}.

Inductive ReviewStatus := completed | skipped | failed.

Record ReviewMetadata := mkMetadata {
  headCommit : string;
  filesReviewed : Z;
  skippedFiles : list string;
  reviewDurationMs : Z
}.

Record ReviewResult := mkReviewResult {
  status : ReviewStatus;
  summary : string;
  findings : list Finding;
  metadata : ReviewMetadata;
  error : option string
}.

Inductive ReviewAction := request_changes | comment | approve.

Definition determineReviewAction (findings : list Finding) : ReviewAction :=
  let hasCritical := existsb (fun f => Severity_eqb (severity f) critical) findings in
  let hasHigh := existsb (fun f => Severity_eqb (severity f) high) findings in
  if hasCritical then request_changes
  else if hasHigh then comment
  else approve.

Record SeverityCounts := mkCounts {
  n_critical : nat; n_high : nat; n_medium : nat; n_low : nat
}.

Definition countBySeverity (findings : list Finding) : SeverityCounts :=
  let count s := List.length (filter (fun f => Severity_eqb (severity f) s) findings) in
  mkCounts (count critical) (count high) (count medium) (count low).

(** [SEVERITY_EMOJI], the literals kept in UTF-8. *)
Definition SEVERITY_EMOJI (s : Severity) : string :=
  match s with
  | critical => "🔴"
  | high => "🟠"
  | medium => "🟡"
  | low => "🔵"
  end.

Definition SEVERITY_ORDER (s : Severity) : Z :=
  match s with
  | critical => 0
  | high => 1
  | medium => 2
  | low => 3
  end.

(** The string values of the enumerations. *)
Definition severityName (s : Severity) : string :=
  match s with
  | critical => "critical"
  | high => "high"
  | medium => "medium"
  | low => "low"
  end.

Definition confidenceName (c : Confidence) : string :=
  match c with
  | conf_high => "high"
  | conf_medium => "medium"
  | conf_low => "low"
  end.

Definition categoryName (c : Category) : string :=
  match c with
  | security => "security"
  | performance => "performance"
  | logic => "logic"
  | error_handling => "error-handling"
  | type_safety => "type-safety"
  | maintainability => "maintainability"
  end.

Definition actionName (a : ReviewAction) : string :=
  match a with
  | request_changes => "request_changes"
  | comment => "comment"
  | approve => "approve"
  end.

End Review.

(* ================================================================= *)
(** ** The type [ExistingComment] of reviewer/github-client.ts *)

Module Comment.

Record ExistingComment := mkExisting {
  id : Z;
  body : string;
  path : string;
  line : Z;
  hash : option string
}.

End Comment.

(* ================================================================= *)
(** ** reviewer/reconciler.ts *)

Module Reconciler.
Import Review.

Record ReconciliationResult := mkReconciliation {
  newFindings : list Finding;
  fixedCommentIds : list Z;
  persistingCommentIds : list Z
}.

(** [set.has(h)] on a [Set] of strings, the set kept as the list of the
    values it was built from. *)
Definition has (set : list string) (h : string) : bool :=
  existsb (String.eqb h) set.

(** [existingComments.filter((c) => c.hash !== null).map((c) => c.hash)]. *)
Definition existingHashesOf (existingComments : list Comment.ExistingComment) : list string :=
  flat_map (fun c => match Comment.hash c with Some h => [h] | None => [] end)
           existingComments.

(** One turn of the loop over the existing comments: the pair is
    ([fixedCommentIds], [persistingCommentIds]). *)
Definition classify (newHashes : list string)
           (acc : list Z * list Z) (c : Comment.ExistingComment) : list Z * list Z :=
  match Comment.hash c with
  | None => acc
  | Some h =>
      if has newHashes h then (fst acc, (snd acc ++ [Comment.id c])%list)
      else ((fst acc ++ [Comment.id c])%list, snd acc)
  end.

Definition reconcileFindings (findingsNow : list Finding)
           (existingComments : list Comment.ExistingComment) : ReconciliationResult :=
  let existingHashes := existingHashesOf existingComments in
  let newHashes := map hash findingsNow in
  let newFindingsToPost :=
    filter (fun f => negb (has existingHashes (hash f))) findingsNow in
  let '(fixedIds, persistingIds) :=
    fold_left (classify newHashes) existingComments ([], []) in
  mkReconciliation newFindingsToPost fixedIds persistingIds.

(** The title as it enters the hash:
    [title.toLowerCase().replace(/[^a-z0-9]/g, '')]. *)
Definition normalizeTitle (title : string) : string :=
  JS.filterString JS.isLowerAlnum (JS.toLowerCase title).

Definition lineRange (line : Z) (endLine : option Z) : string :=
  if JS.truthyNumber endLine
  then match endLine with
       | Some e => JS.numberToString line ++ "-" ++ JS.numberToString e
       | None => JS.numberToString line
       end
  else JS.numberToString line.

Definition hashInput (file : string) (line : Z) (endLine : option Z)
           (title : string) : string :=
  file ++ ":" ++ lineRange line endLine ++ ":" ++ normalizeTitle title.

(** One turn of the loop: [hash = ((hash << 5) - hash) + char;
    hash = hash & hash]. *)
Definition hashStep (h char : Z) : Z :=
  let h' := (JS.shl32 h 5 - h) + char in
  JS.and32 h' h'.

Definition hashLoop (codes : list Z) : Z := fold_left hashStep codes 0.

Definition generateHash (file : string) (line : Z) (endLine : option Z)
           (title : string) : string :=
  let h := hashLoop (JS.charCodes (hashInput file line endLine title)) in
  JS.padStart 8 "0"%char (JS.toStringRadix 16 (Z.abs h)).

Definition hasBlockingIssuesRemaining (findingsNow : list Finding)
           (existingComments : list Comment.ExistingComment) : bool :=
  let reconciliation := reconcileFindings findingsNow existingComments in
  let blockingFindings :=
    filter (fun f => Severity_eqb (severity f) critical)
           (newFindings reconciliation) in
  (0 <? List.length blockingFindings)%nat.

Definition shouldDismissPreviousReview (findingsNow : list Finding) : bool :=
  let hasCritical :=
    existsb (fun f => Severity_eqb (severity f) critical) findingsNow in
  negb hasCritical.

End Reconciler.


(* ================================================================= *)
(** ** reviewer/cli-runner.ts *)

Module CliRunner.
Import Review.

Record CliRunnerResult := mkCliResult {
  success : bool;
  result : option ReviewResult;
  cliError : option string;
  rawOutput : option string
}.

(** [/\{[\s\S]*"status"[\s\S]*"findings"[\s\S]*\}/]. *)
Definition JSON_OBJECT_PATTERN : list JS.atom :=
  ([JS.Lit "{"%char; JS.Many true JS.anyChar]
     ++ JS.lits (JS.dq ++ "status" ++ JS.dq)
     ++ [JS.Many true JS.anyChar]
     ++ JS.lits (JS.dq ++ "findings" ++ JS.dq)
     ++ [JS.Many true JS.anyChar; JS.Lit "}"%char])%list.

Section ParseReviewOutput.

(** The two parsers of the platform and of zod, with the values that
    pass from the one to the other: [JSON.parse] gives the parsed value or
    the message of the [SyntaxError] it throws, [ReviewResultSchema.parse]
    the validated result or the message of the [ZodError] it throws. *)
Context {Parsed : Type}.
Variable JSON_parse : string -> string + Parsed.
Variable ReviewResultSchema_parse : Parsed -> string + ReviewResult.

Definition parseReviewOutput (output : string) : CliRunnerResult :=
  match JS.search JSON_OBJECT_PATTERN output with
  | None =>
      mkCliResult false None (Some "Could not find JSON in Claude output") (Some output)
  | Some (_, jsonMatch) =>
      let text := JS.matched jsonMatch in
      let failure errorMessage :=
        mkCliResult false None
                    (Some ("Failed to parse review JSON: " ++ errorMessage))
                    (Some output) in
      match JSON_parse text with
      | inl errorMessage => failure errorMessage
      | inr parsed =>
          match ReviewResultSchema_parse parsed with
          | inl errorMessage => failure errorMessage
          | inr validated => mkCliResult true (Some validated) None (Some output)
          end
      end
  end.

(** How the engine subprocess ended: killed by the timer, closed with an
    exit code, or never started. *)
Inductive ProcessEnd :=
| TimedOut (stdout : string)
| Closed (code : Z) (stdout stderr : string)
| SpawnFailed (message : string).

(** The result [runClaudeReview] resolves to, for a timeout of
    [timeout] milliseconds. *)
Definition runClaudeReviewResult (timeout : Z) (e : ProcessEnd) : CliRunnerResult :=
  match e with
  | TimedOut stdout =>
      mkCliResult false None
        (Some ("Review timed out after " ++ JS.showThousandths timeout ++ " seconds"))
        (Some stdout)
  | Closed code stdout stderr =>
      if negb (code =? 0) then
        mkCliResult false None
          (Some ("Claude CLI exited with code " ++ JS.numberToString code ++ ": " ++ stderr))
          (Some stdout)
      else parseReviewOutput stdout
  | SpawnFailed message =>
      mkCliResult false None (Some ("Failed to spawn Claude CLI: " ++ message)) None
  end.

End ParseReviewOutput.

Definition DEFAULT_TIMEOUT : Z := 25 * 60 * 1000.

End CliRunner.

(* ================================================================= *)
(** ** reviewer/comment-builder.ts *)

Module CommentBuilder.
Import Review.

(** [category.split('-').map(capitalize).join(' ')]. *)
Fixpoint splitOn (sep : ascii) (s : string) : list string :=
  match s with
  | EmptyString => [EmptyString]
  | String c s' =>
      if Ascii.eqb c sep then EmptyString :: splitOn sep s'
      else match splitOn sep s' with
           | w :: ws => String c w :: ws
           | [] => [String c EmptyString]
           end
  end.

Definition formatCategory (category : string) : string :=
  String.concat " " (map JS.capitalize (splitOn "-"%char category)).

Definition formatConfidence (confidence : string) : string :=
  JS.capitalize confidence.

(** [ref.length > 60 ? ref.substring(0, 57) + '...' : ref]. *)
Definition displayUrl (ref : string) : string :=
  if (60 <? String.length ref)%nat then JS.substring0 57 ref ++ "..." else ref.

(** The marker line that carries the hash. *)
Definition markerLine (h : string) : string :=
  "<!-- ai-review: {" ++ JS.dq ++ "hash" ++ JS.dq ++ ":" ++ JS.dq ++ h ++ JS.dq ++ "} -->".

(** The lines pushed before the trailer, in the order of the source. *)
Definition findingLines (finding : Finding) : list string :=
  let emoji := SEVERITY_EMOJI (severity finding) in
  let severityLabel := JS.capitalize (severityName (severity finding)) in
  ([(emoji ++ " **" ++ severityLabel ++ "** · "
       ++ formatCategory (categoryName (category finding)))%string;
    EmptyString;
    description finding]
   ++ (if JS.truthyString (suggestion finding)
       then match suggestion finding with
            | Some sg => [EmptyString; "```suggestion"; sg; "```"]
            | None => []
            end
       else [])
   ++ [EmptyString;
       ("**Confidence:** "
          ++ formatConfidence (confidenceName (confidence finding)))%string;
       ("**Why this severity:** " ++ severityReason finding)%string]
   ++ (match references finding with
       | Some refs =>
           if (0 <? List.length refs)%nat
           then [EmptyString; "**References:**"]
                  ++ map (fun ref => ("- [" ++ displayUrl ref ++ "](" ++ ref ++ ")")%string) refs
           else []
       | None => []
       end))%list.

Definition buildFindingComment (finding : Finding) (headCommit : string) : string :=
  JS.joinLines
    (findingLines finding
     ++ [EmptyString;
         "---";
         markerLine (hash finding);
         ("*Claude PR Reviewer • " ++ JS.substring0 7 headCommit ++ "*")%string])%list.

Definition countRow (label : string) (n : nat) : list string :=
  if (0 <? n)%nat
  then ["| " ++ label ++ " | " ++ JS.numberToString (Z.of_nat n) ++ " |"]
  else [].

Definition buildReviewSummary (result : ReviewResult) (headCommit : string) : string :=
  let action := determineReviewAction (findings result) in
  let counts := countBySeverity (findings result) in
  JS.joinLines
    ([match action with
      | request_changes => "🔴 **Changes Requested by Claude PR Reviewer**"
      | comment => "🟠 **Review Comments from Claude PR Reviewer**"
      | approve => "✅ **Approved by Claude PR Reviewer**"
      end;
      EmptyString;
      "| Severity | Count |";
      "|----------|-------|"]
     ++ countRow "🔴 Critical" (n_critical counts)
     ++ countRow "🟠 High" (n_high counts)
     ++ countRow "🟡 Medium" (n_medium counts)
     ++ countRow "🔵 Low" (n_low counts)
     ++ (if (List.length (findings result) =? 0)%nat then ["| ✅ None | 0 |"] else [])
     ++ [EmptyString;
         match action with
         | request_changes => "Please address the critical issues before merging."
         | comment =>
             "High severity issues found. Please review and consider addressing them before merging."
         | approve =>
             if ((0 <? n_medium counts) || (0 <? n_low counts))%nat
             then "No critical or high severity issues found. Please review the medium/low suggestions at your discretion."
             else "No issues found. The code looks good!"
         end;
         EmptyString;
         ("*Reviewed at commit: " ++ JS.substring0 7 headCommit ++ "*")%string])%list.

Definition buildSkipComment (reason headCommit : string) : string :=
  "⏭️ **Claude PR Reviewer skipped this PR**" ++ JS.lf ++ JS.lf
    ++ reason ++ JS.lf ++ JS.lf
    ++ "*Commit: " ++ JS.substring0 7 headCommit ++ "*".

Definition buildStillPresentReply (headCommit : string) : string :=
  "⚠️ This issue is still present after the latest changes." ++ JS.lf ++ JS.lf
    ++ "*Claude PR Reviewer • " ++ JS.substring0 7 headCommit ++ "*".

(** [[...findings].sort((a, b) => order[a.severity] - order[b.severity])]:
    the sort of the platform is stable, so this is the insertion of every
    finding behind those that do not come after it. *)
Fixpoint insertBySeverity (f : Finding) (sorted : list Finding) : list Finding :=
  match sorted with
  | [] => [f]
  | g :: rest =>
      if SEVERITY_ORDER (severity g) <=? SEVERITY_ORDER (severity f)
      then g :: insertBySeverity f rest
      else f :: sorted
  end.

Definition sortFindingsBySeverity (findings : list Finding) : list Finding :=
  fold_left (fun sorted f => insertBySeverity f sorted) findings [].

End CommentBuilder.

(* ================================================================= *)
(** ** The remote platform: calls, oracle and the monad of a session *)

Module Remote.
Import Review.

Definition LABEL_PENDING : string := "ai-review-pending".
Definition LABEL_REVIEWED : string := "ai-reviewed".

(** The calls a session issues, in the vocabulary of the sources: the
    octokit endpoints, the git and file-system commands of the workspace
    and the two invocations of the engine executable. *)
Inductive Call :=
| PullsGet
| IssuesGet
| RemoveLabel (name : string)
| AddLabels (name : string)
| ClaudeVersion
| ListFiles
| Mkdir (dir : string)
| Rm (dir : string)
| AuthInstallation
| GitClone (dir : string)
| GitFetch (dir : string)
| GitCheckout (dir : string)
| ClaudeReview (dir : string)
| ListReviewComments
| GetReviewComment (commentId : Z)
| ResolveReviewThread (threadId : string)
| CreateReviewComment (path : string) (line : Z) (start_line : option Z) (body : string)
| ListReviews
| DismissReview (reviewId : Z)
| CreateReview (event : string) (body : string)
| CreateIssueComment (body : string).

(** What the remote side returns. *)
Record PullData := mkPullData {
  base_ref : string;
  head_ref : string;
  head_sha : string;
  changed_files : Z
}.

Record RawComment := mkRawComment {
  raw_id : Z;
  raw_body : option string;
  raw_path : string;
  raw_line : option Z;
  raw_original_line : option Z
}.

Record ThreadComment := mkThreadComment {
  in_reply_to_id : option Z;
  node_id : string
}.

Record RemoteReview := mkRemoteReview {
  review_id : Z;
  review_state : string;
  review_body : option string
}.

(** The oracle fixes, for the call issued as the [n]-th of the session,
    whether it throws (and the message of the error) and what it returns. *)
Record Oracle := mkOracle {
  fails : nat -> option string;
  pullData : nat -> PullData;
  fileNames : nat -> list string;
  cliAvailable : nat -> bool;
  cliRun : nat -> CliRunner.CliRunnerResult;
  uuid : nat -> string;
  reviewComments : nat -> list RawComment;
  threadComment : nat -> ThreadComment;
  reviews : nat -> list RemoteReview
}.

(** The state a session acts on: the labels of the pull request and the
    log of the calls issued so far. *)
Record World := mkWorld {
  labels : list string;
  log : list Call
}.

Inductive Res (A : Type) :=
| Ok (a : A)
| Throw (message : string).
Arguments Ok {A} a.
Arguments Throw {A} message.

Definition M (A : Type) : Type := Oracle -> World -> Res A * World.

Definition ret {A} (a : A) : M A := fun _ w => (Ok a, w).

Definition bind {A B} (m : M A) (f : A -> M B) : M B :=
  fun o w =>
    match m o w with
    | (Ok a, w') => f a o w'
    | (Throw e, w') => (Throw e, w')
    end.

Definition throw {A} (message : string) : M A := fun _ w => (Throw message, w).

(** [try { m } catch (err) { handler(err.message) }]. *)
Definition tryCatch {A} (m : M A) (handler : string -> M A) : M A :=
  fun o w =>
    match m o w with
    | (Ok a, w') => (Ok a, w')
    | (Throw e, w') => handler e o w'
    end.

(** [try { m } finally { cleanup }]: an error of the cleanup replaces the
    outcome of the body. *)
Definition tryFinally {A} (m : M A) (cleanup : M unit) : M A :=
  fun o w =>
    match m o w with
    | (r, w') =>
        match cleanup o w' with
        | (Ok _, w'') => (r, w'')
        | (Throw e, w'') => (Throw e, w'')
        end
    end.

Definition ask : M Oracle := fun o w => (Ok o, w).
Definition currentLabels : M (list string) := fun _ w => (Ok (labels w), w).

Definition removeString (name : string) (l : list string) : list string :=
  filter (fun x => negb (String.eqb x name)) l.

(** The effect of a call that succeeded on the labels of the pull request. *)
Definition applyEffect (c : Call) (ls : list string) : list string :=
  match c with
  | RemoveLabel name => removeString name ls
  | AddLabels name => if existsb (String.eqb name) ls then ls else (ls ++ [name])%list
  | _ => ls
  end.

(** A call that may throw: it is logged, and either throws the error the
    oracle fixes or takes effect and yields its index in the log. *)
Definition perform (c : Call) : M nat :=
  fun o w =>
    let n := List.length (log w) in
    match fails o n with
    | Some e => (Throw e, mkWorld (labels w) (log w ++ [c]))
    | None => (Ok n, mkWorld (applyEffect c (labels w)) (log w ++ [c]))
    end.

(** A call whose promise never rejects. *)
Definition query (c : Call) : M nat :=
  fun _ w => (Ok (List.length (log w)), mkWorld (labels w) (log w ++ [c])).

Fixpoint forEach {A} (l : list A) (body : A -> M unit) : M unit :=
  match l with
  | [] => ret tt
  | a :: l' => bind (body a) (fun _ => forEach l' body)
  end.

Module Notations.
Notation "x <- m ;; k" := (bind m (fun x => k))
  (at level 61, m at next level, right associativity).
Notation "m ;;; k" := (bind m (fun _ => k))
  (at level 61, right associativity).
End Notations.

End Remote.

(* ================================================================= *)
(** ** reviewer/github-client.ts *)

Module GitHubClient.
Import Review Remote Remote.Notations.
Import Reconciler.

Record PullRequestInfo := mkPR {
  owner : string;
  repo : string;
  number : Z;
  baseBranch : string;
  headBranch : string;
  headSha : string
}.

(** [/<!-- ai-review: ({.*?}) -->/]. *)
Definition AI_REVIEW_METADATA_PATTERN : list JS.atom :=
  (JS.lits "<!-- ai-review: "
     ++ [JS.GroupOpen; JS.Lit "{"%char; JS.Many false JS.dotChar; JS.Lit "}"%char;
         JS.GroupClose]
     ++ JS.lits " -->")%list.

Definition getPullRequestInfo (owner repo : string) (prNumber : Z) : M PullRequestInfo :=
  n <- perform PullsGet ;;
  o <- ask ;;
  let pr := pullData o n in
  ret (mkPR owner repo prNumber (base_ref pr) (head_ref pr) (head_sha pr)).

(** [metadata.hash ?? null] after [JSON.parse(metadataMatch[1]) as { hash?: string }];
    [None] stands for the exception that skips the comment.  A hash member
    of another JSON type than string or null is outside the declared type
    of the cast; the embedding leaves such a comment out, where the code
    keeps it with that value as its hash. *)
Definition metadataHash (captured : string) : option (option string) :=
  match JS.JSON_parse captured with
  | Some (JS.JObject ms) =>
      match JS.member "hash" ms with
      | Some (JS.JString h) => Some (Some h)
      | Some JS.JNull | None => Some None
      | Some _ => None
      end
  | Some JS.JNull => None
  | Some _ => Some None
  | None => None
  end.

(** The body of the loop of [getExistingBotComments] for one comment. *)
Definition botCommentOf (c : RawComment) : list Comment.ExistingComment :=
  match raw_body c with
  | None => []
  | Some body =>
      match JS.search AI_REVIEW_METADATA_PATTERN body with
      | None => []
      | Some (_, metadataMatch) =>
          match metadataHash (JS.group1 metadataMatch) with
          | Some h =>
              [Comment.mkExisting (raw_id c) body (raw_path c)
                 (match raw_line c with
                  | Some l => l
                  | None => match raw_original_line c with Some l => l | None => 0 end
                  end)
                 h]
          | None => []
          end
      end
  end.

Definition botCommentsOf (comments : list RawComment) : list Comment.ExistingComment :=
  flat_map botCommentOf comments.

Definition getExistingBotComments (pr : PullRequestInfo) : M (list Comment.ExistingComment) :=
  n <- perform ListReviewComments ;;
  o <- ask ;;
  ret (botCommentsOf (reviewComments o n)).

Definition createReviewComment (pr : PullRequestInfo) (finding : Finding)
           (commentBody : string) : M unit :=
  perform (CreateReviewComment
             (file finding)
             (match endLine finding with Some e => e | None => line finding end)
             (if JS.truthyNumber (endLine finding) then Some (line finding) else None)
             commentBody) ;;;
  ret tt.

Definition resolveComment (pr : PullRequestInfo) (commentId : Z) : M unit :=
  n <- perform (GetReviewComment commentId) ;;
  o <- ask ;;
  let comment := threadComment o n in
  if JS.truthyNumber (in_reply_to_id comment) then ret tt
  else tryCatch (perform (ResolveReviewThread (node_id comment)) ;;; ret tt)
                (fun _ => ret tt).

Definition submitReview (pr : PullRequestInfo) (action : ReviewAction)
           (body : string) : M unit :=
  match action with
  | approve => perform (CreateIssueComment body) ;;; ret tt
  | request_changes => perform (CreateReview "REQUEST_CHANGES" body) ;;; ret tt
  | comment => perform (CreateReview "COMMENT" body) ;;; ret tt
  end.

Definition isBotRequestChanges (r : RemoteReview) : bool :=
  String.eqb (review_state r) "CHANGES_REQUESTED"
  && match review_body r with
     | Some b => JS.includes "Claude PR Reviewer" b
     | None => false
     end.

Definition dismissStaleReview (pr : PullRequestInfo) : M unit :=
  n <- perform ListReviews ;;
  o <- ask ;;
  match find isBotRequestChanges (reviews o n) with
  | Some r => perform (DismissReview (review_id r)) ;;; ret tt
  | None => ret tt
  end.

Definition setLabels (pr : PullRequestInfo) (pending : bool) : M unit :=
  perform IssuesGet ;;;
  current <- currentLabels ;;
  let labelsToRemove := if pending then [LABEL_REVIEWED] else [LABEL_PENDING] in
  let labelToAdd := if pending then LABEL_PENDING else LABEL_REVIEWED in
  forEach labelsToRemove
          (fun label =>
             if existsb (String.eqb label) current
             then perform (RemoveLabel label) ;;; ret tt
             else ret tt) ;;;
  if negb (existsb (String.eqb labelToAdd) current)
  then perform (AddLabels labelToAdd) ;;; ret tt
  else ret tt.

Definition errorCommentBody (pr : PullRequestInfo) (error : string) : string :=
  "⚠️ **Claude PR Reviewer encountered an error**" ++ JS.lf ++ JS.lf
    ++ error ++ JS.lf ++ JS.lf
    ++ "Please re-request review to try again." ++ JS.lf ++ JS.lf
    ++ "*Commit: " ++ JS.substring0 7 (headSha pr) ++ "*".

Definition postErrorComment (pr : PullRequestInfo) (error : string) : M unit :=
  perform (CreateIssueComment (errorCommentBody pr error)) ;;; ret tt.

Definition cloneRepository (pr : PullRequestInfo) (targetPath : string) : M string :=
  perform AuthInstallation ;;;
  perform (GitClone targetPath) ;;;
  perform (GitFetch targetPath) ;;;
  perform (GitCheckout targetPath) ;;;
  ret targetPath.

Definition getChangedFilesCount (pr : PullRequestInfo) : M Z :=
  n <- perform PullsGet ;;
  o <- ask ;;
  ret (changed_files (pullData o n)).

Definition codeExtensions : list string :=
  [".ts"; ".tsx"; ".js"; ".jsx"; ".py"; ".go"; ".rs"; ".java"; ".c"; ".cpp";
   ".h"; ".cs"; ".rb"; ".php"; ".swift"; ".kt"; ".scala"; ".vue"; ".svelte"].

(** [filename.substring(filename.lastIndexOf('.'))]: the text from the last
    point on, the whole name when it has none. *)
Fixpoint fromLastDot (s : string) : option string :=
  match s with
  | EmptyString => None
  | String c s' =>
      match fromLastDot s' with
      | Some e => Some e
      | None => if Ascii.eqb c "."%char then Some s else None
      end
  end.

Definition extensionOf (filename : string) : string :=
  match fromLastDot filename with
  | Some e => e
  | None => filename
  end.

Definition isNonCodePR (pr : PullRequestInfo) : M bool :=
  n <- perform ListFiles ;;
  o <- ask ;;
  ret (negb (existsb (fun f => existsb (String.eqb (extensionOf f)) codeExtensions)
                     (fileNames o n))).

End GitHubClient.

(* ================================================================= *)
(** ** reviewer/index.ts *)

Module Session.
Import Review Remote Remote.Notations.
Import Reconciler CommentBuilder GitHubClient.

(** [maxFilesThreshold] is what [parseInt] made of the variable of the
    environment, or is missing. *)
Record ReviewerConfig := mkConfig {
  maxFilesThreshold : option JS.number;
  retryOnError : bool
}.

Record ReviewRequest := mkRequest {
  req_owner : string;
  req_repo : string;
  req_prNumber : Z
}.

Inductive OutcomeAction := reviewed | skipped_pr | error_outcome.

Record ReviewOutcome := mkOutcome {
  out_success : bool;
  out_action : option OutcomeAction;
  out_message : string;
  findingsCount : option Z
}.

Definition MAX_FILES_DEFAULT : Z := 100.

Definition checkClaudeCliAvailable : M bool :=
  n <- query ClaudeVersion ;;
  o <- ask ;;
  ret (cliAvailable o n).

(** [runClaudeReview] as the session sees it: the engine is started in the
    workspace and the promise resolves to the result of the adapter. *)
Definition runClaudeReview (repoPath : string) : M CliRunner.CliRunnerResult :=
  n <- query (ClaudeReview repoPath) ;;
  o <- ask ;;
  ret (cliRun o n).

Definition tooManyFilesReason (changedFiles : Z) (maxFiles : JS.number) : string :=
  "This PR changes " ++ JS.numberToString changedFiles
    ++ " files, which exceeds the threshold of " ++ JS.showNumber maxFiles
    ++ " files. Please request a manual review.".

Definition nonCodeReason : string :=
  "This PR contains only non-code changes (documentation, configuration, etc.). Skipping detailed code review.".

(** [join(tmpdir(), `pr-review-${randomUUID()}`)]. *)
Definition newWorkDir : M string :=
  fun o w => (Ok ("/tmp/pr-review-" ++ uuid o (List.length (log w))), w).

(** The body of the [try] block of [performReview], from the clone to the
    submission of the summary. *)
Definition reviewInWorkDir (pr : PullRequestInfo) (workDir : string) : M ReviewOutcome :=
  cloneRepository pr workDir ;;;
  cliResult <- runClaudeReview workDir ;;
  match (if CliRunner.success cliResult then CliRunner.result cliResult else None) with
  | None =>
      throw (match CliRunner.cliError cliResult with
             | Some e => e
             | None => "Review failed with no output"
             end)
  | Some result =>
      match status result with
      | Review.skipped =>
          submitReview pr comment (buildSkipComment (summary result) (headSha pr)) ;;;
          ret (mkOutcome true (Some skipped_pr) (summary result) None)
      | _ =>
          existingComments <- getExistingBotComments pr ;;
          let reconciliation := reconcileFindings (findings result) existingComments in
          forEach (fixedCommentIds reconciliation)
                  (fun commentId => resolveComment pr commentId) ;;;
          let sortedFindings := sortFindingsBySeverity (newFindings reconciliation) in
          forEach sortedFindings
                  (fun finding =>
                     let commentBody := buildFindingComment finding (headSha pr) in
                     createReviewComment pr finding commentBody) ;;;
          let action := determineReviewAction (findings result) in
          let summaryBody := buildReviewSummary result (headSha pr) in
          (if shouldDismissPreviousReview (findings result)
           then dismissStaleReview pr
           else ret tt) ;;;
          submitReview pr action summaryBody ;;;
          ret (mkOutcome true (Some reviewed)
                         ("Review complete: " ++ actionName action)
                         (Some (Z.of_nat (List.length (findings result)))))
      end
  end.

Definition performReview (config : ReviewerConfig) (pr : PullRequestInfo)
  : M ReviewOutcome :=
  cliOk <- checkClaudeCliAvailable ;;
  if negb cliOk then throw "Claude CLI is not available"
  else
    changedFiles <- getChangedFilesCount pr ;;
    let maxFiles :=
      match maxFilesThreshold config with
      | Some m => m
      | None => JS.Int MAX_FILES_DEFAULT
      end in
    if JS.greaterThan changedFiles maxFiles then
      let reason := tooManyFilesReason changedFiles maxFiles in
      submitReview pr comment (buildSkipComment reason (headSha pr)) ;;;
      ret (mkOutcome true (Some skipped_pr) reason None)
    else
      nonCode <- isNonCodePR pr ;;
      if nonCode then
        submitReview pr comment (buildSkipComment nonCodeReason (headSha pr)) ;;;
        ret (mkOutcome true (Some skipped_pr) nonCodeReason None)
      else
        workDir <- newWorkDir ;;
        perform (Mkdir workDir) ;;;
        tryFinally (reviewInWorkDir pr workDir)
                   (perform (Rm workDir) ;;; ret tt).

Definition errorOutcome (message : string) : ReviewOutcome :=
  mkOutcome false (Some error_outcome) message None.

(** [runReview], from the fetch of the pull request on.  The statement
    before it, the construction of the client, issues no call: a session
    in which the constructor of the client library throws ends there,
    before its first call, and is no run of this definition. *)
Definition runReview (config : ReviewerConfig) (request : ReviewRequest)
  : M ReviewOutcome :=
  fetched <- tryCatch
               (pr <- getPullRequestInfo (req_owner request) (req_repo request)
                                         (req_prNumber request) ;;
                ret (inr pr))
               (fun message =>
                  ret (inl (errorOutcome ("Failed to get PR info: " ++ message)))) ;;
  match fetched with
  | inl outcome => ret outcome
  | inr pr =>
      setLabels pr true ;;;
      tryCatch
        (outcome <- performReview config pr ;;
         setLabels pr false ;;;
         ret outcome)
        (fun message =>
           if retryOnError config then
             tryCatch
               (outcome <- performReview config pr ;;
                setLabels pr false ;;;
                ret outcome)
               (fun retryMessage =>
                  postErrorComment pr retryMessage ;;;
                  setLabels pr false ;;;
                  ret (errorOutcome retryMessage))
           else
             postErrorComment pr message ;;;
             setLabels pr false ;;;
             ret (errorOutcome message))
  end.

(** A run from a world whose log is empty. *)
Definition run {A} (m : M A) (o : Oracle) (initialLabels : list string) : Res A * World :=
  m o (mkWorld initialLabels []).

End Session.

(* ================================================================= *)
(** ** The webhook dispatcher of pull-request events *)

Module Dispatcher.
Import Remote.

Record PullRequestRef := mkPullRequestRef {
  pr_number : Z;
  pr_state : string;
  pr_draft : bool
}.

Record Repository := mkRepository {
  full_name : string;
  owner_login : string;
  repo_name : string
}.

Record Reviewer := mkReviewer {
  login : string;
  reviewer_type : string
}.

Record PullRequestPayload := mkPayload {
  action : string;
  number : Z;
  pull_request : PullRequestRef;
  repository : Repository;
  installation : option Z;
  requested_reviewer : option Reviewer
}.

Record DispatcherConfig := mkDispatcherConfig {
  webhookSecret : string;
  ecsCluster : string;
  ecsTaskDefinition : string;
  ecsSubnets : list string;
  ecsSecurityGroups : list string;
  containerName : string
}.

Record WebhookEvent := mkEvent {
  x_hub_signature_256 : option string;
  x_github_event : option string;
  event_body : string
}.

Record DispatcherResponse := mkResponse {
  statusCode : Z;
  response_body : string
}.

Record ReviewTaskParams := mkParams {
  task_owner : string;
  task_repo : string;
  task_prNumber : Z;
  task_installationId : Z
}.

Definition shouldTriggerReview (payload : PullRequestPayload) : bool :=
  let validActions := ["review_requested"; "ready_for_review"] in
  if negb (existsb (String.eqb (action payload)) validActions) then false
  else if negb (String.eqb (pr_state (pull_request payload)) "open") then false
  else if pr_draft (pull_request payload) then false
  else if String.eqb (action payload) "review_requested"
          && match requested_reviewer payload with
             | Some reviewer => String.eqb (reviewer_type reviewer) "Bot"
             | None => false
             end
       then true
  else if String.eqb (action payload) "ready_for_review" then true
  else false.

(** [Buffer.from(s)]: the UTF-8 bytes of a string of code units below 256. *)
Definition utf8Char (c : ascii) : list N :=
  let n := N_of_ascii c in
  if (n <? 128)%N then [n]
  else [N.lor 192 (N.shiftr n 6); N.lor 128 (N.land n 63)].

Definition bufferFrom (s : string) : list N :=
  flat_map utf8Char (list_ascii_of_string s).

Fixpoint bytesEqual (a b : list N) : bool :=
  match a, b with
  | [], [] => true
  | x :: a', y :: b' => (x =? y)%N && bytesEqual a' b'
  | _, _ => false
  end.

(** [crypto.timingSafeEqual]: a [RangeError] when the byte lengths differ. *)
Definition timingSafeEqual (a b : list N) : Res bool :=
  if (List.length a =? List.length b)%nat then Ok (bytesEqual a b)
  else Throw "Input buffers must have the same byte length".

Section Handler.

(** [createHmac('sha256', secret).update(payload).digest('hex')]. *)
Variable hmacSha256Hex : string -> string -> string.

(** [JSON.parse(event.body) as PullRequestPayload]: the payload, or the
    message of the error thrown on a body that is no JSON text of that
    shape. *)
Variable parsePayload : string -> string + PullRequestPayload.

(** [ecsClient.send(new RunTaskCommand(input))]: the message of the error
    when the launch fails. *)
Variable runTask : DispatcherConfig -> ReviewTaskParams -> option string.

(** [verifySignature] with the exception of the comparison made explicit:
    the result of the [try] block and of its [catch]. *)
Definition verifySignatureRes (payload signature secret : string) : Res bool :=
  let expected := "sha256=" ++ hmacSha256Hex secret payload in
  match timingSafeEqual (bufferFrom signature) (bufferFrom expected) with
  | Ok b => Ok b
  | Throw _ => Ok false
  end.

Definition verifySignature (payload signature secret : string) : bool :=
  match verifySignatureRes payload signature secret with
  | Ok b => b
  | Throw _ => false
  end.

(** [handler]: the response and the review tasks launched.  [config] is
    the outcome of [getConfig]. *)
Definition handler (config : string + DispatcherConfig) (event : WebhookEvent)
  : DispatcherResponse * list ReviewTaskParams :=
  match config with
  | inl message => (mkResponse 500 message, [])
  | inr config =>
      if negb (JS.truthyString (x_hub_signature_256 event))
         || negb (verifySignature (event_body event)
                    (match x_hub_signature_256 event with
                     | Some s => s
                     | None => EmptyString
                     end)
                    (webhookSecret config))
      then (mkResponse 401 "Invalid signature", [])
      else if negb (match x_github_event event with
                    | Some e => String.eqb e "pull_request"
                    | None => false
                    end)
      then (mkResponse 200 "Ignoring non-PR event", [])
      else
        match parsePayload (event_body event) with
        | inl message => (mkResponse 500 message, [])
        | inr payload =>
            if negb (shouldTriggerReview payload)
            then (mkResponse 200 "No review needed for this action", [])
            else if negb (JS.truthyNumber (installation payload))
            then (mkResponse 400 "Missing installation ID", [])
            else
              let params :=
                mkParams (owner_login (repository payload))
                         (repo_name (repository payload))
                         (number payload)
                         (match installation payload with Some i => i | None => 0 end) in
              match runTask config params with
              | Some message => (mkResponse 500 message, [])
              | None => (mkResponse 202 "Review task spawned", [params])
              end
        end
  end.

End Handler.

End Dispatcher.

(* ================================================================= *)
(** ** Further built-ins: trimming and the reading of integers *)

Module Text.

(** The white space and the line terminators that [trim] and [parseInt]
    skip, among the code units below 256: tab, line feed, vertical tab,
    form feed, carriage return, space and no-break space. *)
Definition isTrimChar (c : ascii) : bool :=
  let n := nat_of_ascii c in
  (((9 <=? n) && (n <=? 13)) || (n =? 32) || (n =? 160))%nat.

Fixpoint trimStart (s : string) : string :=
  match s with
  | String c s' => if isTrimChar c then trimStart s' else s
  | EmptyString => s
  end.

Fixpoint trimEnd (s : string) : string :=
  match s with
  | EmptyString => EmptyString
  | String c s' =>
      match trimEnd s' with
      | EmptyString => if isTrimChar c then EmptyString else String c EmptyString
      | t => String c t
      end
  end.

(** [s.trim()]. *)
Definition trim (s : string) : string := trimEnd (trimStart s).

(** The number that a string of decimal digits denotes. *)
Fixpoint decimalValue (acc : Z) (digits : string) : Z :=
  match digits with
  | EmptyString => acc
  | String c digits' =>
      decimalValue (acc * 10 + (Z.of_nat (nat_of_ascii c) - 48)) digits'
  end.

(** [parseInt(s, 10)]: leading white space is skipped, a sign is read,
    then the longest run of decimal digits; [None] stands for [NaN], the
    result when there is no digit.  The value is exact, as the platform
    gives it below 2^53. *)
Definition parseInt10 (s : string) : option Z :=
  let t := trimStart s in
  let (negative, u) :=
    match t with
    | String "-"%char r => (true, r)
    | String "+"%char r => (false, r)
    | _ => (false, t)
    end in
  match JS.spanDigits u with
  | (EmptyString, _) => None
  | (digits, _) =>
      Some (if negative then - decimalValue 0 digits else decimalValue 0 digits)
  end.

End Text.

(* ================================================================= *)
(** ** The webhook dispatcher of comment events *)

Module CommentDispatcher.
Import Remote.

Record Issue := mkIssue {
  issue_number : Z;
  issue_pull_request : option string
}.

Record IssueCommentPayload := mkCommentPayload {
  action : string;
  comment_body : string;
  issue : Issue;
  repository : Dispatcher.Repository;
  installation : option Z
}.

Definition shouldTriggerReview (payload : IssueCommentPayload) : bool :=
  if negb (String.eqb (action payload) "created") then false
  else if negb (match issue_pull_request (issue payload) with
                | Some _ => true
                | None => false
                end)
  then false
  else
    let comment := Text.trim (comment_body payload) in
    String.eqb comment "/claude-review" || JS.startsWith "/claude-review " comment.

Section Handler.

(** The parameters of the platform, as for the dispatcher of pull-request
    events: the HMAC, the reading of the body as a payload and the launch
    of the task. *)
Variable hmacSha256Hex : string -> string -> string.
Variable parsePayload : string -> string + IssueCommentPayload.
Variable runTask : Dispatcher.DispatcherConfig -> Dispatcher.ReviewTaskParams -> option string.

(** [handler]: the response and the review tasks launched.  [config] is
    the outcome of [getConfig]; [verifySignature] is the function of the
    other dispatcher, which the file repeats. *)
Definition handler (config : string + Dispatcher.DispatcherConfig)
           (event : Dispatcher.WebhookEvent)
  : Dispatcher.DispatcherResponse * list Dispatcher.ReviewTaskParams :=
  match config with
  | inl message => (Dispatcher.mkResponse 500 message, [])
  | inr config =>
      if negb (JS.truthyString (Dispatcher.x_hub_signature_256 event))
         || negb (Dispatcher.verifySignature hmacSha256Hex
                    (Dispatcher.event_body event)
                    (match Dispatcher.x_hub_signature_256 event with
                     | Some s => s
                     | None => EmptyString
                     end)
                    (Dispatcher.webhookSecret config))
      then (Dispatcher.mkResponse 401 "Invalid signature", [])
      else if negb (match Dispatcher.x_github_event event with
                    | Some e => String.eqb e "issue_comment"
                    | None => false
                    end)
      then (Dispatcher.mkResponse 200 "Ignoring non-comment event", [])
      else
        match parsePayload (Dispatcher.event_body event) with
        | inl message => (Dispatcher.mkResponse 500 message, [])
        | inr payload =>
            if negb (shouldTriggerReview payload)
            then (Dispatcher.mkResponse 200 "No review needed for this comment", [])
            else if negb (JS.truthyNumber (installation payload))
            then (Dispatcher.mkResponse 400 "Missing installation ID", [])
            else
              let params :=
                Dispatcher.mkParams
                  (Dispatcher.owner_login (repository payload))
                  (Dispatcher.repo_name (repository payload))
                  (issue_number (issue payload))
                  (match installation payload with Some i => i | None => 0 end) in
              match runTask config params with
              | Some message => (Dispatcher.mkResponse 500 message, [])
              | None => (Dispatcher.mkResponse 202 "Review task spawned", [params])
              end
        end
  end.

End Handler.

End CommentDispatcher.

(* ================================================================= *)
(** ** The launch of the review task and the entry point of the task *)

Module TaskLaunch.

Record ContainerOverride := mkOverride {
  override_name : string;
  environment : list (string * string)
}.

Record RunTaskInput := mkRunTaskInput {
  cluster : string;
  taskDefinition : string;
  launchType : string;
  subnets : list string;
  securityGroups : list string;
  assignPublicIp : string;
  containerOverrides : list ContainerOverride
}.

(** The input of the [RunTaskCommand] that [spawnReviewTask] sends. *)
Definition taskInput (config : Dispatcher.DispatcherConfig)
           (params : Dispatcher.ReviewTaskParams) : RunTaskInput :=
  mkRunTaskInput
    (Dispatcher.ecsCluster config)
    (Dispatcher.ecsTaskDefinition config)
    "FARGATE"
    (Dispatcher.ecsSubnets config)
    (Dispatcher.ecsSecurityGroups config)
    "ENABLED"
    [mkOverride
       (Dispatcher.containerName config)
       [("PR_OWNER", Dispatcher.task_owner params);
        ("PR_REPO", Dispatcher.task_repo params);
        ("PR_NUMBER", JS.numberToString (Dispatcher.task_prNumber params));
        ("GITHUB_INSTALLATION_ID",
         JS.numberToString (Dispatcher.task_installationId params))]].

(** [spawnReviewTask], for the function [send] of the client: the message
    of the error when the launch fails. *)
Definition spawnReviewTask (send : RunTaskInput -> option string)
           (config : Dispatcher.DispatcherConfig)
           (params : Dispatcher.ReviewTaskParams) : option string :=
  send (taskInput config params).

End TaskLaunch.

Module Entrypoint.

(** [process.env[name]] on the variables of the environment. *)
Fixpoint getenv (name : string) (env : list (string * string)) : option string :=
  match env with
  | [] => None
  | (k, v) :: env' => if String.eqb k name then Some v else getenv name env'
  end.

(** What [main] passes to [runReview]; a number that [parseInt] could not
    read is [None]. *)
Record Settings := mkSettings {
  set_owner : string;
  set_repo : string;
  set_prNumber : option Z;
  set_installationId : option Z;
  set_maxFilesThreshold : option Z;
  set_retryOnError : bool
}.

(** The first part of [main]: [None] when one of the four required
    variables is missing or empty and the process exits with status 1. *)
Definition settings (env : list (string * string)) : option Settings :=
  let owner := getenv "PR_OWNER" env in
  let repo := getenv "PR_REPO" env in
  let prNumber := getenv "PR_NUMBER" env in
  let installationId := getenv "GITHUB_INSTALLATION_ID" env in
  if negb (JS.truthyString owner) || negb (JS.truthyString repo)
     || negb (JS.truthyString prNumber) || negb (JS.truthyString installationId)
  then None
  else
    match owner, repo, prNumber, installationId with
    | Some owner, Some repo, Some prNumber, Some installationId =>
        Some (mkSettings
                owner repo
                (Text.parseInt10 prNumber)
                (Text.parseInt10 installationId)
                (Text.parseInt10 (match getenv "MAX_FILES_THRESHOLD" env with
                                  | Some v => v
                                  | None => "100"
                                  end))
                (negb (match getenv "RETRY_ON_ERROR" env with
                       | Some v => String.eqb v "false"
                       | None => false
                       end)))
    | _, _, _, _ => None
    end.

(** The exit status of the process: 1 when a variable is missing, when
    the secret of the application cannot be read ([secrets] is then
    [None]), when [runReview] rejects and when its outcome is no success;
    0 otherwise.  [review] stands for the run of the session on the
    settings. *)
Definition main (env : list (string * string)) (secrets : option (string * string))
           (review : Settings -> Remote.Res Session.ReviewOutcome) : Z :=
  match settings env with
  | None => 1
  | Some st =>
      match secrets with
      | None => 1
      | Some _ =>
          match review st with
          | Remote.Ok outcome => if Session.out_success outcome then 0 else 1
          | Remote.Throw _ => 1
          end
      end
  end.

End Entrypoint.

(* ================================================================= *)
(** ** Vocabulary of the properties *)

Module Props.
Import Review Reconciler.

(** The two tests of the loop, as predicates on a comment. *)
Definition persistsIn (newHashes : list string) (c : Comment.ExistingComment) : bool :=
  match Comment.hash c with
  | Some h => has newHashes h
  | None => false
  end.

Definition fixedIn (newHashes : list string) (c : Comment.ExistingComment) : bool :=
  match Comment.hash c with
  | Some h => negb (has newHashes h)
  | None => false
  end.

(** Two lists of ids share no member. *)
Definition disjointIds (a b : list Z) : Prop :=
  forall i, In i a -> In i b -> False.

(** Sample data: a finding and a comment that carry a given hash. *)
Definition sampleFinding (s : Severity) (h : string) : Finding :=
  mkFinding s logic conf_high "src/app.ts" 10 None "Unchecked result" "The result is not checked."
            None "It can fail at run time." None h.

Definition sampleComment (i : Z) (h : option string) : Comment.ExistingComment :=
  Comment.mkExisting i "body" "src/app.ts" 10 h.


(** The value a string of digits denotes in a radix. *)
Definition digitValue (c : ascii) : N :=
  let n := N_of_ascii c in
  if (n <? 58)%N then (n - 48)%N else (n - 87)%N.

Fixpoint valueFrom (radix : N) (acc : N) (s : string) : N :=
  match s with
  | EmptyString => acc
  | String c s' => valueFrom radix (acc * radix + digitValue c)%N s'
  end.

(** The trigger rule of the specification for a pull-request event, for a
    bot that is known by the login [botLogin]. *)
Definition claimedTrigger (botLogin : string) (p : Dispatcher.PullRequestPayload) : Prop :=
  ((Dispatcher.action p = "review_requested"
    /\ exists r, Dispatcher.requested_reviewer p = Some r
                 /\ Dispatcher.login r = botLogin)
   \/ Dispatcher.action p = "ready_for_review")
  /\ Dispatcher.pr_state (Dispatcher.pull_request p) = "open"
  /\ Dispatcher.pr_draft (Dispatcher.pull_request p) = false.

(** A request for the review of another bot. *)
Definition otherBotRequest (l : string) : Dispatcher.PullRequestPayload :=
  Dispatcher.mkPayload "review_requested" 7
    (Dispatcher.mkPullRequestRef 7 "open" false)
    (Dispatcher.mkRepository "acme/app" "acme" "app")
    (Some 42)
    (Some (Dispatcher.mkReviewer l "Bot")).

(** The texts a pattern matches as a whole, without regard to priority. *)
Inductive Matches : list JS.atom -> string -> Prop :=
| MatchesNil : Matches [] EmptyString
| MatchesLit c p m : Matches p m -> Matches (JS.Lit c :: p) (String c m)
| MatchesMany g cls p x m :
    JS.forallString cls x = true -> Matches p m ->
    Matches (JS.Many g cls :: p) (x ++ m)
| MatchesOpen p m : Matches p m -> Matches (JS.GroupOpen :: p) m
| MatchesClose p m : Matches p m -> Matches (JS.GroupClose :: p) m.

(** The step of a starred class that takes one more character. *)
Definition moreOf (cls : ascii -> bool) (self : string -> option JS.MatchResult)
           (s : string) : option JS.MatchResult :=
  match s with
  | String d s' => if cls d then option_map (JS.consume d) (self s') else None
  | EmptyString => None
  end.

(** A character other than the closing brace. *)
Definition notBrace (c : ascii) : bool := negb (Ascii.eqb c "}"%char).

(** A character other than the opening brace. *)
Definition notOpenBrace (c : ascii) : bool := negb (Ascii.eqb c "{"%char).

(** The match of a pattern leaves no closing brace behind. *)
Definition reachesLastBrace (p : list JS.atom) : Prop :=
  forall s r, JS.matchAt p s = Some r ->
              exists rest, s = JS.matched r ++ rest
                           /\ JS.forallString notBrace rest = true.

(** [s.slice(n)]. *)
Fixpoint dropString (n : nat) (s : string) : string :=
  match n, s with
  | O, _ => s
  | S n', String _ s' => dropString n' s'
  | S _, EmptyString => EmptyString
  end.

(** A text that looks like the JSON object of a review result: an opening
    brace, later the key [status] in quotes, later the key [findings] in
    quotes, later a closing brace. *)
Definition looksLikeResult (m : string) : Prop :=
  exists a b c,
    m = "{" ++ a ++ (JS.dq ++ "status" ++ JS.dq) ++ b
            ++ (JS.dq ++ "findings" ++ JS.dq) ++ c ++ "}".

(** [m] occurs in [output] at offset [i] and looks like a result. *)
Definition resultAt (output : string) (i : nat) (m : string) : Prop :=
  exists pre post,
    output = pre ++ m ++ post /\ String.length pre = i /\ looksLikeResult m.

(** Two outputs of the engine: an object whose findings member comes
    first, and an object in the order of the pattern. *)
Definition swappedKeysOutput : string :=
  "{" ++ JS.dq ++ "findings" ++ JS.dq ++ ": [], "
      ++ JS.dq ++ "status" ++ JS.dq ++ ": " ++ JS.dq ++ "completed" ++ JS.dq ++ "}".

Definition resultObject : string :=
  "{" ++ JS.dq ++ "status" ++ JS.dq ++ ": " ++ JS.dq ++ "completed" ++ JS.dq ++ ", "
      ++ JS.dq ++ "findings" ++ JS.dq ++ ": []}".

(** A match with a text in front of it. *)
Definition consumeAll (x : string) (r : JS.MatchResult) : JS.MatchResult :=
  JS.mkMatch (x ++ JS.matched r) (String.length x + JS.gopen r)
             (String.length x + JS.gclose r).

(** The hash that [getExistingBotComments] recovers from the body of a
    comment: nothing when the body has no marker or its metadata is
    rejected, otherwise the hash member, which may be absent. *)
Definition recoveredHash (body : string) : option (option string) :=
  match JS.search GitHubClient.AI_REVIEW_METADATA_PATTERN body with
  | Some (_, metadataMatch) => GitHubClient.metadataHash (JS.group1 metadataMatch)
  | None => None
  end.

(** A character that a JSON string holds as it is and that cannot end the
    marker: no control character, double quote, backslash or closing
    brace. *)
Definition hashSafeChar (c : ascii) : bool :=
  let n := nat_of_ascii c in
  ((32 <=? n) && negb (n =? 34) && negb (n =? 92) && negb (n =? 125))%nat.

(** The member list of the metadata object, as the marker writes it. *)
Definition hashMember (h : string) : string :=
  JS.dq ++ "hash" ++ JS.dq ++ ":" ++ JS.dq ++ h ++ JS.dq.

(** The character [d] does not occur in [l]. *)
Definition lacks (d : ascii) (l : string) : bool :=
  JS.forallString (fun c => negb (Ascii.eqb c d)) l.

(** The text that opens a marker. *)
Definition markerOpening : string := "<!-- ai-review: {".

(** The free texts of a finding that precede the marker in its comment
    hold no marker opening. *)
Definition textsFreeOfMarker (f : Review.Finding) : bool :=
  negb (JS.includes markerOpening (Review.description f))
  && match Review.suggestion f with
     | Some sg => negb (JS.includes markerOpening sg)
     | None => true
     end
  && negb (JS.includes markerOpening (Review.severityReason f))
  && match Review.references f with
     | Some refs => forallb (fun ref => negb (JS.includes markerOpening ref)) refs
     | None => true
     end.

(** A finding whose description quotes the marker of another comment. *)
Definition quotingFinding : Review.Finding :=
  Review.mkFinding Review.high Review.logic Review.conf_high "src/app.ts" 10 None
    "Unchecked result"
    ("As noted before: <!-- ai-review: {" ++ JS.dq ++ "hash" ++ JS.dq ++ ":"
       ++ JS.dq ++ "deadbeef" ++ JS.dq ++ "} -->")
    None "It can fail at run time." None "0d0cda1f".

(** A finding whose hash holds a double quote. *)
Definition quotedHashFinding : Review.Finding :=
  Review.mkFinding Review.high Review.logic Review.conf_high "src/app.ts" 10 None
    "Unchecked result" "The result is not checked." None "It can fail at run time."
    None ("1a2b" ++ JS.dq ++ "3c").

(** A finding with texts of several lines, a suggestion and references. *)
Definition plainFinding : Review.Finding :=
  Review.mkFinding Review.critical Review.security Review.conf_medium "src/db.ts" 45
    (Some 48) "SQL injection"
    ("User input reaches the query." ++ JS.lf ++ "if (a < b) { run(q); }")
    (Some "db.query(sql, [id]);")
    "Direct user input in a query."
    (Some ["https://owasp.org/www-community/attacks/SQL_Injection"])
    "234bf76a".

(** *** Sessions *)

(** The pending label is gone and the reviewed label is set. *)
Definition labelsFlipped (ls : list string) : Prop :=
  ~ In Remote.LABEL_PENDING ls /\ In Remote.LABEL_REVIEWED ls.

(** Every run of [m] that returns a value ends with the labels flipped. *)
Definition endsFlipped {A} (m : Remote.M A) : Prop :=
  forall o w a w', m o w = (Remote.Ok a, w') -> labelsFlipped (Remote.labels w').

(** Every value that a run of [m] returns satisfies [Q]. *)
Definition yields {A} (m : Remote.M A) (Q : A -> Prop) : Prop :=
  forall o w a w', m o w = (Remote.Ok a, w') -> Q a.

(** Every run of [m] appends to the log a list of calls that satisfies [P]. *)
Definition emits {A} (m : Remote.M A) (P : list Remote.Call -> Prop) : Prop :=
  forall o w r w', m o w = (r, w') ->
                   exists t, Remote.log w' = (Remote.log w ++ t)%list /\ P t.


(** The phase of a call within one attempt of the work phase: the
    precheck fetches, the workspace and the engine, the listing of the
    existing comments, the resolution of fixed threads, the creation of
    review comments, the dismissal of a stale review, the submission of the
    summary (or of a skip notice), the removal of the workspace.  The label
    calls belong to no attempt. *)
Definition phase (c : Remote.Call) : nat :=
  match c with
  | Remote.IssuesGet | Remote.RemoveLabel _ | Remote.AddLabels _ => 0
  | Remote.ClaudeVersion | Remote.PullsGet | Remote.ListFiles => 1
  | Remote.Mkdir _ => 2
  | Remote.AuthInstallation | Remote.GitClone _ | Remote.GitFetch _
  | Remote.GitCheckout _ => 3
  | Remote.ClaudeReview _ => 4
  | Remote.ListReviewComments => 5
  | Remote.GetReviewComment _ | Remote.ResolveReviewThread _ => 6
  | Remote.CreateReviewComment _ _ _ _ => 7
  | Remote.ListReviews | Remote.DismissReview _ => 8
  | Remote.CreateReview _ _ | Remote.CreateIssueComment _ => 9
  | Remote.Rm _ => 10
  end.

(** The phases of [t] do not decrease and start at [lo] or later. *)
Fixpoint ascending (lo : nat) (t : list Remote.Call) : Prop :=
  match t with
  | [] => True
  | c :: t' => (lo <= phase c)%nat /\ ascending (phase c) t'
  end.

(** The phases of [t] do not decrease and lie between [lo] and [hi]. *)
Definition between (lo hi : nat) (t : list Remote.Call) : Prop :=
  ascending lo t /\ Forall (fun c => (phase c <= hi)%nat) t.


(** The calls of [setLabels(pr, true)] and of [setLabels(pr, false)]. *)
Definition pendingBlock (t : list Remote.Call) : Prop :=
  Forall (fun c => c = Remote.IssuesGet
                   \/ c = Remote.RemoveLabel Remote.LABEL_REVIEWED
                   \/ c = Remote.AddLabels Remote.LABEL_PENDING) t.

Definition reviewedBlock (t : list Remote.Call) : Prop :=
  Forall (fun c => c = Remote.IssuesGet
                   \/ c = Remote.RemoveLabel Remote.LABEL_PENDING
                   \/ c = Remote.AddLabels Remote.LABEL_REVIEWED) t.


(** The call by which [submitReview] submits a verdict. *)
Definition submitCall (action : Review.ReviewAction) (body : string) : Remote.Call :=
  match action with
  | Review.approve => Remote.CreateIssueComment body
  | Review.request_changes => Remote.CreateReview "REQUEST_CHANGES" body
  | Review.comment => Remote.CreateReview "COMMENT" body
  end.




(** *** Sample sessions *)

Definition sampleConfig : Session.ReviewerConfig :=
  Session.mkConfig (Some (JS.Int 100)) true.
Definition sampleRequest : Session.ReviewRequest := Session.mkRequest "acme" "app" 7.

Definition samplePull : Remote.PullData :=
  Remote.mkPullData "main" "feature/login" "0123456789abcdef" 3.

(** A finding that was reported by an earlier session and is fixed now. *)
Definition fixedFinding : Review.Finding :=
  Review.mkFinding Review.medium Review.logic Review.conf_high "src/app.ts" 10 None
    "Unchecked result" "The result is not checked." None
    "It can fail at run time." None "0d0cda1f".

(** A finding that is new in this session. *)
Definition newFinding : Review.Finding :=
  Review.mkFinding Review.low Review.maintainability Review.conf_low "src/util.ts" 3
    None "Unused helper" "The helper is never called." None
    "It is dead code." None "5c0ffee1".

(** The engine reports [plainFinding], which an earlier session already
    commented on, and [newFinding]. *)
Definition sampleResult : Review.ReviewResult :=
  Review.mkReviewResult Review.completed "Two findings." [plainFinding; newFinding]
    (Review.mkMetadata "0123456789abcdef" 2 [] 32000) None.

Definition sampleRawComments : list Remote.RawComment :=
  [Remote.mkRawComment 900
     (Some (CommentBuilder.buildFindingComment fixedFinding "fedcba9876543210"))
     "src/app.ts" (Some 10) None;
   Remote.mkRawComment 901
     (Some (CommentBuilder.buildFindingComment plainFinding "fedcba9876543210"))
     "src/db.ts" (Some 48) None;
   Remote.mkRawComment 902 (Some "Thanks, fixed.") "src/app.ts" (Some 10) None].

Definition samplePR : GitHubClient.PullRequestInfo :=
  GitHubClient.mkPR "acme" "app" 7 "main" "feature/login" "0123456789abcdef".

(** Every call succeeds and the engine returns [sampleResult]. *)
Definition reviewingOracle : Remote.Oracle :=
  Remote.mkOracle
    (fun _ => None)
    (fun _ => samplePull)
    (fun _ => ["README.md"; "src/db.ts"; "src/util.ts"])
    (fun _ => true)
    (fun _ => CliRunner.mkCliResult true (Some sampleResult) None (Some "{...}"))
    (fun _ => "3f2a")
    (fun _ => sampleRawComments)
    (fun _ => Remote.mkThreadComment None "PRRT_900")
    (fun _ => []).

(** The engine executable is missing; every remote call succeeds. *)
Definition cliMissingOracle : Remote.Oracle :=
  Remote.mkOracle
    (fun _ => None)
    (fun _ => samplePull)
    (fun _ => ["src/db.ts"])
    (fun _ => false)
    (fun _ => CliRunner.mkCliResult false None (Some "unused") None)
    (fun _ => "3f2a")
    (fun _ => [])
    (fun _ => Remote.mkThreadComment None "PRRT_0")
    (fun _ => []).

(** The engine executable is missing, and the call that posts the error
    comment (the sixth call of the session) is refused. *)
Definition commentRefusedOracle : Remote.Oracle :=
  Remote.mkOracle
    (fun n => if (n =? 5)%nat then Some "HttpError: Resource not accessible by integration"
              else None)
    (fun _ => samplePull)
    (fun _ => ["src/db.ts"])
    (fun _ => false)
    (fun _ => CliRunner.mkCliResult false None (Some "unused") None)
    (fun _ => "3f2a")
    (fun _ => [])
    (fun _ => Remote.mkThreadComment None "PRRT_0")
    (fun _ => []).



End Props.

(** Lists of lines: every line is closed by computation or by a
    hypothesis. *)
Ltac free_lines :=
  repeat first
    [ apply Forall_nil
    | apply Forall_cons; [first [reflexivity | assumption | idtac]|] ].


(* ================================================================= *)
(** ** Vocabulary of the further properties *)

Module Terms.
Import Review Reconciler.

(** A comment that carries a hash. *)
Definition hasHash (c : Comment.ExistingComment) : bool :=
  match Comment.hash c with
  | Some _ => true
  | None => false
  end.

(** The findings of one severity, in their order. *)
Definition ofSeverity (s : Severity) (fs : list Finding) : list Finding :=
  filter (fun f => Severity_eqb (severity f) s) fs.

(** The polynomial hash with multiplier 31 over the integers, before it
    is reduced to 32 bits. *)
Definition polynomial31 (codes : list Z) : Z :=
  fold_left (fun h char => 31 * h + char) codes 0.

(** A text in which every hyphen is a space and the first character, and
    every character after a hyphen, is upper-cased ([start] tells whether
    the next character opens a word). *)
Fixpoint titleCase (start : bool) (s : string) : string :=
  match s with
  | EmptyString => EmptyString
  | String c s' =>
      if Ascii.eqb c "-"%char then String " "%char (titleCase true s')
      else String (if start then JS.upperChar c else c) (titleCase false s')
  end.

(** The name by which the texts of the reviewer sign. *)
Definition signature : string := "Claude PR Reviewer".

(** A text of white space only. *)
Definition blank (s : string) : bool := JS.forallString Text.isTrimChar s.

(** The command that asks for a review in a comment. *)
Definition reviewCommand : string := "/claude-review".

(** The first character that a sequence of bytes encodes, and the bytes
    after it: the inverse of [utf8Char] on its range. *)
Definition firstChar (bytes : list N) : option (ascii * list N) :=
  match bytes with
  | [] => None
  | b :: rest =>
      if (b <? 128)%N then Some (ascii_of_N b, rest)
      else
        match rest with
        | b2 :: rest' =>
            Some (ascii_of_N (N.lor (N.shiftl (N.land b 3) 6) (N.land b2 63)), rest')
        | [] => None
        end
  end.

(** A listed comment in the range of the embedding of
    [getExistingBotComments].  The metadata of its marker, when the body
    has one, holds no backslash, so that no escape in it names a code unit
    above 255; and when the metadata parses, its hash member is a string or
    [null] or is missing, as the cast [as { hash?: string }] of the source
    declares. *)
Definition typedComment (raw : Remote.RawComment) : bool :=
  match Remote.raw_body raw with
  | None => true
  | Some body =>
      match JS.search GitHubClient.AI_REVIEW_METADATA_PATTERN body with
      | None => true
      | Some (_, metadataMatch) =>
          Props.lacks "\"%char (JS.group1 metadataMatch)
          && match JS.JSON_parse (JS.group1 metadataMatch) with
             | Some (JS.JObject ms) =>
                 match JS.member "hash" ms with
                 | Some (JS.JString _) | Some JS.JNull | None => true
                 | Some _ => false
                 end
             | _ => true
             end
      end
  end.

(** A listed comment whose body has a marker with metadata that
    [JSON.parse] accepts. *)
Definition hasReadableMarker (raw : Remote.RawComment) : bool :=
  match Remote.raw_body raw with
  | None => false
  | Some body =>
      match JS.search GitHubClient.AI_REVIEW_METADATA_PATTERN body with
      | None => false
      | Some (_, metadataMatch) =>
          match JS.JSON_parse (JS.group1 metadataMatch) with
          | Some _ => true
          | None => false
          end
      end
  end.

(** Reviews of a pull request: an approval, a request for changes by
    another reviewer, and two summaries of the reviewer that request
    changes. *)
Definition staleReviews : list Remote.RemoteReview :=
  [Remote.mkRemoteReview 29 "APPROVED" (Some "Looks good. Claude PR Reviewer agrees.");
   Remote.mkRemoteReview 30 "CHANGES_REQUESTED" (Some "Please add tests.");
   Remote.mkRemoteReview 31 "CHANGES_REQUESTED"
     (Some (CommentBuilder.buildReviewSummary Props.sampleResult "fedcba9876543210"));
   Remote.mkRemoteReview 32 "CHANGES_REQUESTED"
     (Some (CommentBuilder.buildReviewSummary Props.sampleResult "0123456789abcdef"))].

(** Every call succeeds and the listing of the reviews is [staleReviews]. *)
Definition staleOracle : Remote.Oracle :=
  Remote.mkOracle
    (fun _ => None)
    (fun _ => Props.samplePull)
    (fun _ => ["src/db.ts"])
    (fun _ => true)
    (fun _ => CliRunner.mkCliResult true (Some Props.sampleResult) None (Some "{...}"))
    (fun _ => "3f2a")
    (fun _ => [])
    (fun _ => Remote.mkThreadComment None "PRRT_900")
    (fun _ => staleReviews).

(** What a call may post: a review is submitted with the event
    [REQUEST_CHANGES] or [COMMENT], and every text posted names the
    reviewer. *)
Definition postsSigned (c : Remote.Call) : Prop :=
  match c with
  | Remote.CreateReview event body =>
      (event = "REQUEST_CHANGES" \/ event = "COMMENT")
      /\ JS.includes signature body = true
  | Remote.CreateIssueComment body => JS.includes signature body = true
  | Remote.CreateReviewComment _ _ _ body => JS.includes signature body = true
  | _ => True
  end.

(** The call by which [createReviewComment] posts the comment of a
    finding on a pull request. *)
Definition commentCall (pr : GitHubClient.PullRequestInfo) (f : Finding) : Remote.Call :=
  Remote.CreateReviewComment
    (file f)
    (match endLine f with Some e => e | None => line f end)
    (if JS.truthyNumber (endLine f) then Some (line f) else None)
    (CommentBuilder.buildFindingComment f (GitHubClient.headSha pr)).

(** The calls that resolve the threads of a list of comments, in order:
    for every comment its fetch, followed by the resolution of its thread
    unless the comment is a reply. *)
Inductive resolution : list Z -> list Remote.Call -> Prop :=
| resolution_nil : resolution [] []
| resolution_reply id ids t :
    resolution ids t -> resolution (id :: ids) (Remote.GetReviewComment id :: t)
| resolution_thread id node ids t :
    resolution ids t ->
    resolution (id :: ids)
               (Remote.GetReviewComment id :: Remote.ResolveReviewThread node :: t).

(** The check of the engine executable that opens an attempt, and the run
    of the engine. *)
Definition isVersionCheck (c : Remote.Call) : bool :=
  match c with
  | Remote.ClaudeVersion => true
  | _ => false
  end.

Definition isEngineRun (c : Remote.Call) : bool :=
  match c with
  | Remote.ClaudeReview _ => true
  | _ => false
  end.

(** At most [k] calls of [t] pass the test [p]. *)
Definition atMost (p : Remote.Call -> bool) (k : nat) (t : list Remote.Call) : Prop :=
  (List.length (filter p t) <= k)%nat.

(** An outcome that reports a review, a skip or an error, each with the
    fields that belong to it. *)
Definition consistentOutcome (out : Session.ReviewOutcome) : Prop :=
  (Session.out_action out = Some Session.reviewed
   /\ Session.out_success out = true
   /\ (exists k, Session.findingsCount out = Some k /\ 0 <= k)
   /\ exists action,
       Session.out_message out = "Review complete: " ++ Review.actionName action)
  \/ (Session.out_action out = Some Session.skipped_pr
      /\ Session.out_success out = true /\ Session.findingsCount out = None)
  \/ (Session.out_action out = Some Session.error_outcome
      /\ Session.out_success out = false /\ Session.findingsCount out = None).



End Terms.


(* ================================================================= *)
(** * Properties *)

(** ** Reconciliation *)

Section ReconcileFacts.
Import Review Reconciler Props.

Lemma has_In (set : list string) (h : string) : has set h = true <-> In h set.
Proof.
  unfold has. rewrite existsb_exists. split.
  - intros [x [Hx Heq]]. apply String.eqb_eq in Heq. now subst.
  - intros H. exists h. split; [assumption | apply String.eqb_refl].
Qed.

Lemma has_false_In (set : list string) (h : string) : has set h = false <-> ~ In h set.
Proof.
  rewrite <- has_In. destruct (has set h); split; congruence.
Qed.

Lemma existingHashesOf_In (cs : list Comment.ExistingComment) (h : string) :
  In h (existingHashesOf cs) <-> exists c, In c cs /\ Comment.hash c = Some h.
Proof.
  unfold existingHashesOf. rewrite in_flat_map. split.
  - intros [c [Hc Hh]]. exists c. split; [assumption|].
    destruct (Comment.hash c); simpl in Hh; [destruct Hh as [-> | []]; reflexivity | contradiction].
  - intros [c [Hc Hh]]. exists c. split; [assumption|]. rewrite Hh. now left.
Qed.

(** The loop pushes, in order, the ids of the comments that pass each test. *)
Lemma classify_fold (nh : list string) (cs : list Comment.ExistingComment) (fx ps : list Z) :
  fold_left (classify nh) cs (fx, ps)
  = ((fx ++ map Comment.id (filter (fixedIn nh) cs))%list,
     (ps ++ map Comment.id (filter (persistsIn nh) cs))%list).
Proof.
  revert fx ps. induction cs as [|c cs IH]; intros fx ps; simpl.
  - now rewrite !app_nil_r.
  - unfold classify at 2, fixedIn, persistsIn. destruct (Comment.hash c) as [h|]; simpl.
    + destruct (has nh h); simpl; rewrite IH; simpl;
        now rewrite <- ?app_assoc.
    + apply IH.
Qed.

Lemma reconcile_fixed (fs : list Finding) (cs : list Comment.ExistingComment) :
  fixedCommentIds (reconcileFindings fs cs) = map Comment.id (filter (fixedIn (map hash fs)) cs).
Proof.
  unfold reconcileFindings. rewrite classify_fold. reflexivity.
Qed.

Lemma reconcile_persisting (fs : list Finding) (cs : list Comment.ExistingComment) :
  persistingCommentIds (reconcileFindings fs cs)
  = map Comment.id (filter (persistsIn (map hash fs)) cs).
Proof.
  unfold reconcileFindings. rewrite classify_fold. reflexivity.
Qed.

Lemma reconcile_new (fs : list Finding) (cs : list Comment.ExistingComment) :
  newFindings (reconcileFindings fs cs)
  = filter (fun f => negb (has (existingHashesOf cs) (hash f))) fs.
Proof.
  unfold reconcileFindings. rewrite classify_fold. reflexivity.
Qed.

Lemma fixed_persists_exclusive (nh : list string) (c : Comment.ExistingComment) :
  fixedIn nh c = true -> persistsIn nh c = true -> False.
Proof.
  unfold fixedIn, persistsIn. destruct (Comment.hash c); [|discriminate].
  destruct (has nh s); discriminate.
Qed.

(** With pairwise distinct ids, an id names one comment. *)
Lemma id_inj_of_NoDup (cs : list Comment.ExistingComment) (c d : Comment.ExistingComment) :
  NoDup (map Comment.id cs) -> In c cs -> In d cs -> Comment.id c = Comment.id d -> c = d.
Proof.
  induction cs as [|x cs IH]; simpl; [contradiction|].
  intros Hnd Hc Hd Heq. inversion Hnd as [|? ? Hx Hnd']; subst.
  destruct Hc as [-> | Hc], Hd as [-> | Hd].
  - reflexivity.
  - exfalso. apply Hx. rewrite Heq. now apply in_map.
  - exfalso. apply Hx. rewrite <- Heq. now apply in_map.
  - now apply IH.
Qed.

Lemma in_ids_filter (p : Comment.ExistingComment -> bool) (cs : list Comment.ExistingComment) (i : Z) :
  In i (map Comment.id (filter p cs)) <-> exists c, In c cs /\ p c = true /\ Comment.id c = i.
Proof.
  rewrite in_map_iff. split.
  - intros [c [Hi Hc]]. apply filter_In in Hc. exists c. tauto.
  - intros [c [Hc [Hp Hi]]]. exists c. split; [assumption|]. apply filter_In. tauto.
Qed.

End ReconcileFacts.

Section ReconcilePartition.
Import Review Reconciler Props.

(** C1, as stated, fails: two existing comments that carry one id, one of
    a hash that is still reported and one of a hash that is not, put that
    id in [persistingCommentIds] and in [fixedCommentIds] at once. *)
Lemma reconcile_ids_overlap :
  let r := reconcileFindings
             [sampleFinding high "aaaa0001"]
             [sampleComment 1 (Some "aaaa0001"); sampleComment 1 (Some "bbbb0002")] in
  ~ disjointIds (fixedCommentIds r) (persistingCommentIds r).
Proof.
  intros r H. apply (H 1); vm_compute; now left.
Qed.

(** C1 (amended): when the ids of the existing comments are pairwise
    distinct, the outputs of [reconcileFindings] partition their inputs.
    The two id lists are disjoint; no finding to post shares its hash with
    an existing comment; a comment with a hash is persisting iff its hash
    is among the hashes of the current findings and fixed iff it is not; a
    comment without a hash is in neither list; every id in the two lists
    is the id of a comment with a hash; [newFindings] is the sublist of
    the current findings whose hash no existing comment carries; and the
    hashes of the three outputs together are the hashes of the current
    findings and of the existing comments. *)
Theorem reconcile_partition (fs : list Finding) (cs : list Comment.ExistingComment)
        (Hids : NoDup (map Comment.id cs)) :
  let r := reconcileFindings fs cs in
  disjointIds (fixedCommentIds r) (persistingCommentIds r)
  /\ (forall f c, In f (newFindings r) -> In c cs -> Comment.hash c <> Some (hash f))
  /\ (forall c h, In c cs -> Comment.hash c = Some h ->
        (In (Comment.id c) (persistingCommentIds r) <-> In h (map hash fs))
        /\ (In (Comment.id c) (fixedCommentIds r) <-> ~ In h (map hash fs)))
  /\ (forall c, In c cs -> Comment.hash c = None ->
        ~ In (Comment.id c) (fixedCommentIds r)
        /\ ~ In (Comment.id c) (persistingCommentIds r))
  /\ (forall i, In i (fixedCommentIds r) \/ In i (persistingCommentIds r) ->
        exists c h, In c cs /\ Comment.id c = i /\ Comment.hash c = Some h)
  /\ newFindings r
     = filter (fun f => negb (existsb (fun c => match Comment.hash c with
                                               | Some h => String.eqb (hash f) h
                                               | None => false
                                               end) cs)) fs
  /\ (forall h,
        In h (map hash fs) \/ In h (existingHashesOf cs)
        <-> In h (map hash (newFindings r))
            \/ (exists c, In c cs /\ Comment.hash c = Some h
                          /\ In (Comment.id c) (fixedCommentIds r))
            \/ (exists c, In c cs /\ Comment.hash c = Some h
                          /\ In (Comment.id c) (persistingCommentIds r))).
Proof.
  intros r. subst r.
  rewrite reconcile_fixed, reconcile_persisting, reconcile_new.
  set (nh := map hash fs).
  assert (Hone : forall p c, In c cs ->
            (In (Comment.id c) (map Comment.id (filter p cs)) <-> p c = true)).
  { intros p c Hc. rewrite in_ids_filter. split.
    - intros [d [Hd [Hp Hi]]].
      now rewrite (id_inj_of_NoDup cs c d Hids Hc Hd (eq_sym Hi)).
    - intros Hp. now exists c. }
  repeat split.
  - intros i Hf Hp. apply in_ids_filter in Hf, Hp.
    destruct Hf as [c [Hc [Hfc Hic]]], Hp as [d [Hd [Hpd Hid]]].
    assert (c = d) by (apply (id_inj_of_NoDup cs); congruence). subst d.
    exact (fixed_persists_exclusive nh c Hfc Hpd).
  - intros f c Hf Hc Hh. apply filter_In in Hf. destruct Hf as [_ Hf].
    apply negb_true_iff, has_false_In in Hf. apply Hf.
    apply existingHashesOf_In. now exists c.
  - rewrite (Hone _ c H). unfold persistsIn. rewrite H0. apply has_In.
  - rewrite (Hone _ c H). unfold persistsIn. rewrite H0. apply has_In.
  - rewrite (Hone _ c H). unfold fixedIn. rewrite H0.
    rewrite negb_true_iff. apply has_false_In.
  - rewrite (Hone _ c H). unfold fixedIn. rewrite H0.
    rewrite negb_true_iff. apply has_false_In.
  - rewrite (Hone _ c H). unfold fixedIn. rewrite H0. discriminate.
  - rewrite (Hone _ c H). unfold persistsIn. rewrite H0. discriminate.
  - intros i [Hi | Hi]; apply in_ids_filter in Hi;
      destruct Hi as [c [Hc [Hp Hi]]]; exists c;
      unfold fixedIn, persistsIn in Hp; destruct (Comment.hash c) as [h|] eqn:Hh;
      try discriminate; exists h; auto.
  - apply filter_ext. intros f. f_equal. clear Hone Hids.
    unfold has, existingHashesOf.
    induction cs as [|c cs' IH]; [reflexivity|].
    simpl. rewrite existsb_app, IH.
    destruct (Comment.hash c); simpl; [now rewrite orb_false_r | reflexivity].
  - intros [Hf | He].
    + destruct (has (existingHashesOf cs) h) eqn:Hex.
      * apply has_In, existingHashesOf_In in Hex. destruct Hex as [c [Hc Hh]].
        right. right. exists c. repeat split; auto.
        rewrite (Hone _ c Hc). unfold persistsIn. rewrite Hh. now apply has_In.
      * left. apply in_map_iff in Hf. destruct Hf as [f [Hhf Hf]].
        apply in_map_iff. exists f. split; [exact Hhf|].
        apply filter_In. split; [exact Hf|]. now rewrite Hhf, Hex.
    + apply existingHashesOf_In in He. destruct He as [c [Hc Hh]].
      destruct (has nh h) eqn:Hn.
      * right. right. exists c. repeat split; auto.
        rewrite (Hone _ c Hc). unfold persistsIn. now rewrite Hh.
      * right. left. exists c. repeat split; auto.
        rewrite (Hone _ c Hc). unfold fixedIn. now rewrite Hh, Hn.
  - intros [Hn | [[c [Hc [Hh _]]] | [c [Hc [Hh _]]]]].
    + left. apply in_map_iff in Hn. destruct Hn as [f [Hhf Hf]].
      apply filter_In in Hf. apply in_map_iff. exists f. tauto.
    + right. apply existingHashesOf_In. eauto.
    + right. apply existingHashesOf_In. eauto.
Qed.

(** The amended partition law at a concrete input. *)
Lemma reconcile_partition_witness :
  let fs := [sampleFinding high "aaaa0001"; sampleFinding low "cccc0003"] in
  let cs := [sampleComment 1 (Some "aaaa0001"); sampleComment 2 (Some "bbbb0002");
             sampleComment 3 None] in
  NoDup (map Comment.id cs)
  /\ disjointIds (fixedCommentIds (reconcileFindings fs cs))
                 (persistingCommentIds (reconcileFindings fs cs)).
Proof.
  intros fs cs.
  assert (H : NoDup (map Comment.id cs)).
  { repeat constructor; simpl; intuition discriminate. }
  split; [exact H | exact (proj1 (reconcile_partition fs cs H))].
Defined.

End ReconcilePartition.

(** ** The verdict *)

Section Verdict.
Import Review.

Lemma has_severity (s : Severity) (fs : list Finding) :
  existsb (fun f => Severity_eqb (severity f) s) fs = true
  <-> exists f, In f fs /\ severity f = s.
Proof.
  rewrite existsb_exists. split; intros [f [Hf Hs]]; exists f; split; auto.
  - destruct (severity f), s; simpl in Hs; congruence.
  - rewrite Hs. destruct s; reflexivity.
Qed.

Lemma determineReviewAction_request (fs : list Finding) :
  determineReviewAction fs = request_changes
  <-> exists f, In f fs /\ severity f = critical.
Proof.
  rewrite <- has_severity. unfold determineReviewAction.
  destruct (existsb _ fs); [tauto|].
  destruct (existsb _ fs); split; discriminate.
Qed.

Lemma determineReviewAction_comment (fs : list Finding) :
  determineReviewAction fs = comment
  <-> (~ exists f, In f fs /\ severity f = critical)
      /\ exists f, In f fs /\ severity f = high.
Proof.
  rewrite <- !has_severity. unfold determineReviewAction.
  destruct (existsb (fun f => Severity_eqb (severity f) critical) fs);
    destruct (existsb (fun f => Severity_eqb (severity f) high) fs);
    intuition (try discriminate; try congruence).
Qed.

Lemma determineReviewAction_approve (fs : list Finding) :
  determineReviewAction fs = approve
  <-> (~ exists f, In f fs /\ severity f = critical)
      /\ ~ exists f, In f fs /\ severity f = high.
Proof.
  rewrite <- !has_severity. unfold determineReviewAction.
  destruct (existsb (fun f => Severity_eqb (severity f) critical) fs);
    destruct (existsb (fun f => Severity_eqb (severity f) high) fs);
    intuition (try discriminate; try congruence).
Qed.

End Verdict.

(** ** The hash of a finding *)

Section HashFacts.
Import Review Reconciler Props.

Lemma toInt32_range (z : Z) : - 2 ^ 31 <= JS.toInt32 z < 2 ^ 31.
Proof.
  unfold JS.toInt32.
  pose proof (Z.mod_pos_bound (z + 2 ^ 31) (2 ^ 32) ltac:(lia)). lia.
Qed.

Lemma hashStep_range (h c : Z) : - 2 ^ 31 <= hashStep h c < 2 ^ 31.
Proof. unfold hashStep, JS.and32. apply toInt32_range. Qed.

Lemma hashLoop_range (codes : list Z) : - 2 ^ 31 <= hashLoop codes < 2 ^ 31.
Proof.
  unfold hashLoop.
  assert (H : forall h, - 2 ^ 31 <= h < 2 ^ 31 ->
                        - 2 ^ 31 <= fold_left hashStep codes h < 2 ^ 31).
  { induction codes as [|c codes IH]; intros h Hh; simpl; [assumption|].
    apply IH, hashStep_range. }
  apply H. lia.
Qed.

Lemma digitChar_hex (d : N) : (d < 16)%N -> JS.isLowerHex (JS.digitChar d) = true.
Proof.
  intros H.
  assert (Hd : In d [0; 1; 2; 3; 4; 5; 6; 7; 8; 9; 10; 11; 12; 13; 14; 15]%N).
  { simpl. lia. }
  simpl in Hd.
  repeat (destruct Hd as [<- | Hd]; [reflexivity|]). contradiction.
Qed.

Lemma digitsOf_hex (fuel : nat) (n : N) (acc : string) :
  JS.forallString JS.isLowerHex acc = true ->
  JS.forallString JS.isLowerHex (JS.digitsOf fuel 16 n acc) = true.
Proof.
  revert n acc. induction fuel as [|fuel IH]; intros n acc Hacc; simpl; [assumption|].
  assert (Hd : JS.forallString JS.isLowerHex
                 (String (JS.digitChar (n mod 16)) acc) = true).
  { simpl. rewrite Hacc, digitChar_hex; [reflexivity|].
    apply N.mod_lt. discriminate. }
  destruct (n / 16 =? 0)%N; [exact Hd | now apply IH].
Qed.

Lemma digitsOf_length (fuel k : nat) (n : N) (acc : string) :
  (1 <= k)%nat -> (n < 16 ^ N.of_nat k)%N ->
  (String.length (JS.digitsOf fuel 16 n acc) <= k + String.length acc)%nat.
Proof.
  revert k n acc. induction fuel as [|fuel IH]; intros k n acc Hk Hn; simpl; [lia|].
  destruct (N.eqb_spec (n / 16) 0) as [Hz | Hz]; simpl; [lia|].
  assert (Hk2 : (2 <= k)%nat).
  { destruct k as [|[|k]]; try lia.
    exfalso. apply Hz. apply N.div_small. simpl in Hn. exact Hn. }
  specialize (IH (k - 1)%nat (n / 16)%N (String (JS.digitChar (n mod 16)) acc)).
  simpl in IH.
  assert (Hlt : (n / 16 < 16 ^ N.of_nat (k - 1))%N).
  { apply N.Div0.div_lt_upper_bound.
    replace (16 * 16 ^ N.of_nat (k - 1))%N with (16 ^ N.of_nat k)%N; [exact Hn|].
    replace (N.of_nat k) with (N.succ (N.of_nat (k - 1))) by lia.
    now rewrite N.pow_succ_r'. }
  specialize (IH ltac:(lia) Hlt). lia.
Qed.

Lemma repeatChar_length (c : ascii) (n : nat) : String.length (JS.repeatChar c n) = n.
Proof. induction n; simpl; congruence. Qed.

Lemma forallString_app (p : ascii -> bool) (a b : string) :
  JS.forallString p (a ++ b) = JS.forallString p a && JS.forallString p b.
Proof.
  induction a as [|c a IH]; simpl; [reflexivity|]. now rewrite IH, andb_assoc.
Qed.

Lemma repeatChar_forall (p : ascii -> bool) (c : ascii) (n : nat) :
  p c = true -> JS.forallString p (JS.repeatChar c n) = true.
Proof. intros H. induction n; simpl; [reflexivity|]. now rewrite H, IHn. Qed.

Lemma string_length_app (a b : string) :
  String.length (a ++ b) = (String.length a + String.length b)%nat.
Proof. induction a; simpl; congruence. Qed.

Lemma digitValue_digitChar (d : N) : (d < 16)%N -> digitValue (JS.digitChar d) = d.
Proof.
  intros H.
  assert (Hd : In d [0; 1; 2; 3; 4; 5; 6; 7; 8; 9; 10; 11; 12; 13; 14; 15]%N).
  { simpl. lia. }
  simpl in Hd.
  repeat (destruct Hd as [<- | Hd]; [reflexivity|]). contradiction.
Qed.

Lemma valueFrom_acc (radix acc : N) (s : string) :
  valueFrom radix acc s
  = (acc * radix ^ N.of_nat (String.length s) + valueFrom radix 0 s)%N.
Proof.
  revert acc. induction s as [|c s IH]; intros acc.
  - simpl. lia.
  - cbn [valueFrom String.length]. rewrite IH, (IH (0 * radix + digitValue c)%N).
    rewrite Nat2N.inj_succ, N.pow_succ_r'. lia.
Qed.

(** The digits that [digitsOf] writes denote the number, when the fuel
    covers its digits. *)
Lemma digitsOf_value (radix : N) (fuel : nat) (n : N) (acc : string) :
  (2 <= radix <= 16)%N -> (n < radix ^ N.of_nat fuel)%N ->
  valueFrom radix 0 (JS.digitsOf fuel radix n acc)
  = (n * radix ^ N.of_nat (String.length acc) + valueFrom radix 0 acc)%N.
Proof.
  intros Hr. revert n acc. induction fuel as [|fuel IH]; intros n acc Hn.
  - simpl in Hn. assert (n = 0%N) by lia. subst n. simpl. lia.
  - cbn [JS.digitsOf].
    assert (Hmod : (n mod radix < 16)%N).
    { pose proof (N.mod_lt n radix ltac:(lia)). lia. }
    assert (Hdiv : n = (radix * (n / radix) + n mod radix)%N).
    { apply N.div_mod. lia. }
    assert (Hhead : forall s,
               valueFrom radix 0 (String (JS.digitChar (n mod radix)) s)
               = ((n mod radix) * radix ^ N.of_nat (String.length s)
                  + valueFrom radix 0 s)%N).
    { intros s. cbn [valueFrom]. rewrite valueFrom_acc, digitValue_digitChar by exact Hmod.
      lia. }
    destruct (N.eqb_spec (n / radix) 0) as [Hz | Hz].
    + rewrite Hhead. rewrite Hz in Hdiv. rewrite Hdiv at 2. lia.
    + rewrite IH.
      * cbn [String.length]. rewrite Hhead, Nat2N.inj_succ, N.pow_succ_r'.
        rewrite Hdiv at 3. lia.
      * rewrite Nat2N.inj_succ, N.pow_succ_r' in Hn.
        apply N.Div0.div_lt_upper_bound. exact Hn.
Qed.

Lemma natToString_value (radix n : N) :
  (2 <= radix <= 16)%N -> valueFrom radix 0 (JS.natToString radix n) = n.
Proof.
  intros Hr. unfold JS.natToString. rewrite digitsOf_value.
  - cbn [String.length valueFrom N.of_nat]. rewrite N.pow_0_r. lia.
  - exact Hr.
  - destruct n as [|p].
    + apply N.neq_0_lt_0, N.pow_nonzero. lia.
    + apply N.lt_le_trans with (2 ^ N.of_nat (S (N.to_nat (N.log2 (N.pos p)))))%N.
      * rewrite Nat2N.inj_succ, N2Nat.id. apply N.log2_spec. lia.
      * apply N.pow_le_mono_l. lia.
Qed.

Lemma valueFrom_zeros (radix : N) (k : nat) (s : string) :
  valueFrom radix 0 (JS.repeatChar "0"%char k ++ s) = valueFrom radix 0 s.
Proof.
  induction k as [|k IH]; [reflexivity|].
  simpl JS.repeatChar. simpl append. cbn [valueFrom].
  replace (0 * radix + digitValue "0"%char)%N with 0%N by (vm_compute; reflexivity).
  exact IH.
Qed.

(** The digest of an integer of 32 bits: eight lower-case hexadecimal
    digits. *)
Lemma digest_shape (h : Z) :
  - 2 ^ 31 <= h < 2 ^ 31 ->
  let d := JS.padStart 8 "0"%char (JS.toStringRadix 16 (Z.abs h)) in
  String.length d = 8%nat /\ JS.forallString JS.isLowerHex d = true.
Proof.
  intros Hh d. subst d. unfold JS.toStringRadix.
  destruct (Z.ltb_spec (Z.abs h) 0) as [Hneg | _]; [lia|].
  unfold JS.natToString, JS.padStart.
  set (n := Z.to_N (Z.abs h)).
  set (s := JS.digitsOf _ 16 n EmptyString).
  assert (Hlen : (String.length s <= 8)%nat).
  { pose proof (digitsOf_length (S (N.to_nat (N.log2 n))) 8 n EmptyString
                                ltac:(lia)) as H.
    simpl String.length in H. rewrite Nat.add_0_r in H. apply H.
    change (16 ^ N.of_nat 8)%N with 4294967296%N. subst n. lia. }
  split.
  - rewrite string_length_app, repeatChar_length. lia.
  - rewrite forallString_app, repeatChar_forall by reflexivity.
    apply digitsOf_hex. reflexivity.
Qed.

End HashFacts.

Section HashTheorems.
Import Review Reconciler Props.

(** C9: for every file, line, end line and title, [generateHash] returns
    exactly eight characters, each a lower-case hexadecimal digit: the
    accumulated hash is a signed integer of 32 bits, its absolute value is
    at most 2^31 and so has at most eight hexadecimal digits, and
    [padStart] fills shorter digests up to eight.  The eight digits denote
    the absolute value of the accumulated hash. *)
Theorem generateHash_eight_hex_digits
        (file : string) (line : Z) (endLine : option Z) (title : string) :
  let h := hashLoop (JS.charCodes (hashInput file line endLine title)) in
  - 2 ^ 31 <= h < 2 ^ 31
  /\ 0 <= Z.abs h <= 2 ^ 31
  /\ (String.length (JS.toStringRadix 16 (Z.abs h)) <= 8)%nat
  /\ String.length (generateHash file line endLine title) = 8%nat
  /\ JS.forallString JS.isLowerHex (generateHash file line endLine title) = true
  /\ valueFrom 16 0 (generateHash file line endLine title) = Z.to_N (Z.abs h).
Proof.
  intros h.
  pose proof (hashLoop_range (JS.charCodes (hashInput file line endLine title))) as Hr.
  fold h in Hr.
  destruct (digest_shape h Hr) as [Hlen Hhex].
  repeat split; try lia; try assumption.
  - unfold JS.padStart in Hlen.
    rewrite string_length_app, repeatChar_length in Hlen. lia.
  - unfold generateHash. fold h. unfold JS.padStart, JS.toStringRadix.
    destruct (Z.ltb_spec (Z.abs h) 0) as [Hneg | _]; [lia|].
    rewrite valueFrom_zeros. apply natToString_value. lia.
Qed.







End HashTheorems.

(** ** The webhook dispatcher *)

Section DispatcherTheorems.
Import Remote Dispatcher Props.

Variable hmacSha256Hex : string -> string -> string.
Variable parsePayload : string -> string + PullRequestPayload.
Variable runTask : DispatcherConfig -> ReviewTaskParams -> option string.

Lemma bytesEqual_eq (a b : list N) : bytesEqual a b = true <-> a = b.
Proof.
  revert b. induction a as [|x a IH]; intros [|y b]; simpl; split; try congruence.
  - intros H. apply andb_true_iff in H. destruct H as [Hx Hab].
    apply N.eqb_eq in Hx. apply IH in Hab. congruence.
  - intros H. injection H as -> ->. rewrite N.eqb_refl. now apply IH.
Qed.

(** C10: [verifySignature] never lets an exception out.  For every
    payload, signature header and secret it returns a boolean; the boolean
    is true exactly when the bytes of the header are the bytes of the
    expected [sha256=<hex>] string; and when the two byte lengths differ,
    the comparison primitive throws and the function returns false. *)
Theorem verifySignature_total (payload signature secret : string) :
  let expected := "sha256=" ++ hmacSha256Hex secret payload in
  exists b : bool,
    verifySignatureRes hmacSha256Hex payload signature secret = Ok b
    /\ verifySignature hmacSha256Hex payload signature secret = b
    /\ (b = true <-> bufferFrom signature = bufferFrom expected)
    /\ (List.length (bufferFrom signature) <> List.length (bufferFrom expected) ->
        (exists e, timingSafeEqual (bufferFrom signature) (bufferFrom expected) = Throw e)
        /\ b = false).
Proof.
  intros expected. unfold verifySignature, verifySignatureRes, timingSafeEqual.
  fold expected.
  destruct (Nat.eqb_spec (List.length (bufferFrom signature))
                         (List.length (bufferFrom expected))) as [Hlen | Hlen].
  - exists (bytesEqual (bufferFrom signature) (bufferFrom expected)).
    split; [reflexivity|]. split; [reflexivity|].
    split; [apply bytesEqual_eq | contradiction].
  - exists false.
    split; [reflexivity|]. split; [reflexivity|]. split.
    + split; [discriminate|]. intros H. rewrite H in Hlen. contradiction.
    + intros _. split; [eexists; reflexivity | reflexivity].
Qed.

Lemma shouldTriggerReview_spec (p : PullRequestPayload) :
  shouldTriggerReview p = true
  <-> ((action p = "review_requested"
        /\ exists r, requested_reviewer p = Some r /\ reviewer_type r = "Bot")
       \/ action p = "ready_for_review")
      /\ pr_state (pull_request p) = "open"
      /\ pr_draft (pull_request p) = false.
Proof.
  unfold shouldTriggerReview. simpl existsb.
  assert (Hbot : match requested_reviewer p with
                 | Some reviewer => String.eqb (reviewer_type reviewer) "Bot"
                 | None => false
                 end = true
                 <-> exists r, requested_reviewer p = Some r /\ reviewer_type r = "Bot").
  { destruct (requested_reviewer p) as [r|].
    - rewrite String.eqb_eq. split; [eauto|]. intros [r' [Hr Ht]]. congruence.
    - split; [discriminate|]. intros [r' [Hr _]]. discriminate. }
  destruct (match requested_reviewer p with
            | Some reviewer => String.eqb (reviewer_type reviewer) "Bot"
            | None => false
            end) eqn:Hm;
    destruct (String.eqb_spec (action p) "review_requested") as [Ha | Ha];
    destruct (String.eqb_spec (action p) "ready_for_review") as [Hb | Hb];
    destruct (String.eqb_spec (pr_state (pull_request p)) "open") as [Hs | Hs];
    destruct (pr_draft (pull_request p)) eqn:Hd;
    simpl;
    (split;
     [ intros H; try discriminate H
     | intros [[[Ha' Hr'] | Hb'] [Hs' Hd']];
       try reflexivity; try congruence;
       try (apply Hbot in Hr'; discriminate Hr') ]).
  all: split; [|split; [assumption | reflexivity]].
  all: first [ right; assumption | left; split; [assumption | now apply Hbot] ].
Qed.

(** C8, as stated, fails: whatever login the bot is known by, the filter
    does not compare the requested reviewer with it.  Requests for the
    review of two different bots both pass the filter. *)
Lemma trigger_ignores_bot_identity :
  ~ (exists botLogin, forall p, shouldTriggerReview p = true <-> claimedTrigger botLogin p).
Proof.
  intros [botLogin H].
  assert (H1 : claimedTrigger botLogin (otherBotRequest "dependabot[bot]")).
  { apply H. reflexivity. }
  assert (H2 : claimedTrigger botLogin (otherBotRequest "renovate[bot]")).
  { apply H. reflexivity. }
  destruct H1 as [[[_ [r1 [Hr1 Hl1]]] | Ha1] _]; [|discriminate Ha1].
  destruct H2 as [[[_ [r2 [Hr2 Hl2]]] | Ha2] _]; [|discriminate Ha2].
  simpl in Hr1, Hr2. injection Hr1 as <-. injection Hr2 as <-.
  simpl in Hl1, Hl2. congruence.
Qed.

(** C8 (amended): for every pull-request payload the trigger filter
    accepts iff the action is [review_requested] with a requested reviewer
    of type [Bot], or the action is [ready_for_review], and in both cases
    the pull request is open and not a draft.  On an authenticated
    pull-request event the handler ignores every payload the filter
    rejects (status 200, no dispatch), and it dispatches exactly when the
    filter accepts, the payload names an installation and the launch of the
    task succeeds. *)
Theorem trigger_filter_dispatch
        (config : DispatcherConfig) (event : WebhookEvent) (signature : string)
        (p : PullRequestPayload)
        (Hsig : x_hub_signature_256 event = Some signature)
        (Hnonempty : signature <> EmptyString)
        (Hverified : verifySignature hmacSha256Hex (event_body event) signature
                                     (webhookSecret config) = true)
        (Hevent : x_github_event event = Some "pull_request")
        (Hpayload : parsePayload (event_body event) = inr p) :
  let outcome := handler hmacSha256Hex parsePayload runTask (inr config) event in
  let params := mkParams (owner_login (repository p)) (repo_name (repository p))
                         (number p)
                         (match installation p with Some i => i | None => 0 end) in
  (shouldTriggerReview p = true
   <-> ((action p = "review_requested"
         /\ exists r, requested_reviewer p = Some r /\ reviewer_type r = "Bot")
        \/ action p = "ready_for_review")
       /\ pr_state (pull_request p) = "open"
       /\ pr_draft (pull_request p) = false)
  /\ (shouldTriggerReview p = false ->
      outcome = (mkResponse 200 "No review needed for this action", []))
  /\ (snd outcome <> []
      <-> shouldTriggerReview p = true
          /\ JS.truthyNumber (installation p) = true
          /\ runTask config params = None)
  /\ (snd outcome <> [] -> outcome = (mkResponse 202 "Review task spawned", [params])).
Proof.
  intros outcome params. subst outcome. unfold handler.
  rewrite Hsig, Hverified, Hevent, Hpayload.
  assert (Ht : JS.truthyString (Some signature) = true).
  { destruct signature; [contradiction | reflexivity]. }
  rewrite Ht. simpl.
  split; [apply shouldTriggerReview_spec|].
  fold params.
  destruct (shouldTriggerReview p); simpl.
  - destruct (JS.truthyNumber (installation p)); simpl.
    + destruct (runTask config params); simpl.
      * repeat split; try discriminate; try tauto.
        intros [_ [_ H]]. discriminate.
      * repeat split; try discriminate; auto.
    + repeat split; try discriminate; try tauto.
      intros [_ [H _]]. discriminate.
  - repeat split; try discriminate; try tauto.
    intros [H _]. discriminate.
Qed.

End DispatcherTheorems.

Section DispatcherWitness.
Import Remote Dispatcher Props.

(** The amended claim at a request for the review of a bot, with a
    digest function that is constant. *)
Lemma trigger_filter_dispatch_witness :
  let hmac := fun _ _ : string => "00" in
  let event := mkEvent (Some "sha256=00") (Some "pull_request") "{}" in
  let config := mkDispatcherConfig "secret" "cluster" "task" [] [] "reviewer" in
  let p := otherBotRequest "claude-reviewer[bot]" in
  verifySignature hmac (event_body event) "sha256=00" (webhookSecret config) = true
  /\ snd (handler hmac (fun _ => inr p) (fun _ _ => None) (inr config) event) <> [].
Proof.
  intros hmac event config p.
  assert (Hv : verifySignature hmac (event_body event) "sha256=00"
                               (webhookSecret config) = true) by reflexivity.
  split; [exact Hv|].
  pose proof (trigger_filter_dispatch hmac (fun _ => inr p) (fun _ _ => None)
                config event "sha256=00" p eq_refl ltac:(discriminate) Hv
                eq_refl eq_refl) as H.
  apply (proj1 (proj2 (proj2 H))).
  repeat split.
Defined.

End DispatcherWitness.

(** ** Regular expressions *)

Section RegexFacts.
Import JS Props.

Lemma matchAt_many (g : bool) (cls : ascii -> bool) (p : list atom) (s : string) :
  matchAt (Many g cls :: p) s
  = if g then
      match moreOf cls (matchAt (Many g cls :: p)) s with
      | Some r => Some r
      | None => matchAt p s
      end
    else
      match matchAt p s with
      | Some r => Some r
      | None => moreOf cls (matchAt (Many g cls :: p)) s
      end.
Proof. destruct s; reflexivity. Qed.

Lemma matchAt_lit (c : ascii) (p : list atom) (s : string) :
  matchAt (Lit c :: p) s
  = match s with
    | String d s' => if Ascii.eqb c d then option_map (consume d) (matchAt p s') else None
    | EmptyString => None
    end.
Proof. reflexivity. Qed.

(** Whatever the matcher returns is a prefix of the subject that the
    pattern matches. *)
Lemma matchAt_sound (p : list atom) :
  forall s r, matchAt p s = Some r ->
              exists rest, s = matched r ++ rest /\ Matches p (matched r).
Proof.
  induction p as [|a p IH]; intros s r H.
  - simpl in H. injection H as <-. exists s. split; [reflexivity | constructor].
  - destruct a as [c | g cls | | ].
    + rewrite matchAt_lit in H. destruct s as [|d s']; [discriminate|].
      destruct (Ascii.eqb_spec c d) as [-> | _]; [|discriminate].
      destruct (matchAt p s') as [r'|] eqn:Hr; [|discriminate].
      injection H as <-. destruct (IH _ _ Hr) as [rest [-> Hm]].
      exists rest. split; [reflexivity | now constructor].
    + revert r H. induction s as [|d s' IHs]; intros r H; rewrite matchAt_many in H.
      * assert (Hp : matchAt p EmptyString = Some r).
        { destruct g; simpl in H; [exact H|].
          destruct (matchAt p EmptyString); [exact H | discriminate]. }
        destruct (IH _ _ Hp) as [rest [Hs Hm]]. exists rest. split; [exact Hs|].
        apply (MatchesMany g cls p EmptyString); [reflexivity | exact Hm].
      * assert (Hcases :
                  matchAt p (String d s') = Some r
                  \/ (cls d = true
                      /\ exists r', matchAt (Many g cls :: p) s' = Some r'
                                    /\ r = consume d r')).
        { unfold moreOf in H. destruct g.
          - destruct (cls d).
            + destruct (matchAt (Many true cls :: p) s') as [r'|];
                cbn [option_map] in H.
              * injection H as <-. right. eauto.
              * now left.
            + now left.
          - destruct (matchAt p (String d s')) as [r0|]; [now left|].
            destruct (cls d); [|discriminate].
            destruct (matchAt (Many false cls :: p) s') as [r'|];
              cbn [option_map] in H; [|discriminate].
            injection H as <-. right. eauto. }
        destruct Hcases as [Hp | [Hc [r' [Hr' ->]]]].
        -- destruct (IH _ _ Hp) as [rest [Hs Hm]]. exists rest. split; [exact Hs|].
           apply (MatchesMany g cls p EmptyString); [reflexivity | exact Hm].
        -- destruct (IHs _ Hr') as [rest [Hs Hm]]. exists rest. simpl.
           split; [now rewrite Hs at 1|].
           inversion Hm as [| | g' cls' p' x m Hx Hm' Heq1 Heq2 | |]; subst.
           change (String d (x ++ m)) with (String d x ++ m).
           apply MatchesMany; [simpl; now rewrite Hc | exact Hm'].
    + simpl in H. destruct (matchAt p s) as [r'|] eqn:Hr; [|discriminate].
      injection H as <-. destruct (IH _ _ Hr) as [rest [Hs Hm]].
      exists rest. split; [exact Hs | now constructor].
    + simpl in H. destruct (matchAt p s) as [r'|] eqn:Hr; [|discriminate].
      injection H as <-. destruct (IH _ _ Hr) as [rest [Hs Hm]].
      exists rest. split; [exact Hs | now constructor].
Qed.

Lemma string_app_assoc (a b c : string) : (a ++ b) ++ c = a ++ (b ++ c).
Proof. induction a; simpl; congruence. Qed.

Lemma string_app_nil_r (a : string) : a ++ EmptyString = a.
Proof. induction a; simpl; congruence. Qed.

(** Where the pattern matches a prefix, the matcher finds a match. *)
Lemma matchAt_complete (p : list atom) (m : string) :
  Matches p m -> forall rest, matchAt p (m ++ rest) <> None.
Proof.
  induction 1 as [| c p m Hm IH | g cls p x m Hx Hm IH | p m Hm IH | p m Hm IH];
    intros rest.
  - discriminate.
  - simpl. rewrite Ascii.eqb_refl. specialize (IH rest).
    destruct (matchAt p (m ++ rest)); [discriminate | contradiction].
  - rewrite string_app_assoc. induction x as [|d x IHx].
    + simpl append. rewrite matchAt_many. specialize (IH rest).
      destruct (matchAt p (m ++ rest)); [|contradiction].
      destruct g; [|discriminate].
      destruct (moreOf _ _ _); discriminate.
    + simpl in Hx. apply andb_true_iff in Hx. destruct Hx as [Hd Hx].
      specialize (IHx Hx). simpl append. rewrite matchAt_many. unfold moreOf.
      rewrite Hd.
      destruct (matchAt (Many g cls :: p) (x ++ m ++ rest)); [|contradiction].
      simpl. destruct g; [discriminate|].
      destruct (matchAt p _); discriminate.
  - simpl. specialize (IH rest).
    destruct (matchAt p (m ++ rest)); [discriminate | contradiction].
  - simpl. specialize (IH rest).
    destruct (matchAt p (m ++ rest)); [discriminate | contradiction].
Qed.

(** [search] reports the leftmost offset that has a match. *)
Lemma search_some (p : list atom) (s : string) (i : nat) (r : MatchResult) :
  search p s = Some (i, r) ->
  matchAt p (dropString i s) = Some r
  /\ (i <= String.length s)%nat
  /\ forall j, (j < i)%nat -> matchAt p (dropString j s) = None.
Proof.
  revert i. induction s as [|c s IH]; intros i H; simpl in H.
  - destruct (matchAt p EmptyString) eqn:Hm; [|discriminate].
    injection H as <- <-. simpl. repeat split; auto. intros j Hj. lia.
  - destruct (matchAt p (String c s)) eqn:Hm.
    + injection H as <- <-. simpl. repeat split; auto; [lia|]. intros j Hj. lia.
    + destruct (search p s) as [[i' r']|] eqn:Hs; [|discriminate].
      injection H as <- <-. destruct (IH _ eq_refl) as [H1 [H2 H3]].
      simpl. repeat split; [exact H1 | lia |].
      intros [|j] Hj; simpl; [exact Hm | apply H3; lia].
Qed.

Lemma search_none (p : list atom) (s : string) :
  search p s = None -> forall j, matchAt p (dropString j s) = None.
Proof.
  induction s as [|c s IH]; intros H j; simpl in H.
  - destruct (matchAt p EmptyString) eqn:Hm; [discriminate|].
    destruct j; exact Hm.
  - destruct (matchAt p (String c s)) eqn:Hm; [discriminate|].
    destruct (search p s) as [[i' r']|] eqn:Hs; [discriminate|].
    destruct j; simpl; [exact Hm | now apply IH].
Qed.

Lemma dropString_app (pre s : string) : dropString (String.length pre) (pre ++ s) = s.
Proof. induction pre; simpl; auto. Qed.

Lemma dropString_split (i : nat) (s : string) :
  (i <= String.length s)%nat ->
  exists pre, s = pre ++ dropString i s /\ String.length pre = i.
Proof.
  revert s. induction i as [|i IH]; intros s Hi.
  - exists EmptyString. split; reflexivity.
  - destruct s as [|c s]; simpl in Hi; [lia|].
    destruct (IH s ltac:(lia)) as [pre [Hs Hl]].
    exists (String c pre). simpl. split; [now rewrite <- Hs | now rewrite Hl].
Qed.

End RegexFacts.

Section ResultPattern.
Import JS Props CliRunner.

(** Case analysis of a match of a starred class: it is a match of the
    rest of the pattern (and, for a greedy star, no longer match exists),
    or one more character in front of a match (and, for a lazy star, the
    rest of the pattern does not match here). *)
Lemma matchAt_many_ind (g : bool) (cls : ascii -> bool) (p : list atom)
      (P : string -> MatchResult -> Prop) :
  (forall s r, matchAt p s = Some r ->
               (g = true -> moreOf cls (matchAt (Many g cls :: p)) s = None) ->
               P s r) ->
  (forall d s r, cls d = true -> matchAt (Many g cls :: p) s = Some r -> P s r ->
                 (g = false -> matchAt p (String d s) = None) ->
                 P (String d s) (consume d r)) ->
  forall s r, matchAt (Many g cls :: p) s = Some r -> P s r.
Proof.
  intros Hstop Hmore. induction s as [|d s' IHs]; intros r H; rewrite matchAt_many in H.
  - apply Hstop; [|reflexivity]. destruct g; simpl in H; [exact H|].
    destruct (matchAt p EmptyString); [exact H | discriminate].
  - unfold moreOf in H. destruct g.
    + destruct (cls d) eqn:Hc.
      * destruct (matchAt (Many true cls :: p) s') as [r'|] eqn:Hr;
          cbn [option_map] in H.
        -- injection H as <-. apply Hmore; auto. discriminate.
        -- apply Hstop; [exact H|]. intros _. unfold moreOf. now rewrite Hc, Hr.
      * apply Hstop; [exact H|]. intros _. unfold moreOf. now rewrite Hc.
    + destruct (matchAt p (String d s')) as [r0|] eqn:H0.
      * injection H as <-. apply Hstop; [exact H0 | discriminate].
      * destruct (cls d) eqn:Hc; [|discriminate].
        destruct (matchAt (Many false cls :: p) s') as [r'|] eqn:Hr;
          cbn [option_map] in H; [|discriminate].
        injection H as <-. apply Hmore; auto.
Qed.

Lemma brace_split (s : string) :
  forallString notBrace s = false ->
  exists x rest, s = x ++ String "}"%char rest.
Proof.
  induction s as [|c s IH]; simpl; [discriminate|].
  unfold notBrace at 1. destruct (Ascii.eqb_spec c "}"%char) as [-> | Hc]; simpl.
  - intros _. exists EmptyString, s. reflexivity.
  - intros H. destruct (IH H) as [x [rest ->]]. exists (String c x), rest. reflexivity.
Qed.

Lemma forallString_any (x : string) : forallString anyChar x = true.
Proof. induction x; simpl; auto. Qed.

Lemma tail_reachesLastBrace : reachesLastBrace [Many true anyChar; Lit "}"%char].
Proof.
  unfold reachesLastBrace.
  apply (matchAt_many_ind true anyChar [Lit "}"%char]
           (fun s r => exists rest, s = matched r ++ rest
                                    /\ forallString notBrace rest = true)).
  - intros s r H Hmore. specialize (Hmore eq_refl).
    rewrite matchAt_lit in H. destruct s as [|d s']; [discriminate|].
    destruct (Ascii.eqb_spec "}"%char d) as [<- | _]; [|discriminate].
    simpl in H. injection H as <-. simpl. exists s'. split; [reflexivity|].
    destruct (forallString notBrace s') eqn:Hb; [reflexivity|].
    exfalso. destruct (brace_split s' Hb) as [x [rest ->]].
    unfold moreOf in Hmore. change (anyChar "}"%char) with true in Hmore.
    cbv iota in Hmore.
    assert (Hm : Matches [Many true anyChar; Lit "}"%char] (x ++ "}")).
    { apply MatchesMany; [apply forallString_any|]. repeat constructor. }
    pose proof (matchAt_complete _ _ Hm rest) as Hc.
    rewrite string_app_assoc in Hc.
    change ("}" ++ rest) with (String "}"%char rest) in Hc.
    destruct (matchAt [Many true anyChar; Lit "}"%char] (x ++ String "}"%char rest));
      [discriminate Hmore | now apply Hc].
  - intros d s r _ _ [rest [-> Hb]] _. exists rest. split; [reflexivity | exact Hb].
Qed.

Lemma lit_reachesLastBrace (c : ascii) (p : list atom) :
  reachesLastBrace p -> reachesLastBrace (Lit c :: p).
Proof.
  intros Hp s r H. rewrite matchAt_lit in H. destruct s as [|d s']; [discriminate|].
  destruct (Ascii.eqb c d); [|discriminate].
  destruct (matchAt p s') as [r'|] eqn:Hr; [|discriminate].
  injection H as <-. destruct (Hp _ _ Hr) as [rest [-> Hb]].
  exists rest. split; [reflexivity | exact Hb].
Qed.

Lemma many_reachesLastBrace (g : bool) (cls : ascii -> bool) (p : list atom) :
  reachesLastBrace p -> reachesLastBrace (Many g cls :: p).
Proof.
  intros Hp. unfold reachesLastBrace.
  apply (matchAt_many_ind g cls p
           (fun s r => exists rest, s = matched r ++ rest
                                    /\ forallString notBrace rest = true)).
  - intros s r H _. now apply Hp.
  - intros d s r _ _ [rest [-> Hb]] _. exists rest. split; [reflexivity | exact Hb].
Qed.

Lemma lits_reachesLastBrace (l : string) (p : list atom) :
  reachesLastBrace p -> reachesLastBrace (lits l ++ p).
Proof.
  intros Hp. unfold lits. induction l as [|c l IH]; simpl; [exact Hp|].
  now apply lit_reachesLastBrace.
Qed.

Lemma pattern_nested :
  JSON_OBJECT_PATTERN
  = (Lit "{"%char :: Many true anyChar ::
      (lits (dq ++ "status" ++ dq) ++
        (Many true anyChar ::
          (lits (dq ++ "findings" ++ dq) ++ [Many true anyChar; Lit "}"%char]))))%list.
Proof. reflexivity. Qed.

Lemma pattern_reachesLastBrace : reachesLastBrace JSON_OBJECT_PATTERN.
Proof.
  rewrite pattern_nested.
  apply lit_reachesLastBrace, many_reachesLastBrace, lits_reachesLastBrace,
    many_reachesLastBrace, lits_reachesLastBrace, tail_reachesLastBrace.
Qed.

Lemma Matches_lits (l : string) (p : list atom) (m : string) :
  Matches (lits l ++ p) m <-> exists m', m = l ++ m' /\ Matches p m'.
Proof.
  unfold lits. revert m. induction l as [|c l IH]; intros m; simpl.
  - split; [eauto | intros [m' [-> H]]; exact H].
  - split.
    + intros H. inversion H; subst. apply IH in H3. destruct H3 as [m' [-> Hm]].
      exists m'. split; [reflexivity | exact Hm].
    + intros [m' [-> Hm]]. constructor. apply IH. eauto.
Qed.

Lemma Matches_many_any (g : bool) (p : list atom) (m : string) :
  Matches (Many g anyChar :: p) m <-> exists x m', m = x ++ m' /\ Matches p m'.
Proof.
  split.
  - intros H. inversion H; subst. eauto.
  - intros [x [m' [-> Hm]]]. apply MatchesMany; [apply forallString_any | exact Hm].
Qed.

Lemma Matches_lit (c : ascii) (p : list atom) (m : string) :
  Matches (Lit c :: p) m <-> exists m', m = String c m' /\ Matches p m'.
Proof.
  split.
  - intros H. inversion H; subst. eauto.
  - intros [m' [-> Hm]]. now constructor.
Qed.

Lemma Matches_nil (m : string) : Matches [] m <-> m = EmptyString.
Proof.
  split.
  - intros H. now inversion H.
  - intros ->. constructor.
Qed.

Lemma Matches_pattern (m : string) :
  Matches JSON_OBJECT_PATTERN m <-> looksLikeResult m.
Proof.
  rewrite pattern_nested. unfold looksLikeResult.
  rewrite Matches_lit. split.
  - intros [m1 [-> H1]].
    apply Matches_many_any in H1. destruct H1 as [a [m2 [-> H2]]].
    apply Matches_lits in H2. destruct H2 as [m3 [-> H3]].
    apply Matches_many_any in H3. destruct H3 as [b [m4 [-> H4]]].
    apply Matches_lits in H4. destruct H4 as [m5 [-> H5]].
    apply Matches_many_any in H5. destruct H5 as [c [m6 [-> H6]]].
    apply Matches_lit in H6. destruct H6 as [m7 [-> H7]].
    apply Matches_nil in H7. subst m7.
    exists a, b, c. reflexivity.
  - intros [a [b [c ->]]]. eexists. split; [reflexivity|].
    apply Matches_many_any. exists a. eexists. split; [reflexivity|].
    apply Matches_lits. eexists. split; [reflexivity|].
    apply Matches_many_any. exists b. eexists. split; [reflexivity|].
    apply Matches_lits. eexists. split; [reflexivity|].
    apply Matches_many_any. exists c. eexists. split; [reflexivity|].
    repeat constructor.
Qed.

(** What [output.match(pattern)] finds: nothing iff no part of the output
    looks like a result; otherwise the leftmost such part, extended to the
    last closing brace of the output. *)
Lemma search_pattern_none (output : string) :
  search JSON_OBJECT_PATTERN output = None
  <-> ~ exists i m, resultAt output i m.
Proof.
  split.
  - intros H [i [m [pre [post [Hout [Hlen Hm]]]]]].
    pose proof (search_none _ _ H (String.length pre)) as Hn.
    rewrite Hout, dropString_app in Hn.
    apply Matches_pattern in Hm. exact (matchAt_complete _ _ Hm post Hn).
  - intros H. destruct (search JSON_OBJECT_PATTERN output) as [[i r]|] eqn:Hs;
      [|reflexivity].
    exfalso. apply H. apply search_some in Hs. destruct Hs as [Hm [Hi _]].
    apply matchAt_sound in Hm. destruct Hm as [rest [Hd Hm]].
    destruct (dropString_split i output Hi) as [pre [Hout Hlen]].
    exists i, (matched r), pre, rest. rewrite <- Hd.
    split; [exact Hout|]. split; [exact Hlen | now apply Matches_pattern].
Qed.

Lemma search_pattern_some (output : string) (i : nat) (r : MatchResult) :
  search JSON_OBJECT_PATTERN output = Some (i, r) ->
  resultAt output i (matched r)
  /\ (forall j m, resultAt output j m -> (i <= j)%nat)
  /\ (exists pre post, output = pre ++ matched r ++ post
                       /\ String.length pre = i
                       /\ forallString notBrace post = true).
Proof.
  intros Hs. apply search_some in Hs. destruct Hs as [Hm [Hi Hfirst]].
  destruct (dropString_split i output Hi) as [pre [Hout Hlen]].
  destruct (pattern_reachesLastBrace _ _ Hm) as [post [Hd Hb]].
  apply matchAt_sound in Hm. destruct Hm as [rest [Hd' Hm]].
  repeat split.
  - exists pre, rest. rewrite <- Hd'.
    split; [exact Hout|]. split; [exact Hlen | now apply Matches_pattern].
  - intros j m [pre' [post' [Hout' [Hlen' Hm']]]].
    destruct (Nat.le_gt_cases i j) as [Hle | Hlt]; [exact Hle|].
    exfalso. specialize (Hfirst j Hlt).
    rewrite Hout', <- Hlen', dropString_app in Hfirst.
    apply Matches_pattern in Hm'. exact (matchAt_complete _ _ Hm' post' Hfirst).
  - exists pre, post. rewrite <- Hd. auto.
Qed.

End ResultPattern.

Section ProseTolerance.
Import JS Props CliRunner.

Lemma app_inv_length (a b c d : string) :
  a ++ b = c ++ d -> String.length a = String.length c -> a = c /\ b = d.
Proof.
  revert c. induction a as [|x a IH]; intros [|y c] H Hl; try discriminate.
  - now split.
  - simpl in H, Hl. injection H as <- H. injection Hl as Hl.
    destruct (IH c H Hl) as [-> ->]. now split.
Qed.

(** A text that ends with a closing brace and is followed by none is
    fixed by the whole. *)
Lemma last_brace_unique (a b c d : string) :
  a ++ b = c ++ d ->
  (exists a0, a = a0 ++ "}") -> (exists c0, c = c0 ++ "}") ->
  forallString notBrace b = true -> forallString notBrace d = true ->
  a = c.
Proof.
  assert (Hne : forall s s0, s = s0 ++ "}" -> forallString notBrace s = false).
  { intros s s0 ->. rewrite forallString_app. simpl. apply andb_false_r. }
  revert c. induction a as [|x a IH]; intros c H [a0 Ha] [c0 Hc] Hb Hd.
  - destruct a0; discriminate.
  - destruct c as [|y c]; [destruct c0; discriminate|].
    simpl in H. injection H as <- H. f_equal.
    destruct a as [|x' a]; destruct c as [|y' c].
    + reflexivity.
    + exfalso. change (EmptyString ++ b) with b in H. subst b.
      destruct c0 as [|z c0]; [discriminate|]. simpl in Hc. injection Hc as _ Hc.
      rewrite forallString_app, (Hne _ _ Hc) in Hb. discriminate.
    + exfalso. change (EmptyString ++ d) with d in H. subst d.
      destruct a0 as [|z a0]; [discriminate|]. simpl in Ha. injection Ha as _ Ha.
      rewrite forallString_app, (Hne _ _ Ha) in Hd. discriminate.
    + apply IH; auto.
      * destruct a0 as [|z a0]; [discriminate|]. simpl in Ha. injection Ha as _ Ha. eauto.
      * destruct c0 as [|z c0]; [discriminate|]. simpl in Hc. injection Hc as _ Hc. eauto.
Qed.

(** No opening brace before the text means no earlier start. *)
Lemma start_not_before (pre x pre' y : string) :
  pre ++ x = pre' ++ String "{"%char y ->
  forallString notOpenBrace pre = true ->
  (String.length pre <= String.length pre')%nat.
Proof.
  revert pre'. induction pre as [|c pre IH]; intros pre' H Hp; simpl; [lia|].
  simpl in Hp. apply andb_true_iff in Hp. destruct Hp as [Hc Hp].
  destruct pre' as [|c' pre'].
  - simpl in H. injection H as -> _. discriminate Hc.
  - simpl in H. injection H as _ H. specialize (IH pre' H Hp). simpl. lia.
Qed.

Lemma looksLikeResult_shape (m : string) :
  looksLikeResult m -> (exists y, m = String "{"%char y) /\ (exists m0, m = m0 ++ "}").
Proof.
  intros [a [b [c ->]]]. split.
  - eexists. reflexivity.
  - exists ("{" ++ a ++ (dq ++ "status" ++ dq) ++ b ++ (dq ++ "findings" ++ dq) ++ c).
    now rewrite !string_app_assoc.
Qed.

(** With no opening brace in the text before an object and no closing
    brace in the text after it, the match is the object. *)
Lemma search_pattern_exact (pre obj post : string) :
  looksLikeResult obj ->
  forallString notOpenBrace pre = true ->
  forallString notBrace post = true ->
  exists r, search JSON_OBJECT_PATTERN (pre ++ obj ++ post) = Some (String.length pre, r)
            /\ matched r = obj.
Proof.
  intros Hobj Hpre Hpost.
  destruct (search JSON_OBJECT_PATTERN (pre ++ obj ++ post)) as [[i r]|] eqn:Hs.
  - destruct (search_pattern_some _ i r Hs) as [_ [Hfirst [pre' [post' [Hout [Hlen Hb]]]]]].
    assert (Hle : (i <= String.length pre)%nat).
    { apply (Hfirst _ obj). exists pre, post. auto. }
    apply search_some in Hs. destruct Hs as [Hm _].
    apply matchAt_sound in Hm. destruct Hm as [rest [_ Hm]].
    apply Matches_pattern in Hm.
    destruct (looksLikeResult_shape _ Hm) as [[y Hy] Hend].
    assert (Hge : (String.length pre <= i)%nat).
    { rewrite <- Hlen. apply (start_not_before pre (obj ++ post) pre' (y ++ post')); auto.
      rewrite Hout, Hy. reflexivity. }
    assert (Heq : String.length pre = String.length pre') by lia.
    destruct (app_inv_length _ _ _ _ Hout Heq) as [<- Hrest].
    exists r. replace i with (String.length pre) by lia. split; [reflexivity|].
    symmetry. apply (last_brace_unique obj post (matched r) post'); auto.
    apply (looksLikeResult_shape _ Hobj).
  - exfalso. apply search_pattern_none in Hs. apply Hs.
    exists (String.length pre), obj, pre, post. auto.
Qed.

End ProseTolerance.

(** ** The output parser of the engine adapter *)

Section ParseReviewOutputLimits.
Import JS Props CliRunner Review.

(** C7, as stated, fails.  An output that is a JSON object with a
    findings member followed by a status member has no part in which
    ["status"] comes before ["findings"]: whatever the parser and the
    schema, the result is the failure [Could not find JSON in Claude
    output].  And an output whose object is followed by prose with a
    closing brace is handed to the parser up to that brace, the prose
    included, which is no JSON text. *)
Lemma parser_needs_key_order_and_last_brace :
  JS.JSON_parse swappedKeysOutput
  = Some (JObject [("findings", JArray []); ("status", JString "completed")])
  /\ (forall (Parsed : Type) (parse : string -> string + Parsed)
             (schema : Parsed -> string + ReviewResult),
         parseReviewOutput parse schema swappedKeysOutput
         = mkCliResult false None (Some "Could not find JSON in Claude output")
                       (Some swappedKeysOutput))
  /\ JS.JSON_parse resultObject
     = Some (JObject [("status", JString "completed"); ("findings", JArray [])])
  /\ JS.JSON_parse (resultObject ++ " Checked {2} files") = None
  /\ (forall (Parsed : Type) (parse : string -> string + Parsed)
             (schema : Parsed -> string + ReviewResult) (message : string),
         parse (resultObject ++ " Checked {2}") = inl message ->
         parseReviewOutput parse schema (resultObject ++ " Checked {2} files")
         = mkCliResult false None (Some ("Failed to parse review JSON: " ++ message))
                       (Some (resultObject ++ " Checked {2} files"))).
Proof.
  split; [vm_compute; reflexivity|].
  split; [intros Parsed parse schema; reflexivity|].
  split; [vm_compute; reflexivity|].
  split; [vm_compute; reflexivity|].
  intros Parsed parse schema message Hparse.
  unfold parseReviewOutput.
  replace (search JSON_OBJECT_PATTERN (resultObject ++ " Checked {2} files"))
    with (Some (0%nat, mkMatch (resultObject ++ " Checked {2}") 51 51))
    by (vm_compute; reflexivity).
  cbn [matched]. rewrite Hparse. reflexivity.
Qed.

End ParseReviewOutputLimits.

Section ParseReviewOutputTheorem.
Import JS Props CliRunner Review.

Context {Parsed : Type}.
Variable JSON_parse : string -> string + Parsed.
Variable ReviewResultSchema_parse : Parsed -> string + ReviewResult.

(** C7 (amended): on exit status zero the adapter hands the captured
    output to its parser.  The parser takes the part of the output that
    runs from the first opening brace after which the text ["status"] and,
    later, the text ["findings"] (in double quotes, in this order) and a
    closing brace occur, to the last closing brace of the output; the part
    is a JSON object of the output itself when the text before the object
    has no opening brace and the text after it no closing brace.  When the
    output has no such part the result is a failure with the error
    [Could not find JSON in Claude output].  When it has one and
    [JSON.parse] or the schema rejects it, the result is a failure whose
    error starts with [Failed to parse review JSON: ], a different error;
    the result is a success only with the value the schema validated.
    This holds for every parser and every schema. *)
Theorem parseReviewOutput_outcomes (output stderr : string) (timeout : Z) :
  runClaudeReviewResult JSON_parse ReviewResultSchema_parse timeout
                        (Closed 0 output stderr)
  = parseReviewOutput JSON_parse ReviewResultSchema_parse output
  /\ ((~ exists i m, resultAt output i m) ->
      parseReviewOutput JSON_parse ReviewResultSchema_parse output
      = mkCliResult false None (Some "Could not find JSON in Claude output")
                    (Some output))
  /\ ((exists i m, resultAt output i m) ->
      exists i m,
        resultAt output i m
        /\ (forall j m', resultAt output j m' -> (i <= j)%nat)
        /\ (exists pre post, output = pre ++ m ++ post
                             /\ String.length pre = i
                             /\ forallString notBrace post = true)
        /\ parseReviewOutput JSON_parse ReviewResultSchema_parse output
           = match JSON_parse m with
             | inl message =>
                 mkCliResult false None
                   (Some ("Failed to parse review JSON: " ++ message))
                   (Some output)
             | inr parsed =>
                 match ReviewResultSchema_parse parsed with
                 | inl message =>
                     mkCliResult false None
                       (Some ("Failed to parse review JSON: " ++ message))
                       (Some output)
                 | inr validated =>
                     mkCliResult true (Some validated) None (Some output)
                 end
             end)
  /\ (forall pre obj post,
        output = pre ++ obj ++ post ->
        looksLikeResult obj ->
        forallString notOpenBrace pre = true ->
        forallString notBrace post = true ->
        parseReviewOutput JSON_parse ReviewResultSchema_parse output
        = match JSON_parse obj with
          | inl message =>
              mkCliResult false None
                (Some ("Failed to parse review JSON: " ++ message))
                (Some output)
          | inr parsed =>
              match ReviewResultSchema_parse parsed with
              | inl message =>
                  mkCliResult false None
                    (Some ("Failed to parse review JSON: " ++ message))
                    (Some output)
              | inr validated =>
                  mkCliResult true (Some validated) None (Some output)
              end
          end)
  /\ (forall message,
        "Could not find JSON in Claude output"
        <> "Failed to parse review JSON: " ++ message)
  /\ (success (parseReviewOutput JSON_parse ReviewResultSchema_parse output)
      = true ->
      exists i m parsed validated,
        resultAt output i m
        /\ JSON_parse m = inr parsed
        /\ ReviewResultSchema_parse parsed = inr validated
        /\ result (parseReviewOutput JSON_parse ReviewResultSchema_parse output)
           = Some validated).
Proof.
  split; [reflexivity|].
  split.
  { intros Hnone. apply search_pattern_none in Hnone.
    unfold parseReviewOutput. now rewrite Hnone. }
  split.
  { intros Hsome.
    destruct (search JSON_OBJECT_PATTERN output) as [[i r]|] eqn:Hs.
    - destruct (search_pattern_some output i r Hs) as [H1 [H2 H3]].
      exists i, (matched r). repeat split; auto.
      unfold parseReviewOutput. rewrite Hs. reflexivity.
    - exfalso. now apply search_pattern_none in Hs. }
  split.
  { intros pre obj post -> Hobj Hpre Hpost.
    destruct (search_pattern_exact pre obj post Hobj Hpre Hpost) as [r [Hs Hm]].
    unfold parseReviewOutput. rewrite Hs, Hm. reflexivity. }
  split.
  { intros message H. discriminate H. }
  intros Hok. unfold parseReviewOutput in *.
  destruct (search JSON_OBJECT_PATTERN output) as [[i r]|] eqn:Hs;
    [|discriminate Hok].
  destruct (search_pattern_some output i r Hs) as [H1 _].
  destruct (JSON_parse (matched r)) as [message0 | parsed] eqn:Hp;
    [discriminate Hok|].
  destruct (ReviewResultSchema_parse parsed) as [message | validated] eqn:Hv;
    [discriminate Hok|].
  exists i, (matched r), parsed, validated. auto.
Qed.

End ParseReviewOutputTheorem.

(** ** The marker of a finding comment *)

Section MarkerFacts.
Import JS Props Review Reconciler CommentBuilder GitHubClient.

Lemma consumeAll_cons (c : ascii) (x : string) (r : MatchResult) :
  consume c (consumeAll x r) = consumeAll (String c x) r.
Proof. reflexivity. Qed.

Lemma consumeAll_nil (r : MatchResult) : consumeAll EmptyString r = r.
Proof. destruct r; reflexivity. Qed.

(** Literal atoms consume the literal. *)
Lemma matchAt_lits_app (l : string) (p : list atom) (s : string) :
  matchAt (lits l ++ p) (l ++ s) = option_map (consumeAll l) (matchAt p s).
Proof.
  unfold lits. induction l as [|c l IH]; simpl app; simpl append.
  - destruct (matchAt p s) as [r|]; simpl; [now rewrite consumeAll_nil | reflexivity].
  - simpl list_ascii_of_string. simpl map. simpl app.
    rewrite matchAt_lit, Ascii.eqb_refl, IH.
    destruct (matchAt p s); reflexivity.
Qed.

Lemma matchAt_lits_startsWith (l : string) (p : list atom) (s : string) :
  matchAt (lits l ++ p) s <> None -> startsWith l s = true.
Proof.
  unfold lits. revert s. induction l as [|c l IH]; intros s H; [reflexivity|].
  simpl list_ascii_of_string in H. simpl map in H. simpl app in H.
  rewrite matchAt_lit in H. destruct s as [|d s]; [now elim H|].
  simpl. destruct (Ascii.eqb c d); [|now elim H]. simpl.
  apply IH. destruct (matchAt _ s); [discriminate | now elim H].
Qed.

(** A lazy star in front of a literal character skips the characters of
    its class that differ from that character. *)
Lemma lazy_star_skip (cls : ascii -> bool) (d : ascii) (p : list atom)
      (x rest : string) (r : MatchResult) :
  forallString (fun c => cls c && negb (Ascii.eqb d c)) x = true ->
  matchAt (Lit d :: p) rest = Some r ->
  matchAt (Many false cls :: Lit d :: p) (x ++ rest) = Some (consumeAll x r).
Proof.
  intros Hx Hr. induction x as [|c x IH].
  - simpl append. rewrite matchAt_many, Hr. now rewrite consumeAll_nil.
  - simpl in Hx. apply andb_true_iff in Hx. destruct Hx as [Hc Hx].
    apply andb_true_iff in Hc. destruct Hc as [Hcls Hne].
    simpl append. rewrite matchAt_many.
    rewrite matchAt_lit. apply negb_true_iff in Hne. rewrite Hne.
    unfold moreOf. rewrite Hcls, (IH Hx). reflexivity.
Qed.

Lemma search_cons (p : list atom) (c : ascii) (s : string) :
  search p (String c s)
  = match matchAt p (String c s) with
    | Some r => Some (O, r)
    | None =>
        match search p s with
        | Some (i, r) => Some (S i, r)
        | None => None
        end
    end.
Proof. reflexivity. Qed.

(** A match further on is the match of the search when no position
    before it has one. *)
Lemma search_skip (p : list atom) (pre s : string) (r : MatchResult) :
  (forall a x, pre = a ++ x -> x <> EmptyString -> matchAt p (x ++ s) = None) ->
  matchAt p s = Some r ->
  search p (pre ++ s) = Some (String.length pre, r).
Proof.
  intros Hpre Hs. induction pre as [|c pre IH].
  - simpl append. destruct s; simpl; now rewrite Hs.
  - change (String c pre ++ s) with (String c (pre ++ s)). rewrite search_cons.
    pose proof (Hpre EmptyString (String c pre) eq_refl ltac:(discriminate)) as H0.
    change (String c pre ++ s) with (String c (pre ++ s)) in H0. rewrite H0.
    rewrite IH; [reflexivity|].
    intros a x Ha Hx. apply (Hpre (String c a)); [simpl; now rewrite Ha | exact Hx].
Qed.

Lemma substring_prefix (b c : string) :
  String.substring 0 (String.length b) (b ++ c) = b.
Proof.
  induction b as [|d b IH]; simpl.
  - destruct c; reflexivity.
  - now rewrite IH.
Qed.

Lemma substring_middle (a b c : string) :
  String.substring (String.length a) (String.length b) (a ++ b ++ c) = b.
Proof.
  induction a as [|d a IH]; simpl; [apply substring_prefix | exact IH].
Qed.

Lemma hashSafe_dot (c : ascii) : hashSafeChar c = true -> dotChar c = true.
Proof. destruct c as [[] [] [] [] [] [] [] []]; intros H; try discriminate H; reflexivity. Qed.

Lemma hashSafe_notBrace (c : ascii) :
  hashSafeChar c = true -> Ascii.eqb "}"%char c = false.
Proof. destruct c as [[] [] [] [] [] [] [] []]; intros H; try discriminate H; reflexivity. Qed.

Lemma hashSafe_plain (c : ascii) :
  hashSafeChar c = true ->
  (nat_of_ascii c =? 34)%nat = false
  /\ (nat_of_ascii c =? 92)%nat = false
  /\ (nat_of_ascii c <? 32)%nat = false.
Proof.
  destruct c as [[] [] [] [] [] [] [] []]; intros H; try discriminate H;
    repeat split; reflexivity.
Qed.

(** A string of safe characters is the value of its own literal. *)
Lemma parseStringBody_safe (h rest : string) :
  forallString hashSafeChar h = true ->
  parseStringBody (h ++ dq ++ rest) = Some (h, rest).
Proof.
  intros Hh. induction h as [|c h IH].
  - reflexivity.
  - simpl in Hh. apply andb_true_iff in Hh. destruct Hh as [Hc Hh].
    destruct (hashSafe_plain c Hc) as [H1 [H2 H3]].
    simpl append. simpl parseStringBody. rewrite H1, H2, H3.
    change (h ++ String (ascii_of_nat 34) rest) with (h ++ dq ++ rest).
    now rewrite (IH Hh).
Qed.

End MarkerFacts.

Section MarkerRoundTrip.
Import JS Props Review Reconciler CommentBuilder GitHubClient.

Lemma markerLine_parts (h post : string) :
  markerLine h ++ post
  = "<!-- ai-review: " ++ String "{"%char (hashMember h ++ ("} -->" ++ post)).
Proof.
  unfold markerLine, hashMember, dq. simpl.
  rewrite !string_app_assoc. reflexivity.
Qed.

Lemma hashMember_class (h : string) :
  forallString hashSafeChar h = true ->
  forallString (fun c => dotChar c && negb (Ascii.eqb "}"%char c)) (hashMember h) = true.
Proof.
  intros Hh. unfold hashMember, dq. rewrite !forallString_app.
  repeat (apply andb_true_iff; split); try reflexivity.
  induction h as [|c h IH]; [reflexivity|].
  cbn [forallString] in Hh |- *. apply andb_true_iff in Hh. destruct Hh as [Hc Hh].
  now rewrite (hashSafe_dot c Hc), (hashSafe_notBrace c Hc), (IH Hh).
Qed.

(** At the marker the pattern matches the whole marker, and its group is
    the metadata object. *)
Lemma marker_match (h post : string) :
  forallString hashSafeChar h = true ->
  exists r,
    matchAt AI_REVIEW_METADATA_PATTERN (markerLine h ++ post) = Some r
    /\ group1 r = "{" ++ hashMember h ++ "}".
Proof.
  intros Hh. rewrite markerLine_parts.
  unfold AI_REVIEW_METADATA_PATTERN. rewrite matchAt_lits_app.
  set (tail := (Lit "}"%char :: GroupClose :: lits " -->")%list).
  assert (Htail : matchAt tail ("} -->" ++ post) = Some (mkMatch "} -->" 5 1))
    by reflexivity.
  pose proof (lazy_star_skip dotChar "}"%char (GroupClose :: lits " -->")
                (hashMember h) ("} -->" ++ post) _ (hashMember_class h Hh) Htail)
    as Hstar.
  change ([GroupOpen; Lit "{"%char; Many false dotChar; Lit "}"%char; GroupClose]
            ++ lits " -->")%list
    with (GroupOpen :: Lit "{"%char :: Many false dotChar :: tail)%list.
  change (matchAt (GroupOpen :: Lit "{"%char :: Many false dotChar :: tail)
                  (String "{"%char (hashMember h ++ "} -->" ++ post)))
    with (option_map (fun r => mkMatch (matched r) 0 (gclose r))
            (option_map (consume "{"%char)
               (matchAt (Many false dotChar :: tail)
                        (hashMember h ++ "} -->" ++ post)))).
  subst tail. rewrite Hstar. cbn [option_map].
  eexists. split; [reflexivity|].
  unfold group1, consumeAll, consume. cbn [matched gopen gclose].
  replace (String.length "<!-- ai-review: "
           + S (String.length (hashMember h) + 1) - (String.length "<!-- ai-review: " + 0))%nat
    with (String.length ("{" ++ hashMember h ++ "}")).
  - rewrite Nat.add_0_r.
    change ("<!-- ai-review: " ++ String "{"%char (hashMember h ++ "} -->"))
      with ("<!-- ai-review: " ++ "{" ++ (hashMember h ++ "} -->")).
    replace ("{" ++ hashMember h ++ "} -->")
      with (("{" ++ hashMember h ++ "}") ++ " -->").
    + apply substring_middle.
    + simpl. now rewrite string_app_assoc.
  - simpl. rewrite string_length_app. simpl. lia.
Qed.

Lemma parseValue_quote (f : nat) (s : string) :
  parseValue (S f) (dq ++ s)
  = match parseStringBody s with
    | Some (t, r) => Some (JString t, r)
    | None => None
    end.
Proof. reflexivity. Qed.

Lemma parseValue_object (f : nat) (s : string) :
  parseValue (S f) (String "{"%char (dq ++ s))
  = match parseMembersWith (parseValue f) (S (String.length s)) (dq ++ s) with
    | Some (ms, r) => Some (JObject ms, r)
    | None => None
    end.
Proof. reflexivity. Qed.

Lemma parseMembersWith_quote (pv : string -> option (json * string))
      (fuel : nat) (s : string) :
  parseMembersWith pv (S fuel) (dq ++ s)
  = match parseStringBody s with
    | None => None
    | Some (key, s2) =>
        match skipWs s2 with
        | String colon s3 =>
            if Ascii.eqb colon ":"%char then
              match pv s3 with
              | None => None
              | Some (v, r) =>
                  match skipWs r with
                  | String c r' =>
                      if Ascii.eqb c ","%char then
                        match parseMembersWith pv fuel r' with
                        | Some (ms, r'') => Some ((key, v) :: ms, r'')
                        | None => None
                        end
                      else if Ascii.eqb c "}"%char then Some ([(key, v)], r')
                      else None
                  | EmptyString => None
                  end
              end
            else None
        | EmptyString => None
        end
    end.
Proof. reflexivity. Qed.

Lemma JSON_parse_hashMember (h : string) :
  forallString hashSafeChar h = true ->
  JSON_parse ("{" ++ hashMember h ++ "}") = Some (JObject [("hash", JString h)]).
Proof.
  intros Hh. unfold JSON_parse.
  assert (Htext : "{" ++ hashMember h ++ "}"
                  = String "{"%char (dq ++ "hash" ++ dq ++ ":" ++ dq ++ h ++ dq ++ "}")).
  { unfold hashMember. simpl. rewrite !string_app_assoc. reflexivity. }
  rewrite Htext.
  change (String.length (String "{"%char (dq ++ "hash" ++ dq ++ ":" ++ dq ++ h ++ dq ++ "}")))
    with (S (String.length (dq ++ "hash" ++ dq ++ ":" ++ dq ++ h ++ dq ++ "}"))).
  rewrite parseValue_object, parseMembersWith_quote.
  rewrite (parseStringBody_safe "hash" _ eq_refl).
  change (skipWs (":" ++ dq ++ h ++ dq ++ "}"))
    with (String ":"%char (dq ++ h ++ dq ++ "}")).
  cbv iota beta. rewrite Ascii.eqb_refl.
  rewrite parseValue_quote, (parseStringBody_safe h _ Hh).
  reflexivity.
Qed.

Lemma metadataHash_hashMember (h : string) :
  forallString hashSafeChar h = true ->
  metadataHash ("{" ++ hashMember h ++ "}") = Some (Some h).
Proof.
  intros Hh. unfold metadataHash. now rewrite (JSON_parse_hashMember h Hh).
Qed.

End MarkerRoundTrip.

Section MarkerPrefix.
Import JS Props Review Reconciler CommentBuilder GitHubClient.

(** A character that the literal lacks ends every attempt to match the
    literal across it. *)
Lemma startsWith_across (l u rest : string) (d : ascii) :
  lacks d l = true ->
  l <> EmptyString ->
  startsWith l (u ++ String d rest) = startsWith l u.
Proof.
  revert u. induction l as [|c l IH]; intros u Hd Hne; [now elim Hne|].
  unfold lacks in Hd. cbn [forallString] in Hd. apply andb_true_iff in Hd.
  destruct Hd as [Hc Hl]. apply negb_true_iff in Hc.
  destruct u as [|e u]; simpl.
  - now rewrite Hc.
  - destruct (Ascii.eqb c e); [|reflexivity]. simpl.
    destruct l as [|c' l']; [reflexivity|].
    apply IH; [exact Hl | discriminate].
Qed.

Lemma includes_nil (l : string) : l <> EmptyString -> includes l EmptyString = false.
Proof. destruct l; [intros H; now elim H | reflexivity]. Qed.

Lemma includes_across (l u v : string) (d : ascii) :
  lacks d l = true ->
  l <> EmptyString ->
  includes l (u ++ String d v) = includes l u || includes l v.
Proof.
  intros Hd Hne. induction u as [|e u IH].
  - simpl append. rewrite (includes_nil l Hne).
    destruct l as [|c l]; [now elim Hne|].
    unfold lacks in Hd. cbn [forallString] in Hd. apply andb_true_iff in Hd.
    destruct Hd as [Hc _]. apply negb_true_iff in Hc.
    simpl. now rewrite Hc.
  - change (String e u ++ String d v) with (String e (u ++ String d v)).
    cbn [includes]. rewrite IH.
    change (String e (u ++ String d v)) with (String e u ++ String d v).
    rewrite (startsWith_across l (String e u) v d Hd Hne).
    now rewrite orb_assoc.
Qed.

(** A text in front that lacks the first character of the literal holds
    no start of it. *)
Lemma includes_after (c : ascii) (l u v : string) :
  lacks c u = true ->
  includes (String c l) (u ++ v) = includes (String c l) v.
Proof.
  intros Hu. induction u as [|e u IH]; [reflexivity|].
  unfold lacks in Hu. cbn [forallString] in Hu. apply andb_true_iff in Hu.
  destruct Hu as [He Hu]. apply negb_true_iff in He.
  change (String e u ++ v) with (String e (u ++ v)). cbn [includes startsWith].
  rewrite Ascii.eqb_sym, He. simpl. now apply IH.
Qed.

Lemma includes_app_l (l u v : string) :
  includes l u = true -> includes l (u ++ v) = true.
Proof.
  assert (Hs : forall l u, startsWith l u = true -> startsWith l (u ++ v) = true).
  { clear. induction l as [|c l IH]; intros u H; [reflexivity|].
    destruct u as [|e u]; [discriminate|]. simpl in H |- *.
    apply andb_true_iff in H. destruct H as [-> H]. simpl. now apply IH. }
  induction u as [|e u IH]; intros H.
  - cbn [includes] in H. rewrite orb_false_r in H.
    destruct l; [|discriminate]. destruct v; reflexivity.
  - change (String e u ++ v) with (String e (u ++ v)). cbn [includes] in H |- *.
    apply orb_true_iff in H. destruct H as [H | H].
    + change (String e (u ++ v)) with (String e u ++ v). now rewrite (Hs _ _ H).
    + rewrite (IH H). apply orb_true_r.
Qed.

Lemma substring0_prefix (n : nat) (s : string) :
  exists rest, s = substring0 n s ++ rest.
Proof.
  unfold substring0. revert s. induction n as [|n IH]; intros s.
  - exists s. destruct s; reflexivity.
  - destruct s as [|c s]; [exists EmptyString; reflexivity|].
    destruct (IH s) as [rest Hr]. exists rest. simpl. now rewrite <- Hr.
Qed.

Lemma includes_substring0 (l s : string) (n : nat) :
  includes l s = false -> includes l (substring0 n s) = false.
Proof.
  intros H. destruct (includes l (substring0 n s)) eqn:Hi; [|reflexivity].
  destruct (substring0_prefix n s) as [rest Hr].
  rewrite Hr in H. now rewrite (includes_app_l _ _ rest Hi) in H.
Qed.

Lemma concat_cons (sep x : string) (xs : list string) :
  xs <> [] -> String.concat sep (x :: xs) = x ++ sep ++ String.concat sep xs.
Proof. destruct xs; [intros H; now elim H | reflexivity]. Qed.

Lemma concat_app (sep : string) (xs ys : list string) :
  xs <> [] -> ys <> [] ->
  String.concat sep (xs ++ ys) = String.concat sep xs ++ sep ++ String.concat sep ys.
Proof.
  intros Hx Hy. induction xs as [|x xs IH]; [now elim Hx|].
  destruct xs as [|x' xs].
  - simpl app. now rewrite concat_cons.
  - change ((x :: x' :: xs) ++ ys)%list with (x :: ((x' :: xs) ++ ys))%list.
    rewrite concat_cons by discriminate. rewrite IH by discriminate.
    rewrite (concat_cons sep x (x' :: xs)) by discriminate.
    now rewrite !string_app_assoc.
Qed.

(** Lines that hold no marker opening join into a text that holds none. *)
Lemma includes_joinLines (ls : list string) :
  Forall (fun x => includes markerOpening x = false) ls ->
  includes markerOpening (joinLines ls) = false.
Proof.
  unfold joinLines. induction 1 as [|x xs Hx Hxs IH]; [reflexivity|].
  destruct xs as [|x' xs]; [exact Hx|].
  rewrite concat_cons by discriminate.
  change (lf ++ String.concat lf (x' :: xs))
    with (String (ascii_of_nat 10) (String.concat lf (x' :: xs))).
  rewrite includes_across by (reflexivity || discriminate).
  now rewrite Hx, IH.
Qed.

Lemma header_free (s : Severity) (c : Category) :
  includes markerOpening
    (SEVERITY_EMOJI s ++ " **" ++ capitalize (severityName s) ++ "** · "
       ++ formatCategory (categoryName c)) = false.
Proof. destruct s, c; vm_compute; reflexivity. Qed.

Lemma displayUrl_free (ref : string) :
  includes markerOpening ref = false ->
  includes markerOpening (displayUrl ref) = false.
Proof.
  intros H. unfold displayUrl. destruct (60 <? String.length ref)%nat; [|exact H].
  change (substring0 57 ref ++ "...") with (substring0 57 ref ++ String "."%char "..").
  rewrite includes_across by (reflexivity || discriminate).
  now rewrite (includes_substring0 _ _ 57 H).
Qed.

Lemma reference_free (ref : string) :
  includes markerOpening ref = false ->
  includes markerOpening ("- [" ++ displayUrl ref ++ "](" ++ ref ++ ")") = false.
Proof.
  intros H. unfold markerOpening. rewrite includes_after by reflexivity.
  fold markerOpening.
  change (displayUrl ref ++ "](" ++ ref ++ ")")
    with (displayUrl ref ++ String "]"%char ("(" ++ ref ++ ")")).
  rewrite includes_across by (reflexivity || discriminate).
  rewrite (displayUrl_free ref H). cbn [orb].
  unfold markerOpening. rewrite includes_after by reflexivity. fold markerOpening.
  change (ref ++ ")") with (ref ++ String ")"%char EmptyString).
  rewrite includes_across by (reflexivity || discriminate).
  now rewrite H.
Qed.

Lemma findingLines_free (f : Finding) :
  textsFreeOfMarker f = true ->
  Forall (fun x => includes markerOpening x = false) (findingLines f).
Proof.
  unfold textsFreeOfMarker. intros H.
  repeat (apply andb_true_iff in H; destruct H as [H ?]).
  apply negb_true_iff in H.
  match goal with Hr : negb (includes _ (severityReason f)) = true |- _ =>
    apply negb_true_iff in Hr end.
  unfold findingLines.
  repeat (apply Forall_app; split).
  - free_lines. apply header_free.
  - destruct (suggestion f) as [[|c sg]|]; cbn [truthyString];
      try match goal with Hs : negb (includes _ (String c sg)) = true |- _ =>
            apply negb_true_iff in Hs end;
      free_lines.
  - destruct (confidence f); free_lines.
  - destruct (references f) as [refs|]; [|constructor].
    destruct (0 <? Datatypes.length refs)%nat; [|constructor].
    apply Forall_app. split; [free_lines|].
    apply Forall_map. apply Forall_forall. intros ref Hin.
    apply reference_free.
    match goal with Hf : forallb _ refs = true |- _ =>
      rewrite forallb_forall in Hf; specialize (Hf ref Hin) end.
    now apply negb_true_iff.
Qed.

(** No position before the marker starts a marker opening. *)
Lemma no_start_before (p0 rest : string) :
  includes markerOpening p0 = false ->
  forall a x, p0 ++ lf = a ++ x -> x <> EmptyString ->
              startsWith markerOpening (x ++ rest) = false.
Proof.
  induction p0 as [|c p0 IH]; intros Hp a x Hax Hx.
  - destruct a as [|e a].
    + simpl in Hax. subst x. reflexivity.
    + simpl in Hax. injection Hax as _ Hax.
      destruct a; [destruct x; [now elim Hx | discriminate] | discriminate].
  - cbn [includes] in Hp. apply orb_false_iff in Hp. destruct Hp as [Hs Hp].
    destruct a as [|e a].
    + simpl in Hax. subst x.
      change ((String c (p0 ++ lf)) ++ rest) with (String c ((p0 ++ lf) ++ rest)).
      rewrite string_app_assoc.
      change (String c (p0 ++ lf ++ rest))
        with (String c p0 ++ String (ascii_of_nat 10) rest).
      rewrite startsWith_across by (reflexivity || discriminate). exact Hs.
    + simpl in Hax. injection Hax as _ Hax. exact (IH Hp a x Hax Hx).
Qed.

End MarkerPrefix.

Section MarkerTheorem.
Import JS Props Review Reconciler CommentBuilder GitHubClient.

Lemma startsWith_split (l t : string) :
  startsWith l t = true -> exists t', t = l ++ t'.
Proof.
  revert t. induction l as [|c l IH]; intros t H.
  - exists t. reflexivity.
  - destruct t as [|d t]; [discriminate|]. simpl in H.
    apply andb_true_iff in H. destruct H as [Hc H].
    apply Ascii.eqb_eq in Hc. subst d.
    destruct (IH t H) as [t' ->]. exists t'. reflexivity.
Qed.

(** The pattern matches only where a marker opening starts. *)
Lemma pattern_needs_opening (t : string) :
  matchAt AI_REVIEW_METADATA_PATTERN t <> None -> startsWith markerOpening t = true.
Proof.
  intros H. unfold AI_REVIEW_METADATA_PATTERN in H.
  pose proof (matchAt_lits_startsWith _ _ _ H) as Hs.
  destruct (startsWith_split _ _ Hs) as [t' ->].
  rewrite matchAt_lits_app in H.
  destruct t' as [|d t'].
  - now elim H.
  - destruct (Ascii.eqb_spec "{"%char d) as [<- | Hd]; [reflexivity|].
    exfalso. apply H. simpl app. cbn [matchAt].
    apply Ascii.eqb_neq in Hd. now rewrite Hd.
Qed.

Lemma body_parts (f : Finding) (headCommit : string) :
  buildFindingComment f headCommit
  = (joinLines (findingLines f ++ [EmptyString; "---"]) ++ lf)
      ++ markerLine (hash f)
      ++ (lf ++ "*Claude PR Reviewer • " ++ substring0 7 headCommit ++ "*").
Proof.
  unfold buildFindingComment.
  set (footer := "*Claude PR Reviewer • " ++ substring0 7 headCommit ++ "*").
  replace (findingLines f ++ [EmptyString; "---"; markerLine (hash f); footer])%list
    with ((findingLines f ++ [EmptyString; "---"]) ++ [markerLine (hash f); footer])%list
    by (rewrite <- app_assoc; reflexivity).
  unfold joinLines. rewrite concat_app.
  - rewrite string_app_assoc. reflexivity.
  - unfold findingLines. discriminate.
  - discriminate.
Qed.

(** C4 fails on the code at two findings.  The hash is written into the
    marker as it is: a hash that holds a double quote gives metadata that
    is no JSON text, and the comment is not read back as a comment of the
    reviewer at all.  And the pattern takes the first marker of the body: a
    finding whose description quotes a marker gets a comment from which
    the quoted hash is read, not its own. *)
Lemma marker_not_recovered :
  let ownBody := buildFindingComment quotedHashFinding "0123456789abcdef" in
  let quotingBody := buildFindingComment quotingFinding "0123456789abcdef" in
  recoveredHash ownBody = None
  /\ botCommentsOf [Remote.mkRawComment 1 (Some ownBody) "src/app.ts" (Some 10) None] = []
  /\ recoveredHash quotingBody = Some (Some "deadbeef")
  /\ hash quotingFinding = "0d0cda1f".
Proof.
  repeat split; vm_compute; reflexivity.
Qed.

(** What the marker does give back.  For every finding whose hash holds
    no control character, double quote, backslash or closing brace, and
    whose description, suggestion, severity reason and references hold no
    marker opening, and for every head commit, the body that
    [buildFindingComment] produces is one from which
    [getExistingBotComments] recovers the hash of the finding: the first
    match of the metadata pattern is the marker of the body, its group
    parses as the object with the one member [hash], and the comment read
    back carries exactly that hash. *)
Theorem marker_round_trip (f : Finding) (headCommit : string)
        (Hsafe : forallString hashSafeChar (hash f) = true)
        (Hfree : textsFreeOfMarker f = true) :
  let body := buildFindingComment f headCommit in
  (exists i m,
      search AI_REVIEW_METADATA_PATTERN body = Some (i, m)
      /\ group1 m = "{" ++ hashMember (hash f) ++ "}"
      /\ JSON_parse (group1 m) = Some (JObject [("hash", JString (hash f))]))
  /\ recoveredHash body = Some (Some (hash f))
  /\ (forall i path l ol,
         map Comment.hash (botCommentOf (Remote.mkRawComment i (Some body) path l ol))
         = [Some (hash f)]).
Proof.
  intros body. subst body. rewrite body_parts.
  set (pre := joinLines (findingLines f ++ [EmptyString; "---"]) ++ lf).
  set (post := lf ++ "*Claude PR Reviewer • " ++ substring0 7 headCommit ++ "*").
  destruct (marker_match (hash f) post Hsafe) as [r [Hr Hg]].
  assert (Hsearch : search AI_REVIEW_METADATA_PATTERN (pre ++ markerLine (hash f) ++ post)
                    = Some (String.length pre, r)).
  { apply search_skip; [|exact Hr].
    intros a x Hax Hx.
    destruct (matchAt AI_REVIEW_METADATA_PATTERN (x ++ markerLine (hash f) ++ post))
      eqn:Hm; [|reflexivity].
    exfalso.
    assert (Hstart : startsWith markerOpening (x ++ markerLine (hash f) ++ post) = true).
    { apply pattern_needs_opening. rewrite Hm. discriminate. }
    assert (Hlines : Forall (fun l => includes markerOpening l = false)
                            (findingLines f ++ [EmptyString; "---"])).
    { apply Forall_app. split; [now apply findingLines_free | free_lines]. }
    rewrite (no_start_before (joinLines (findingLines f ++ [EmptyString; "---"]))
               (markerLine (hash f) ++ post)
               (includes_joinLines _ Hlines) a x Hax Hx) in Hstart.
    discriminate Hstart. }
  split; [|split].
  - exists (String.length pre), r. split; [exact Hsearch|]. split; [exact Hg|].
    rewrite Hg. now apply JSON_parse_hashMember.
  - unfold recoveredHash. rewrite Hsearch, Hg. now apply metadataHash_hashMember.
  - intros i path l ol. unfold botCommentOf. cbn [Remote.raw_body].
    rewrite Hsearch, Hg, (metadataHash_hashMember _ Hsafe). reflexivity.
Qed.

(** The round trip at a finding with a suggestion, references and
    a description of two lines that holds braces and an angle bracket. *)
Lemma marker_round_trip_witness :
  forallString hashSafeChar (hash plainFinding) = true
  /\ textsFreeOfMarker plainFinding = true
  /\ recoveredHash (buildFindingComment plainFinding "0123456789abcdef")
     = Some (Some "234bf76a").
Proof.
  split; [reflexivity|]. split; [reflexivity|].
  exact (proj1 (proj2 (marker_round_trip plainFinding "0123456789abcdef"
                                         eq_refl eq_refl))).
Defined.

End MarkerTheorem.

(** ** Sessions *)

Section MonadFacts.
Import Remote Remote.Notations Props.

Lemma bind_ok {A B} (m : M A) (f : A -> M B) o w b w' :
  bind m f o w = (Ok b, w') ->
  exists a w1, m o w = (Ok a, w1) /\ f a o w1 = (Ok b, w').
Proof.
  unfold bind. destruct (m o w) as [[a | e] w1]; [eauto | discriminate].
Qed.

Lemma bind_cases {A B} (m : M A) (f : A -> M B) o w r w' :
  bind m f o w = (r, w') ->
  (exists a w1, m o w = (Ok a, w1) /\ f a o w1 = (r, w'))
  \/ (exists e, m o w = (Throw e, w') /\ r = Throw e).
Proof.
  unfold bind. destruct (m o w) as [[a | e] w1]; intros H.
  - left. eauto.
  - right. injection H as <- <-. eauto.
Qed.

Lemma tryCatch_cases {A} (m : M A) (h : string -> M A) o w r w' :
  tryCatch m h o w = (r, w') ->
  (exists a, m o w = (Ok a, w') /\ r = Ok a)
  \/ (exists e w1, m o w = (Throw e, w1) /\ h e o w1 = (r, w')).
Proof.
  unfold tryCatch. destruct (m o w) as [[a | e] w1]; intros H.
  - left. injection H as <- <-. eauto.
  - right. eauto.
Qed.

Lemma perform_cases (c : Call) o w r w' :
  perform c o w = (r, w') ->
  log w' = (log w ++ [c])%list
  /\ ((r = Ok (List.length (log w)) /\ fails o (List.length (log w)) = None
       /\ labels w' = applyEffect c (labels w))
      \/ (exists e, r = Throw e /\ fails o (List.length (log w)) = Some e
                    /\ labels w' = labels w)).
Proof.
  unfold perform. destruct (fails o (List.length (log w))) as [e|];
    intros H; injection H as <- <-; simpl; split; auto.
  right. eauto.
Qed.

(** *** Emitted calls *)

Lemma emits_ret {A} (a : A) (P : list Call -> Prop) : P [] -> emits (ret a) P.
Proof.
  intros HP o w r w' H. injection H as <- <-. exists []. now rewrite app_nil_r.
Qed.

Lemma emits_throw {A} (e : string) (P : list Call -> Prop) :
  P [] -> emits (@throw A e) P.
Proof.
  intros HP o w r w' H. injection H as <- <-. exists []. now rewrite app_nil_r.
Qed.

Lemma emits_ask (P : list Call -> Prop) : P [] -> emits ask P.
Proof.
  intros HP o w r w' H. injection H as <- <-. exists []. now rewrite app_nil_r.
Qed.

Lemma emits_currentLabels (P : list Call -> Prop) : P [] -> emits currentLabels P.
Proof.
  intros HP o w r w' H. injection H as <- <-. exists []. now rewrite app_nil_r.
Qed.

Lemma emits_perform (c : Call) (P : list Call -> Prop) : P [c] -> emits (perform c) P.
Proof.
  intros HP o w r w' H. apply perform_cases in H. destruct H as [H _]. eauto.
Qed.

Lemma emits_query (c : Call) (P : list Call -> Prop) : P [c] -> emits (query c) P.
Proof.
  intros HP o w r w' H. injection H as <- <-. simpl. eauto.
Qed.

Lemma emits_weaken {A} (m : M A) (P Q : list Call -> Prop) :
  emits m P -> (forall t, P t -> Q t) -> emits m Q.
Proof.
  intros Hm HPQ o w r w' H. destruct (Hm _ _ _ _ H) as [t [Hl Ht]]. eauto.
Qed.

(** The calls of [bind m f]: those of [m], then those of [f]; [R] has to
    hold of the calls of [m] alone for the runs in which [m] throws. *)
Lemma emits_bind {A B} (m : M A) (f : A -> M B) (P Q R : list Call -> Prop) :
  emits m P -> (forall a, emits (f a) Q) ->
  (forall t1, P t1 -> R t1) ->
  (forall t1 t2, P t1 -> Q t2 -> R (t1 ++ t2)%list) ->
  emits (bind m f) R.
Proof.
  intros Hm Hf HP HPQ o w r w' H. apply bind_cases in H.
  destruct H as [[a [w1 [H1 H2]]] | [e [H1 _]]].
  - destruct (Hm _ _ _ _ H1) as [t1 [Hl1 Ht1]].
    destruct (Hf a _ _ _ _ H2) as [t2 [Hl2 Ht2]].
    exists (t1 ++ t2)%list. split; [|auto].
    now rewrite Hl2, Hl1, app_assoc.
  - destruct (Hm _ _ _ _ H1) as [t1 [Hl1 Ht1]]. eauto.
Qed.

Lemma emits_tryCatch {A} (m : M A) (h : string -> M A) (P Q R : list Call -> Prop) :
  emits m P -> (forall e, emits (h e) Q) ->
  (forall t1, P t1 -> R t1) ->
  (forall t1 t2, P t1 -> Q t2 -> R (t1 ++ t2)%list) ->
  emits (tryCatch m h) R.
Proof.
  intros Hm Hh HP HPQ o w r w' H. apply tryCatch_cases in H.
  destruct H as [[a [H1 _]] | [e [w1 [H1 H2]]]].
  - destruct (Hm _ _ _ _ H1) as [t1 [Hl1 Ht1]]. eauto.
  - destruct (Hm _ _ _ _ H1) as [t1 [Hl1 Ht1]].
    destruct (Hh e _ _ _ _ H2) as [t2 [Hl2 Ht2]].
    exists (t1 ++ t2)%list. split; [|auto].
    now rewrite Hl2, Hl1, app_assoc.
Qed.

Lemma emits_tryFinally {A} (m : M A) (c : M unit) (P Q R : list Call -> Prop) :
  emits m P -> emits c Q ->
  (forall t1 t2, P t1 -> Q t2 -> R (t1 ++ t2)%list) ->
  emits (tryFinally m c) R.
Proof.
  intros Hm Hc HPQ o w r w' H. unfold tryFinally in H.
  destruct (m o w) as [r1 w1] eqn:H1. destruct (c o w1) as [r2 w2] eqn:H2.
  destruct (Hm _ _ _ _ H1) as [t1 [Hl1 Ht1]].
  destruct (Hc _ _ _ _ H2) as [t2 [Hl2 Ht2]].
  exists (t1 ++ t2)%list. split; [|auto].
  destruct r2; injection H as <- <-; now rewrite Hl2, Hl1, app_assoc.
Qed.

Lemma emits_forEach {A} (l : list A) (body : A -> M unit) (P : list Call -> Prop) :
  (forall a, emits (body a) P) -> P [] ->
  (forall t1 t2, P t1 -> P t2 -> P (t1 ++ t2)%list) ->
  emits (forEach l body) P.
Proof.
  intros Hb Hnil Happ. induction l as [|a l IH]; simpl.
  - now apply emits_ret.
  - apply (emits_bind _ _ P P); auto.
Qed.

(** *** Phases *)

Lemma ascending_weaken (lo lo' : nat) (t : list Call) :
  (lo' <= lo)%nat -> ascending lo t -> ascending lo' t.
Proof. destruct t; simpl; [auto|]. intros H [H1 H2]. split; [lia | exact H2]. Qed.

Lemma ascending_app (lo mid : nat) (t1 t2 : list Call) :
  ascending lo t1 -> Forall (fun c => (phase c <= mid)%nat) t1 ->
  ascending mid t2 -> (lo <= mid)%nat ->
  ascending lo (t1 ++ t2).
Proof.
  revert lo. induction t1 as [|c t1 IH]; intros lo H1 Hf H2 Hle; simpl.
  - now apply (ascending_weaken mid).
  - destruct H1 as [Hc H1]. inversion Hf; subst. split; [exact Hc|].
    apply IH; auto.
Qed.

Lemma between_nil (lo hi : nat) : between lo hi [].
Proof. split; [exact I | constructor]. Qed.

Lemma between_one (lo hi : nat) (c : Call) :
  (lo <= phase c <= hi)%nat -> between lo hi [c].
Proof. intros [H1 H2]. split; [simpl; auto | repeat constructor; exact H2]. Qed.

Lemma between_app (lo mid mid' hi : nat) (t1 t2 : list Call) :
  between lo mid t1 -> between mid' hi t2 ->
  (lo <= mid)%nat -> (mid <= mid')%nat -> (mid' <= hi)%nat ->
  between lo hi (t1 ++ t2).
Proof.
  intros [A1 F1] [A2 F2] H1 H2 H3. split.
  - apply (ascending_app lo mid); auto. now apply (ascending_weaken mid').
  - apply Forall_app. split; [|exact F2].
    eapply Forall_impl; [|exact F1]. simpl. intros. lia.
Qed.

Lemma between_weaken (lo lo' hi hi' : nat) (t : list Call) :
  between lo hi t -> (lo' <= lo)%nat -> (hi <= hi')%nat -> between lo' hi' t.
Proof.
  intros [A F] H1 H2. split; [now apply (ascending_weaken lo)|].
  eapply Forall_impl; [|exact F]. simpl. intros. lia.
Qed.

End MonadFacts.

Section AttemptOrder.
Import Review Remote Remote.Notations Props.
Import Reconciler CommentBuilder GitHubClient Session.

(** The calls of [bind m f] when those of [m] and of [f] lie in
    consecutive ranges of phases. *)
Lemma emits_bind_between {A B} (m : M A) (f : A -> M B) (lo mid mid' hi : nat) :
  emits m (between lo mid) -> (forall a, emits (f a) (between mid' hi)) ->
  (lo <= mid)%nat -> (mid <= mid')%nat -> (mid' <= hi)%nat ->
  emits (bind m f) (between lo hi).
Proof.
  intros Hm Hf H1 H2 H3.
  apply (emits_bind m f (between lo mid) (between mid' hi)); auto.
  - intros t1 Ht. apply (between_weaken lo lo mid hi); auto. lia.
  - intros t1 t2 Ht1 Ht2. apply (between_app lo mid mid' hi); auto.
Qed.

Lemma emits_perform_between (c : Call) (lo hi : nat) :
  (lo <= phase c <= hi)%nat -> emits (perform c) (between lo hi).
Proof. intros H. apply emits_perform. now apply between_one. Qed.

Lemma emits_query_between (c : Call) (lo hi : nat) :
  (lo <= phase c <= hi)%nat -> emits (query c) (between lo hi).
Proof. intros H. apply emits_query. now apply between_one. Qed.

Lemma emits_silent_between {A} (m : M A) (lo hi : nat) :
  (forall o w, exists r, m o w = (r, w)) -> emits m (between lo hi).
Proof.
  intros Hm o w r w' H. destruct (Hm o w) as [r0 Hr]. rewrite Hr in H.
  injection H as <- <-. exists []. split; [now rewrite app_nil_r | apply between_nil].
Qed.

Ltac silent := apply emits_silent_between; intros; eexists; reflexivity.

(** A range of phases widened to the range of the goal. *)
Ltac widen tac :=
  eapply emits_weaken;
  [ tac
  | let t := fresh "t" in
    let Ht := fresh "Ht" in
    intros t Ht; eapply between_weaken; [exact Ht | lia | lia] ].

(** [bind m f] with the calls of [m] in the phases [lo..mid], shown by
    [tac], and those of [f] in [mid'..hi]. *)
Ltac step lo mid mid' hi tac :=
  apply (emits_bind_between _ _ lo mid mid' hi);
  [first [solve [tac] | widen tac] | intros | lia | lia | lia].

(** A computation that performs one call of phase [p] and returns a value
    computed from the answer of the oracle. *)
Ltac one_call p :=
  step p p p p ltac:(first [apply (emits_perform_between _ p p)
                           | apply (emits_query_between _ p p)]; simpl; lia);
  try (step p p p p silent); silent.

Lemma emits_checkCli : emits checkClaudeCliAvailable (between 1 1).
Proof. unfold checkClaudeCliAvailable. one_call 1%nat. Qed.

Lemma emits_changedFiles pr : emits (getChangedFilesCount pr) (between 1 1).
Proof. unfold getChangedFilesCount. one_call 1%nat. Qed.

Lemma emits_isNonCode pr : emits (isNonCodePR pr) (between 1 1).
Proof. unfold isNonCodePR. one_call 1%nat. Qed.

Lemma emits_submitReview pr action body : emits (submitReview pr action body) (between 9 9).
Proof. unfold submitReview. destruct action; one_call 9%nat. Qed.

Lemma emits_clone pr dir : emits (cloneRepository pr dir) (between 3 3).
Proof.
  unfold cloneRepository.
  do 4 (step 3%nat 3%nat 3%nat 3%nat
             ltac:(apply (emits_perform_between _ 3 3); simpl; lia)).
  silent.
Qed.

Lemma emits_runClaude dir : emits (runClaudeReview dir) (between 4 4).
Proof. unfold runClaudeReview. one_call 4%nat. Qed.

Lemma emits_existing pr : emits (getExistingBotComments pr) (between 5 5).
Proof. unfold getExistingBotComments. one_call 5%nat. Qed.

Lemma emits_resolve pr i : emits (resolveComment pr i) (between 6 6).
Proof.
  unfold resolveComment.
  step 6%nat 6%nat 6%nat 6%nat ltac:(apply (emits_perform_between _ 6 6); simpl; lia).
  step 6%nat 6%nat 6%nat 6%nat silent.
  destruct (JS.truthyNumber _); [silent|].
  apply (emits_tryCatch _ _ (between 6 6) (between 6 6)).
  - one_call 6%nat.
  - intros. silent.
  - auto.
  - intros t1 t2 H1 H2. apply (between_app 6 6 6 6); auto.
Qed.

Lemma emits_createComment pr f body : emits (createReviewComment pr f body) (between 7 7).
Proof. unfold createReviewComment. one_call 7%nat. Qed.

Lemma emits_dismiss pr : emits (dismissStaleReview pr) (between 8 8).
Proof.
  unfold dismissStaleReview.
  step 8%nat 8%nat 8%nat 8%nat ltac:(apply (emits_perform_between _ 8 8); simpl; lia).
  step 8%nat 8%nat 8%nat 8%nat silent.
  destruct (find _ _); [one_call 8%nat | silent].
Qed.

Lemma emits_forEach_between {A} (l : list A) (body : A -> M unit) (p : nat) :
  (forall a, emits (body a) (between p p)) -> emits (forEach l body) (between p p).
Proof.
  intros H. apply emits_forEach; auto.
  - apply between_nil.
  - intros t1 t2 H1 H2. apply (between_app p p p p); auto.
Qed.

Lemma emits_reviewInWorkDir pr dir : emits (reviewInWorkDir pr dir) (between 3 9).
Proof.
  unfold reviewInWorkDir.
  step 3%nat 3%nat 4%nat 9%nat ltac:(apply emits_clone).
  step 4%nat 4%nat 5%nat 9%nat ltac:(apply emits_runClaude).
  destruct (if CliRunner.success _ then _ else None) as [result|]; [|silent].
  destruct (status result);
    try (step 5%nat 9%nat 9%nat 9%nat ltac:(apply emits_submitReview); silent).
  all: step 5%nat 5%nat 6%nat 9%nat ltac:(apply emits_existing);
    step 6%nat 6%nat 7%nat 9%nat
         ltac:(apply emits_forEach_between; intros; apply emits_resolve);
    step 7%nat 7%nat 8%nat 9%nat
         ltac:(apply emits_forEach_between; intros; apply emits_createComment);
    step 8%nat 8%nat 9%nat 9%nat
         ltac:(destruct (shouldDismissPreviousReview _);
               [apply emits_dismiss | silent]);
    step 9%nat 9%nat 9%nat 9%nat ltac:(apply emits_submitReview); silent.
Qed.


End AttemptOrder.

Section SessionOrder.
Import Review Remote Remote.Notations Props.
Import Reconciler CommentBuilder GitHubClient Session.



Lemma emits_bind_forall {A B} (m : M A) (f : A -> M B) (Q : Call -> Prop) :
  emits m (Forall Q) -> (forall a, emits (f a) (Forall Q)) ->
  emits (bind m f) (Forall Q).
Proof.
  intros Hm Hf. apply (emits_bind m f (Forall Q) (Forall Q)); auto.
  intros t1 t2 H1 H2. apply Forall_app. now split.
Qed.



Lemma emits_setLabels pr (pending : bool) :
  emits (setLabels pr pending) (if pending then pendingBlock else reviewedBlock).
Proof.
  assert (Hret : forall (Q : Call -> Prop), emits (ret tt) (Forall Q)).
  { intros Q. now apply emits_ret. }
  assert (Hone : forall (Q : Call -> Prop) c, Q c -> emits (perform c ;;; ret tt) (Forall Q)).
  { intros Q c Hc. apply emits_bind_forall; [|intros; apply Hret].
    apply emits_perform. now repeat constructor. }
  unfold setLabels, pendingBlock, reviewedBlock.
  destruct pending.
  - apply emits_bind_forall; [apply emits_perform; repeat constructor; auto | intros _].
    apply emits_bind_forall; [now apply emits_currentLabels | intros current].
    apply emits_bind_forall.
    + simpl forEach. apply emits_bind_forall; [|intros; apply Hret].
      destruct (existsb _ current); [apply Hone; auto | apply Hret].
    + intros _. destruct (negb _); [apply Hone; auto | apply Hret].
  - apply emits_bind_forall; [apply emits_perform; repeat constructor; auto | intros _].
    apply emits_bind_forall; [now apply emits_currentLabels | intros current].
    apply emits_bind_forall.
    + simpl forEach. apply emits_bind_forall; [|intros; apply Hret].
      destruct (existsb _ current); [apply Hone; auto | apply Hret].
    + intros _. destruct (negb _); [apply Hone; auto | apply Hret].
Qed.


Lemma reviewedBlock_nil : reviewedBlock [].
Proof. constructor. Qed.





End SessionOrder.

Section SessionOrderTheorem.
Import Review Remote Remote.Notations Props.
Import Reconciler CommentBuilder GitHubClient Session.





End SessionOrderTheorem.

Section LabelTheorem.
Import Review Remote Remote.Notations Props.
Import Reconciler CommentBuilder GitHubClient Session.

Lemma removeString_spec (name x : string) (l : list string) :
  In x (removeString name l) <-> In x l /\ x <> name.
Proof.
  unfold removeString. rewrite filter_In, negb_true_iff, String.eqb_neq. tauto.
Qed.

Lemma existsb_eqb_In (name : string) (l : list string) :
  existsb (String.eqb name) l = true <-> In name l.
Proof.
  rewrite existsb_exists. split.
  - intros [x [Hx He]]. apply String.eqb_eq in He. now subst.
  - intros H. exists name. split; [exact H | apply String.eqb_refl].
Qed.

(** A flip of the label that succeeds leaves the pending label removed
    and the reviewed label set. *)
Lemma setLabels_false_flips pr o w w' :
  setLabels pr false o w = (Ok tt, w') -> labelsFlipped (labels w').
Proof.
  unfold setLabels, labelsFlipped. intros H.
  apply bind_ok in H. destruct H as [n [w1 [H1 H]]].
  apply perform_cases in H1. destruct H1 as [_ [[_ [_ Hl1]] | [e [He _]]]];
    [|discriminate He].
  cbn [applyEffect] in Hl1.
  apply bind_ok in H. destruct H as [current [w2 [H2 H]]].
  injection H2 as <- <-.
  apply bind_ok in H. destruct H as [u [w3 [H3 H]]].
  assert (Hpending : ~ In LABEL_PENDING (labels w3)
                     /\ (In LABEL_REVIEWED (labels w1) -> In LABEL_REVIEWED (labels w3))
                     /\ (~ In LABEL_REVIEWED (labels w1) -> ~ In LABEL_REVIEWED (labels w3))).
  { cbn [forEach] in H3. apply bind_ok in H3. destruct H3 as [u' [w4 [H3 H4]]].
    injection H4 as _ <-.
    destruct (existsb (String.eqb LABEL_PENDING) (labels w1)) eqn:Hex.
    - apply bind_ok in H3. destruct H3 as [n' [w5 [H3 H5]]]. injection H5 as _ <-.
      apply perform_cases in H3. destruct H3 as [_ [[_ [_ Hl]] | [e [He _]]]];
        [|discriminate He].
      rewrite Hl. cbn [applyEffect]. repeat split.
      + rewrite removeString_spec. tauto.
      + intros Hr. apply removeString_spec. split; [exact Hr | discriminate].
      + intros Hr Hin. apply removeString_spec in Hin. tauto.
    - injection H3 as _ <-. repeat split; auto.
      intros Hin. apply existsb_eqb_In in Hin. congruence. }
  destruct Hpending as [Hp [Hr Hnr]].
  destruct (existsb (String.eqb LABEL_REVIEWED) (labels w1)) eqn:Hex; cbn [negb] in H.
  - injection H as <-. split; [exact Hp|]. apply Hr. now apply existsb_eqb_In.
  - apply bind_ok in H. destruct H as [n' [w5 [H5 H6]]]. injection H6 as <-.
    apply perform_cases in H5. destruct H5 as [_ [[_ [_ Hl]] | [e [He _]]]];
      [|discriminate He].
    rewrite Hl. cbn [applyEffect].
    destruct (existsb (String.eqb LABEL_REVIEWED) (labels w3)) eqn:Hex3.
    + split; [exact Hp | now apply existsb_eqb_In].
    + split.
      * intros Hin. apply in_app_or in Hin. destruct Hin as [Hin | [Hin | []]];
          [now apply Hp | discriminate Hin].
      * apply in_or_app. right. now left.
Qed.

Lemma endsFlipped_tryCatch {A} (m : M A) (h : string -> M A) :
  endsFlipped m -> (forall e, endsFlipped (h e)) -> endsFlipped (tryCatch m h).
Proof.
  intros Hm Hh o w a w' H. apply tryCatch_cases in H.
  destruct H as [[a' [H1 Ha]] | [e [w1 [H1 H2]]]].
  - injection Ha as <-. exact (Hm _ _ _ _ H1).
  - exact (Hh e _ _ _ _ H2).
Qed.

Lemma endsFlipped_attempt_flip config pr :
  endsFlipped (outcome <- performReview config pr ;; setLabels pr false ;;; ret outcome).
Proof.
  intros o w a w' H.
  apply bind_ok in H. destruct H as [outcome [w1 [_ H]]].
  apply bind_ok in H. destruct H as [[] [w2 [H2 H3]]]. injection H3 as _ <-.
  exact (setLabels_false_flips _ _ _ _ H2).
Qed.

Lemma endsFlipped_error_flip pr message :
  endsFlipped (postErrorComment pr message ;;; setLabels pr false ;;;
               ret (errorOutcome message)).
Proof.
  intros o w a w' H.
  apply bind_ok in H. destruct H as [u [w1 [_ H]]].
  apply bind_ok in H. destruct H as [[] [w2 [H2 H3]]]. injection H3 as _ <-.
  exact (setLabels_false_flips _ _ _ _ H2).
Qed.

(** *** Values returned *)

Lemma yields_bind {A B} (m : M A) (f : A -> M B) (Q : B -> Prop) :
  (forall a, yields (f a) Q) -> yields (bind m f) Q.
Proof.
  intros Hf o w b w' H. apply bind_ok in H. destruct H as [a [w1 [_ H]]].
  exact (Hf a _ _ _ _ H).
Qed.

Lemma yields_ret {A} (a : A) (Q : A -> Prop) : Q a -> yields (ret a) Q.
Proof. intros HQ o w a' w' H. injection H as <- _. exact HQ. Qed.

Lemma yields_throw {A} (e : string) (Q : A -> Prop) : yields (throw e) Q.
Proof. intros o w a w' H. discriminate H. Qed.

Lemma yields_tryFinally {A} (m : M A) (c : M unit) (Q : A -> Prop) :
  yields m Q -> yields (tryFinally m c) Q.
Proof.
  intros Hm o w a w' H. unfold tryFinally in H.
  destruct (m o w) as [r w1] eqn:H1. destruct (c o w1) as [[u | e] w2];
    [|discriminate H].
  injection H as -> _. exact (Hm _ _ _ _ H1).
Qed.

(** An attempt that returns reports a review or a skip, never an error. *)
Lemma performReview_action config pr :
  yields (performReview config pr)
         (fun out => out_action out = Some reviewed \/ out_action out = Some skipped_pr).
Proof.
  unfold performReview.
  apply yields_bind. intros cliOk. destruct (negb cliOk); [apply yields_throw|].
  apply yields_bind. intros changed. destruct (JS.greaterThan changed _).
  { apply yields_bind. intros _. apply yields_ret. now right. }
  apply yields_bind. intros nonCode. destruct nonCode.
  { apply yields_bind. intros _. apply yields_ret. now right. }
  apply yields_bind. intros workDir. apply yields_bind. intros _.
  apply yields_tryFinally. unfold reviewInWorkDir.
  apply yields_bind. intros _. apply yields_bind. intros cliResult.
  destruct (if CliRunner.success cliResult then CliRunner.result cliResult else None)
    as [result|]; [|apply yields_throw].
  destruct (status result);
    try (apply yields_bind; intros _; apply yields_ret; now right);
    repeat (apply yields_bind; intros ?); apply yields_ret; now left.
Qed.

End LabelTheorem.

Section LabelGuarantee.
Import Review Remote Remote.Notations Props.
Import Reconciler CommentBuilder GitHubClient Session.

(** C5 fails on the code.  When both attempts fail and the call that
    posts the error comment is refused, [runReview] rejects with the error
    of that call: the error comment is the last call of the session, no
    label call follows it, and the pending label is still set. *)
Lemma pending_label_left_when_comment_refused :
  run (runReview sampleConfig sampleRequest) commentRefusedOracle ["bug"]
  = (Throw "HttpError: Resource not accessible by integration",
     mkWorld ["bug"; LABEL_PENDING]
             [PullsGet; IssuesGet; AddLabels LABEL_PENDING; ClaudeVersion; ClaudeVersion;
              CreateIssueComment
                (errorCommentBody samplePR "Claude CLI is not available")]).
Proof. vm_compute. reflexivity. Qed.

Lemma fetch_ok (request : ReviewRequest) (o : Oracle) (ls : list string) :
  fails o 0%nat = None ->
  tryCatch
    (pr <- getPullRequestInfo (req_owner request) (req_repo request)
                              (req_prNumber request) ;;
     ret (inr pr))
    (fun message =>
       ret (inl (errorOutcome ("Failed to get PR info: " ++ message))))
    o (mkWorld ls [])
  = (Ok (inr (mkPR (req_owner request) (req_repo request) (req_prNumber request)
                   (base_ref (pullData o 0%nat)) (head_ref (pullData o 0%nat))
                   (head_sha (pullData o 0%nat)))),
     mkWorld ls [PullsGet]).
Proof.
  intros Hf. unfold tryCatch, getPullRequestInfo, bind, perform, ask, ret.
  simpl. rewrite Hf. reflexivity.
Qed.

(** When the fetch of the pull request fails, the session returns an
    error outcome and issues no other call. *)
Lemma fetch_failed (config : ReviewerConfig) (request : ReviewRequest)
      (o : Oracle) (ls : list string) (e : string) :
  fails o 0%nat = Some e ->
  run (runReview config request) o ls
  = (Ok (errorOutcome ("Failed to get PR info: " ++ e)), mkWorld ls [PullsGet]).
Proof.
  intros Hf. unfold run, runReview, tryCatch, getPullRequestInfo, bind, perform, ask, ret.
  simpl. rewrite Hf. reflexivity.
Qed.

(** The error comment and the label flip, when they return. *)
Lemma error_flip_posts pr message o w out w' :
  (postErrorComment pr message ;;; setLabels pr false ;;; ret (errorOutcome message))
    o w = (Ok out, w') ->
  out = errorOutcome message
  /\ exists t2, log w' = (log w ++ CreateIssueComment (errorCommentBody pr message) :: t2)%list
                /\ reviewedBlock t2.
Proof.
  intros H. apply bind_ok in H. destruct H as [u [w1 [H1 H]]].
  apply bind_ok in H. destruct H as [u' [w2 [H2 H3]]]. injection H3 as <- <-.
  split; [reflexivity|].
  unfold postErrorComment in H1. apply bind_ok in H1.
  destruct H1 as [n [w3 [H1 H4]]]. injection H4 as _ <-.
  apply perform_cases in H1. destruct H1 as [Hlog _].
  destruct (emits_setLabels pr false _ _ _ _ H2) as [t2 [Hl2 Ht2]].
  exists t2. split; [|exact Ht2]. rewrite Hl2, Hlog, <- app_assoc. reflexivity.
Qed.

Lemma attempt_flip_action config pr o w out w' :
  (outcome <- performReview config pr ;; setLabels pr false ;;; ret outcome)
    o w = (Ok out, w') ->
  out_action out <> Some error_outcome.
Proof.
  intros H. apply bind_ok in H. destruct H as [outcome [w1 [H1 H]]].
  apply bind_ok in H. destruct H as [u [w2 [_ H3]]]. injection H3 as <- _.
  destruct (performReview_action config pr _ _ _ _ H1) as [Ha | Ha];
    rewrite Ha; discriminate.
Qed.

(** The runs that return.  Whenever [runReview] returns an outcome after
    the pull request was fetched, the pending label is cleared and the
    reviewed label is applied.  An error outcome is returned only after the error
    comment was posted on the pull request, and the calls of the label flip
    are the last calls of the session. *)
Theorem labels_flipped_on_return
        (config : ReviewerConfig) (request : ReviewRequest)
        (o : Oracle) (ls : list string) (out : ReviewOutcome) (w' : World)
        (Hrun : run (runReview config request) o ls = (Ok out, w'))
        (Hfetch : fails o 0%nat = None) :
  labelsFlipped (labels w')
  /\ (out_action out = Some error_outcome ->
      out_success out = false
      /\ exists pr t1 t2,
          log w' = (t1 ++ CreateIssueComment (errorCommentBody pr (out_message out))
                       :: t2)%list
          /\ reviewedBlock t2).
Proof.
  unfold run, runReview in Hrun.
  apply bind_ok in Hrun. destruct Hrun as [fetched [w1 [H1 H]]].
  rewrite (fetch_ok request o ls Hfetch) in H1. injection H1 as <- <-.
  cbv iota beta in H.
  set (pr := mkPR _ _ _ _ _ _) in H.
  apply bind_ok in H. destruct H as [u [w2 [_ H]]].
  split.
  - refine ((_ : endsFlipped
                   (tryCatch
                      (outcome <- performReview config pr ;;
                       setLabels pr false ;;; ret outcome)
                      (fun message =>
                         if retryOnError config
                         then tryCatch
                                (outcome <- performReview config pr ;;
                                 setLabels pr false ;;; ret outcome)
                                (fun retryMessage =>
                                   postErrorComment pr retryMessage ;;;
                                   setLabels pr false ;;;
                                   ret (errorOutcome retryMessage))
                         else postErrorComment pr message ;;;
                              setLabels pr false ;;; ret (errorOutcome message))))
              o w2 out w' H).
    apply endsFlipped_tryCatch; [apply endsFlipped_attempt_flip | intros message].
    destruct (retryOnError config).
    + apply endsFlipped_tryCatch;
        [apply endsFlipped_attempt_flip | intros; apply endsFlipped_error_flip].
    + apply endsFlipped_error_flip.
  - intros Herr.
    assert (Hpost : exists message w3,
               (postErrorComment pr message ;;; setLabels pr false ;;;
                ret (errorOutcome message)) o w3 = (Ok out, w')).
    { apply tryCatch_cases in H.
      destruct H as [[a [H Ha]] | [e [w3 [_ H]]]].
      - injection Ha as <-. now apply attempt_flip_action in H.
      - destruct (retryOnError config); [|eauto].
        apply tryCatch_cases in H.
        destruct H as [[a [H Ha]] | [e' [w4 [_ H]]]]; [|eauto].
        injection Ha as <-. now apply attempt_flip_action in H. }
    destruct Hpost as [message [w3 Hpost]].
    apply error_flip_posts in Hpost. destruct Hpost as [-> [t2 [Hlog Ht2]]].
    split; [reflexivity|]. exists pr, (log w3), t2. split; [exact Hlog | exact Ht2].
Qed.

(** The same at a session in which the engine executable is
    missing: both attempts fail, the error comment is posted, the outcome
    is an error and the label is flipped. *)
Lemma labels_flipped_on_return_witness :
  fails cliMissingOracle 0%nat = None
  /\ labelsFlipped
       (labels (snd (run (runReview sampleConfig sampleRequest) cliMissingOracle ["bug"]))).
Proof.
  split; [reflexivity|].
  refine (proj1 (labels_flipped_on_return sampleConfig sampleRequest cliMissingOracle
                   ["bug"] (errorOutcome "Claude CLI is not available") _ _ eq_refl)).
  vm_compute. reflexivity.
Defined.

End LabelGuarantee.

Section VerdictTheorem.
Import Review Remote Remote.Notations Props.
Import Reconciler CommentBuilder GitHubClient Session.

Lemma submitReview_ok pr action body o w u w' :
  submitReview pr action body o w = (Ok u, w') ->
  log w' = (log w ++ [submitCall action body])%list.
Proof.
  unfold submitReview, submitCall. intros H.
  destruct action; apply bind_ok in H; destruct H as [n [w1 [H1 H2]]];
    injection H2 as _ <-; apply perform_cases in H1; tauto.
Qed.

Lemma emits_any {A} (m : M A) (P : list Call -> Prop) o w r w' :
  emits m P -> m o w = (r, w') -> exists t, log w' = (log w ++ t)%list.
Proof. intros Hm H. destruct (Hm _ _ _ _ H) as [t [Hl _]]. eauto. Qed.

(** A review in the workspace that reports [reviewed]: the summary is the
    last call, and it carries the verdict on all findings of the engine. *)
Lemma reviewInWorkDir_reviewed pr dir o w out w' :
  reviewInWorkDir pr dir o w = (Ok out, w') ->
  out_action out = Some reviewed ->
  exists n result pre,
    CliRunner.result (cliRun o n) = Some result
    /\ nth_error (log w') n = Some (ClaudeReview dir)
    /\ log w' = (log w ++ pre
                   ++ [submitCall (determineReviewAction (findings result))
                                  (buildReviewSummary result (headSha pr))])%list
    /\ out = mkOutcome true (Some reviewed)
                       ("Review complete: "
                          ++ actionName (determineReviewAction (findings result)))
                       (Some (Z.of_nat (List.length (findings result)))).
Proof.
  unfold reviewInWorkDir. intros H Hrev.
  apply bind_ok in H. destruct H as [p [w1 [H1 H]]].
  destruct (emits_any _ _ _ _ _ _ (emits_clone pr dir) H1) as [t1 Hl1].
  apply bind_ok in H. destruct H as [cliResult [w2 [H2 H]]].
  unfold runClaudeReview, bind, query, ask, ret in H2. simpl in H2.
  injection H2 as <- <-.
  set (n := List.length (log w1)) in *.
  destruct (CliRunner.success (cliRun o n)) eqn:Hs; [|discriminate H].
  destruct (CliRunner.result (cliRun o n)) as [result|] eqn:Hres; [|discriminate H].
  assert (Hbody :
            (existingComments <- getExistingBotComments pr ;;
             forEach (fixedCommentIds (reconcileFindings (findings result) existingComments))
                     (fun commentId => resolveComment pr commentId) ;;;
             forEach (sortFindingsBySeverity
                        (newFindings (reconcileFindings (findings result) existingComments)))
                     (fun finding =>
                        createReviewComment pr finding
                          (buildFindingComment finding (headSha pr))) ;;;
             (if shouldDismissPreviousReview (findings result)
              then dismissStaleReview pr else ret tt) ;;;
             submitReview pr (determineReviewAction (findings result))
                          (buildReviewSummary result (headSha pr)) ;;;
             ret (mkOutcome true (Some reviewed)
                            ("Review complete: "
                               ++ actionName (determineReviewAction (findings result)))
                            (Some (Z.of_nat (List.length (findings result))))))
              o (mkWorld (labels w1) (log w1 ++ [ClaudeReview dir])) = (Ok out, w')).
  { destruct (status result); try exact H.
    apply bind_ok in H. destruct H as [u [w3 [_ H]]]. injection H as <- _.
    discriminate Hrev. }
  clear H. rename Hbody into H.
  apply bind_ok in H. destruct H as [existing [w3 [H3 H]]].
  destruct (emits_any _ _ _ _ _ _ (emits_existing pr) H3) as [t3 Hl3].
  apply bind_ok in H. destruct H as [u4 [w4 [H4 H]]].
  destruct (emits_any _ _ _ _ _ _
              (emits_forEach_between _ _ 6 (fun i => emits_resolve pr i)) H4)
    as [t4 Hl4].
  apply bind_ok in H. destruct H as [u5 [w5 [H5 H]]].
  destruct (emits_any _ _ _ _ _ _
              (emits_forEach_between _ _ 7
                 (fun f => emits_createComment pr f
                             (buildFindingComment f (headSha pr)))) H5)
    as [t5 Hl5].
  apply bind_ok in H. destruct H as [u6 [w6 [H6 H]]].
  assert (Hl6 : exists t6, log w6 = (log w5 ++ t6)%list).
  { destruct (shouldDismissPreviousReview (findings result)).
    - exact (emits_any _ _ _ _ _ _ (emits_dismiss pr) H6).
    - injection H6 as _ <-. exists []. now rewrite app_nil_r. }
  destruct Hl6 as [t6 Hl6].
  apply bind_ok in H. destruct H as [u7 [w7 [H7 H]]].
  apply submitReview_ok in H7. injection H as <- <-.
  exists n, result, (t1 ++ [ClaudeReview dir] ++ t3 ++ t4 ++ t5 ++ t6)%list.
  split; [exact Hres|].
  assert (Hlog : log w7
                 = (log w ++ (t1 ++ [ClaudeReview dir] ++ t3 ++ t4 ++ t5 ++ t6)
                      ++ [submitCall (determineReviewAction (findings result))
                                     (buildReviewSummary result (headSha pr))])%list).
  { rewrite H7, Hl6, Hl5, Hl4, Hl3. simpl log. rewrite Hl1.
    rewrite <- !app_assoc. reflexivity. }
  split; [|split; [exact Hlog | reflexivity]].
  rewrite Hlog. subst n. rewrite Hl1.
  rewrite !app_assoc. rewrite <- !app_assoc.
  rewrite (app_assoc (log w) t1). rewrite nth_error_app2 by lia.
  now rewrite Nat.sub_diag.
Qed.

End VerdictTheorem.

Section VerdictInSession.
Import Review Remote Remote.Notations Props.
Import Reconciler CommentBuilder GitHubClient Session.

Lemma tryFinally_ok {A} (m : M A) (c : M unit) o w a w' :
  tryFinally m c o w = (Ok a, w') ->
  exists w1 u, m o w = (Ok a, w1) /\ c o w1 = (Ok u, w').
Proof.
  unfold tryFinally. destruct (m o w) as [r w1]. destruct (c o w1) as [[u | e] w2] eqn:Hc;
    intros H; [|discriminate H].
  injection H as -> <-. eauto.
Qed.

(** C3: [determineReviewAction] returns [request_changes] iff some
    finding is critical, [comment] iff none is critical and some finding is
    high, and [approve] otherwise, so also on the empty list.  In a
    session, an attempt that ends with the outcome [reviewed] has submitted,
    as its last remote call before the workspace is removed, the summary
    with the verdict [determineReviewAction] gives on all findings of the
    result that the engine returned in this attempt (not on the findings
    that reconciliation kept for posting), and its message names that
    verdict. *)
Theorem verdict_from_all_findings
        (fs : list Finding) (config : ReviewerConfig) (pr : PullRequestInfo)
        (o : Oracle) (w : World) (out : ReviewOutcome) (w' : World)
        (Hrun : performReview config pr o w = (Ok out, w'))
        (Hreviewed : out_action out = Some reviewed) :
  (determineReviewAction fs = request_changes
   <-> exists f, In f fs /\ severity f = critical)
  /\ (determineReviewAction fs = comment
      <-> (~ exists f, In f fs /\ severity f = critical)
          /\ exists f, In f fs /\ severity f = high)
  /\ (determineReviewAction fs = approve
      <-> (~ exists f, In f fs /\ severity f = critical)
          /\ ~ exists f, In f fs /\ severity f = high)
  /\ determineReviewAction [] = approve
  /\ exists n result dir pre,
      CliRunner.result (cliRun o n) = Some result
      /\ nth_error (log w') n = Some (ClaudeReview dir)
      /\ log w' = (log w ++ pre
                     ++ [submitCall (determineReviewAction (findings result))
                                    (buildReviewSummary result (headSha pr));
                         Rm dir])%list
      /\ out = mkOutcome true (Some reviewed)
                         ("Review complete: "
                            ++ actionName (determineReviewAction (findings result)))
                         (Some (Z.of_nat (List.length (findings result)))).
Proof.
  split; [apply determineReviewAction_request|].
  split; [apply determineReviewAction_comment|].
  split; [apply determineReviewAction_approve|].
  split; [reflexivity|].
  unfold performReview in Hrun.
  apply bind_ok in Hrun. destruct Hrun as [cliOk [w1 [H1 H]]].
  destruct (emits_any _ _ _ _ _ _ emits_checkCli H1) as [t1 Hl1].
  destruct (negb cliOk); [discriminate H|].
  apply bind_ok in H. destruct H as [changed [w2 [H2 H]]].
  destruct (emits_any _ _ _ _ _ _ (emits_changedFiles pr) H2) as [t2 Hl2].
  destruct (JS.greaterThan changed _).
  { apply bind_ok in H. destruct H as [u [w3 [_ H]]]. injection H as <- _.
    discriminate Hreviewed. }
  apply bind_ok in H. destruct H as [nonCode [w3 [H3 H]]].
  destruct (emits_any _ _ _ _ _ _ (emits_isNonCode pr) H3) as [t3 Hl3].
  destruct nonCode.
  { apply bind_ok in H. destruct H as [u [w4 [_ H]]]. injection H as <- _.
    discriminate Hreviewed. }
  apply bind_ok in H. destruct H as [workDir [w4 [H4 H]]].
  assert (w4 = w3) by (unfold newWorkDir in H4; now injection H4). subst w4.
  clear H4. rename workDir into dir.
  apply bind_ok in H. destruct H as [n5 [w5 [H5 H]]].
  apply perform_cases in H5. destruct H5 as [Hl5 _].
  apply tryFinally_ok in H. destruct H as [w6 [u [H6 H7]]].
  destruct (reviewInWorkDir_reviewed pr dir o w5 out w6 H6 Hreviewed)
    as [n [result [pre [Hres [Hnth [Hlog Hout]]]]]].
  apply bind_ok in H7. destruct H7 as [n7 [w7 [H7 H8]]]. injection H8 as _ <-.
  apply perform_cases in H7. destruct H7 as [Hl7 _].
  exists n, result, dir, (t1 ++ t2 ++ t3 ++ [Mkdir dir] ++ pre)%list.
  split; [exact Hres|].
  assert (Hfull : log w7
                  = (log w ++ (t1 ++ t2 ++ t3 ++ [Mkdir dir] ++ pre)
                       ++ [submitCall (determineReviewAction (findings result))
                                      (buildReviewSummary result (headSha pr));
                           Rm dir])%list).
  { rewrite Hl7, Hlog, Hl5, Hl3, Hl2, Hl1. rewrite <- !app_assoc. reflexivity. }
  split; [|split; [exact Hfull | exact Hout]].
  rewrite Hl7. rewrite nth_error_app1; [exact Hnth|].
  apply nth_error_Some. rewrite Hnth. discriminate.
Qed.

(** The verdict at a session whose engine reports a critical finding that
    an earlier session already commented on and a new finding of low
    severity: the findings kept for posting alone would give [approve], the
    session requests changes. *)
Lemma verdict_from_all_findings_witness :
  determineReviewAction (findings sampleResult) = request_changes
  /\ determineReviewAction
       (newFindings (reconcileFindings (findings sampleResult)
                                       (botCommentsOf sampleRawComments)))
     = approve
  /\ out_message
       (match fst (performReview sampleConfig samplePR reviewingOracle (mkWorld [] [])) with
        | Ok out => out
        | Throw e => errorOutcome e
        end)
     = "Review complete: request_changes".
Proof.
  pose proof (verdict_from_all_findings (findings sampleResult) sampleConfig samplePR
                reviewingOracle (mkWorld [] [])
                (mkOutcome true (Some reviewed) "Review complete: request_changes"
                           (Some 2))
                (snd (performReview sampleConfig samplePR reviewingOracle (mkWorld [] [])))
                ltac:(vm_compute; reflexivity) eq_refl) as H.
  split; [|split; vm_compute; reflexivity].
  apply (proj1 H). exists plainFinding. split; [now left | reflexivity].
Defined.

End VerdictInSession.

Section ReconcileMore.
Import Review Reconciler Props Terms.

Lemma blocking_critical_in (fs : list Finding) (cs : list Comment.ExistingComment) :
  hasBlockingIssuesRemaining fs cs = true ->
  exists f, In f fs /\ severity f = critical
            /\ forall c, In c cs -> Comment.hash c <> Some (hash f).
Proof.
  unfold hasBlockingIssuesRemaining. rewrite reconcile_new, Nat.ltb_lt.
  intros Hlen.
  destruct (filter _ (filter _ fs)) as [|f l] eqn:Hf; [simpl in Hlen; lia|].
  assert (Hin : In f (f :: l)) by now left.
  rewrite <- Hf in Hin. apply filter_In in Hin. destruct Hin as [Hin Hsev].
  apply filter_In in Hin. destruct Hin as [Hin Hnew].
  exists f. split; [exact Hin|]. split.
  - destruct (severity f); try discriminate; reflexivity.
  - intros c Hc Hh. apply negb_true_iff, has_false_In in Hnew. apply Hnew.
    apply existingHashesOf_In. eauto.
Qed.

(** X1: A blocking issue remains exactly when some current finding is critical
    and no existing comment carries its hash: a critical finding that was
    commented on before does not block. *)
Theorem blocking_iff_uncommented_critical
        (fs : list Finding) (cs : list Comment.ExistingComment) :
  hasBlockingIssuesRemaining fs cs = true
  <-> exists f, In f fs /\ severity f = critical
                /\ forall c, In c cs -> Comment.hash c <> Some (hash f).
Proof.
  split; [apply blocking_critical_in|].
  intros [f [Hin [Hsev Hfree]]].
  unfold hasBlockingIssuesRemaining. rewrite reconcile_new, Nat.ltb_lt.
  assert (Hf : In f (filter (fun f => Severity_eqb (severity f) critical)
                       (filter (fun f => negb (has (existingHashesOf cs) (hash f))) fs))).
  { apply filter_In. split; [|now rewrite Hsev].
    apply filter_In. split; [exact Hin|].
    apply negb_true_iff, has_false_In. intros Hh.
    apply existingHashesOf_In in Hh. destruct Hh as [c [Hc Hh]]. now apply (Hfree c). }
  destruct (filter _ (filter _ fs)); [contradiction | simpl; lia].
Qed.

(** X2: The previous review is dismissed exactly when the verdict on the
    findings is not [request_changes], that is when no finding is critical;
    a blocking issue that remains rules the dismissal out. *)
Theorem dismissal_iff_not_request_changes
        (fs : list Finding) (cs : list Comment.ExistingComment) :
  (shouldDismissPreviousReview fs = true <-> determineReviewAction fs <> request_changes)
  /\ (shouldDismissPreviousReview fs = true
      <-> forall f, In f fs -> severity f <> critical)
  /\ (hasBlockingIssuesRemaining fs cs = true -> shouldDismissPreviousReview fs = false).
Proof.
  assert (H1 : shouldDismissPreviousReview fs = true
               <-> determineReviewAction fs <> request_changes).
  { unfold shouldDismissPreviousReview, determineReviewAction.
    destruct (existsb (fun f => Severity_eqb (severity f) critical) fs); simpl.
    - split; [discriminate | intros H; now elim H].
    - split; [|reflexivity]. intros _.
      destruct (existsb _ fs); discriminate. }
  assert (H2 : shouldDismissPreviousReview fs = true
               <-> forall f, In f fs -> severity f <> critical).
  { rewrite H1, determineReviewAction_request. split.
    - intros H f Hf Hs. apply H. eauto.
    - intros H [f [Hf Hs]]. exact (H f Hf Hs). }
  split; [exact H1|]. split; [exact H2|].
  intros Hb. apply blocking_critical_in in Hb.
  destruct Hb as [f [Hf [Hs _]]].
  destruct (shouldDismissPreviousReview fs) eqn:Hd; [|reflexivity].
  exfalso. exact (proj1 H2 eq_refl f Hf Hs).
Qed.

Lemma filter_filter {A} (p q : A -> bool) (l : list A) :
  filter q (filter p l) = filter (fun a => p a && q a) l.
Proof.
  induction l as [|a l IH]; simpl; [reflexivity|].
  destruct (p a); simpl; [destruct (q a)|]; now rewrite IH.
Qed.

Lemma filter_split {A} (p q : A -> bool) (l : list A) :
  (forall a, p a = true -> q a = true -> False) ->
  Permutation (filter p l ++ filter q l) (filter (fun a => p a || q a) l).
Proof.
  intros Hex. induction l as [|a l IH]; simpl; [constructor|].
  destruct (p a) eqn:Hp, (q a) eqn:Hq; simpl.
  - exfalso. exact (Hex a Hp Hq).
  - now constructor.
  - apply Permutation_sym, Permutation_cons_app, Permutation_sym, IH.
  - exact IH.
Qed.

(** X3: Whatever the ids of the comments, every comment that carries a hash is
    classified once: the fixed and the persisting ids together are the ids
    of the comments with a hash, counted with their repetitions, each list
    in the order of the comments; the findings to post are a part of the
    current findings. *)
Theorem reconcile_classifies_once
        (fs : list Finding) (cs : list Comment.ExistingComment) :
  let r := reconcileFindings fs cs in
  Permutation (fixedCommentIds r ++ persistingCommentIds r)
              (map Comment.id (filter hasHash cs))
  /\ (List.length (fixedCommentIds r) + List.length (persistingCommentIds r)
      = List.length (filter hasHash cs))%nat
  /\ fixedCommentIds r
     = map Comment.id (filter (fun c => negb (persistsIn (map hash fs) c))
                              (filter hasHash cs))
  /\ persistingCommentIds r
     = map Comment.id (filter (persistsIn (map hash fs)) (filter hasHash cs))
  /\ incl (newFindings r) fs
  /\ (List.length (newFindings r) <= List.length fs)%nat.
Proof.
  intros r. subst r. rewrite reconcile_fixed, reconcile_persisting, reconcile_new.
  set (nh := map hash fs).
  assert (Hperm : Permutation
                    (map Comment.id (filter (fixedIn nh) cs)
                       ++ map Comment.id (filter (persistsIn nh) cs))
                    (map Comment.id (filter hasHash cs))).
  { rewrite <- map_app. apply Permutation_map.
    rewrite (filter_ext hasHash (fun c => fixedIn nh c || persistsIn nh c)).
    - apply filter_split. intros c. apply fixed_persists_exclusive.
    - intros c. unfold hasHash, fixedIn, persistsIn.
      destruct (Comment.hash c); [now destruct (has nh s)|reflexivity]. }
  assert (Hfix : forall l, filter (fixedIn nh) l
                           = filter (fun c => negb (persistsIn nh c)) (filter hasHash l)).
  { intros l. rewrite filter_filter. apply filter_ext. intros c.
    unfold fixedIn, hasHash, persistsIn. now destruct (Comment.hash c). }
  assert (Hper : forall l, filter (persistsIn nh) l
                           = filter (persistsIn nh) (filter hasHash l)).
  { intros l. rewrite filter_filter. apply filter_ext. intros c.
    unfold hasHash, persistsIn. now destruct (Comment.hash c). }
  split; [exact Hperm|]. split.
  { apply Permutation_length in Hperm.
    rewrite length_app, !length_map in Hperm. rewrite !length_map. exact Hperm. }
  split; [now rewrite Hfix|]. split; [now rewrite Hper|]. split.
  - intros f Hf. now apply filter_In in Hf.
  - apply filter_length_le.
Qed.

(** X4: The edge cases of the reconciliation.  Without existing comments
    every finding is new and no id is returned; without current findings
    nothing is new, every comment with a hash is fixed and none persists. *)
Theorem reconcile_empty_inputs
        (fs : list Finding) (cs : list Comment.ExistingComment) :
  reconcileFindings fs [] = mkReconciliation fs [] []
  /\ reconcileFindings [] cs
     = mkReconciliation [] (map Comment.id (filter hasHash cs)) [].
Proof.
  split.
  - unfold reconcileFindings. simpl. f_equal.
    induction fs as [|f fs IH]; simpl; [reflexivity | now rewrite IH].
  - pose proof (reconcile_fixed [] cs) as Hf.
    pose proof (reconcile_persisting [] cs) as Hp.
    pose proof (reconcile_new [] cs) as Hn.
    destruct (reconcileFindings [] cs) as [n f p]. simpl in *. subst.
    assert (Hfixed : filter (fixedIn []) cs = filter hasHash cs).
    { apply filter_ext. intros c. unfold fixedIn, hasHash.
      now destruct (Comment.hash c). }
    assert (Hnone : filter (persistsIn []) cs = []).
    { clear Hfixed. induction cs as [|c cs IH]; simpl; [reflexivity|].
      unfold persistsIn at 1. destruct (Comment.hash c); simpl; exact IH. }
    now rewrite Hfixed, Hnone.
Qed.

(** X5: A second reconciliation of the same findings, after a comment was
    posted for every finding that was new, finds nothing new; and when the
    comments posted carry hashes of current findings only, it marks as
    fixed exactly the comments that the first reconciliation marked. *)
Theorem reconcile_again_posts_nothing
        (fs : list Finding) (cs posted : list Comment.ExistingComment)
        (Hposted : forall f, In f (newFindings (reconcileFindings fs cs)) ->
                             exists c, In c posted /\ Comment.hash c = Some (hash f))
        (Hsame : forall c h, In c posted -> Comment.hash c = Some h -> In h (map hash fs)) :
  newFindings (reconcileFindings fs (cs ++ posted)%list) = []
  /\ fixedCommentIds (reconcileFindings fs (cs ++ posted)%list)
     = fixedCommentIds (reconcileFindings fs cs).
Proof.
  rewrite reconcile_new in *. rewrite !reconcile_fixed. split.
  - destruct (filter (fun f => negb (has (existingHashesOf (cs ++ posted)) (hash f))) fs)
      as [|f l] eqn:Hf; [reflexivity|].
    exfalso.
    assert (Hin : In f (f :: l)) by now left.
    rewrite <- Hf in Hin. apply filter_In in Hin. destruct Hin as [Hin Hnew].
    apply negb_true_iff, has_false_In in Hnew. apply Hnew.
    apply existingHashesOf_In.
    destruct (has (existingHashesOf cs) (hash f)) eqn:Hold.
    + apply has_In, existingHashesOf_In in Hold. destruct Hold as [c [Hc Hh]].
      exists c. split; [apply in_or_app; now left | exact Hh].
    + destruct (Hposted f) as [c [Hc Hh]].
      { apply filter_In. split; [exact Hin | now rewrite Hold]. }
      exists c. split; [apply in_or_app; now right | exact Hh].
  - rewrite filter_app, map_app.
    replace (filter (fixedIn (map hash fs)) posted) with (@nil Comment.ExistingComment);
      [simpl; now rewrite app_nil_r|].
    clear Hposted. symmetry.
    induction posted as [|c posted IH]; simpl; [reflexivity|].
    rewrite IH; [|intros d h Hd; apply Hsame; now right].
    unfold fixedIn. destruct (Comment.hash c) as [h|] eqn:Hh; [|reflexivity].
    assert (Hhas : has (map hash fs) h = true).
    { apply has_In. apply (Hsame c h); [now left | exact Hh]. }
    now rewrite Hhas.
Qed.


(** X5 at two findings of which one was new and got its comment. *)
Lemma reconcile_again_posts_nothing_witness :
  let fs := [sampleFinding high "aaaa0001"; sampleFinding low "cccc0003"] in
  let cs := [sampleComment 1 (Some "aaaa0001"); sampleComment 2 (Some "bbbb0002")] in
  let posted := [sampleComment 3 (Some "cccc0003")] in
  newFindings (reconcileFindings fs cs) = [sampleFinding low "cccc0003"]
  /\ newFindings (reconcileFindings fs (cs ++ posted)%list) = []
  /\ fixedCommentIds (reconcileFindings fs (cs ++ posted)%list) = [2].
Proof.
  intros fs cs posted.
  assert (Hposted : forall f, In f (newFindings (reconcileFindings fs cs)) ->
                              exists c, In c posted /\ Comment.hash c = Some (hash f)).
  { intros f Hf. vm_compute in Hf. destruct Hf as [<- | []].
    exists (sampleComment 3 (Some "cccc0003")). split; [now left | reflexivity]. }
  assert (Hsame : forall c h, In c posted -> Comment.hash c = Some h ->
                              In h (map hash fs)).
  { intros c h [<- | []] Hh. injection Hh as <-. simpl. auto. }
  pose proof (reconcile_again_posts_nothing fs cs posted Hposted Hsame) as H.
  split; [reflexivity|]. split; [exact (proj1 H)|].
  rewrite (proj2 H). reflexivity.
Defined.

End ReconcileMore.

Section HashPolynomial.
Import Review Reconciler Props Terms.

Lemma toInt32_shift (a b k : Z) : a = b + k * 2 ^ 32 -> JS.toInt32 a = JS.toInt32 b.
Proof.
  intros ->. unfold JS.toInt32.
  replace (b + k * 2 ^ 32 + 2 ^ 31) with (b + 2 ^ 31 + k * 2 ^ 32) by ring.
  now rewrite Z_mod_plus_full.
Qed.

Lemma toInt32_multiple (z : Z) : exists k, JS.toInt32 z = z + k * 2 ^ 32.
Proof.
  unfold JS.toInt32. exists (- ((z + 2 ^ 31) / 2 ^ 32)).
  pose proof (Z.div_mod (z + 2 ^ 31) (2 ^ 32)) as H.
  assert (Hnz : 2 ^ 32 <> 0) by lia. specialize (H Hnz). lia.
Qed.

Lemma toInt32_zero : JS.toInt32 0 = 0.
Proof. vm_compute. reflexivity. Qed.

Lemma hashStep_poly (p c : Z) : hashStep (JS.toInt32 p) c = JS.toInt32 (31 * p + c).
Proof.
  unfold hashStep, JS.and32, JS.shl32. rewrite Z.land_diag.
  rewrite Z.shiftl_mul_pow2 by lia.
  destruct (toInt32_multiple p) as [k0 H0].
  destruct (toInt32_multiple (JS.toInt32 p)) as [k1 H1].
  destruct (toInt32_multiple (JS.toInt32 (JS.toInt32 p) * 2 ^ 5)) as [k2 H2].
  set (y := JS.toInt32 (JS.toInt32 (JS.toInt32 p) * 2 ^ 5) - JS.toInt32 p + c) in *.
  destruct (toInt32_multiple y) as [k3 H3].
  apply (toInt32_shift _ _ (32 * (k0 + k1) + k2 - k0 + k3)).
  rewrite H3. unfold y. rewrite H2, H1, H0. ring.
Qed.

Lemma fold_left_step {A B : Type} (f : A -> B -> A) (x : B) (l : list B) (a : A) :
  fold_left f (x :: l) a = fold_left f l (f a x).
Proof. reflexivity. Qed.

Lemma hashLoop_from (l : list Z) (p : Z) :
  fold_left hashStep l (JS.toInt32 p)
  = JS.toInt32 (fold_left (fun h char => 31 * h + char) l p).
Proof.
  revert p. induction l as [|x l IH]; intros p.
  - reflexivity.
  - rewrite !fold_left_step, hashStep_poly. apply IH.
Qed.

Lemma hashLoop_polynomial (l : list Z) : hashLoop l = JS.toInt32 (polynomial31 l).
Proof.
  unfold hashLoop, polynomial31. rewrite <- hashLoop_from, toInt32_zero.
  reflexivity.
Qed.

Lemma polynomial31_snoc (codes : list Z) (c : Z) :
  polynomial31 (codes ++ [c]) = 31 * polynomial31 codes + c.
Proof. unfold polynomial31. rewrite fold_left_app. reflexivity. Qed.

Lemma generateHash_unfold (file : string) (line : Z) (endLine : option Z)
      (title : string) :
  generateHash file line endLine title
  = JS.padStart 8 "0"%char
      (JS.toStringRadix 16
         (Z.abs (hashLoop (JS.charCodes (hashInput file line endLine title))))).
Proof. reflexivity. Qed.

(** X6: The accumulated hash is the polynomial hash with multiplier 31 of
    the code units, reduced to a signed integer of 32 bits; so the digest
    of [generateHash] is the hexadecimal form of the absolute value of
    that number. *)
Theorem hash_is_polynomial31
        (codes : list Z) (c : Z) (file : string) (line : Z) (endLine : option Z)
        (title : string) :
  hashLoop codes = JS.toInt32 (polynomial31 codes)
  /\ polynomial31 [] = 0
  /\ polynomial31 (codes ++ [c]) = 31 * polynomial31 codes + c
  /\ generateHash file line endLine title
     = JS.padStart 8 "0"%char
         (JS.toStringRadix 16
            (Z.abs (JS.toInt32
                      (polynomial31 (JS.charCodes (hashInput file line endLine title)))))).
Proof.
  split; [apply hashLoop_polynomial|]. split; [reflexivity|].
  split; [apply polynomial31_snoc|].
  rewrite generateHash_unfold, hashLoop_polynomial. reflexivity.
Qed.

End HashPolynomial.

Section Counts.
Import Review Reconciler Props Terms.

Lemma existsb_count {A} (p : A -> bool) (l : list A) :
  existsb p l = (0 <? List.length (filter p l))%nat.
Proof.
  induction l as [|a l IH]; simpl; [reflexivity|].
  destruct (p a); simpl; [reflexivity | exact IH].
Qed.

(** X7: The four counts of [countBySeverity] add up to the number of
    findings, and the verdict can be read off them: [request_changes] when
    the count of critical findings is positive, [comment] when it is zero
    and the count of high findings is positive, [approve] when both are
    zero. *)
Theorem counts_add_up (fs : list Finding) :
  let k := countBySeverity fs in
  (n_critical k + n_high k + n_medium k + n_low k = List.length fs)%nat
  /\ (determineReviewAction fs = request_changes <-> (0 < n_critical k)%nat)
  /\ (determineReviewAction fs = comment <-> n_critical k = 0%nat /\ (0 < n_high k)%nat)
  /\ (determineReviewAction fs = approve <-> n_critical k = 0%nat /\ n_high k = 0%nat).
Proof.
  intros k. subst k. unfold countBySeverity, determineReviewAction.
  cbn [n_critical n_high n_medium n_low].
  rewrite !existsb_count. split.
  - induction fs as [|f fs IH]; simpl; [reflexivity|].
    destruct (severity f); simpl; lia.
  - set (c := List.length (filter (fun f => Severity_eqb (severity f) critical) fs)).
    set (h := List.length (filter (fun f => Severity_eqb (severity f) high) fs)).
    destruct (Nat.ltb_spec 0 c), (Nat.ltb_spec 0 h);
      repeat split; intros; try discriminate; try lia; try reflexivity;
      destruct H1; try lia.
Qed.

End Counts.

Section SortFacts.
Import Review Reconciler CommentBuilder Props Terms.

(** Insertion passes the findings that rank no later than the finding
    inserted, and stops in front of findings that all rank later. *)
Lemma insert_behind (f : Finding) (l1 l2 : list Finding) :
  Forall (fun g => SEVERITY_ORDER (severity g) <= SEVERITY_ORDER (severity f)) l1 ->
  insertBySeverity f (l1 ++ l2) = (l1 ++ insertBySeverity f l2)%list.
Proof.
  induction 1 as [|g l1 Hg _ IH]; simpl; [reflexivity|].
  destruct (Z.leb_spec (SEVERITY_ORDER (severity g)) (SEVERITY_ORDER (severity f)));
    [now rewrite IH | lia].
Qed.

Lemma insert_in_front (f : Finding) (l : list Finding) :
  Forall (fun g => SEVERITY_ORDER (severity f) < SEVERITY_ORDER (severity g)) l ->
  insertBySeverity f l = f :: l.
Proof.
  destruct 1 as [|g l Hg _]; simpl; [reflexivity|].
  destruct (Z.leb_spec (SEVERITY_ORDER (severity g)) (SEVERITY_ORDER (severity f)));
    [lia | reflexivity].
Qed.

Lemma ofSeverity_all (s : Severity) (fs : list Finding) :
  Forall (fun g => severity g = s) (ofSeverity s fs).
Proof.
  apply Forall_forall. intros g Hg. apply filter_In in Hg.
  destruct Hg as [_ Hg]. destruct (severity g), s; try discriminate; reflexivity.
Qed.

Lemma ofSeverity_snoc (s : Severity) (fs : list Finding) (f : Finding) :
  ofSeverity s (fs ++ [f])
  = (ofSeverity s fs ++ (if Severity_eqb (severity f) s then [f] else []))%list.
Proof. unfold ofSeverity. now rewrite filter_app. Qed.

Lemma ofSeverity_twice (s s' : Severity) (fs : list Finding) :
  ofSeverity s (ofSeverity s' fs) = if Severity_eqb s s' then ofSeverity s fs else [].
Proof.
  unfold ofSeverity. rewrite filter_filter.
  induction fs as [|f fs IH]; simpl; [now destruct (Severity_eqb s s')|].
  rewrite IH. destruct (severity f), s, s'; reflexivity.
Qed.

(** Insertion into the groups of a list, most severe first, gives the
    groups of the list with the finding at its end. *)
Lemma insert_into_groups (f : Finding) (fs : list Finding) :
  insertBySeverity f (ofSeverity critical fs ++ ofSeverity high fs
                        ++ ofSeverity medium fs ++ ofSeverity low fs)%list
  = (ofSeverity critical (fs ++ [f]) ++ ofSeverity high (fs ++ [f])
       ++ ofSeverity medium (fs ++ [f]) ++ ofSeverity low (fs ++ [f]))%list.
Proof.
  rewrite !ofSeverity_snoc.
  pose proof (ofSeverity_all critical fs) as Hc.
  pose proof (ofSeverity_all high fs) as Hh.
  pose proof (ofSeverity_all medium fs) as Hm.
  pose proof (ofSeverity_all low fs) as Hl.
  set (C := ofSeverity critical fs) in *. set (H := ofSeverity high fs) in *.
  set (M := ofSeverity medium fs) in *. set (L := ofSeverity low fs) in *.
  assert (Hle : forall s l, Forall (fun g => severity g = s) l ->
                            SEVERITY_ORDER s <= SEVERITY_ORDER (severity f) ->
                            Forall (fun g => SEVERITY_ORDER (severity g)
                                             <= SEVERITY_ORDER (severity f)) l).
  { intros s l Hs Ho. eapply Forall_impl; [|exact Hs]. intros g ->. exact Ho. }
  assert (Hlt : forall s l, Forall (fun g => severity g = s) l ->
                            SEVERITY_ORDER (severity f) < SEVERITY_ORDER s ->
                            Forall (fun g => SEVERITY_ORDER (severity f)
                                             < SEVERITY_ORDER (severity g)) l).
  { intros s l Hs Ho. eapply Forall_impl; [|exact Hs]. intros g ->. exact Ho. }
  destruct (severity f) eqn:Hs; rewrite <- Hs in Hle, Hlt; simpl; rewrite ?app_nil_r.
  - rewrite insert_behind by (apply (Hle critical); [exact Hc | rewrite Hs; simpl; lia]).
    rewrite insert_in_front; [now rewrite <- app_assoc|].
    repeat (apply Forall_app; split);
      [apply (Hlt high) | apply (Hlt medium) | apply (Hlt low)]; auto; rewrite Hs; simpl; lia.
  - rewrite (app_assoc C H), insert_behind
      by (apply Forall_app; split; [apply (Hle critical) | apply (Hle high)];
          auto; rewrite Hs; simpl; lia).
    rewrite insert_in_front; [now rewrite <- !app_assoc|].
    apply Forall_app; split; [apply (Hlt medium) | apply (Hlt low)]; auto; rewrite Hs; simpl; lia.
  - rewrite (app_assoc H M), (app_assoc C (H ++ M)), insert_behind
      by (repeat (apply Forall_app; split);
          [apply (Hle critical) | apply (Hle high) | apply (Hle medium)];
          auto; rewrite Hs; simpl; lia).
    rewrite insert_in_front; [now rewrite <- !app_assoc|].
    apply (Hlt low); auto; rewrite Hs; simpl; lia.
  - rewrite <- (app_nil_r (C ++ H ++ M ++ L)), insert_behind
      by (repeat (apply Forall_app; split);
          [apply (Hle critical) | apply (Hle high) | apply (Hle medium) | apply (Hle low)];
          auto; rewrite Hs; simpl; lia).
    simpl. now rewrite <- !app_assoc.
Qed.

Lemma sort_groups (fs : list Finding) :
  sortFindingsBySeverity fs
  = (ofSeverity critical fs ++ ofSeverity high fs
       ++ ofSeverity medium fs ++ ofSeverity low fs)%list.
Proof.
  unfold sortFindingsBySeverity.
  assert (H : forall l pre,
             fold_left (fun sorted f => insertBySeverity f sorted) l
                       (ofSeverity critical pre ++ ofSeverity high pre
                          ++ ofSeverity medium pre ++ ofSeverity low pre)%list
             = (ofSeverity critical (pre ++ l) ++ ofSeverity high (pre ++ l)
                  ++ ofSeverity medium (pre ++ l) ++ ofSeverity low (pre ++ l))%list).
  { induction l as [|f l IH]; intros pre; simpl; [now rewrite app_nil_r|].
    rewrite insert_into_groups, IH, <- app_assoc. reflexivity. }
  exact (H fs []).
Qed.

Lemma groups_permutation (fs : list Finding) :
  Permutation (ofSeverity critical fs ++ ofSeverity high fs
                 ++ ofSeverity medium fs ++ ofSeverity low fs)%list fs.
Proof.
  induction fs as [|f fs IH]; simpl; [constructor|].
  destruct (severity f); simpl.
  - now constructor.
  - apply Permutation_sym, Permutation_cons_app, Permutation_sym, IH.
  - rewrite app_assoc. apply Permutation_sym, Permutation_cons_app, Permutation_sym.
    rewrite <- app_assoc. exact IH.
  - rewrite 2!app_assoc. apply Permutation_sym, Permutation_cons_app, Permutation_sym.
    rewrite <- 2!app_assoc. exact IH.
Qed.

(** X8: [sortFindingsBySeverity] returns the critical findings, then the
    high, the medium and the low ones, each group in the order of the
    input.  So the result is a rearrangement of the input that loses and
    repeats no finding, the rank of the severity never decreases along it,
    and findings of one severity keep their relative order. *)
Theorem sort_is_grouping_by_severity (fs : list Finding) :
  let sorted := sortFindingsBySeverity fs in
  sorted = (ofSeverity critical fs ++ ofSeverity high fs
              ++ ofSeverity medium fs ++ ofSeverity low fs)%list
  /\ Permutation sorted fs
  /\ List.length sorted = List.length fs
  /\ (forall s, ofSeverity s sorted = ofSeverity s fs)
  /\ (forall i j f g,
         (i < j)%nat -> nth_error sorted i = Some f -> nth_error sorted j = Some g ->
         SEVERITY_ORDER (severity f) <= SEVERITY_ORDER (severity g)).
Proof.
  intros sorted. subst sorted. rewrite sort_groups.
  split; [reflexivity|]. split; [apply groups_permutation|]. split.
  { apply Permutation_length, groups_permutation. }
  split.
  - intros s. unfold ofSeverity at 1. rewrite !filter_app.
    fold (ofSeverity s (ofSeverity critical fs)). fold (ofSeverity s (ofSeverity high fs)).
    fold (ofSeverity s (ofSeverity medium fs)). fold (ofSeverity s (ofSeverity low fs)).
    rewrite !ofSeverity_twice. destruct s; simpl; now rewrite ?app_nil_r.
  - assert (Hsorted : forall l1 l2 : list Finding,
               (forall i j f g, (i < j)%nat -> nth_error l1 i = Some f ->
                                nth_error l1 j = Some g ->
                                SEVERITY_ORDER (severity f) <= SEVERITY_ORDER (severity g)) ->
               (forall i j f g, (i < j)%nat -> nth_error l2 i = Some f ->
                                nth_error l2 j = Some g ->
                                SEVERITY_ORDER (severity f) <= SEVERITY_ORDER (severity g)) ->
               (forall f g, In f l1 -> In g l2 ->
                            SEVERITY_ORDER (severity f) <= SEVERITY_ORDER (severity g)) ->
               forall i j f g, (i < j)%nat -> nth_error (l1 ++ l2) i = Some f ->
                               nth_error (l1 ++ l2) j = Some g ->
                               SEVERITY_ORDER (severity f) <= SEVERITY_ORDER (severity g)).
    { intros l1 l2 H1 H2 H12 i j f g Hij Hf Hg.
      destruct (Nat.lt_ge_cases i (List.length l1)) as [Hi | Hi];
        destruct (Nat.lt_ge_cases j (List.length l1)) as [Hj | Hj].
      - rewrite nth_error_app1 in Hf, Hg by assumption. eauto.
      - rewrite nth_error_app1 in Hf by assumption.
        rewrite nth_error_app2 in Hg by assumption.
        apply H12; eapply nth_error_In; eassumption.
      - lia.
      - rewrite nth_error_app2 in Hf, Hg by assumption.
        apply (H2 (i - List.length l1)%nat (j - List.length l1)%nat); auto. lia. }
    assert (Hgroup : forall s i j f g,
               (i < j)%nat -> nth_error (ofSeverity s fs) i = Some f ->
               nth_error (ofSeverity s fs) j = Some g ->
               SEVERITY_ORDER (severity f) <= SEVERITY_ORDER (severity g)).
    { intros s i j f g _ Hf Hg.
      pose proof (ofSeverity_all s fs) as Hall. rewrite Forall_forall in Hall.
      rewrite (Hall f), (Hall g); [lia | |]; eapply nth_error_In; eassumption. }
    assert (Hin : forall s g, In g (ofSeverity s fs) -> severity g = s).
    { intros s g. pose proof (ofSeverity_all s fs) as Hall.
      rewrite Forall_forall in Hall. apply Hall. }
    apply Hsorted; [apply Hgroup | |].
    + apply Hsorted; [apply Hgroup | |].
      * apply Hsorted; [apply Hgroup | apply Hgroup |].
        intros f g Hf Hg. rewrite (Hin _ _ Hf), (Hin _ _ Hg). simpl. lia.
      * intros f g Hf Hg. rewrite (Hin _ _ Hf).
        apply in_app_or in Hg. destruct Hg as [Hg | Hg]; rewrite (Hin _ _ Hg); simpl; lia.
    + intros f g Hf Hg. rewrite (Hin _ _ Hf).
      apply in_app_or in Hg. destruct Hg as [Hg | Hg];
        [|apply in_app_or in Hg; destruct Hg as [Hg | Hg]];
        rewrite (Hin _ _ Hg); simpl; lia.
Qed.

End SortFacts.

Section CommentTexts.
Import Review Reconciler CommentBuilder GitHubClient Props Terms.

Lemma substring0_length (n : nat) (s : string) :
  (n <= String.length s)%nat -> String.length (JS.substring0 n s) = n.
Proof.
  unfold JS.substring0. revert s.
  induction n as [|n IH]; intros s Hn.
  - destruct s; reflexivity.
  - destruct s as [|c s]; simpl in *; [lia|]. rewrite IH; [reflexivity | lia].
Qed.

(** X9: The text shown for a reference is never longer than 60 characters:
    a reference of at most 60 characters is shown as it is, a longer one is
    cut to its first 57 characters followed by three points. *)
Theorem displayUrl_at_most_60 (ref : string) :
  (String.length (displayUrl ref) <= 60)%nat
  /\ ((String.length ref <= 60)%nat -> displayUrl ref = ref)
  /\ ((60 < String.length ref)%nat ->
      displayUrl ref = JS.substring0 57 ref ++ "..."
      /\ String.length (displayUrl ref) = 60%nat
      /\ exists rest, ref = JS.substring0 57 ref ++ rest).
Proof.
  unfold displayUrl.
  destruct (Nat.ltb_spec 60 (String.length ref)) as [Hlong | Hshort].
  - assert (Hlen : String.length (JS.substring0 57 ref ++ "...") = 60%nat).
    { rewrite string_length_app, substring0_length by lia. reflexivity. }
    split; [lia|]. split; [lia|]. intros _.
    split; [reflexivity|]. split; [exact Hlen | apply substring0_prefix].
  - split; [exact Hshort|]. split; [reflexivity | lia].
Qed.

Lemma splitOn_cons (sep : ascii) (s : string) : exists w ws, splitOn sep s = w :: ws.
Proof.
  induction s as [|c s [w [ws IH]]]; simpl; [eauto|].
  destruct (Ascii.eqb c sep); [eauto|]. rewrite IH. eauto.
Qed.

Lemma titleCase_words (s : string) :
  forall w ws, splitOn "-"%char s = w :: ws ->
    String.concat " " (w :: map JS.capitalize ws) = titleCase false s
    /\ String.concat " " (JS.capitalize w :: map JS.capitalize ws) = titleCase true s.
Proof.
  induction s as [|c s IH]; intros w ws Hsplit; simpl in Hsplit.
  - injection Hsplit as <- <-. split; reflexivity.
  - cbn [titleCase]. destruct (Ascii.eqb c "-"%char) eqn:Hc.
    + injection Hsplit as <- <-.
      destruct (splitOn_cons "-"%char s) as [w' [ws' Hs]].
      destruct (IH w' ws' Hs) as [_ IH2]. rewrite Hs.
      change (JS.capitalize EmptyString) with EmptyString.
      cbn [map]. rewrite (concat_cons " " EmptyString) by discriminate.
      rewrite IH2. split; reflexivity.
    + destruct (splitOn_cons "-"%char s) as [w' [ws' Hs]]. rewrite Hs in Hsplit.
      injection Hsplit as <- <-.
      destruct (IH w' ws' Hs) as [IH1 _]. rewrite <- IH1.
      destruct ws' as [|x xs]; [split; reflexivity|].
      cbn [map]. rewrite !concat_cons by discriminate. split; reflexivity.
Qed.

(** X10: for a category whose characters all have a capital of one code
    unit below 256 (every character but the micro sign, the sharp s and the
    y with diaeresis), [formatCategory] turns every hyphen into a space and
    upper-cases the first character of the text and every character that
    follows a hyphen; the other characters stay, and the result has the
    length of the input.  The six categories of the schema are of that
    kind. *)
Theorem formatCategory_is_title_case (category : string)
        (Hrange : JS.forallString JS.capitalRepresented category = true) :
  formatCategory category = titleCase true category
  /\ String.length (formatCategory category) = String.length category
  /\ map formatCategory (map categoryName
       [security; performance; logic; error_handling; type_safety; maintainability])
     = ["Security"; "Performance"; "Logic"; "Error Handling"; "Type Safety";
        "Maintainability"]
  /\ Forall (fun c => JS.forallString JS.capitalRepresented (categoryName c) = true)
       [security; performance; logic; error_handling; type_safety; maintainability].
Proof.
  assert (H : formatCategory category = titleCase true category).
  { unfold formatCategory.
    destruct (splitOn_cons "-"%char category) as [w [ws Hs]]. rewrite Hs.
    exact (proj2 (titleCase_words category w ws Hs)). }
  split; [exact H|]. split; [|split; [reflexivity | repeat constructor]].
  rewrite H. clear H Hrange. generalize true.
  induction category as [|c s IH]; intros b; simpl; [reflexivity|].
  destruct (Ascii.eqb c "-"%char); simpl; now rewrite IH.
Qed.

(** X10 at a category of two words. *)
Lemma formatCategory_is_title_case_witness :
  JS.forallString JS.capitalRepresented "error-handling" = true
  /\ formatCategory "error-handling" = "Error Handling"
  /\ String.length (formatCategory "error-handling") = 14%nat.
Proof.
  assert (Hrange : JS.forallString JS.capitalRepresented "error-handling" = true)
    by reflexivity.
  pose proof (formatCategory_is_title_case "error-handling" Hrange) as H.
  split; [exact Hrange|]. split.
  - rewrite (proj1 H). reflexivity.
  - rewrite (proj1 (proj2 H)). reflexivity.
Defined.

Lemma includes_app_r (l u v : string) :
  JS.includes l v = true -> JS.includes l (u ++ v) = true.
Proof.
  intros H. induction u as [|c u IH]; simpl; [exact H|].
  rewrite IH. apply orb_true_r.
Qed.

Lemma summary_signed (result : ReviewResult) (headCommit : string) :
  JS.includes signature (buildReviewSummary result headCommit) = true.
Proof.
  unfold buildReviewSummary, JS.joinLines.
  cbn [app]. rewrite concat_cons by discriminate.
  apply includes_app_l. destruct (determineReviewAction (findings result)); reflexivity.
Qed.

Lemma finding_comment_signed (f : Finding) (headCommit : string) :
  JS.includes signature (buildFindingComment f headCommit) = true.
Proof.
  rewrite body_parts. apply includes_app_r, includes_app_r, includes_app_r.
  reflexivity.
Qed.

Lemma skip_comment_signed (reason headCommit : string) :
  JS.includes signature (buildSkipComment reason headCommit) = true.
Proof. unfold buildSkipComment. apply includes_app_l. reflexivity. Qed.

Lemma error_comment_signed (pr : PullRequestInfo) (error : string) :
  JS.includes signature (errorCommentBody pr error) = true.
Proof. unfold errorCommentBody. apply includes_app_l. reflexivity. Qed.

(** X11: Every text that the reviewer builds names the reviewer: the comment
    of a finding, the summary, the skip notice, the reply on an issue that
    is still present and the error comment.  So a review in the state
    [CHANGES_REQUESTED] whose body is a summary of the reviewer passes the
    test by which [dismissStaleReview] picks the review to dismiss, and a
    review passes it only in that state and with the name in its body. *)
Theorem built_texts_are_signed
        (f : Finding) (result : ReviewResult) (reason error headCommit : string)
        (pr : PullRequestInfo) (i : Z) (r : Remote.RemoteReview) :
  JS.includes signature (buildFindingComment f headCommit) = true
  /\ JS.includes signature (buildReviewSummary result headCommit) = true
  /\ JS.includes signature (buildSkipComment reason headCommit) = true
  /\ JS.includes signature (buildStillPresentReply headCommit) = true
  /\ JS.includes signature (errorCommentBody pr error) = true
  /\ isBotRequestChanges
       (Remote.mkRemoteReview i "CHANGES_REQUESTED"
                              (Some (buildReviewSummary result headCommit))) = true
  /\ (isBotRequestChanges r = true
      <-> Remote.review_state r = "CHANGES_REQUESTED"
          /\ exists b, Remote.review_body r = Some b /\ JS.includes signature b = true).
Proof.
  split; [apply finding_comment_signed|]. split; [apply summary_signed|].
  split; [apply skip_comment_signed|]. split; [|split; [apply error_comment_signed|split]].
  - unfold buildStillPresentReply. do 3 apply includes_app_r. reflexivity.
  - unfold isBotRequestChanges. cbn [Remote.review_state Remote.review_body].
    fold signature. now rewrite summary_signed.
  - unfold isBotRequestChanges. fold signature.
    rewrite andb_true_iff, String.eqb_eq.
    destruct (Remote.review_body r) as [b|].
    + split; [intros [H1 H2]; eauto|]. intros [H1 [b' [Hb H2]]].
      injection Hb as <-. auto.
    + split; [intros [_ H]; discriminate|]. intros [_ [b [Hb _]]]. discriminate.
Qed.

End CommentTexts.

Section LabelFacts.
Import Review Remote Remote.Notations Props Terms.
Import Reconciler CommentBuilder GitHubClient Session.

Lemma removeString_absent (name : string) (l : list string) :
  existsb (String.eqb name) l = false -> removeString name l = l.
Proof.
  unfold removeString. induction l as [|x l IH]; simpl; [reflexivity|].
  rewrite orb_false_iff. intros [Hx Hl]. rewrite (String.eqb_sym x name), Hx. simpl.
  now rewrite IH.
Qed.

Lemma existsb_removeString (name other : string) (l : list string) :
  String.eqb name other = false ->
  existsb (String.eqb name) (removeString other l) = existsb (String.eqb name) l.
Proof.
  intros Hne. unfold removeString. induction l as [|x l IH]; simpl; [reflexivity|].
  destruct (String.eqb x other) eqn:Hx; simpl.
  - apply String.eqb_eq in Hx. subst x. now rewrite Hne, IH.
  - now rewrite IH.
Qed.

(** The runs of [setLabels]: the calls issued and, when the run succeeds,
    the labels it leaves. *)
Lemma setLabels_runs pr (pending : bool) o w r w' :
  setLabels pr pending o w = (r, w') ->
  let add := if pending then LABEL_PENDING else LABEL_REVIEWED in
  let remove := if pending then LABEL_REVIEWED else LABEL_PENDING in
  exists rm ad,
    log w' = (log w ++ IssuesGet :: rm ++ ad)%list
    /\ (rm = [] \/ rm = [RemoveLabel remove] /\ In remove (labels w))
    /\ (ad = [] \/ ad = [AddLabels add] /\ ~ In add (labels w))
    /\ (r = Ok tt ->
        labels w'
        = (removeString remove (labels w)
             ++ (if existsb (String.eqb add) (labels w) then [] else [add]))%list
        /\ (In remove (labels w) -> rm <> [])
        /\ (~ In add (labels w) -> ad <> []))
    /\ (rm = [] -> ad = [] ->
        labels w' = labels w /\ (fails o (List.length (log w)) = None -> r = Ok tt)).
Proof.
  intros H add remove.
  assert (Hne : String.eqb add remove = false) by (subst add remove; now destruct pending).
  unfold setLabels in H.
  apply bind_cases in H. destruct H as [[n1 [w1 [H1 H]]] | [e [H1 ->]]].
  2:{ apply perform_cases in H1.
      destruct H1 as [Hl [[Hr _] | [e' [_ [He Hlab]]]]]; [discriminate Hr|].
      exists [], []. split; [exact Hl|]. split; [now left|]. split; [now left|].
      split; [discriminate|]. intros _ _. split; [exact Hlab|]. congruence. }
  apply perform_cases in H1. destruct H1 as [Hl1 [[_ [_ Hlab1]] | [e [He _]]]];
    [|discriminate He].
  cbn [applyEffect] in Hlab1.
  apply bind_cases in H. destruct H as [[current [w2 [H2 H]]] | [e [H2 _]]];
    [|discriminate H2].
  injection H2 as <- <-. rewrite Hlab1 in H.
  fold add remove in H.
  replace (if pending then [LABEL_REVIEWED] else [LABEL_PENDING]) with [remove] in H
    by (subst remove; now destruct pending).
  cbn [forEach] in H.
  destruct (existsb (String.eqb remove) (labels w)) eqn:Hrem.
  - (* the label to remove is present *)
    apply bind_cases in H. destruct H as [[u [w3 [H3 H]]] | [e [H3 ->]]].
    + apply bind_ok in H3. destruct H3 as [u3 [w4 [H3 H4]]]. injection H4 as _ <-.
      apply bind_ok in H3. destruct H3 as [n3 [w5 [H3 H5]]]. injection H5 as _ <-.
      apply perform_cases in H3.
      destruct H3 as [Hl3 [[_ [_ Hlab3]] | [e [He _]]]]; [|discriminate He].
      cbn [applyEffect] in Hlab3.
      assert (Hin : In remove (labels w)) by now apply existsb_eqb_In.
      destruct (existsb (String.eqb add) (labels w)) eqn:Hadd; cbn [negb] in H.
      * injection H as <- <-. exists [RemoveLabel remove], [].
        split; [rewrite Hl3, Hl1, <- app_assoc; reflexivity|].
        split; [right; auto|]. split; [now left|].
        split; [|intros Hrm; discriminate Hrm]. intros _.
        rewrite Hlab3, Hlab1, app_nil_r.
        split; [reflexivity|]. split; [discriminate|].
        intros Hno. exfalso. apply Hno. now apply existsb_eqb_In.
      * assert (Hno : ~ In add (labels w)).
        { intros Hi. apply existsb_eqb_In in Hi. congruence. }
        apply bind_cases in H. destruct H as [[n6 [w6 [H6 H]]] | [e [H6 ->]]].
        -- injection H as <- <-. apply perform_cases in H6.
           destruct H6 as [Hl6 [[_ [_ Hlab6]] | [e [He _]]]]; [|discriminate He].
           cbn [applyEffect] in Hlab6.
           exists [RemoveLabel remove], [AddLabels add].
           split; [rewrite Hl6, Hl3, Hl1, <- !app_assoc; reflexivity|].
           split; [right; auto|]. split; [right; auto|].
           split; [|intros Hrm; discriminate Hrm]. intros _.
           rewrite Hlab6, Hlab3, Hlab1, existsb_removeString, Hadd by exact Hne.
           split; [reflexivity|]. split; discriminate.
        -- apply perform_cases in H6. destruct H6 as [Hl6 _].
           exists [RemoveLabel remove], [AddLabels add].
           split; [rewrite Hl6, Hl3, Hl1, <- !app_assoc; reflexivity|].
           split; [right; auto|]. split; [right; auto|].
           split; [discriminate | intros Hrm; discriminate Hrm].
    + apply bind_cases in H3. destruct H3 as [[u3 [w4 [_ H4]]] | [e' [H3 _]]];
        [discriminate H4|].
      apply bind_cases in H3. destruct H3 as [[n3 [w5 [_ H5]]] | [e'' [H3 _]]];
        [discriminate H5|].
      apply perform_cases in H3. destruct H3 as [Hl3 _].
      exists [RemoveLabel remove], [].
      split; [rewrite Hl3, Hl1, <- app_assoc; reflexivity|].
      split; [right; split; [reflexivity | now apply existsb_eqb_In]|].
      split; [now left|]. split; [discriminate | intros Hrm; discriminate Hrm].
  - (* the label to remove is absent *)
    assert (Hout : ~ In remove (labels w)).
    { intros Hi. apply existsb_eqb_In in Hi. congruence. }
    apply bind_cases in H. destruct H as [[u [w3 [H3 H]]] | [e [H3 _]]];
      [|discriminate H3].
    injection H3 as _ <-.
    destruct (existsb (String.eqb add) (labels w)) eqn:Hadd; cbn [negb] in H.
    + injection H as <- <-. exists [], [].
      split; [exact Hl1|]. split; [now left|]. split; [now left|].
      split; [|intros _ _; split; [exact Hlab1 | reflexivity]]. intros _.
      rewrite Hlab1, app_nil_r, removeString_absent by exact Hrem.
      split; [reflexivity|]. split; [intros Hi; contradiction|].
      intros Hno. exfalso. apply Hno. now apply existsb_eqb_In.
    + assert (Hno : ~ In add (labels w)).
      { intros Hi. apply existsb_eqb_In in Hi. congruence. }
      apply bind_cases in H. destruct H as [[n6 [w6 [H6 H]]] | [e [H6 ->]]].
      * injection H as <- <-. apply perform_cases in H6.
        destruct H6 as [Hl6 [[_ [_ Hlab6]] | [e [He _]]]]; [|discriminate He].
        cbn [applyEffect] in Hlab6.
        exists [], [AddLabels add].
        split; [rewrite Hl6, Hl1, <- !app_assoc; reflexivity|].
        split; [now left|]. split; [right; auto|].
        split; [|intros _ Had; discriminate Had]. intros _.
        rewrite Hlab6, Hlab1, Hadd, removeString_absent by exact Hrem.
        split; [reflexivity|]. split; [intros Hi; contradiction | discriminate].
      * apply perform_cases in H6. destruct H6 as [Hl6 _].
        exists [], [AddLabels add].
        split; [rewrite Hl6, Hl1, <- !app_assoc; reflexivity|].
        split; [now left|]. split; [right; auto|].
        split; [discriminate | intros _ Had; discriminate Had].
Qed.

(** X12: A run of [setLabels] that succeeds leaves the label it sets and not
    the label it replaces, and touches no other label: the labels after the
    run are the labels before it without the replaced label, followed by
    the label to set when it was missing.  Beside the fetch of the issue it
    issues one removal when the replaced label was present and one addition
    when the label to set was missing, and no other call. *)
Theorem setLabels_leaves_one_state pr (pending : bool) o w w'
        (Hrun : setLabels pr pending o w = (Ok tt, w')) :
  let add := if pending then LABEL_PENDING else LABEL_REVIEWED in
  let remove := if pending then LABEL_REVIEWED else LABEL_PENDING in
  labels w'
  = (removeString remove (labels w)
       ++ (if existsb (String.eqb add) (labels w) then [] else [add]))%list
  /\ In add (labels w')
  /\ ~ In remove (labels w')
  /\ (forall x, x <> add -> x <> remove -> (In x (labels w') <-> In x (labels w)))
  /\ exists rm ad,
      log w' = (log w ++ IssuesGet :: rm ++ ad)%list
      /\ (rm = [] /\ ~ In remove (labels w)
          \/ rm = [RemoveLabel remove] /\ In remove (labels w))
      /\ (ad = [] /\ In add (labels w)
          \/ ad = [AddLabels add] /\ ~ In add (labels w)).
Proof.
  intros add remove.
  destruct (setLabels_runs pr pending o w _ _ Hrun)
    as (rm & ad & Hlog & Hrm & Had & Hok & _).
  fold add remove in Hrm, Had, Hok.
  destruct (Hok eq_refl) as (Hlab & Hrm' & Had').
  assert (Hne : add <> remove) by (subst add remove; now destruct pending).
  split; [exact Hlab|]. rewrite Hlab. split; [|split; [|split]].
  - destruct (existsb (String.eqb add) (labels w)) eqn:Hadd.
    + rewrite app_nil_r. apply removeString_spec. split; [|exact Hne].
      now apply existsb_eqb_In.
    + apply in_or_app. right. now left.
  - intros Hin. apply in_app_or in Hin. destruct Hin as [Hin | Hin].
    + apply removeString_spec in Hin. tauto.
    + destruct (existsb (String.eqb add) (labels w)); [contradiction|].
      destruct Hin as [Hin | []]. congruence.
  - intros x Hxa Hxr. rewrite in_app_iff, removeString_spec. split.
    + intros [[Hin _] | Hin]; [exact Hin|].
      destruct (existsb (String.eqb add) (labels w)); [contradiction|].
      destruct Hin as [Hin | []]. congruence.
    + intros Hin. left. auto.
  - exists rm, ad. split; [exact Hlog|]. split.
    + destruct Hrm as [-> | [-> Hin]]; [left | right; auto].
      split; [reflexivity|]. intros Hin. now apply (Hrm' Hin).
    + destruct Had as [-> | [-> Hin]]; [left | right; auto].
      split; [reflexivity|].
      destruct (existsb (String.eqb add) (labels w)) eqn:Hadd;
        [now apply existsb_eqb_In|].
      exfalso. apply Had'; [|reflexivity].
      intros Hin. apply existsb_eqb_In in Hin. congruence.
Qed.

(** X13: Setting the labels is idempotent: a second run of [setLabels] in the
    same direction, after one that succeeded, only fetches the issue; it
    issues no removal and no addition, leaves the labels as they are, and
    succeeds when that fetch does. *)
Theorem setLabels_again_only_reads pr (pending : bool) o o' w w1 r w2
        (Hfirst : setLabels pr pending o w = (Ok tt, w1))
        (Hsecond : setLabels pr pending o' w1 = (r, w2)) :
  log w2 = (log w1 ++ [IssuesGet])%list
  /\ labels w2 = labels w1
  /\ (fails o' (List.length (log w1)) = None -> r = Ok tt).
Proof.
  destruct (setLabels_runs pr pending o w _ _ Hfirst)
    as (rm & ad & _ & Hrm & Had & Hok & _).
  destruct (Hok eq_refl) as (Hlab & _).
  set (add := if pending then LABEL_PENDING else LABEL_REVIEWED) in *.
  set (remove := if pending then LABEL_REVIEWED else LABEL_PENDING) in *.
  assert (Hne : add <> remove) by (subst add remove; now destruct pending).
  assert (Hin : In add (labels w1)).
  { rewrite Hlab. destruct (existsb (String.eqb add) (labels w)) eqn:Hadd.
    - rewrite app_nil_r. apply removeString_spec. split; [|exact Hne].
      now apply existsb_eqb_In.
    - apply in_or_app. right. now left. }
  assert (Hout : ~ In remove (labels w1)).
  { rewrite Hlab. intros Hi. apply in_app_or in Hi. destruct Hi as [Hi | Hi].
    - apply removeString_spec in Hi. tauto.
    - destruct (existsb (String.eqb add) (labels w)); [contradiction|].
      destruct Hi as [Hi | []]. congruence. }
  destruct (setLabels_runs pr pending o' w1 _ _ Hsecond)
    as (rm2 & ad2 & Hlog2 & Hrm2 & Had2 & _ & Hquiet).
  fold add remove in Hrm2, Had2.
  destruct Hrm2 as [-> | [_ Hi]]; [|contradiction].
  destruct Had2 as [-> | [_ Hi]]; [|contradiction].
  destruct (Hquiet eq_refl eq_refl) as [Hsame Hr].
  split; [exact Hlog2|]. split; [exact Hsame | exact Hr].
Qed.

(** X12 at a pull request that carries the pending label and a label of
    its own: the labels are flipped and the other label stays. *)
Lemma setLabels_leaves_one_state_witness :
  let w := mkWorld ["bug"; LABEL_PENDING] [] in
  let w' := snd (setLabels samplePR false reviewingOracle w) in
  setLabels samplePR false reviewingOracle w = (Ok tt, w')
  /\ labels w' = ["bug"; LABEL_REVIEWED]
  /\ log w' = [IssuesGet; RemoveLabel LABEL_PENDING; AddLabels LABEL_REVIEWED].
Proof.
  intros w w'.
  assert (Hrun : setLabels samplePR false reviewingOracle w = (Ok tt, w'))
    by (vm_compute; reflexivity).
  pose proof (setLabels_leaves_one_state samplePR false reviewingOracle w w' Hrun) as H.
  split; [exact Hrun|]. split; [exact (proj1 H) | reflexivity].
Defined.

(** X13 at the same pull request: the second flip only fetches the
    issue. *)
Lemma setLabels_again_only_reads_witness :
  let w := mkWorld ["bug"; LABEL_PENDING] [] in
  let w1 := snd (setLabels samplePR false reviewingOracle w) in
  let w2 := snd (setLabels samplePR false reviewingOracle w1) in
  log w2 = (log w1 ++ [IssuesGet])%list /\ labels w2 = labels w1.
Proof.
  intros w w1 w2.
  assert (H1 : setLabels samplePR false reviewingOracle w = (Ok tt, w1))
    by (vm_compute; reflexivity).
  assert (H2 : setLabels samplePR false reviewingOracle w1 = (Ok tt, w2))
    by (vm_compute; reflexivity).
  pose proof (setLabels_again_only_reads samplePR false reviewingOracle reviewingOracle
                w w1 (Ok tt) w2 H1 H2) as H.
  split; [exact (proj1 H) | exact (proj1 (proj2 H))].
Defined.

End LabelFacts.

Section ThreadFacts.
Import Review Remote Remote.Notations Props Terms.
Import Reconciler CommentBuilder GitHubClient Session.

(** The runs of [resolveComment]. *)
Lemma resolveComment_runs pr (commentId : Z) o w r w' :
  resolveComment pr commentId o w = (r, w') ->
  let n := List.length (log w) in
  let comment := threadComment o n in
  labels w' = labels w
  /\ ((exists e, fails o n = Some e /\ r = Throw e
                 /\ log w' = (log w ++ [GetReviewComment commentId])%list)
      \/ (fails o n = None /\ r = Ok tt
          /\ JS.truthyNumber (in_reply_to_id comment) = true
          /\ log w' = (log w ++ [GetReviewComment commentId])%list)
      \/ (fails o n = None /\ r = Ok tt
          /\ JS.truthyNumber (in_reply_to_id comment) = false
          /\ log w' = (log w ++ [GetReviewComment commentId;
                                 ResolveReviewThread (node_id comment)])%list)).
Proof.
  intros H n comment. subst n comment.
  unfold resolveComment, bind, tryCatch, perform, ask, ret in H. simpl in H.
  destruct (fails o (List.length (log w))) as [e|] eqn:Hf.
  - injection H as <- <-. simpl. split; [reflexivity|]. left. eauto.
  - destruct (JS.truthyNumber (in_reply_to_id (threadComment o (List.length (log w)))))
      eqn:Hreply.
    + injection H as <- <-. simpl. split; [reflexivity|]. right. left. auto.
    + cbn in H.
      destruct (fails o (List.length (log w ++ [GetReviewComment commentId])));
        cbn in H; injection H as <- <-; simpl;
        (split; [reflexivity|]; right; right; rewrite <- app_assoc; auto).
Qed.

(** X14: The resolution of a thread is best effort.  [resolveComment] fails
    only when the fetch of the comment fails; an error of the resolution
    itself is swallowed.  For a comment that is a reply it stops after the
    fetch; otherwise it asks once for the resolution of the thread of the
    comment.  It changes no label. *)
Theorem resolveComment_best_effort pr (commentId : Z) o w r w' :
  resolveComment pr commentId o w = (r, w') ->
  let n := List.length (log w) in
  let comment := threadComment o n in
  labels w' = labels w
  /\ (fails o n = None -> r = Ok tt)
  /\ (forall e, fails o n = Some e ->
                r = Throw e /\ log w' = (log w ++ [GetReviewComment commentId])%list)
  /\ (JS.truthyNumber (in_reply_to_id comment) = true ->
      log w' = (log w ++ [GetReviewComment commentId])%list)
  /\ (fails o n = None -> JS.truthyNumber (in_reply_to_id comment) = false ->
      log w' = (log w ++ [GetReviewComment commentId;
                          ResolveReviewThread (node_id comment)])%list).
Proof.
  intros H n comment.
  destruct (resolveComment_runs pr commentId o w r w' H) as [Hlab Hcases].
  fold n comment in Hcases. split; [exact Hlab|].
  destruct Hcases as [[e [Hf [-> Hl]]] | [[Hf [-> [Hr Hl]]] | [Hf [-> [Hr Hl]]]]].
  - split; [congruence|]. split; [intros e' He; split; congruence|].
    split; [auto | congruence].
  - split; [auto|]. split; [congruence|]. split; [auto | congruence].
  - split; [auto|]. split; [congruence|]. split; [congruence | auto].
Qed.

(** The runs of [dismissStaleReview] in which the listing succeeds. *)
Lemma dismissStaleReview_runs pr o w r w' :
  dismissStaleReview pr o w = (r, w') ->
  fails o (List.length (log w)) = None ->
  let listed := reviews o (List.length (log w)) in
  labels w' = labels w
  /\ (((forall x, In x listed -> isBotRequestChanges x = false)
       /\ log w' = (log w ++ [ListReviews])%list /\ r = Ok tt)
      \/ (exists before x after,
             listed = (before ++ x :: after)%list
             /\ (forall y, In y before -> isBotRequestChanges y = false)
             /\ isBotRequestChanges x = true
             /\ log w' = (log w ++ [ListReviews; DismissReview (review_id x)])%list)).
Proof.
  intros Hrun Hlisted listed. subst listed.
  unfold dismissStaleReview, bind, perform, ask, ret in Hrun. simpl in Hrun.
  rewrite Hlisted in Hrun.
  assert (Hfind : forall l : list RemoteReview,
             match find isBotRequestChanges l with
             | None => forall x, In x l -> isBotRequestChanges x = false
             | Some x => exists before after,
                           l = (before ++ x :: after)%list
                           /\ (forall y, In y before -> isBotRequestChanges y = false)
                           /\ isBotRequestChanges x = true
             end).
  { induction l as [|a l IH]; simpl; [intros x []|].
    destruct (isBotRequestChanges a) eqn:Ha.
    - exists [], l. split; [reflexivity|]. split; [intros y []|exact Ha].
    - destruct (find isBotRequestChanges l) as [x|].
      + destruct IH as [before [after [-> [Hb Hx]]]].
        exists (a :: before), after. split; [reflexivity|]. split; [|exact Hx].
        intros y [<- | Hy]; auto.
      + intros x [<- | Hx]; auto. }
  specialize (Hfind (reviews o (List.length (log w)))).
  destruct (find isBotRequestChanges (reviews o (List.length (log w)))) as [x|].
  - destruct Hfind as [before [after [Heq [Hb Hx]]]]. simpl in Hrun.
    destruct (fails o (List.length (log w ++ [ListReviews])));
      injection Hrun as _ <-; simpl; (split; [reflexivity|]); right;
      exists before, x, after; rewrite <- app_assoc; auto.
  - injection Hrun as <- <-. simpl. auto.
Qed.

(** X15: [dismissStaleReview] dismisses at most one review: the first of the
    listed reviews that is in the state [CHANGES_REQUESTED] and names the
    reviewer in its body.  When no listed review passes that test, it
    issues no dismissal. *)
Theorem dismissStaleReview_first_match pr o w r w'
        (Hrun : dismissStaleReview pr o w = (r, w'))
        (Hlisted : fails o (List.length (log w)) = None) :
  let listed := reviews o (List.length (log w)) in
  ((forall x, In x listed -> isBotRequestChanges x = false)
   /\ log w' = (log w ++ [ListReviews])%list /\ r = Ok tt)
  \/ (exists before x after,
         listed = (before ++ x :: after)%list
         /\ (forall y, In y before -> isBotRequestChanges y = false)
         /\ isBotRequestChanges x = true
         /\ log w' = (log w ++ [ListReviews; DismissReview (review_id x)])%list).
Proof.
  intros listed.
  exact (proj2 (dismissStaleReview_runs pr o w r w' Hrun Hlisted)).
Qed.

(** X14 at a comment that is no reply: its thread is resolved. *)
Lemma resolveComment_best_effort_witness :
  let run := resolveComment samplePR 900 reviewingOracle (mkWorld [] []) in
  fst run = Ok tt
  /\ log (snd run) = [GetReviewComment 900; ResolveReviewThread "PRRT_900"].
Proof.
  intros run.
  pose proof (resolveComment_best_effort samplePR 900 reviewingOracle (mkWorld [] [])
                (fst run) (snd run) (surjective_pairing run)) as H.
  cbv zeta in H. destruct H as [_ [Hok [_ [_ Hlog]]]].
  split; [exact (Hok eq_refl) | exact (Hlog eq_refl eq_refl)].
Defined.

(** X15 at a pull request with four reviews: an approval that names the
    reviewer, a request for changes that does not, and two summaries of
    the reviewer that request changes.  The first of the two summaries, the
    third review, is dismissed and the fourth is left. *)
Lemma dismissStaleReview_first_match_witness :
  let run := dismissStaleReview samplePR staleOracle (mkWorld [] []) in
  fails staleOracle 0%nat = None
  /\ map isBotRequestChanges staleReviews = [false; false; true; true]
  /\ log (snd run) = [ListReviews; DismissReview 31].
Proof.
  intros run. split; [reflexivity|]. split; [vm_compute; reflexivity|].
  pose proof (dismissStaleReview_first_match samplePR staleOracle (mkWorld [] [])
                (fst run) (snd run) (surjective_pairing run) eq_refl) as H.
  cbv zeta in H.
  destruct H as [[Hnone _] | [before [x [after [Hl [Hbefore [Hx Hlog]]]]]]].
  - assert (Hin : In (mkRemoteReview 32 "CHANGES_REQUESTED"
                        (Some (buildReviewSummary sampleResult "0123456789abcdef")))
                     (reviews staleOracle (List.length (log (mkWorld [] [])))))
      by (simpl; tauto).
    apply Hnone in Hin. vm_compute in Hin. discriminate Hin.
  - rewrite Hlog. cbn [log app]. do 2 f_equal. f_equal.
    change (reviews staleOracle (List.length (log (mkWorld [] [])))) with staleReviews
      in Hl.
    unfold staleReviews in Hl.
    destruct before as [|b1 before]; [injection Hl as <- _; discriminate Hx|].
    injection Hl as <- Hl.
    destruct before as [|b2 before]; [injection Hl as <- _; discriminate Hx|].
    injection Hl as <- Hl.
    destruct before as [|b3 before]; [injection Hl as <- _; reflexivity|].
    injection Hl as <- Hl.
    exfalso.
    assert (Hb : isBotRequestChanges
                   (mkRemoteReview 31 "CHANGES_REQUESTED"
                      (Some (buildReviewSummary sampleResult "fedcba9876543210")))
                 = false) by (apply Hbefore; simpl; tauto).
    vm_compute in Hb. discriminate Hb.
Defined.

End ThreadFacts.

Section BotComments.
Import Review Remote Remote.Notations Props Terms.
Import Reconciler CommentBuilder GitHubClient Session.

Lemma includes_dropString (t s : string) (i : nat) :
  JS.startsWith t (dropString i s) = true -> JS.includes t s = true.
Proof.
  revert s. induction i as [|i IH]; intros s H.
  - simpl in H. destruct s; simpl; now rewrite H.
  - destruct s as [|c s]; simpl in H.
    + simpl. now rewrite H.
    + simpl. rewrite (IH s H). apply orb_true_r.
Qed.

Lemma substring_skip (l m : string) (a b : nat) :
  String.substring (String.length l + a) b (l ++ m) = String.substring a b m.
Proof. induction l as [|c l IH]; simpl; [reflexivity | exact IH]. Qed.

(** The group of the metadata pattern opens with a brace. *)
Lemma group1_opens (s : string) (r : JS.MatchResult) :
  JS.matchAt AI_REVIEW_METADATA_PATTERN s = Some r ->
  exists t, JS.group1 r = String "{"%char t.
Proof.
  intros H. unfold AI_REVIEW_METADATA_PATTERN in H.
  assert (Hs : JS.startsWith "<!-- ai-review: " s = true).
  { eapply matchAt_lits_startsWith. rewrite H. discriminate. }
  destruct (startsWith_split _ _ Hs) as [s' ->].
  rewrite matchAt_lits_app in H.
  simpl app in H. cbn [JS.matchAt] in H.
  destruct s' as [|d s'']; [discriminate H|].
  destruct (Ascii.eqb "{"%char d) eqn:Hd; [|discriminate H].
  apply Ascii.eqb_eq in Hd. subst d.
  match type of H with
  | option_map _ (option_map _ (option_map _ ?x)) = _ => destruct x as [r3|]
  end; [|discriminate H].
  injection H as <-.
  unfold JS.group1, consumeAll, JS.consume. cbn [JS.matched JS.gopen JS.gclose].
  rewrite Nat.add_0_r.
  replace (String.length "<!-- ai-review: " + S (JS.gclose r3)
           - String.length "<!-- ai-review: ")%nat
    with (S (JS.gclose r3)) by lia.
  pose proof (substring_skip "<!-- ai-review: " (String "{"%char (JS.matched r3))
                0 (S (JS.gclose r3))) as Hskip.
  rewrite Nat.add_0_r in Hskip. rewrite Hskip. eexists. reflexivity.
Qed.

Lemma parseValue_brace (fuel : nat) (t : string) :
  JS.parseValue (S fuel) (String "{"%char t)
  = match JS.skipWs t with
    | String "}"%char r' => Some (JS.JObject [], r')
    | _ =>
        match JS.parseMembersWith (JS.parseValue fuel) (String.length t) t with
        | Some (ms, r') => Some (JS.JObject ms, r')
        | None => None
        end
    end.
Proof. reflexivity. Qed.

(** A text that opens with a brace parses, if at all, as an object. *)
Lemma JSON_parse_object (t : string) (v : JS.json) :
  JS.JSON_parse (String "{"%char t) = Some v -> exists ms, v = JS.JObject ms.
Proof.
  unfold JS.JSON_parse. rewrite parseValue_brace. intros H.
  assert (Hmembers :
            forall x : option (list (string * JS.json) * string),
              match
                match x with
                | Some (ms, r') => Some (JS.JObject ms, r')
                | None => None
                end
              with
              | Some (v0, r) =>
                  match JS.skipWs r with
                  | EmptyString => Some v0
                  | String _ _ => None
                  end
              | None => None
              end = Some v -> exists ms, v = JS.JObject ms).
  { intros [[ms r']|] Hx; [|discriminate Hx].
    destruct (JS.skipWs r'); [|discriminate Hx]. injection Hx as <-. eauto. }
  destruct (JS.skipWs t) as [|c r']; [exact (Hmembers _ H)|].
  destruct c as [[] [] [] [] [] [] [] []]; try exact (Hmembers _ H).
  destruct (JS.skipWs r'); [|discriminate H]. injection H as <-. eauto.
Qed.

Lemma botCommentOf_cases (raw : RawComment) :
  typedComment raw = true ->
  (botCommentOf raw = [] /\ hasReadableMarker raw = false)
  \/ exists c i m ms,
      botCommentOf raw = [c]
      /\ hasReadableMarker raw = true
      /\ Comment.id c = raw_id raw
      /\ raw_body raw = Some (Comment.body c)
      /\ Comment.path c = raw_path raw
      /\ Comment.line c = match raw_line raw with
                          | Some l => l
                          | None => match raw_original_line raw with
                                    | Some l => l
                                    | None => 0
                                    end
                          end
      /\ JS.includes markerOpening (Comment.body c) = true
      /\ JS.search AI_REVIEW_METADATA_PATTERN (Comment.body c) = Some (i, m)
      /\ JS.JSON_parse (JS.group1 m) = Some (JS.JObject ms)
      /\ Comment.hash c = match JS.member "hash" ms with
                          | Some (JS.JString h) => Some h
                          | _ => None
                          end.
Proof.
  unfold typedComment, botCommentOf, hasReadableMarker, metadataHash.
  destruct (raw_body raw) as [body|]; [|now left].
  destruct (JS.search AI_REVIEW_METADATA_PATTERN body) as [[i m]|] eqn:Hsearch;
    [|now left].
  pose proof Hsearch as Hm. apply search_some in Hm. destruct Hm as [Hm _].
  destruct (group1_opens _ _ Hm) as [t Ht]. rewrite Ht.
  destruct (JS.JSON_parse (String "{"%char t)) as [v|] eqn:Hparse; [|now left].
  destruct (JSON_parse_object t v Hparse) as [ms ->].
  intros Htyped. apply andb_true_iff in Htyped. destruct Htyped as [_ Htyped].
  assert (Hopening : JS.includes markerOpening body = true).
  { apply (includes_dropString _ _ i). apply pattern_needs_opening. congruence. }
  right.
  destruct (JS.member "hash" ms) as [[| | |h| |]|] eqn:Hmember;
    try discriminate Htyped;
    eexists; exists i, m, ms; (split; [reflexivity|]);
    cbn [Comment.id Comment.body Comment.path Comment.line Comment.hash];
    rewrite Hsearch, Ht, Hparse, Hmember; repeat split; auto.
Qed.

Lemma typed_all (raws : list RawComment) :
  forallb typedComment raws = true -> forall raw, In raw raws -> typedComment raw = true.
Proof. intros H. now apply forallb_forall. Qed.

(** X16: for a listing whose markers are in the range of the embedding
    (metadata without backslash; a hash member that is a string or [null]
    or is missing), the comments that [getExistingBotComments] returns are
    the listed comments whose body has a marker with metadata that
    [JSON.parse] accepts, in the order of the listing and one for each.
    Every one has the id, body and path of its listed comment; its line is
    the line of that comment, else its original line, else zero; and its
    hash is the hash member of the metadata of the first marker of the body
    when that member is a string, and no hash otherwise.  Listed comments
    with pairwise distinct ids give comments with pairwise distinct ids. *)
Theorem bot_comments_come_from_listing (raws : list RawComment)
        (Htyped : forallb typedComment raws = true) :
  let cs := botCommentsOf raws in
  map Comment.id cs = map raw_id (filter hasReadableMarker raws)
  /\ (forall c, In c cs ->
        exists raw i m ms,
          In raw raws
          /\ hasReadableMarker raw = true
          /\ Comment.id c = raw_id raw
          /\ raw_body raw = Some (Comment.body c)
          /\ Comment.path c = raw_path raw
          /\ Comment.line c = match raw_line raw with
                              | Some l => l
                              | None => match raw_original_line raw with
                                        | Some l => l
                                        | None => 0
                                        end
                              end
          /\ JS.includes markerOpening (Comment.body c) = true
          /\ JS.search AI_REVIEW_METADATA_PATTERN (Comment.body c) = Some (i, m)
          /\ JS.JSON_parse (JS.group1 m) = Some (JS.JObject ms)
          /\ Comment.hash c = match JS.member "hash" ms with
                              | Some (JS.JString h) => Some h
                              | _ => None
                              end)
  /\ (List.length cs <= List.length raws)%nat
  /\ (NoDup (map raw_id raws) -> NoDup (map Comment.id cs)).
Proof.
  intros cs. subst cs. unfold botCommentsOf.
  pose proof (typed_all raws Htyped) as Hall. clear Htyped.
  assert (Hids : map Comment.id (flat_map botCommentOf raws)
                 = map raw_id (filter hasReadableMarker raws)).
  { induction raws as [|raw raws IH]; simpl; [reflexivity|].
    rewrite map_app, IH by (intros; apply Hall; now right).
    destruct (botCommentOf_cases raw (Hall raw (or_introl eq_refl)))
      as [[-> ->] | [c [i [m [ms [-> [-> [Hid _]]]]]]]]; simpl;
      [reflexivity | now rewrite Hid]. }
  split; [exact Hids|]. split; [|split].
  - intros c Hc. apply in_flat_map in Hc. destruct Hc as [raw [Hraw Hc]].
    destruct (botCommentOf_cases raw (Hall raw Hraw))
      as [[Hnil _] | [c' [i [m [ms [Hone Hfacts]]]]]].
    + rewrite Hnil in Hc. contradiction.
    + rewrite Hone in Hc. destruct Hc as [<- | []]. exists raw, i, m, ms. tauto.
  - clear Hids. induction raws as [|raw raws IH]; simpl; [lia|].
    rewrite length_app.
    specialize (IH (fun x Hx => Hall x (or_intror Hx))).
    destruct (botCommentOf_cases raw (Hall raw (or_introl eq_refl)))
      as [[Hn _] | [c [i [m [ms [Hn _]]]]]]; rewrite Hn; cbn [List.length]; lia.
  - intros Hnd. rewrite Hids. clear Hids Hall.
    induction raws as [|raw raws IH]; simpl; [constructor|].
    inversion Hnd as [|x l Hx Hl]; subst.
    destruct (hasReadableMarker raw); [|auto].
    simpl. constructor; [|auto].
    intros Hin. apply Hx. apply in_map_iff in Hin. destruct Hin as [y [Hy Hin]].
    apply filter_In in Hin. apply in_map_iff. exists y. tauto.
Qed.

(** X16 at a listing of three comments: two comments of the reviewer and
    a reply without a marker. *)
Lemma bot_comments_come_from_listing_witness :
  forallb typedComment sampleRawComments = true
  /\ map Comment.id (botCommentsOf sampleRawComments) = [900; 901]
  /\ map Comment.hash (botCommentsOf sampleRawComments)
     = [Some (hash fixedFinding); Some (hash plainFinding)].
Proof.
  assert (Htyped : forallb typedComment sampleRawComments = true)
    by (vm_compute; reflexivity).
  pose proof (bot_comments_come_from_listing sampleRawComments Htyped) as H.
  split; [exact Htyped|]. split.
  - rewrite (proj1 H). vm_compute. reflexivity.
  - vm_compute. reflexivity.
Defined.

End BotComments.

Section CodeFiles.
Import Review Remote Remote.Notations Props Terms.
Import Reconciler CommentBuilder GitHubClient Session.

Lemma fromLastDot_none (s : string) :
  lacks "."%char s = true -> fromLastDot s = None.
Proof.
  unfold lacks. induction s as [|c s IH]; simpl; [reflexivity|].
  rewrite andb_true_iff, negb_true_iff. intros [Hc Hs]. now rewrite IH, Hc.
Qed.

Lemma fromLastDot_last (base rest : string) :
  lacks "."%char rest = true ->
  fromLastDot (base ++ String "."%char rest) = Some (String "."%char rest).
Proof.
  intros Hrest. induction base as [|c base IH]; simpl.
  - now rewrite fromLastDot_none.
  - fold (base ++ String "."%char rest). now rewrite IH.
Qed.

Lemma extension_is_suffix (filename : string) :
  exists base, filename = base ++ extensionOf filename.
Proof.
  unfold extensionOf.
  destruct (fromLastDot filename) as [e|] eqn:He; [|now exists EmptyString].
  revert e He. induction filename as [|c s IH]; intros e He; simpl in He; [discriminate|].
  destruct (fromLastDot s) as [e'|] eqn:Hs.
  - injection He as <-. destruct (IH e' eq_refl) as [base Hb].
    exists (String c base). simpl. now rewrite <- Hb.
  - destruct (Ascii.eqb c "."%char); [|discriminate].
    injection He as <-. now exists EmptyString.
Qed.

(** X17: A file counts as code exactly when its name ends with one of the
    listed extensions, in the same case; [isNonCodePR] answers true exactly
    when no listed file does, so also for a pull request without files. *)
Theorem code_file_iff_name_ends_with_extension
        (filename : string) pr o w (b : bool) w' :
  (existsb (String.eqb (extensionOf filename)) codeExtensions = true
   <-> exists base ext, In ext codeExtensions /\ filename = base ++ ext)
  /\ (isNonCodePR pr o w = (Ok b, w') ->
      (b = true
       <-> forall f base ext, In f (fileNames o (List.length (log w))) ->
                              In ext codeExtensions -> f <> base ++ ext)
      /\ (fileNames o (List.length (log w)) = [] -> b = true)).
Proof.
  assert (Hshape : forall ext, In ext codeExtensions ->
                               exists rest, ext = String "."%char rest
                                            /\ lacks "."%char rest = true).
  { intros ext Hin. unfold codeExtensions in Hin.
    repeat (destruct Hin as [<- | Hin]; [eexists; split; reflexivity|]).
    contradiction. }
  assert (Hcode : forall f,
             existsb (String.eqb (extensionOf f)) codeExtensions = true
             <-> exists base ext, In ext codeExtensions /\ f = base ++ ext).
  { intros f. rewrite existsb_exists. split.
    - intros [ext [Hin Heq]]. apply String.eqb_eq in Heq.
      destruct (extension_is_suffix f) as [base Hb].
      exists base, ext. split; [exact Hin | congruence].
    - intros [base [ext [Hin ->]]]. exists ext. split; [exact Hin|].
      destruct (Hshape ext Hin) as [rest [-> Hrest]].
      unfold extensionOf. rewrite fromLastDot_last by exact Hrest.
      apply String.eqb_refl. }
  split; [apply Hcode|].
  intros Hrun. unfold isNonCodePR in Hrun.
  apply bind_ok in Hrun. destruct Hrun as [n [w1 [H1 H]]].
  apply perform_cases in H1. destruct H1 as [_ [[Hn _] | [e [He _]]]];
    [|discriminate He].
  injection Hn as ->. unfold bind, ask, ret in H. injection H as <- _. split.
  - rewrite negb_true_iff. split.
    + intros Hnone f base ext Hf Hext ->.
      assert (Hex : existsb
                      (fun f => existsb (String.eqb (extensionOf f)) codeExtensions)
                      (fileNames o (List.length (log w))) = true).
      { apply existsb_exists. exists (base ++ ext). split; [exact Hf|].
        apply Hcode. eauto. }
      exact (eq_true_false_abs _ Hex Hnone).
    + intros Hall.
      destruct (existsb _ (fileNames o (List.length (log w)))) eqn:Hex; [|reflexivity].
      apply existsb_exists in Hex. destruct Hex as [f [Hf Hc]].
      apply Hcode in Hc. destruct Hc as [base [ext [Hext ->]]].
      exfalso. exact (Hall _ base ext Hf Hext eq_refl).
  - intros ->. reflexivity.
Qed.

End CodeFiles.

Section AdapterFacts.
Import Review CliRunner Props Terms.

Context {Parsed : Type}.
Variable JSON_parse : string -> string + Parsed.
Variable ReviewResultSchema_parse : Parsed -> string + ReviewResult.

(** X18: The result of the adapter is consistent, however the engine ended:
    it reports success exactly when it carries a validated result, and
    then it carries no error; it reports failure exactly when it carries an
    error message.  Success needs an exit code of zero.  The output of the
    engine is kept in every case but the one in which the engine could not
    be started.  So the session, which throws the error of a result without
    success, never has to fall back on a message of its own. *)
Theorem adapter_result_is_consistent (timeout : Z) (e : ProcessEnd) :
  let r := runClaudeReviewResult JSON_parse ReviewResultSchema_parse timeout e in
  (success r = true <-> exists v, result r = Some v)
  /\ (success r = false <-> exists m, cliError r = Some m)
  /\ (success r = true -> cliError r = None)
  /\ (success r = true -> exists stdout stderr, e = Closed 0 stdout stderr)
  /\ (rawOutput r = None <-> exists m, e = SpawnFailed m)
  /\ (forall stdout, e = TimedOut stdout -> rawOutput r = Some stdout)
  /\ (forall code stdout stderr, e = Closed code stdout stderr ->
                                 rawOutput r = Some stdout)
  /\ ((if success r then result r else None) = None -> exists m, cliError r = Some m).
Proof.
  intros r. subst r.
  assert (Hparse : forall output,
             let r := parseReviewOutput JSON_parse ReviewResultSchema_parse output in
             rawOutput r = Some output
             /\ ((success r = true /\ (exists v, result r = Some v) /\ cliError r = None)
                 \/ (success r = false /\ result r = None
                     /\ exists m, cliError r = Some m))).
  { intros output. unfold parseReviewOutput.
    destruct (JS.search JSON_OBJECT_PATTERN output) as [[i m]|]; simpl.
    - destruct (JSON_parse (JS.matched m)) as [message | parsed]; simpl.
      + split; eauto 6.
      + destruct (ReviewResultSchema_parse parsed); simpl; split; eauto 6.
    - split; eauto 6. }
  destruct e as [stdout | code stdout stderr | message]; simpl.
  - repeat split; try discriminate; eauto;
      try (intros [x Hx]; discriminate Hx).
    intros s Hs. now injection Hs as <-.
  - destruct (Z.eqb_spec code 0) as [-> | Hcode]; simpl.
    + destruct (Hparse stdout) as [Hraw [[Hs [[v Hv] He]] | [Hs [Hv [m He]]]]];
        rewrite ?Hs, ?Hv, ?He, ?Hraw; repeat split; try discriminate; eauto;
        try (intros [x Hx]; discriminate Hx).
      * intros c s1 s2 Heq. now injection Heq as _ <- _.
      * intros c s1 s2 Heq. now injection Heq as _ <- _.
    + repeat split; try discriminate; eauto;
        try (intros [x Hx]; discriminate Hx).
      intros c s1 s2 Heq. now injection Heq as _ <- _.
  - repeat split; try discriminate; eauto;
      try (intros [x Hx]; discriminate Hx).
Qed.

End AdapterFacts.

Section SignatureFacts.
Import Remote Dispatcher Props Terms.

Variable hmacSha256Hex : string -> string -> string.
Variable parsePayload : string -> string + PullRequestPayload.
Variable runTask : DispatcherConfig -> ReviewTaskParams -> option string.

Lemma firstChar_utf8Char (c : ascii) (rest : list N) :
  firstChar (utf8Char c ++ rest) = Some (c, rest).
Proof. destruct c as [[] [] [] [] [] [] [] []]; reflexivity. Qed.

Lemma bufferFrom_cons (c : ascii) (s : string) :
  bufferFrom (String c s) = (utf8Char c ++ bufferFrom s)%list.
Proof. reflexivity. Qed.

Lemma bufferFrom_injective (a b : string) : bufferFrom a = bufferFrom b -> a = b.
Proof.
  revert b. induction a as [|c a IH]; intros [|d b] H.
  - reflexivity.
  - apply (f_equal firstChar) in H. rewrite bufferFrom_cons, firstChar_utf8Char in H.
    discriminate H.
  - apply (f_equal firstChar) in H. rewrite bufferFrom_cons, firstChar_utf8Char in H.
    discriminate H.
  - apply (f_equal firstChar) in H.
    rewrite !bufferFrom_cons, !firstChar_utf8Char in H.
    injection H as -> H. now rewrite (IH b H).
Qed.

Lemma verifySignature_accepts_expected (payload signature secret : string) :
  verifySignature hmacSha256Hex payload signature secret = true
  -> signature = "sha256=" ++ hmacSha256Hex secret payload.
Proof.
  unfold verifySignature, verifySignatureRes, timingSafeEqual.
  set (expected := "sha256=" ++ hmacSha256Hex secret payload).
  destruct (Nat.eqb_spec (List.length (bufferFrom signature))
                         (List.length (bufferFrom expected))) as [Hlen | Hlen].
  - rewrite bytesEqual_eq. apply bufferFrom_injective.
  - discriminate.
Qed.

(** X19: [verifySignature] accepts a signature header exactly when it is the
    text [sha256=] followed by the digest of the body under the secret:
    the comparison of the bytes is a comparison of the texts, and a header
    of another length is rejected without an error. *)
Theorem verifySignature_iff_expected_text (payload signature secret : string) :
  verifySignature hmacSha256Hex payload signature secret = true
  <-> signature = "sha256=" ++ hmacSha256Hex secret payload.
Proof.
  split; [apply verifySignature_accepts_expected|]. intros ->.
  unfold verifySignature, verifySignatureRes, timingSafeEqual.
  rewrite Nat.eqb_refl. now apply bytesEqual_eq.
Qed.

(** The header of the event carries the expected signature. *)
Lemma signature_gate (c : DispatcherConfig) (event : WebhookEvent) :
  negb (JS.truthyString (x_hub_signature_256 event))
  || negb (verifySignature hmacSha256Hex (event_body event)
             (match x_hub_signature_256 event with
              | Some s => s
              | None => EmptyString
              end)
             (webhookSecret c)) = false
  <-> x_hub_signature_256 event
      = Some ("sha256=" ++ hmacSha256Hex (webhookSecret c) (event_body event)).
Proof.
  rewrite orb_false_iff, !negb_false_iff. split.
  - intros [Ht Hv]. destruct (x_hub_signature_256 event) as [s|]; [|discriminate Ht].
    now rewrite (verifySignature_accepts_expected _ _ _ Hv).
  - intros ->. split; [reflexivity|].
    unfold verifySignature, verifySignatureRes, timingSafeEqual.
    rewrite Nat.eqb_refl. now apply bytesEqual_eq.
Qed.

(** X20: The answers of the handler of pull-request events, case by case, in
    the order in which the handler decides.  Without a configuration it
    answers 500.  A request whose signature header is missing or is not
    the expected text is answered 401, whatever its event type and body.
    An event of another type is ignored with 200.  A body that cannot be
    read is answered 500, a payload that the filter rejects 200, a missing
    installation id (or one of zero) 400, a failed launch 500; otherwise
    one task is launched and the answer is 202.  So the status is one of
    200, 202, 400, 401 and 500, at most one task is launched, and one is
    launched exactly when the answer is 202. *)
Theorem handler_decision_table (config : string + DispatcherConfig) (event : WebhookEvent) :
  let out := handler hmacSha256Hex parsePayload runTask config event in
  let signed c :=
    x_hub_signature_256 event
    = Some ("sha256=" ++ hmacSha256Hex (webhookSecret c) (event_body event)) in
  let params p :=
    mkParams (owner_login (repository p)) (repo_name (repository p)) (number p)
             (match installation p with Some i => i | None => 0 end) in
  ((exists message, config = inl message /\ out = (mkResponse 500 message, []))
   \/ (exists c, config = inr c /\ ~ signed c
                 /\ out = (mkResponse 401 "Invalid signature", []))
   \/ (exists c, config = inr c /\ signed c
                 /\ x_github_event event <> Some "pull_request"
                 /\ out = (mkResponse 200 "Ignoring non-PR event", []))
   \/ (exists c message,
          config = inr c /\ signed c /\ x_github_event event = Some "pull_request"
          /\ parsePayload (event_body event) = inl message
          /\ out = (mkResponse 500 message, []))
   \/ (exists c p,
          config = inr c /\ signed c /\ x_github_event event = Some "pull_request"
          /\ parsePayload (event_body event) = inr p
          /\ ((shouldTriggerReview p = false
               /\ out = (mkResponse 200 "No review needed for this action", []))
              \/ (shouldTriggerReview p = true
                  /\ (installation p = None \/ installation p = Some 0)
                  /\ out = (mkResponse 400 "Missing installation ID", []))
              \/ (exists message,
                     shouldTriggerReview p = true
                     /\ JS.truthyNumber (installation p) = true
                     /\ runTask c (params p) = Some message
                     /\ out = (mkResponse 500 message, []))
              \/ (shouldTriggerReview p = true
                  /\ JS.truthyNumber (installation p) = true
                  /\ runTask c (params p) = None
                  /\ out = (mkResponse 202 "Review task spawned", [params p])))))
  /\ In (statusCode (fst out)) [200; 202; 400; 401; 500]
  /\ (List.length (snd out) <= 1)%nat
  /\ (snd out <> [] <-> statusCode (fst out) = 202).
Proof.
  intros out signed params.
  match goal with |- ?table /\ _ => assert (Htable : table) end.
  { subst out. unfold handler.
    destruct config as [message | c]; [left; eauto|]. right.
    pose proof (signature_gate c event) as Hgate. fold (signed c) in Hgate.
    destruct (negb (JS.truthyString (x_hub_signature_256 event)) || _) eqn:Hsig.
    { left. exists c. split; [reflexivity|]. split; [|reflexivity].
      intros Hs. apply Hgate in Hs. discriminate Hs. }
    assert (Hsigned : signed c) by now apply Hgate.
    right.
    destruct (x_github_event event) as [e|] eqn:He.
    2:{ left. exists c. repeat split; auto. discriminate. }
    destruct (String.eqb_spec e "pull_request") as [-> | Hne]; cbn [negb].
    2:{ left. exists c. repeat split; auto. congruence. }
    right.
    destruct (parsePayload (event_body event)) as [message | p] eqn:Hp.
    { left. exists c, message. auto. }
    right. exists c, p. split; [reflexivity|]. split; [exact Hsigned|].
    split; [reflexivity|]. split; [reflexivity|].
    destruct (shouldTriggerReview p); cbn [negb]; [|now left].
    right.
    destruct (JS.truthyNumber (installation p)) eqn:Hinst; cbn [negb].
    - right. fold (params p). destruct (runTask c (params p)) as [message|] eqn:Hrun.
      + left. exists message. auto.
      + right. auto.
    - left. split; [reflexivity|]. split; [|reflexivity].
      destruct (installation p) as [i|]; [|now left]. right.
      simpl in Hinst. apply negb_false_iff, Z.eqb_eq in Hinst. now subst. }
  split; [exact Htable|].
  destruct Htable as [[m [_ ->]] | [[c [_ [_ ->]]] | [[c [_ [_ [_ ->]]]]
    | [[c [m [_ [_ [_ [_ ->]]]]]] | [c [p [_ [_ [_ [_ Hrest]]]]]]]]]];
    try (simpl; split; [tauto|]; split; [lia|]; split;
         [intros H; now elim H | discriminate]).
  destruct Hrest as [[_ ->] | [[_ [_ ->]] | [[m [_ [_ [_ ->]]]] | [_ [_ [_ ->]]]]]];
    try (simpl; split; [tauto|]; split; [lia|]; split;
         [intros H; now elim H | discriminate]).
  simpl. split; [tauto|]. split; [lia|]. split; [reflexivity | discriminate].
Qed.

End SignatureFacts.

Section TrimFacts.
Import Text Props Terms.

Lemma trimStart_split (s : string) :
  exists lead, s = lead ++ trimStart s /\ blank lead = true.
Proof.
  induction s as [|c s [lead [Hs Hl]]]; simpl; [now exists EmptyString|].
  destruct (isTrimChar c) eqn:Hc; [|now exists EmptyString].
  exists (String c lead). simpl. unfold blank in *. simpl. rewrite Hc, Hl.
  split; [now rewrite <- Hs | reflexivity].
Qed.

Lemma trimEnd_split (s : string) :
  exists trail, s = trimEnd s ++ trail /\ blank trail = true.
Proof.
  induction s as [|c s [trail [Hs Hl]]]; simpl; [now exists EmptyString|].
  destruct (trimEnd s) as [|d t] eqn:Ht.
  - destruct (isTrimChar c) eqn:Hc.
    + exists (String c s). split; [reflexivity|].
      simpl in Hs. subst trail. unfold blank in *. simpl. now rewrite Hc, Hl.
    + exists s. split; [reflexivity|]. simpl in Hs. now subst trail.
  - exists trail. split; [|exact Hl]. rewrite Hs at 1. reflexivity.
Qed.

Lemma trimStart_blank (lead x : string) :
  blank lead = true -> trimStart (lead ++ x) = trimStart x.
Proof.
  unfold blank. induction lead as [|c lead IH]; simpl; [reflexivity|].
  rewrite andb_true_iff. intros [Hc Hl]. rewrite Hc. auto.
Qed.

Lemma trimEnd_blank (t : string) : blank t = true -> trimEnd t = EmptyString.
Proof.
  unfold blank. induction t as [|c t IH]; simpl; [reflexivity|].
  rewrite andb_true_iff. intros [Hc Ht]. now rewrite IH, Hc.
Qed.

Lemma trimEnd_solid (t : string) : blank t = false -> trimEnd t <> EmptyString.
Proof.
  unfold blank. induction t as [|c t IH]; simpl; [discriminate|].
  destruct (trimEnd t) as [|d u] eqn:Ht; [|discriminate].
  destruct (isTrimChar c); simpl; [|discriminate].
  intros H. elim (IH H). reflexivity.
Qed.

Lemma trimEnd_app_blank (a t : string) :
  blank t = true -> trimEnd (a ++ t) = trimEnd a.
Proof.
  intros Ht. induction a as [|c a IH]; simpl; [now apply trimEnd_blank|].
  now rewrite IH.
Qed.

Lemma trimEnd_app_solid (a b : string) :
  trimEnd b <> EmptyString -> trimEnd (a ++ b) = a ++ trimEnd b.
Proof.
  intros Hb. induction a as [|c a IH]; simpl; [reflexivity|].
  rewrite IH. destruct (a ++ trimEnd b) eqn:Hab; [|reflexivity].
  destruct a; simpl in Hab; [contradiction | discriminate].
Qed.

Lemma startsWith_app (l x : string) : JS.startsWith l (l ++ x) = true.
Proof.
  induction l as [|c l IH]; simpl; [reflexivity|]. now rewrite Ascii.eqb_refl.
Qed.

End TrimFacts.

Section CommentTrigger.
Import Remote Dispatcher CommentDispatcher Text Props Terms.

Variable hmacSha256Hex : string -> string -> string.
Variable parsePayload : string -> string + IssueCommentPayload.
Variable runTask : DispatcherConfig -> ReviewTaskParams -> option string.

(** X21: A comment asks for a review exactly when it was created on an issue
    that is a pull request and its body is, after leading white space, the
    command [/claude-review] followed by white space only or by a space and
    any text.  A command that runs on into other characters, or that is
    followed at once by a tab or a line break and further text, does not
    count. *)
Theorem comment_trigger_iff_command (p : IssueCommentPayload) :
  (CommentDispatcher.shouldTriggerReview p = true
   <-> CommentDispatcher.action p = "created"
       /\ issue_pull_request (issue p) <> None
       /\ exists lead tail,
           comment_body p = lead ++ reviewCommand ++ tail
           /\ blank lead = true
           /\ (blank tail = true \/ exists rest, tail = " " ++ rest))
  /\ (forall a i r n lead,
         blank lead = true ->
         CommentDispatcher.shouldTriggerReview
           (mkCommentPayload a (lead ++ "/claude-reviewer") i r n) = false)
  /\ (forall a i r n text,
         CommentDispatcher.shouldTriggerReview
           (mkCommentPayload a ("/claude-review" ++ JS.lf ++ "please" ++ text) i r n)
         = false).
Proof.
  split; [|split].
  - unfold CommentDispatcher.shouldTriggerReview.
    destruct (String.eqb_spec (CommentDispatcher.action p) "created") as [Ha | Ha];
      cbn [negb].
    2:{ split; [discriminate | tauto]. }
    destruct (issue_pull_request (issue p)) as [url|]; cbn [negb].
    2:{ split; [discriminate|]. intros [_ [H _]]. now elim H. }
    split.
    + intros H. split; [exact Ha|]. split; [discriminate|].
      destruct (trimStart_split (comment_body p)) as [lead [Hbody Hlead]].
      destruct (trimEnd_split (trimStart (comment_body p))) as [trail [Hs Htrail]].
      fold (trim (comment_body p)) in Hs.
      apply orb_true_iff in H. destruct H as [H | H].
      * apply String.eqb_eq in H. rewrite H in Hs.
        exists lead, trail. split; [|auto].
        rewrite Hbody at 1. now rewrite Hs.
      * apply startsWith_split in H. destruct H as [rest Hrest].
        rewrite Hrest in Hs. exists lead, (" " ++ rest ++ trail).
        split; [|split; [exact Hlead | right; eauto]].
        rewrite Hbody at 1. rewrite Hs. unfold reviewCommand.
        now rewrite !string_app_assoc.
    + intros [_ [_ [lead [tail [Hbody [Hlead Htail]]]]]].
      unfold trim. rewrite Hbody, trimStart_blank by exact Hlead.
      change (trimStart (reviewCommand ++ tail)) with (reviewCommand ++ tail).
      destruct (blank tail) eqn:Hblank.
      * rewrite trimEnd_app_blank by exact Hblank. reflexivity.
      * destruct Htail as [Hb | [rest ->]]; [discriminate Hb|].
        assert (Hrest : blank rest = false).
        { unfold blank in *. simpl in Hblank. exact Hblank. }
        change (reviewCommand ++ " " ++ rest) with ("/claude-review " ++ rest).
        rewrite trimEnd_app_solid by now apply trimEnd_solid.
        rewrite startsWith_app. apply orb_true_r.
  - intros a i r n lead Hlead. unfold CommentDispatcher.shouldTriggerReview.
    cbn [CommentDispatcher.action issue comment_body].
    destruct (negb (String.eqb a "created")); [reflexivity|].
    destruct (negb _); [reflexivity|].
    unfold trim. rewrite trimStart_blank by exact Hlead. reflexivity.
  - intros a i r n text. unfold CommentDispatcher.shouldTriggerReview.
    cbn [CommentDispatcher.action issue comment_body].
    destruct (negb (String.eqb a "created")); [reflexivity|].
    destruct (negb _); [reflexivity|].
    unfold trim.
    change (trimStart ("/claude-review" ++ JS.lf ++ "please" ++ text))
      with ("/claude-review" ++ JS.lf ++ "please" ++ text).
    assert (Hsolid : trimEnd ("please" ++ text) <> EmptyString).
    { simpl. destruct (trimEnd _); discriminate. }
    change ("/claude-review" ++ JS.lf ++ "please" ++ text)
      with (("/claude-review" ++ JS.lf) ++ ("please" ++ text)).
    rewrite trimEnd_app_solid by exact Hsolid. reflexivity.
Qed.

(** X22: The answers of the handler of comment events, case by case, in the
    order in which the handler decides: 500 without a configuration, 401
    for a request whose signature header is missing or is not the expected
    text, 200 for an event of another type, 500 for a body that cannot be
    read, 200 for a comment that does not ask for a review, 400 for a
    missing installation id (or one of zero), 500 for a failed launch, and
    otherwise 202 with one task, launched for the number of the issue. *)
Theorem comment_handler_decision_table
        (config : string + DispatcherConfig) (event : WebhookEvent) :
  let out := CommentDispatcher.handler hmacSha256Hex parsePayload runTask config event in
  let signed c :=
    x_hub_signature_256 event
    = Some ("sha256=" ++ hmacSha256Hex (webhookSecret c) (event_body event)) in
  let params p :=
    mkParams (owner_login (CommentDispatcher.repository p))
             (repo_name (CommentDispatcher.repository p))
             (issue_number (issue p))
             (match CommentDispatcher.installation p with Some i => i | None => 0 end) in
  ((exists message, config = inl message /\ out = (mkResponse 500 message, []))
   \/ (exists c, config = inr c /\ ~ signed c
                 /\ out = (mkResponse 401 "Invalid signature", []))
   \/ (exists c, config = inr c /\ signed c
                 /\ x_github_event event <> Some "issue_comment"
                 /\ out = (mkResponse 200 "Ignoring non-comment event", []))
   \/ (exists c message,
          config = inr c /\ signed c /\ x_github_event event = Some "issue_comment"
          /\ parsePayload (event_body event) = inl message
          /\ out = (mkResponse 500 message, []))
   \/ (exists c p,
          config = inr c /\ signed c /\ x_github_event event = Some "issue_comment"
          /\ parsePayload (event_body event) = inr p
          /\ ((CommentDispatcher.shouldTriggerReview p = false
               /\ out = (mkResponse 200 "No review needed for this comment", []))
              \/ (CommentDispatcher.shouldTriggerReview p = true
                  /\ (CommentDispatcher.installation p = None
                      \/ CommentDispatcher.installation p = Some 0)
                  /\ out = (mkResponse 400 "Missing installation ID", []))
              \/ (exists message,
                     CommentDispatcher.shouldTriggerReview p = true
                     /\ JS.truthyNumber (CommentDispatcher.installation p) = true
                     /\ runTask c (params p) = Some message
                     /\ out = (mkResponse 500 message, []))
              \/ (CommentDispatcher.shouldTriggerReview p = true
                  /\ JS.truthyNumber (CommentDispatcher.installation p) = true
                  /\ runTask c (params p) = None
                  /\ out = (mkResponse 202 "Review task spawned", [params p])))))
  /\ (snd out <> [] <-> statusCode (fst out) = 202).
Proof.
  intros out signed params.
  match goal with |- ?table /\ _ => assert (Htable : table) end.
  { subst out. unfold CommentDispatcher.handler.
    destruct config as [message | c]; [left; eauto|]. right.
    pose proof (signature_gate hmacSha256Hex c event) as Hgate.
    fold (signed c) in Hgate.
    destruct (negb (JS.truthyString (x_hub_signature_256 event)) || _) eqn:Hsig.
    { left. exists c. split; [reflexivity|]. split; [|reflexivity].
      intros Hs. apply Hgate in Hs. discriminate Hs. }
    assert (Hsigned : signed c) by now apply Hgate.
    right.
    destruct (x_github_event event) as [e|] eqn:He.
    2:{ left. exists c. repeat split; auto. discriminate. }
    destruct (String.eqb_spec e "issue_comment") as [-> | Hne]; cbn [negb].
    2:{ left. exists c. repeat split; auto. congruence. }
    right.
    destruct (parsePayload (event_body event)) as [message | p] eqn:Hp.
    { left. exists c, message. auto. }
    right. exists c, p. split; [reflexivity|]. split; [exact Hsigned|].
    split; [reflexivity|]. split; [reflexivity|].
    destruct (CommentDispatcher.shouldTriggerReview p); cbn [negb]; [|now left].
    right.
    destruct (JS.truthyNumber (CommentDispatcher.installation p)) eqn:Hinst; cbn [negb].
    - right. fold (params p). destruct (runTask c (params p)) as [message|] eqn:Hrun.
      + left. exists message. auto.
      + right. auto.
    - left. split; [reflexivity|]. split; [|reflexivity].
      destruct (CommentDispatcher.installation p) as [i|]; [|now left]. right.
      simpl in Hinst. apply negb_false_iff, Z.eqb_eq in Hinst. now subst. }
  split; [exact Htable|].
  destruct Htable as [[m [_ ->]] | [[c [_ [_ ->]]] | [[c [_ [_ [_ ->]]]]
    | [[c [m [_ [_ [_ [_ ->]]]]]] | [c [p [_ [_ [_ [_ Hrest]]]]]]]]]];
    try (simpl; split; [intros H; now elim H | discriminate]).
  destruct Hrest as [[_ ->] | [[_ [_ ->]] | [[m [_ [_ [_ ->]]]] | [_ [_ [_ ->]]]]]];
    try (simpl; split; [intros H; now elim H | discriminate]).
  simpl. split; [reflexivity | discriminate].
Qed.

End CommentTrigger.

Section EnvironmentRoundTrip.
Import Remote Dispatcher TaskLaunch Entrypoint Text Props Terms.

Lemma digitChar_decimal (d : N) : (d < 10)%N -> JS.isDigit (JS.digitChar d) = true.
Proof.
  intros H.
  assert (Hd : (d = 0 \/ d = 1 \/ d = 2 \/ d = 3 \/ d = 4 \/ d = 5 \/ d = 6 \/ d = 7
                \/ d = 8 \/ d = 9)%N) by lia.
  repeat (destruct Hd as [-> | Hd]; [reflexivity|]). now subst.
Qed.

Lemma digitsOf_decimal (fuel : nat) (n : N) (acc : string) :
  JS.forallString JS.isDigit acc = true ->
  JS.forallString JS.isDigit (JS.digitsOf fuel 10 n acc) = true.
Proof.
  revert n acc. induction fuel as [|fuel IH]; intros n acc Hacc; simpl; [exact Hacc|].
  assert (Hd : JS.isDigit (JS.digitChar (n mod 10)) = true).
  { apply digitChar_decimal. apply N.mod_lt. discriminate. }
  destruct (n / 10 =? 0)%N.
  - cbn [JS.forallString]. now rewrite Hd.
  - apply IH. cbn [JS.forallString]. now rewrite Hd.
Qed.

Lemma digitsOf_nonempty (fuel : nat) (radix n : N) (acc : string) :
  acc <> EmptyString -> JS.digitsOf fuel radix n acc <> EmptyString.
Proof.
  revert n acc. induction fuel as [|fuel IH]; intros n acc Hacc; simpl; [exact Hacc|].
  destruct (n / radix =? 0)%N; [discriminate|]. apply IH. discriminate.
Qed.

Lemma natToString_decimal (n : N) :
  exists c ds, JS.natToString 10 n = String c ds
               /\ JS.isDigit c = true /\ JS.forallString JS.isDigit ds = true.
Proof.
  assert (Hall : JS.forallString JS.isDigit (JS.natToString 10 n) = true).
  { unfold JS.natToString. now apply digitsOf_decimal. }
  assert (Hne : JS.natToString 10 n <> EmptyString).
  { unfold JS.natToString. simpl.
    destruct (n / 10 =? 0)%N; [discriminate|]. apply digitsOf_nonempty. discriminate. }
  destruct (JS.natToString 10 n) as [|c ds]; [contradiction|].
  simpl in Hall. apply andb_true_iff in Hall. exists c, ds. tauto.
Qed.

Lemma spanDigits_all (s : string) :
  JS.forallString JS.isDigit s = true -> JS.spanDigits s = (s, EmptyString).
Proof.
  induction s as [|c s IH]; simpl; [reflexivity|].
  rewrite andb_true_iff. intros [Hc Hs]. now rewrite Hc, IH.
Qed.

Lemma decimalValue_value (s : string) (acc : Z) :
  JS.forallString JS.isDigit s = true -> 0 <= acc ->
  decimalValue acc s = Z.of_N (valueFrom 10 (Z.to_N acc) s).
Proof.
  revert acc. induction s as [|c s IH]; intros acc Hs Hacc; simpl.
  - now rewrite Z2N.id.
  - simpl in Hs. apply andb_true_iff in Hs. destruct Hs as [Hc Hs].
    assert (Hd : Z.of_nat (nat_of_ascii c) - 48 = Z.of_N (digitValue c)
                 /\ 0 <= Z.of_nat (nat_of_ascii c) - 48).
    { destruct c as [[] [] [] [] [] [] [] []]; try discriminate Hc;
        split; try reflexivity; simpl; lia. }
    destruct Hd as [Hd Hpos].
    rewrite IH by (auto; lia). f_equal. f_equal.
    rewrite Hd, Z2N.inj_add, Z2N.inj_mul, N2Z.id by lia. reflexivity.
Qed.

Lemma digit_is_solid (c : ascii) (r : string) :
  JS.isDigit c = true ->
  trimStart (String c r) = String c r
  /\ match String c r with
     | String "-"%char r' => (true, r')
     | String "+"%char r' => (false, r')
     | _ => (false, String c r)
     end = (false, String c r).
Proof.
  intros Hc.
  destruct c as [[] [] [] [] [] [] [] []]; try discriminate Hc; split; reflexivity.
Qed.

Lemma parseInt10_numberToString (z : Z) :
  parseInt10 (JS.numberToString z) = Some z
  /\ JS.numberToString z <> EmptyString.
Proof.
  unfold JS.numberToString, JS.toStringRadix.
  destruct (Z.ltb_spec z 0) as [Hneg | Hpos].
  - destruct (natToString_decimal (Z.to_N (- z))) as [c [ds [Hs [Hc Hds]]]].
    split; [|discriminate].
    assert (Hall : JS.forallString JS.isDigit (String c ds) = true).
    { simpl. now rewrite Hc, Hds. }
    unfold parseInt10. rewrite Hs.
    change (trimStart ("-" ++ String c ds)) with ("-" ++ String c ds).
    cbn [append]. rewrite spanDigits_all by exact Hall.
    rewrite decimalValue_value by (auto; lia).
    rewrite <- Hs, natToString_value by lia. rewrite Z2N.id by lia.
    f_equal. lia.
  - destruct (natToString_decimal (Z.to_N z)) as [c [ds [Hs [Hc Hds]]]].
    split; [|now rewrite Hs].
    assert (Hall : JS.forallString JS.isDigit (String c ds) = true).
    { simpl. now rewrite Hc, Hds. }
    unfold parseInt10. rewrite Hs.
    destruct (digit_is_solid c ds Hc) as [Htrim Hsign]. rewrite Htrim, Hsign.
    rewrite spanDigits_all by exact Hall.
    rewrite decimalValue_value by (auto; lia).
    rewrite <- Hs, natToString_value by lia. now rewrite Z2N.id by lia.
Qed.

(** X23: What the dispatcher writes into the environment of the task, the
    entry point reads back.  In every environment in which the variables
    that the override lists have the values it lists, and for an owner and
    a repository that are not empty, [main] passes to the session the
    owner, the repository, the number of the pull request and the
    installation id of the task parameters; the threshold and the retry
    switch come from the rest of the environment.  With an empty owner or
    repository the entry point stops with status 1 before it reads any
    secret.  In the environment of the override alone the threshold is 100
    files and the retry is switched on.  (Numbers are taken in the range in
    which the numbers of the platform are exact.) *)
Theorem task_environment_is_read_back
        (config : DispatcherConfig) (params : ReviewTaskParams)
        (Hnumber : - 2 ^ 53 < task_prNumber params < 2 ^ 53)
        (Hinstallation : - 2 ^ 53 < task_installationId params < 2 ^ 53) :
  forall o, In o (containerOverrides (taskInput config params)) ->
    override_name o = containerName config
    /\ (forall env,
           (forall name value, In (name, value) (environment o) ->
                               getenv name env = Some value) ->
           (task_owner params <> EmptyString -> task_repo params <> EmptyString ->
            settings env
            = Some (mkSettings
                      (task_owner params) (task_repo params)
                      (Some (task_prNumber params))
                      (Some (task_installationId params))
                      (parseInt10 (match getenv "MAX_FILES_THRESHOLD" env with
                                   | Some v => v
                                   | None => "100"
                                   end))
                      (negb (match getenv "RETRY_ON_ERROR" env with
                             | Some v => String.eqb v "false"
                             | None => false
                             end))))
           /\ (task_owner params = EmptyString \/ task_repo params = EmptyString ->
               settings env = None
               /\ forall secrets review, main env secrets review = 1))
    /\ (task_owner params <> EmptyString -> task_repo params <> EmptyString ->
        settings (environment o)
        = Some (mkSettings (task_owner params) (task_repo params)
                           (Some (task_prNumber params))
                           (Some (task_installationId params))
                           (Some 100) true)).
Proof.
  intros o [<- | []]. split; [reflexivity|].
  destruct (parseInt10_numberToString (task_prNumber params)) as [Hn Hn'].
  destruct (parseInt10_numberToString (task_installationId params)) as [Hi Hi'].
  cbn [environment taskInput containerOverrides].
  match goal with
  | |- ?general /\ _ => assert (Hgeneral : general)
  end.
  { intros env Henv.
    assert (Howner : getenv "PR_OWNER" env = Some (task_owner params))
      by (apply Henv; simpl; tauto).
    assert (Hrepo : getenv "PR_REPO" env = Some (task_repo params))
      by (apply Henv; simpl; tauto).
    assert (Hnum : getenv "PR_NUMBER" env
                   = Some (JS.numberToString (task_prNumber params)))
      by (apply Henv; simpl; tauto).
    assert (Hinst : getenv "GITHUB_INSTALLATION_ID" env
                    = Some (JS.numberToString (task_installationId params)))
      by (apply Henv; simpl; tauto).
    unfold main, settings. rewrite Howner, Hrepo, Hnum, Hinst.
    cbn [JS.truthyString].
    destruct (JS.numberToString (task_prNumber params)) as [|c1 s1] eqn:H1;
      [contradiction|].
    destruct (JS.numberToString (task_installationId params)) as [|c2 s2] eqn:H2;
      [contradiction|].
    rewrite Hn, Hi. split.
    - intros Ho Hr. destruct (task_owner params); [contradiction|].
      destruct (task_repo params); [contradiction|]. reflexivity.
    - intros [-> | ->]; [now split|].
      destruct (task_owner params); now split. }
  split; [exact Hgeneral|].
  intros Ho Hr.
  match goal with
  | |- settings ?env = _ =>
      assert (Hself : forall name value, In (name, value) env ->
                                         getenv name env = Some value)
  end.
  { intros name value [H | [H | [H | [H | []]]]];
      injection H as <- <-; reflexivity. }
  rewrite (proj1 (Hgeneral _ Hself) Ho Hr). reflexivity.
Qed.

(** X23 at the task of a pull request with the number 7, in an environment
    that also sets the threshold. *)
Lemma task_environment_is_read_back_witness :
  let config := mkDispatcherConfig "secret" "cluster" "task" [] [] "reviewer" in
  let params := mkParams "acme" "app" 7 42 in
  let o := mkOverride "reviewer"
             [("PR_OWNER", "acme"); ("PR_REPO", "app"); ("PR_NUMBER", "7");
              ("GITHUB_INSTALLATION_ID", "42")] in
  let env := (("MAX_FILES_THRESHOLD", "25") :: environment o)%list in
  In o (containerOverrides (taskInput config params))
  /\ settings env = Some (mkSettings "acme" "app" (Some 7) (Some 42) (Some 25) true)
  /\ settings (environment o)
     = Some (mkSettings "acme" "app" (Some 7) (Some 42) (Some 100) true).
Proof.
  intros config params o env.
  assert (Hn : - 2 ^ 53 < task_prNumber params < 2 ^ 53) by (simpl; lia).
  assert (Hi : - 2 ^ 53 < task_installationId params < 2 ^ 53) by (simpl; lia).
  assert (Hin : In o (containerOverrides (taskInput config params))) by now left.
  split; [exact Hin|].
  pose proof (task_environment_is_read_back config params Hn Hi o Hin) as H.
  destruct H as [_ [Hgeneral Hself]].
  assert (Henv : forall name value, In (name, value) (environment o) ->
                                    getenv name env = Some value).
  { intros name value [H | [H | [H | [H | []]]]];
      injection H as <- <-; reflexivity. }
  split.
  - rewrite (proj1 (Hgeneral env Henv)) by discriminate. reflexivity.
  - apply Hself; discriminate.
Defined.

End EnvironmentRoundTrip.

Section EveryCall.
Import Review Remote Remote.Notations Props Terms.
Import Reconciler CommentBuilder GitHubClient Session.

Lemma emits_tryCatch_forall {A} (m : M A) (h : string -> M A) (Q : Call -> Prop) :
  emits m (Forall Q) -> (forall e, emits (h e) (Forall Q)) ->
  emits (tryCatch m h) (Forall Q).
Proof.
  intros Hm Hh. apply (emits_tryCatch m h (Forall Q) (Forall Q)); auto.
  intros t1 t2 H1 H2. apply Forall_app. now split.
Qed.

Lemma emits_tryFinally_forall {A} (m : M A) (c : M unit) (Q : Call -> Prop) :
  emits m (Forall Q) -> emits c (Forall Q) -> emits (tryFinally m c) (Forall Q).
Proof.
  intros Hm Hc. apply (emits_tryFinally m c (Forall Q) (Forall Q)); auto.
  intros t1 t2 H1 H2. apply Forall_app. now split.
Qed.

Lemma emits_forEach_forall {A} (l : list A) (body : A -> M unit) (Q : Call -> Prop) :
  (forall a, emits (body a) (Forall Q)) -> emits (forEach l body) (Forall Q).
Proof.
  intros H. apply emits_forEach; auto.
  intros t1 t2 H1 H2. apply Forall_app. now split.
Qed.

Lemma emits_newWorkDir (P : list Call -> Prop) : P [] -> emits newWorkDir P.
Proof.
  intros HP o w r w' H. injection H as <- <-. exists []. now rewrite app_nil_r.
Qed.

End EveryCall.

(** A property of every call of a computation, shown along its structure;
    [tac] shows the property of the single calls. *)
Ltac every_call tac :=
  repeat (cbv beta zeta;
    match goal with
    | |- Props.emits (Remote.bind _ _) (Forall _) => apply emits_bind_forall; [|intros]
    | |- Props.emits (Remote.tryCatch _ _) (Forall _) => apply emits_tryCatch_forall; [|intros]
    | |- Props.emits (Remote.tryFinally _ _) (Forall _) => apply emits_tryFinally_forall
    | |- Props.emits (Remote.forEach _ _) (Forall _) => apply emits_forEach_forall; intros
    | |- Props.emits (Remote.ret _) (Forall _) => apply emits_ret; constructor
    | |- Props.emits (Remote.throw _) (Forall _) => apply emits_throw; constructor
    | |- Props.emits Remote.ask (Forall _) => apply emits_ask; constructor
    | |- Props.emits Remote.currentLabels (Forall _) => apply emits_currentLabels; constructor
    | |- Props.emits Session.newWorkDir (Forall _) => apply emits_newWorkDir; constructor
    | |- Props.emits (Remote.perform _) (Forall _) =>
        apply emits_perform; constructor; [solve [tac] | constructor]
    | |- Props.emits (Remote.query _) (Forall _) =>
        apply emits_query; constructor; [solve [tac] | constructor]
    | |- Props.emits (if ?b then _ else _) (Forall _) => destruct b
    | |- Props.emits (match ?x with _ => _ end) (Forall _) => destruct x
    end).

Section SignedSession.
Import Review Remote Remote.Notations Props Terms.
Import Reconciler CommentBuilder GitHubClient Session.

(** X24: Whatever the remote side answers, a session never approves by a
    review: every review it submits carries the event [REQUEST_CHANGES] or
    [COMMENT] (an approval is an ordinary comment on the pull request), and
    every text it posts, as a review, a review comment or a comment on the
    pull request, names the reviewer. *)
Theorem session_posts_signed_and_never_approves
        (config : ReviewerConfig) (request : ReviewRequest)
        (o : Oracle) (ls : list string) :
  Forall postsSigned (log (snd (run (runReview config request) o ls))).
Proof.
  assert (H : emits (runReview config request) (Forall postsSigned)).
  { unfold runReview, performReview, reviewInWorkDir, getPullRequestInfo, setLabels,
      postErrorComment, checkClaudeCliAvailable, getChangedFilesCount, isNonCodePR,
      cloneRepository, runClaudeReview, getExistingBotComments, resolveComment,
      createReviewComment, dismissStaleReview, submitReview.
    every_call ltac:(first
      [ exact I
      | apply summary_signed
      | apply finding_comment_signed
      | apply error_comment_signed
      | split; [auto | first [apply summary_signed | apply skip_comment_signed]] ]). }
  unfold run. destruct (runReview config request o (mkWorld ls [])) as [r w'] eqn:Hrun.
  destruct (H _ _ _ _ Hrun) as [t [Hlog Ht]]. simpl in *. now rewrite Hlog.
Qed.

End SignedSession.

Section AttemptTraces.
Import Review Remote Remote.Notations Props Terms.
Import Reconciler CommentBuilder GitHubClient Session.

Lemma perform_ok (c : Call) o w n w' :
  perform c o w = (Ok n, w') ->
  n = List.length (log w)
  /\ log w' = (log w ++ [c])%list
  /\ labels w' = applyEffect c (labels w).
Proof.
  intros H. apply perform_cases in H.
  destruct H as [Hl [[Hr [_ Hlab]] | [e [Hr _]]]]; [|discriminate Hr].
  injection Hr as ->. auto.
Qed.

Lemma query_ok (c : Call) o w n w' :
  query c o w = (Ok n, w') ->
  n = List.length (log w) /\ log w' = (log w ++ [c])%list /\ labels w' = labels w.
Proof. intros H. injection H as <- <-. auto. Qed.

Lemma cloneRepository_ok pr dir o w p w' :
  cloneRepository pr dir o w = (Ok p, w') ->
  log w' = (log w ++ [AuthInstallation; GitClone dir; GitFetch dir; GitCheckout dir])%list.
Proof.
  unfold cloneRepository. intros H.
  apply bind_ok in H. destruct H as [n1 [w1 [H1 H]]]. apply perform_ok in H1.
  apply bind_ok in H. destruct H as [n2 [w2 [H2 H]]]. apply perform_ok in H2.
  apply bind_ok in H. destruct H as [n3 [w3 [H3 H]]]. apply perform_ok in H3.
  apply bind_ok in H. destruct H as [n4 [w4 [H4 H]]]. apply perform_ok in H4.
  injection H as _ <-.
  destruct H1 as [_ [H1 _]], H2 as [_ [H2 _]], H3 as [_ [H3 _]], H4 as [_ [H4 _]].
  rewrite H4, H3, H2, H1, <- !app_assoc. reflexivity.
Qed.

Lemma forEach_create_ok pr (l : list Finding) o w u w' :
  forEach l (fun finding =>
               createReviewComment pr finding
                 (buildFindingComment finding (headSha pr))) o w = (Ok u, w') ->
  log w' = (log w ++ map (commentCall pr) l)%list.
Proof.
  revert w. induction l as [|f l IH]; intros w H; simpl in H.
  - injection H as _ <-. now rewrite app_nil_r.
  - apply bind_ok in H. destruct H as [u1 [w1 [H1 H]]].
    unfold createReviewComment in H1.
    apply bind_ok in H1. destruct H1 as [n [w2 [H1 H2]]]. injection H2 as _ <-.
    apply perform_ok in H1. destruct H1 as [_ [H1 _]].
    rewrite (IH _ H), H1, <- app_assoc. reflexivity.
Qed.

Lemma forEach_resolve_ok pr (ids : list Z) o w u w' :
  forEach ids (fun commentId => resolveComment pr commentId) o w = (Ok u, w') ->
  exists t, log w' = (log w ++ t)%list /\ resolution ids t.
Proof.
  revert w. induction ids as [|id ids IH]; intros w H; simpl in H.
  - injection H as _ <-. exists []. split; [now rewrite app_nil_r | constructor].
  - apply bind_ok in H. destruct H as [u1 [w1 [H1 H]]].
    destruct (IH _ H) as [t [Hl Ht]].
    destruct (resolveComment_runs _ _ _ _ _ _ H1)
      as [_ [[e [_ [He _]]] | [[_ [_ [_ Hl1]]] | [_ [_ [_ Hl1]]]]]];
      [discriminate He | |].
    + exists (GetReviewComment id :: t). split; [|now constructor].
      rewrite Hl, Hl1, <- app_assoc. reflexivity.
    + eexists (GetReviewComment id :: ResolveReviewThread _ :: t).
      split; [|now constructor]. rewrite Hl, Hl1, <- app_assoc. reflexivity.
Qed.

(** X25: The calls of an attempt that ends with the outcome [reviewed],
    all of them and in their order, for a listing of review comments whose
    markers are in the range of the embedding (metadata without backslash;
    a hash member that is a string or [null] or is missing): the check of
    the engine executable, the fetch of the pull request, the listing of
    its files, the creation of the workspace, the clone, the run of the
    engine, the listing of the review comments, the resolution of the
    threads of the fixed comments, one review comment for every new
    finding, most severe first, the dismissal of a stale review unless the
    verdict is [request_changes], the summary with the verdict, and the
    removal of the workspace.  Persisting comments get no call. *)
Theorem reviewed_attempt_calls
        (config : ReviewerConfig) (pr : PullRequestInfo)
        (o : Oracle) (w : World) (out : ReviewOutcome) (w' : World)
        (Hrun : performReview config pr o w = (Ok out, w'))
        (Hreviewed : out_action out = Some reviewed)
        (Htyped : forallb typedComment (reviewComments o (List.length (log w) + 9)%nat)
                  = true) :
  let n := List.length (log w) in
  let dir := "/tmp/pr-review-" ++ uuid o (n + 3)%nat in
  exists result resolved dismissal,
    CliRunner.result (cliRun o (n + 8)%nat) = Some result
    /\ let existing := botCommentsOf (reviewComments o (n + 9)%nat) in
       let reconciliation := reconcileFindings (findings result) existing in
       let action := determineReviewAction (findings result) in
       log w'
       = (log w
            ++ [ClaudeVersion; PullsGet; ListFiles; Mkdir dir; AuthInstallation;
                GitClone dir; GitFetch dir; GitCheckout dir; ClaudeReview dir;
                ListReviewComments]
            ++ resolved
            ++ map (commentCall pr)
                   (sortFindingsBySeverity (newFindings reconciliation))
            ++ dismissal
            ++ [submitCall action (buildReviewSummary result (headSha pr)); Rm dir])%list
       /\ resolution (fixedCommentIds reconciliation) resolved
       /\ (action = request_changes -> dismissal = [])
       /\ (action <> request_changes ->
           dismissal = [ListReviews]
           \/ exists r, isBotRequestChanges r = true
                        /\ dismissal = [ListReviews; DismissReview (review_id r)])
       /\ out = mkOutcome true (Some reviewed)
                          ("Review complete: " ++ actionName action)
                          (Some (Z.of_nat (List.length (findings result)))).
Proof.
  intros n dir.
  unfold performReview in Hrun.
  apply bind_ok in Hrun. destruct Hrun as [cliOk [w1 [H1 H]]].
  unfold checkClaudeCliAvailable in H1.
  apply bind_ok in H1. destruct H1 as [n1 [w1' [H1 H1']]]. injection H1' as _ <-.
  apply query_ok in H1. destruct H1 as [_ [Hl1 _]].
  destruct (negb cliOk); [discriminate H|].
  apply bind_ok in H. destruct H as [changed [w2 [H2 H]]].
  unfold getChangedFilesCount in H2.
  apply bind_ok in H2. destruct H2 as [n2 [w2' [H2 H2']]]. injection H2' as _ <-.
  apply perform_ok in H2. destruct H2 as [_ [Hl2 _]].
  destruct (JS.greaterThan changed _).
  { apply bind_ok in H. destruct H as [u [w3 [_ H]]]. injection H as <- _.
    discriminate Hreviewed. }
  apply bind_ok in H. destruct H as [nonCode [w3 [H3 H]]].
  unfold isNonCodePR in H3.
  apply bind_ok in H3. destruct H3 as [n3 [w3' [H3 H3']]]. injection H3' as _ <-.
  apply perform_ok in H3. destruct H3 as [_ [Hl3 _]].
  destruct nonCode.
  { apply bind_ok in H. destruct H as [u [w4 [_ H]]]. injection H as <- _.
    discriminate Hreviewed. }
  apply bind_ok in H. destruct H as [workDir [w4 [H4 H]]].
  unfold newWorkDir in H4. injection H4 as <- <-.
  assert (Hlen3 : List.length (log w3') = (n + 3)%nat).
  { rewrite Hl3, Hl2, Hl1, !length_app. simpl. subst n. lia. }
  rewrite Hlen3 in H. fold dir in H.
  apply bind_ok in H. destruct H as [n5 [w5 [H5 H]]].
  apply perform_ok in H5. destruct H5 as [_ [Hl5 _]].
  apply tryFinally_ok in H. destruct H as [w6 [u [H6 H7]]].
  apply bind_ok in H7. destruct H7 as [n7 [w7 [H7 H8]]]. injection H8 as _ <-.
  apply perform_ok in H7. destruct H7 as [_ [Hl7 _]].
  (* the review in the workspace *)
  unfold reviewInWorkDir in H6.
  apply bind_ok in H6. destruct H6 as [p [w8 [H8 H6]]].
  apply cloneRepository_ok in H8.
  apply bind_ok in H6. destruct H6 as [cliResult [w9 [H9 H6]]].
  unfold runClaudeReview in H9.
  apply bind_ok in H9. destruct H9 as [n9 [w9' [H9 H9']]]. injection H9' as <- <-.
  apply query_ok in H9. destruct H9 as [Hn9 [Hl9 _]].
  assert (Hlen8 : List.length (log w8) = (n + 8)%nat).
  { rewrite H8, Hl5, !length_app, Hlen3. simpl. lia. }
  rewrite Hn9, Hlen8 in H6.
  destruct (CliRunner.success (cliRun o (n + 8)%nat)); [|discriminate H6].
  destruct (CliRunner.result (cliRun o (n + 8)%nat)) as [result|] eqn:Hres;
    [|discriminate H6].
  assert (Hbody :
            (existingComments <- getExistingBotComments pr ;;
             forEach (fixedCommentIds (reconcileFindings (findings result) existingComments))
                     (fun commentId => resolveComment pr commentId) ;;;
             forEach (sortFindingsBySeverity
                        (newFindings (reconcileFindings (findings result) existingComments)))
                     (fun finding =>
                        createReviewComment pr finding
                          (buildFindingComment finding (headSha pr))) ;;;
             (if shouldDismissPreviousReview (findings result)
              then dismissStaleReview pr else ret tt) ;;;
             submitReview pr (determineReviewAction (findings result))
                          (buildReviewSummary result (headSha pr)) ;;;
             ret (mkOutcome true (Some reviewed)
                            ("Review complete: "
                               ++ actionName (determineReviewAction (findings result)))
                            (Some (Z.of_nat (List.length (findings result))))))
              o w9' = (Ok out, w6)).
  { destruct (status result); try exact H6.
    apply bind_ok in H6. destruct H6 as [u' [w10 [_ H6]]]. injection H6 as <- _.
    discriminate Hreviewed. }
  clear H6. rename Hbody into H.
  apply bind_ok in H. destruct H as [existing [w10 [H10 H]]].
  unfold getExistingBotComments in H10.
  apply bind_ok in H10. destruct H10 as [n10 [w10' [H10 H10']]].
  injection H10' as <- <-.
  apply perform_ok in H10. destruct H10 as [Hn10 [Hl10 _]].
  assert (Hlen9 : List.length (log w9') = (n + 9)%nat).
  { rewrite Hl9, !length_app, Hlen8. simpl. lia. }
  rewrite Hn10, Hlen9 in H.
  set (reconciliation := reconcileFindings (findings result)
                           (botCommentsOf (reviewComments o (n + 9)%nat))) in *.
  apply bind_ok in H. destruct H as [u11 [w11 [H11 H]]].
  apply forEach_resolve_ok in H11. destruct H11 as [resolved [Hl11 Hresolved]].
  apply bind_ok in H. destruct H as [u12 [w12 [H12 H]]].
  apply forEach_create_ok in H12.
  apply bind_ok in H. destruct H as [u13 [w13 [H13 H]]].
  apply bind_ok in H. destruct H as [u14 [w14 [H14 H]]].
  apply submitReview_ok in H14. injection H as <- <-.
  assert (Hdismiss :
            exists dismissal,
              log w13 = (log w12 ++ dismissal)%list
              /\ (determineReviewAction (findings result) = request_changes ->
                  dismissal = [])
              /\ (determineReviewAction (findings result) <> request_changes ->
                  dismissal = [ListReviews]
                  \/ exists r, isBotRequestChanges r = true
                               /\ dismissal = [ListReviews; DismissReview (review_id r)])).
  { unfold shouldDismissPreviousReview, determineReviewAction in *.
    destruct (existsb (fun f => Severity_eqb (severity f) critical) (findings result));
      cbn [negb] in H13.
    - injection H13 as _ <-. exists []. split; [now rewrite app_nil_r|].
      split; [reflexivity|]. intros Hne. now elim Hne.
    - assert (Hlisted : fails o (List.length (log w12)) = None).
      { unfold dismissStaleReview in H13.
        apply bind_ok in H13. destruct H13 as [n13 [w13' [H13 _]]].
        apply perform_cases in H13.
        destruct H13 as [_ [[_ [Hf _]] | [e [He _]]]]; [exact Hf | discriminate He]. }
      destruct (dismissStaleReview_runs pr o w12 _ _ H13 Hlisted)
        as [_ [[_ [Hl _]] | [before [r [after [_ [_ [Hr Hl]]]]]]]].
      + exists [ListReviews]. split; [exact Hl|]. split; [|auto].
        destruct (existsb _ (findings result)); discriminate.
      + exists [ListReviews; DismissReview (review_id r)]. split; [exact Hl|].
        split; [destruct (existsb _ (findings result)); discriminate|].
        intros _. right. eauto. }
  destruct Hdismiss as [dismissal [Hl13 [Hrc Hnrc]]].
  exists result, resolved, dismissal. split; [reflexivity|].
  cbv zeta. fold reconciliation.
  split; [|split; [exact Hresolved | split; [exact Hrc | split; [exact Hnrc | reflexivity]]]].
  rewrite Hl7, H14, Hl13, H12, Hl11, Hl10, Hl9, H8, Hl5, Hl3, Hl2, Hl1.
  rewrite <- !app_assoc. reflexivity.
Qed.

Lemma bind_run {A B} (m : M A) (f : A -> M B) o w :
  bind m f o w = match m o w with
                 | (Ok a, w1) => f a o w1
                 | (Throw e, w1) => (Throw e, w1)
                 end.
Proof. reflexivity. Qed.

Lemma perform_run (c : Call) o w :
  perform c o w
  = match fails o (List.length (log w)) with
    | Some e => (Throw e, mkWorld (labels w) (log w ++ [c]))
    | None => (Ok (List.length (log w)),
               mkWorld (applyEffect c (labels w)) (log w ++ [c]))
    end.
Proof. reflexivity. Qed.

Lemma checkCli_run o w :
  checkClaudeCliAvailable o w
  = (Ok (cliAvailable o (List.length (log w))),
     mkWorld (labels w) (log w ++ [ClaudeVersion])).
Proof. reflexivity. Qed.

Lemma changedFiles_run pr o w :
  getChangedFilesCount pr o w
  = match fails o (List.length (log w)) with
    | Some e => (Throw e, mkWorld (labels w) (log w ++ [PullsGet]))
    | None => (Ok (changed_files (pullData o (List.length (log w)))),
               mkWorld (labels w) (log w ++ [PullsGet]))
    end.
Proof.
  unfold getChangedFilesCount, bind, perform, ask, ret.
  now destruct (fails o (List.length (log w))).
Qed.

Lemma isNonCode_run pr o w :
  isNonCodePR pr o w
  = match fails o (List.length (log w)) with
    | Some e => (Throw e, mkWorld (labels w) (log w ++ [ListFiles]))
    | None =>
        (Ok (negb (existsb (fun f => existsb (String.eqb (extensionOf f)) codeExtensions)
                           (fileNames o (List.length (log w))))),
         mkWorld (labels w) (log w ++ [ListFiles]))
    end.
Proof.
  unfold isNonCodePR, bind, perform, ask, ret.
  now destruct (fails o (List.length (log w))).
Qed.

Lemma notice_run pr body o w :
  submitReview pr comment body o w
  = match fails o (List.length (log w)) with
    | Some e => (Throw e, mkWorld (labels w) (log w ++ [CreateReview "COMMENT" body]))
    | None => (Ok tt, mkWorld (labels w) (log w ++ [CreateReview "COMMENT" body]))
    end.
Proof.
  unfold submitReview, bind, perform, ret.
  now destruct (fails o (List.length (log w))).
Qed.

(** The runs of [performReview] up to the work in the workspace, with
    the answers of the oracle that decide them. *)
Lemma performReview_runs
      (config : ReviewerConfig) (pr : PullRequestInfo) (o : Oracle) (w : World)
      (r : Res ReviewOutcome) (w' : World) :
  performReview config pr o w = (r, w') ->
  let n := List.length (log w) in
  let changed := changed_files (pullData o (n + 1)%nat) in
  let maxFiles := match maxFilesThreshold config with
                  | Some m => m
                  | None => JS.Int MAX_FILES_DEFAULT
                  end in
  let hasCode := existsb (fun f => existsb (String.eqb (extensionOf f)) codeExtensions)
                         (fileNames o (n + 2)%nat) in
  let dir := "/tmp/pr-review-" ++ uuid o (n + 3)%nat in
  let notice reason := CreateReview "COMMENT" (buildSkipComment reason (headSha pr)) in
  let skip reason := mkOutcome true (Some skipped_pr) reason None in
  (cliAvailable o n = false /\ r = Throw "Claude CLI is not available"
   /\ log w' = (log w ++ [ClaudeVersion])%list)
  \/ (cliAvailable o n = true
      /\ ((exists e, fails o (n + 1)%nat = Some e /\ r = Throw e
                     /\ log w' = (log w ++ [ClaudeVersion; PullsGet])%list)
          \/ (fails o (n + 1)%nat = None
              /\ ((JS.greaterThan changed maxFiles = true
                   /\ log w' = (log w ++ [ClaudeVersion; PullsGet;
                                          notice (tooManyFilesReason changed maxFiles)])%list
                   /\ ((fails o (n + 2)%nat = None
                        /\ r = Ok (skip (tooManyFilesReason changed maxFiles)))
                       \/ exists e, fails o (n + 2)%nat = Some e /\ r = Throw e))
                  \/ (JS.greaterThan changed maxFiles = false
                      /\ ((exists e, fails o (n + 2)%nat = Some e /\ r = Throw e
                                     /\ log w' = (log w ++ [ClaudeVersion; PullsGet;
                                                            ListFiles])%list)
                          \/ (fails o (n + 2)%nat = None
                              /\ ((hasCode = false
                                   /\ log w' = (log w ++ [ClaudeVersion; PullsGet; ListFiles;
                                                          notice nonCodeReason])%list
                                   /\ ((fails o (n + 3)%nat = None
                                        /\ r = Ok (skip nonCodeReason))
                                       \/ exists e, fails o (n + 3)%nat = Some e
                                                    /\ r = Throw e))
                                  \/ (hasCode = true
                                      /\ ((exists e,
                                              fails o (n + 3)%nat = Some e /\ r = Throw e
                                              /\ log w' = (log w ++ [ClaudeVersion; PullsGet;
                                                                     ListFiles; Mkdir dir])%list)
                                          \/ (fails o (n + 3)%nat = None
                                              /\ exists r1 w1,
                                                  reviewInWorkDir pr dir o
                                                    (mkWorld (labels w)
                                                       (log w ++ [ClaudeVersion; PullsGet;
                                                                  ListFiles; Mkdir dir]))
                                                  = (r1, w1)
                                                  /\ log w' = (log w1 ++ [Rm dir])%list
                                                  /\ ((fails o (List.length (log w1)) = None
                                                       /\ r = r1)
                                                      \/ exists e,
                                                          fails o (List.length (log w1))
                                                          = Some e
                                                          /\ r = Throw e)))))))))))).
Proof.
  intros Hrun n changed maxFiles hasCode dir notice skip.
  assert (Hn1 : List.length (log w ++ [ClaudeVersion]) = (n + 1)%nat).
  { rewrite length_app. reflexivity. }
  assert (Hn2 : List.length (log w ++ [ClaudeVersion; PullsGet]) = (n + 2)%nat).
  { rewrite !length_app. reflexivity. }
  assert (Hn3 : List.length (log w ++ [ClaudeVersion; PullsGet; ListFiles])
                = (n + 3)%nat).
  { rewrite !length_app. reflexivity. }
  unfold performReview in Hrun.
  rewrite bind_run, checkCli_run in Hrun. cbv iota beta in Hrun. fold n in Hrun.
  destruct (cliAvailable o n) eqn:Hcli; cbn [negb] in Hrun.
  2:{ injection Hrun as <- <-. left. auto. }
  right. split; [reflexivity|].
  rewrite bind_run, changedFiles_run in Hrun. cbn [log labels] in Hrun.
  rewrite Hn1 in Hrun. fold changed in Hrun.
  destruct (fails o (n + 1)%nat) as [e|] eqn:Hf1; cbv iota beta in Hrun.
  { injection Hrun as <- <-. left. exists e. cbn [log]. rewrite <- app_assoc. auto. }
  right. split; [reflexivity|].
  rewrite <- app_assoc in Hrun. cbn [app] in Hrun.
  fold maxFiles in Hrun.
  destruct (JS.greaterThan changed maxFiles) eqn:Hbig.
  { left. split; [reflexivity|].
    rewrite bind_run, notice_run in Hrun. cbn [log labels] in Hrun.
    rewrite Hn2 in Hrun.
    destruct (fails o (n + 2)%nat) as [e|] eqn:Hf2; cbv iota beta in Hrun;
      injection Hrun as <- <-; cbn [log]; rewrite <- !app_assoc;
      (split; [reflexivity|]); eauto. }
  right. split; [reflexivity|].
  rewrite bind_run, isNonCode_run in Hrun. cbn [log labels] in Hrun.
  rewrite Hn2 in Hrun. fold hasCode in Hrun.
  destruct (fails o (n + 2)%nat) as [e|] eqn:Hf2; cbv iota beta in Hrun.
  { injection Hrun as <- <-. left. exists e. cbn [log]. rewrite <- !app_assoc. auto. }
  right. split; [reflexivity|].
  rewrite <- app_assoc in Hrun. cbn [app] in Hrun.
  destruct hasCode eqn:Hcode; cbn [negb] in Hrun.
  2:{ left. split; [reflexivity|].
      rewrite bind_run, notice_run in Hrun. cbn [log labels] in Hrun.
      rewrite Hn3 in Hrun.
      destruct (fails o (n + 3)%nat) as [e|] eqn:Hf3; cbv iota beta in Hrun;
        injection Hrun as <- <-; cbn [log]; rewrite <- !app_assoc;
        (split; [reflexivity|]); eauto. }
  right. split; [reflexivity|].
  rewrite bind_run in Hrun. unfold newWorkDir at 1 in Hrun. cbn [log labels] in Hrun.
  rewrite Hn3 in Hrun. fold dir in Hrun.
  rewrite bind_run, perform_run in Hrun. cbn [log labels applyEffect] in Hrun.
  rewrite Hn3 in Hrun.
  destruct (fails o (n + 3)%nat) as [e|] eqn:Hf3; cbv iota beta in Hrun.
  { injection Hrun as <- <-. left. exists e. cbn [log]. rewrite <- !app_assoc. auto. }
  right. split; [reflexivity|].
  rewrite <- app_assoc in Hrun. cbn [app] in Hrun.
  unfold tryFinally in Hrun.
  destruct (reviewInWorkDir pr dir o _) as [r1 w1] eqn:Hwork.
  exists r1, w1. split; [reflexivity|].
  rewrite bind_run, perform_run in Hrun. cbn [applyEffect] in Hrun.
  destruct (fails o (List.length (log w1))) as [e|] eqn:Hf; cbv iota beta in Hrun;
    injection Hrun as <- <-; cbn [log]; (split; [reflexivity|]); eauto.
Qed.

Lemma between_bounds (lo hi : nat) (t : list Call) :
  between lo hi t -> Forall (fun c => (lo <= phase c <= hi)%nat) t.
Proof.
  intros [Ha Hf]. revert lo Ha. induction t as [|c t IH]; intros lo Ha; [constructor|].
  inversion Hf; subst. destruct Ha as [Hc Ha]. constructor; [lia|].
  eapply Forall_impl; [|apply (IH H2 (phase c) Ha)]. simpl. intros. lia.
Qed.

(** X26: Every run of an attempt, whatever its end, keeps two rules.  The
    workspace is removed: when the creation of the workspace succeeded, the
    removal of that directory is the last call of the attempt, also when
    the work in it failed.  And the engine is guarded: a workspace is
    created, and so the engine is run, only when the engine executable is
    available, the number of changed files is not greater than the
    threshold and one of the files is code.  No number is greater than a
    threshold that is [NaN]: with such a threshold a pull request of any
    size passes the guard. *)
Theorem workspace_removed_and_engine_guarded
        (config : ReviewerConfig) (pr : PullRequestInfo) (o : Oracle) (w : World)
        (r : Res ReviewOutcome) (w' : World)
        (Hrun : performReview config pr o w = (r, w')) :
  let n := List.length (log w) in
  let changed := changed_files (pullData o (n + 1)%nat) in
  let maxFiles := match maxFilesThreshold config with
                  | Some m => m
                  | None => JS.Int MAX_FILES_DEFAULT
                  end in
  let hasCode := existsb (fun f => existsb (String.eqb (extensionOf f)) codeExtensions)
                         (fileNames o (n + 2)%nat) in
  let dir := "/tmp/pr-review-" ++ uuid o (n + 3)%nat in
  let guard := cliAvailable o n = true
               /\ JS.greaterThan changed maxFiles = false
               /\ hasCode = true in
  (exists t,
      log w' = (log w ++ t)%list
      /\ (Forall (fun c => phase c = 1%nat \/ phase c = 9%nat) t
          \/ (exists e, t = [ClaudeVersion; PullsGet; ListFiles; Mkdir dir]
                        /\ fails o (n + 3)%nat = Some e /\ r = Throw e /\ guard)
          \/ (exists work,
                 t = ([ClaudeVersion; PullsGet; ListFiles; Mkdir dir]
                        ++ work ++ [Rm dir])%list
                 /\ Forall (fun c => (3 <= phase c <= 9)%nat) work
                 /\ fails o (n + 3)%nat = None /\ guard))
      /\ (forall d, In (ClaudeReview d) t \/ In (Mkdir d) t -> d = dir /\ guard))
  /\ (forall m, maxFiles = JS.Int m ->
                (JS.greaterThan changed maxFiles = false <-> changed <= m))
  /\ (maxFiles = JS.NaN -> JS.greaterThan changed maxFiles = false).
Proof.
  intros n changed maxFiles hasCode dir guard.
  split; [|split; [intros m Hm; rewrite Hm; simpl; apply Z.ltb_ge
                  | intros Hm; rewrite Hm; reflexivity]].
  pose proof (performReview_runs config pr o w r w' Hrun) as H.
  cbv zeta in H. fold n changed maxFiles hasCode dir in H.
  assert (Hquiet : forall t,
             Forall (fun c => phase c = 1%nat \/ phase c = 9%nat) t ->
             forall d, In (ClaudeReview d) t \/ In (Mkdir d) t -> d = dir /\ guard).
  { intros t Ht d Hd. rewrite Forall_forall in Ht.
    destruct Hd as [Hd | Hd]; apply Ht in Hd; simpl in Hd; destruct Hd; discriminate. }
  destruct H as [[_ [_ Hl]] | [Hcli H]].
  { eexists. split; [exact Hl|].
    assert (Hq : Forall (fun c => phase c = 1%nat \/ phase c = 9%nat) [ClaudeVersion])
      by (repeat (apply Forall_cons; [simpl; auto|]); apply Forall_nil).
    split; [now left | now apply Hquiet]. }
  destruct H as [[e [_ [_ Hl]]] | [_ H]].
  { eexists. split; [exact Hl|].
    assert (Hq : Forall (fun c => phase c = 1%nat \/ phase c = 9%nat)
                        [ClaudeVersion; PullsGet])
      by (repeat (apply Forall_cons; [simpl; auto|]); apply Forall_nil).
    split; [now left | now apply Hquiet]. }
  destruct H as [[_ [Hl _]] | [Hsmall H]].
  { eexists. split; [exact Hl|].
    match goal with |- (Forall ?Q ?t \/ _) /\ _ => assert (Hq : Forall Q t) end.
    { repeat (apply Forall_cons; [simpl; auto|]); apply Forall_nil. }
    split; [now left | now apply Hquiet]. }
  destruct H as [[e [_ [_ Hl]]] | [_ H]].
  { eexists. split; [exact Hl|].
    match goal with |- (Forall ?Q ?t \/ _) /\ _ => assert (Hq : Forall Q t) end.
    { repeat (apply Forall_cons; [simpl; auto|]); apply Forall_nil. }
    split; [now left | now apply Hquiet]. }
  destruct H as [[_ [Hl _]] | [Hcode H]].
  { eexists. split; [exact Hl|].
    match goal with |- (Forall ?Q ?t \/ _) /\ _ => assert (Hq : Forall Q t) end.
    { repeat (apply Forall_cons; [simpl; auto|]); apply Forall_nil. }
    split; [now left | now apply Hquiet]. }
  assert (Hguard : guard) by (subst guard; auto).
  destruct H as [[e [Hf [Hr Hl]]] | [Hf [r1 [w1 [Hwork [Hl _]]]]]].
  { eexists. split; [exact Hl|]. split; [right; left; eauto|].
    intros d [Hd | Hd]; simpl in Hd;
      destruct Hd as [Hd | [Hd | [Hd | [Hd | []]]]]; try discriminate Hd.
    injection Hd as <-. auto. }
  destruct (emits_reviewInWorkDir pr dir _ _ _ _ Hwork) as [work [Hlw Hwork']].
  cbn [log] in Hlw. apply between_bounds in Hwork'.
  assert (Hdirs : Forall (fun c => match c with
                                   | ClaudeReview d => d = dir
                                   | _ => True
                                   end) work).
  { assert (He : emits (reviewInWorkDir pr dir)
                       (Forall (fun c => match c with
                                         | ClaudeReview d => d = dir
                                         | _ => True
                                         end))).
    { unfold reviewInWorkDir, cloneRepository, runClaudeReview, getExistingBotComments,
        resolveComment, createReviewComment, dismissStaleReview, submitReview.
      every_call ltac:(first [exact I | reflexivity]). }
    destruct (He _ _ _ _ Hwork) as [work' [Hlw' Hd]]. cbn [log] in Hlw'.
    rewrite Hlw in Hlw'. apply app_inv_head in Hlw'. now subst work'. }
  exists ([ClaudeVersion; PullsGet; ListFiles; Mkdir dir] ++ work ++ [Rm dir])%list.
  split; [rewrite Hl, Hlw, <- !app_assoc; reflexivity|].
  split; [right; right; exists work; auto|].
  intros d Hd. split; [|exact Hguard].
  rewrite Forall_forall in Hwork'.
  assert (Hin : forall c, In c ([ClaudeVersion; PullsGet; ListFiles; Mkdir dir]
                                  ++ work ++ [Rm dir])%list ->
                          c = ClaudeVersion \/ c = PullsGet \/ c = ListFiles
                          \/ c = Mkdir dir \/ In c work \/ c = Rm dir).
  { intros c Hc. simpl in Hc.
    destruct Hc as [<- | [<- | [<- | [<- | Hc]]]]; auto.
    apply in_app_or in Hc. destruct Hc as [Hc | [<- | []]]; auto 6. }
  destruct Hd as [Hd | Hd]; apply Hin in Hd;
    destruct Hd as [Hd | [Hd | [Hd | [Hd | [Hd | Hd]]]]]; try discriminate Hd.
  - rewrite Forall_forall in Hdirs. exact (Hdirs _ Hd).
  - now injection Hd.
  - apply Hwork' in Hd. simpl in Hd. lia.
Qed.

Lemma reviewInWorkDir_skipped pr dir o w out w' :
  reviewInWorkDir pr dir o w = (Ok out, w') ->
  out_action out = Some skipped_pr ->
  exists result,
    CliRunner.result (cliRun o (List.length (log w) + 4)%nat) = Some result
    /\ status result = Review.skipped
    /\ log w' = (log w ++ [AuthInstallation; GitClone dir; GitFetch dir; GitCheckout dir;
                           ClaudeReview dir;
                           CreateReview "COMMENT"
                                        (buildSkipComment (summary result) (headSha pr))])%list
    /\ out = mkOutcome true (Some skipped_pr) (summary result) None.
Proof.
  unfold reviewInWorkDir. intros H Hskipped.
  apply bind_ok in H. destruct H as [p [w1 [H1 H]]]. apply cloneRepository_ok in H1.
  apply bind_ok in H. destruct H as [cliResult [w2 [H2 H]]].
  unfold runClaudeReview in H2.
  apply bind_ok in H2. destruct H2 as [n2 [w2' [H2 H2']]]. injection H2' as <- <-.
  apply query_ok in H2. destruct H2 as [Hn2 [Hl2 _]].
  assert (Hlen : List.length (log w1) = (List.length (log w) + 4)%nat).
  { rewrite H1, length_app. reflexivity. }
  rewrite Hn2, Hlen in H.
  destruct (CliRunner.success (cliRun o (List.length (log w) + 4)%nat));
    [|discriminate H].
  destruct (CliRunner.result (cliRun o (List.length (log w) + 4)%nat)) as [result|];
    [|discriminate H].
  exists result. split; [reflexivity|].
  assert (Hother :
            yields
              (existingComments <- getExistingBotComments pr ;;
               forEach (fixedCommentIds
                          (reconcileFindings (findings result) existingComments))
                       (fun commentId => resolveComment pr commentId) ;;;
               forEach (sortFindingsBySeverity
                          (newFindings
                             (reconcileFindings (findings result) existingComments)))
                       (fun finding =>
                          createReviewComment pr finding
                            (buildFindingComment finding (headSha pr))) ;;;
               (if shouldDismissPreviousReview (findings result)
                then dismissStaleReview pr else ret tt) ;;;
               submitReview pr (determineReviewAction (findings result))
                            (buildReviewSummary result (headSha pr)) ;;;
               ret (mkOutcome true (Some reviewed)
                              ("Review complete: "
                                 ++ actionName (determineReviewAction (findings result)))
                              (Some (Z.of_nat (List.length (findings result))))))
              (fun out => out_action out = Some reviewed)).
  { repeat (apply yields_bind; intros ?). now apply yields_ret. }
  destruct (status result) eqn:Hstatus;
    try (apply Hother in H; rewrite H in Hskipped; discriminate Hskipped).
  split; [reflexivity|].
  rewrite bind_run, notice_run in H.
  destruct (fails o (List.length (log w2'))); [discriminate H|].
  injection H as <- <-. cbn [log]. split; [|reflexivity].
  rewrite Hl2, H1, <- !app_assoc. reflexivity.
Qed.

(** X27: The calls of an attempt that ends with the outcome [skipped], all of
    them: the pull request changes more files than the threshold, and the
    attempt posts a notice after the fetch of the pull request; or no file
    of the pull request is code, and it posts a notice after the listing of
    the files; or the engine itself reports the status [skipped], and the
    attempt posts the summary of the engine as a notice and removes the
    workspace.  The notice is a review with the event [COMMENT].  A skipped
    attempt resolves no thread, creates no review comment and dismisses no
    review.  The count of changed files is compared with [>]: a pull
    request with exactly as many files as the threshold is not skipped for
    its size, and none is when the threshold is [NaN]. *)
Theorem skipped_attempt_calls
        (config : ReviewerConfig) (pr : PullRequestInfo)
        (o : Oracle) (w : World) (out : ReviewOutcome) (w' : World)
        (Hrun : performReview config pr o w = (Ok out, w'))
        (Hskipped : out_action out = Some skipped_pr) :
  let n := List.length (log w) in
  let changed := changed_files (pullData o (n + 1)%nat) in
  let maxFiles := match maxFilesThreshold config with
                  | Some m => m
                  | None => JS.Int MAX_FILES_DEFAULT
                  end in
  let hasCode := existsb (fun f => existsb (String.eqb (extensionOf f)) codeExtensions)
                         (fileNames o (n + 2)%nat) in
  let dir := "/tmp/pr-review-" ++ uuid o (n + 3)%nat in
  let notice reason := CreateReview "COMMENT" (buildSkipComment reason (headSha pr)) in
  let skip reason := mkOutcome true (Some skipped_pr) reason None in
  ((JS.greaterThan changed maxFiles = true
    /\ log w' = (log w ++ [ClaudeVersion; PullsGet;
                           notice (tooManyFilesReason changed maxFiles)])%list
    /\ out = skip (tooManyFilesReason changed maxFiles))
   \/ (JS.greaterThan changed maxFiles = false /\ hasCode = false
       /\ log w' = (log w ++ [ClaudeVersion; PullsGet; ListFiles;
                              notice nonCodeReason])%list
       /\ out = skip nonCodeReason)
   \/ (exists result,
          JS.greaterThan changed maxFiles = false /\ hasCode = true
          /\ CliRunner.result (cliRun o (n + 8)%nat) = Some result
          /\ status result = Review.skipped
          /\ log w' = (log w ++ [ClaudeVersion; PullsGet; ListFiles; Mkdir dir;
                                 AuthInstallation; GitClone dir; GitFetch dir;
                                 GitCheckout dir; ClaudeReview dir;
                                 notice (summary result); Rm dir])%list
          /\ out = skip (summary result)))
  /\ (forall m, maxFiles = JS.Int m ->
                (JS.greaterThan changed maxFiles = true <-> m < changed))
  /\ (maxFiles = JS.NaN -> JS.greaterThan changed maxFiles = false).
Proof.
  intros n changed maxFiles hasCode dir notice skip.
  split; [|split; [intros m Hm; rewrite Hm; simpl; apply Z.ltb_lt
                  | intros Hm; rewrite Hm; reflexivity]].
  pose proof (performReview_runs config pr o w _ w' Hrun) as H.
  cbv zeta in H. fold n changed maxFiles hasCode dir in H.
  destruct H as [[_ [Hr _]] | [_ H]]; [discriminate Hr|].
  destruct H as [[e [_ [Hr _]]] | [_ H]]; [discriminate Hr|].
  destruct H as [[Hbig [Hl [[_ Hr] | [e [_ Hr]]]]] | [Hsmall H]];
    [left; injection Hr as ->; auto | discriminate Hr |].
  destruct H as [[e [_ [Hr _]]] | [_ H]]; [discriminate Hr|].
  destruct H as [[Hcode [Hl [[_ Hr] | [e [_ Hr]]]]] | [Hcode H]];
    [right; left; injection Hr as ->; auto | discriminate Hr |].
  destruct H as [[e [_ [Hr _]]] | [_ [r1 [w1 [Hwork [Hl Hrm]]]]]]; [discriminate Hr|].
  destruct Hrm as [[_ <-] | [e [_ Hr]]]; [|discriminate Hr].
  destruct (reviewInWorkDir_skipped pr dir o _ out w1 Hwork Hskipped)
    as [result [Hres [Hstatus [Hlw ->]]]].
  cbn [log] in Hres, Hlw.
  assert (Hlen : (List.length (log w ++ [ClaudeVersion; PullsGet; ListFiles; Mkdir dir])
                  + 4 = n + 8)%nat).
  { rewrite length_app. simpl. subst n. lia. }
  rewrite Hlen in Hres.
  right. right. exists result. repeat split; auto.
  rewrite Hl, Hlw, <- !app_assoc. reflexivity.
Qed.

(** X25 at an attempt whose engine reports two findings, of which one is
    new and one was commented on before, while an older comment is fixed. *)
Lemma reviewed_attempt_calls_witness :
  let run := performReview sampleConfig samplePR reviewingOracle (mkWorld [] []) in
  let out := mkOutcome true (Some reviewed) "Review complete: request_changes" (Some 2) in
  fst run = Ok out
  /\ out_action out = Some reviewed
  /\ forallb typedComment (reviewComments reviewingOracle 9%nat) = true
  /\ exists resolved dismissal,
      log (snd run)
      = ([ClaudeVersion; PullsGet; ListFiles; Mkdir "/tmp/pr-review-3f2a";
          AuthInstallation; GitClone "/tmp/pr-review-3f2a";
          GitFetch "/tmp/pr-review-3f2a"; GitCheckout "/tmp/pr-review-3f2a";
          ClaudeReview "/tmp/pr-review-3f2a"; ListReviewComments]
           ++ resolved
           ++ [commentCall samplePR newFinding]
           ++ dismissal
           ++ [submitCall request_changes
                          (buildReviewSummary sampleResult "0123456789abcdef");
               Rm "/tmp/pr-review-3f2a"])%list
      /\ resolution [900] resolved
      /\ dismissal = [].
Proof.
  intros run out.
  assert (Hrun : performReview sampleConfig samplePR reviewingOracle (mkWorld [] [])
                 = (Ok out, snd run)) by (vm_compute; reflexivity).
  assert (Htyped : forallb typedComment
                            (reviewComments reviewingOracle
                               (List.length (log (mkWorld [] [])) + 9)%nat) = true)
    by (vm_compute; reflexivity).
  pose proof (reviewed_attempt_calls sampleConfig samplePR reviewingOracle (mkWorld [] [])
                out (snd run) Hrun eq_refl Htyped) as H.
  split; [vm_compute; reflexivity|]. split; [reflexivity|].
  split; [exact Htyped|].
  cbv zeta in H.
  destruct H as [result [resolved [dismissal [Hres [Hlog [Hresolved [Hrc _]]]]]]].
  injection Hres as <-.
  exists resolved, dismissal.
  split; [exact Hlog|]. split; [exact Hresolved | exact (Hrc eq_refl)].
Defined.

(** X26 at an attempt with a threshold that is [NaN]: the engine runs,
    in the workspace of the attempt only. *)
Lemma workspace_removed_and_engine_guarded_witness :
  let config := mkConfig (Some JS.NaN) true in
  let run := performReview config samplePR reviewingOracle (mkWorld [] []) in
  performReview config samplePR reviewingOracle (mkWorld [] []) = (fst run, snd run)
  /\ In (ClaudeReview "/tmp/pr-review-3f2a") (log (snd run))
  /\ forall d, In (ClaudeReview d) (log (snd run)) -> d = "/tmp/pr-review-3f2a".
Proof.
  intros config run. split; [apply surjective_pairing|].
  split; [vm_compute; tauto|].
  pose proof (workspace_removed_and_engine_guarded config samplePR reviewingOracle
                (mkWorld [] []) (fst run) (snd run) (surjective_pairing run)) as H.
  cbv zeta in H. destruct H as [[t [Hlog [_ Hguard]]] _].
  change (log (snd run) = t) in Hlog.
  intros d Hd. rewrite Hlog in Hd.
  exact (proj1 (Hguard d (or_introl Hd))).
Defined.

(** X27 at a pull request that changes three files, with a threshold of
    two: the attempt issues three calls. *)
Lemma skipped_attempt_calls_witness :
  let config := mkConfig (Some (JS.Int 2)) true in
  let run := performReview config samplePR reviewingOracle (mkWorld [] []) in
  exists out, fst run = Ok out
              /\ out_action out = Some skipped_pr
              /\ List.length (log (snd run)) = 3%nat.
Proof.
  intros config run.
  set (out := mkOutcome true (Some skipped_pr) (tooManyFilesReason 3 (JS.Int 2)) None).
  assert (Hrun : performReview config samplePR reviewingOracle (mkWorld [] [])
                 = (Ok out, snd run)) by (vm_compute; reflexivity).
  pose proof (skipped_attempt_calls config samplePR reviewingOracle (mkWorld [] [])
                out (snd run) Hrun eq_refl) as H.
  exists out. split; [vm_compute; reflexivity|]. split; [reflexivity|].
  cbv zeta in H.
  destruct H as [[[_ [Hl _]] | [[Hle _] | [result [Hle _]]]] _];
    [now rewrite Hl | discriminate Hle | discriminate Hle].
Defined.

End AttemptTraces.

Section SessionBounds.
Import Review Remote Remote.Notations Props Terms.
Import Reconciler CommentBuilder GitHubClient Session.

Lemma atMost_quiet (p : Call -> bool) (k : nat) (t : list Call) :
  Forall (fun c => p c = false) t -> atMost p k t.
Proof.
  unfold atMost. intros H.
  replace (filter p t) with (@nil Call); [simpl; lia|].
  induction H as [|c t Hc _ IH]; simpl; [reflexivity | now rewrite Hc].
Qed.

Lemma atMost_app (p : Call -> bool) (a b : nat) (t1 t2 : list Call) :
  atMost p a t1 -> atMost p b t2 -> atMost p (a + b) (t1 ++ t2).
Proof. unfold atMost. rewrite filter_app, length_app. lia. Qed.

Lemma atMost_weaken (p : Call -> bool) (a b : nat) (t : list Call) :
  atMost p a t -> (a <= b)%nat -> atMost p b t.
Proof. unfold atMost. lia. Qed.

Lemma emits_bind_atMost {A B} (p : Call -> bool) (a b : nat) (m : M A) (f : A -> M B) :
  emits m (atMost p a) -> (forall x, emits (f x) (atMost p b)) ->
  emits (bind m f) (atMost p (a + b)).
Proof.
  intros Hm Hf. apply (emits_bind m f (atMost p a) (atMost p b)); auto.
  - intros t Ht. apply (atMost_weaken p a); [exact Ht | lia].
  - intros t1 t2. apply atMost_app.
Qed.

Lemma emits_tryCatch_atMost {A} (p : Call -> bool) (a b : nat)
      (m : M A) (h : string -> M A) :
  emits m (atMost p a) -> (forall e, emits (h e) (atMost p b)) ->
  emits (tryCatch m h) (atMost p (a + b)).
Proof.
  intros Hm Hh. apply (emits_tryCatch m h (atMost p a) (atMost p b)); auto.
  - intros t Ht. apply (atMost_weaken p a); [exact Ht | lia].
  - intros t1 t2. apply atMost_app.
Qed.

Lemma emits_quiet {A} (p : Call -> bool) (k : nat) (m : M A) :
  emits m (Forall (fun c => p c = false)) -> emits m (atMost p k).
Proof. intros H. eapply emits_weaken; [exact H|]. intros t. apply atMost_quiet. Qed.

Lemma emits_setLabels_quiet pr (pending : bool) (p : Call -> bool) (k : nat) :
  p IssuesGet = false -> (forall name, p (RemoveLabel name) = false) ->
  (forall name, p (AddLabels name) = false) ->
  emits (setLabels pr pending) (atMost p k).
Proof.
  intros H1 H2 H3. apply emits_quiet. unfold setLabels.
  every_call ltac:(auto).
Qed.

Lemma performReview_checks_once config pr :
  emits (performReview config pr) (atMost isVersionCheck 1).
Proof.
  unfold performReview.
  apply (emits_bind_atMost isVersionCheck 1 0).
  - unfold checkClaudeCliAvailable. apply (emits_bind_atMost isVersionCheck 1 0).
    + apply emits_query. unfold atMost. simpl. lia.
    + intros n. apply emits_quiet. every_call ltac:(reflexivity).
  - intros cliOk. apply emits_quiet.
    unfold reviewInWorkDir, getChangedFilesCount, isNonCodePR,
      cloneRepository, runClaudeReview, getExistingBotComments, resolveComment,
      createReviewComment, dismissStaleReview, submitReview.
    every_call ltac:(reflexivity).
Qed.

Lemma performReview_runs_engine_once config pr :
  emits (performReview config pr) (atMost isEngineRun 1).
Proof.
  unfold performReview.
  apply (emits_bind_atMost isEngineRun 0 1).
  { apply emits_quiet. unfold checkClaudeCliAvailable. every_call ltac:(reflexivity). }
  intros cliOk. destruct (negb cliOk).
  { apply emits_quiet. every_call ltac:(reflexivity). }
  apply (emits_bind_atMost isEngineRun 0 1).
  { apply emits_quiet. unfold getChangedFilesCount. every_call ltac:(reflexivity). }
  intros changed. destruct (JS.greaterThan changed _).
  { apply emits_quiet. unfold submitReview. every_call ltac:(reflexivity). }
  apply (emits_bind_atMost isEngineRun 0 1).
  { apply emits_quiet. unfold isNonCodePR. every_call ltac:(reflexivity). }
  intros nonCode. destruct nonCode.
  { apply emits_quiet. unfold submitReview. every_call ltac:(reflexivity). }
  apply (emits_bind_atMost isEngineRun 0 1).
  { apply emits_quiet. every_call ltac:(reflexivity). }
  intros workDir.
  apply (emits_bind_atMost isEngineRun 0 1).
  { apply emits_quiet. every_call ltac:(reflexivity). }
  intros _.
  apply (emits_tryFinally _ _ (atMost isEngineRun 1) (atMost isEngineRun 0)).
  - unfold reviewInWorkDir.
    apply (emits_bind_atMost isEngineRun 0 1).
    { apply emits_quiet. unfold cloneRepository. every_call ltac:(reflexivity). }
    intros _.
    apply (emits_bind_atMost isEngineRun 1 0).
    { unfold runClaudeReview. apply (emits_bind_atMost isEngineRun 1 0).
      - apply emits_query. unfold atMost. simpl. lia.
      - intros n. apply emits_quiet. every_call ltac:(reflexivity). }
    intros cliResult. apply emits_quiet.
    unfold getExistingBotComments, resolveComment, createReviewComment,
      dismissStaleReview, submitReview.
    every_call ltac:(reflexivity).
  - apply emits_quiet. every_call ltac:(reflexivity).
  - intros t1 t2 H1 H2. apply (atMost_app isEngineRun 1 0); assumption.
Qed.

Lemma runReview_attempts (p : Call -> bool) config request :
  (forall pr, emits (performReview config pr) (atMost p 1)) ->
  p PullsGet = false -> p IssuesGet = false ->
  (forall name, p (RemoveLabel name) = false) ->
  (forall name, p (AddLabels name) = false) ->
  (forall body, p (CreateIssueComment body) = false) ->
  emits (runReview config request)
        (atMost p (if retryOnError config then 2 else 1)).
Proof.
  intros Hattempt Hpull Hget Hremove Hadd Hcomment.
  assert (Hflip : forall pr,
             emits (outcome <- performReview config pr ;;
                    setLabels pr false ;;; ret outcome) (atMost p 1)).
  { intros pr. apply (emits_bind_atMost p 1 0); [apply Hattempt | intros outcome].
    apply (emits_bind_atMost p 0 0); [now apply emits_setLabels_quiet | intros _].
    apply emits_quiet. every_call ltac:(auto). }
  assert (Herror : forall pr message,
             emits (postErrorComment pr message ;;; setLabels pr false ;;;
                    ret (errorOutcome message)) (atMost p 0)).
  { intros pr message. apply (emits_bind_atMost p 0 0).
    - apply emits_quiet. unfold postErrorComment. every_call ltac:(auto).
    - intros _. apply (emits_bind_atMost p 0 0);
        [now apply emits_setLabels_quiet | intros _].
      apply emits_quiet. every_call ltac:(auto). }
  unfold runReview.
  apply (emits_bind_atMost p 0 (if retryOnError config then 2 else 1)).
  { apply emits_quiet. unfold getPullRequestInfo. every_call ltac:(auto). }
  intros [outcome | pr].
  { apply emits_quiet. every_call ltac:(auto). }
  apply (emits_bind_atMost p 0 (if retryOnError config then 2 else 1));
    [now apply emits_setLabels_quiet | intros _].
  destruct (retryOnError config).
  - apply (emits_tryCatch_atMost p 1 1); [apply Hflip | intros message].
    apply (emits_tryCatch_atMost p 1 0); [apply Hflip | intros; apply Herror].
  - apply (emits_tryCatch_atMost p 1 0); [apply Hflip | intros; apply Herror].
Qed.

(** X28: A session makes at most two attempts, and at most one when the retry
    is switched off; every attempt checks the engine executable once and
    runs the engine at most once.  So the engine is run at most twice in a
    session.  When the fetch of the pull request fails, no attempt is
    made. *)
Theorem at_most_one_retry
        (config : ReviewerConfig) (request : ReviewRequest)
        (o : Oracle) (ls : list string) :
  let t := log (snd (run (runReview config request) o ls)) in
  let k := if retryOnError config then 2%nat else 1%nat in
  atMost isVersionCheck k t
  /\ atMost isEngineRun k t
  /\ (forall e, fails o 0%nat = Some e -> t = [PullsGet]).
Proof.
  intros t k. subst t k. unfold run.
  destruct (runReview config request o (mkWorld ls [])) as [r w'] eqn:Hrun.
  split; [|split].
  - destruct (runReview_attempts isVersionCheck config request
                (performReview_checks_once config)
                eq_refl eq_refl (fun _ => eq_refl) (fun _ => eq_refl) (fun _ => eq_refl)
                _ _ _ _ Hrun) as [t [Hl Ht]].
    simpl in Hl. cbn [snd]. now rewrite Hl.
  - destruct (runReview_attempts isEngineRun config request
                (performReview_runs_engine_once config)
                eq_refl eq_refl (fun _ => eq_refl) (fun _ => eq_refl) (fun _ => eq_refl)
                _ _ _ _ Hrun) as [t [Hl Ht]].
    simpl in Hl. cbn [snd]. now rewrite Hl.
  - intros e He. pose proof (fetch_failed config request o ls e He) as Hf.
    unfold run in Hf. rewrite Hf in Hrun. injection Hrun as _ <-. reflexivity.
Qed.

End SessionBounds.

Section SessionOutcomes.
Import Review Remote Remote.Notations Props Terms.
Import Reconciler CommentBuilder GitHubClient Session.

Lemma yields_tryCatch {A} (m : M A) (h : string -> M A) (Q : A -> Prop) :
  yields m Q -> (forall e, yields (h e) Q) -> yields (tryCatch m h) Q.
Proof.
  intros Hm Hh o w a w' H. apply tryCatch_cases in H.
  destruct H as [[a' [H1 Ha]] | [e [w1 [H1 H2]]]].
  - injection Ha as <-. exact (Hm _ _ _ _ H1).
  - exact (Hh e _ _ _ _ H2).
Qed.

Lemma performReview_consistent config pr :
  yields (performReview config pr)
         (fun out => consistentOutcome out /\ out_action out <> Some error_outcome).
Proof.
  assert (Hskip : forall reason,
             consistentOutcome (mkOutcome true (Some skipped_pr) reason None)
             /\ out_action (mkOutcome true (Some skipped_pr) reason None)
                <> Some error_outcome).
  { intros reason. split; [right; left; auto | discriminate]. }
  unfold performReview.
  apply yields_bind. intros cliOk. destruct (negb cliOk); [apply yields_throw|].
  apply yields_bind. intros changed. destruct (JS.greaterThan changed _).
  { apply yields_bind. intros _. apply yields_ret. apply Hskip. }
  apply yields_bind. intros nonCode. destruct nonCode.
  { apply yields_bind. intros _. apply yields_ret. apply Hskip. }
  apply yields_bind. intros workDir. apply yields_bind. intros _.
  apply yields_tryFinally. unfold reviewInWorkDir.
  apply yields_bind. intros _. apply yields_bind. intros cliResult.
  destruct (if CliRunner.success cliResult then CliRunner.result cliResult else None)
    as [result|]; [|apply yields_throw].
  destruct (status result);
    try (apply yields_bind; intros _; apply yields_ret; apply Hskip);
    repeat (apply yields_bind; intros ?); apply yields_ret;
    (split; [left | discriminate]);
    (split; [reflexivity|]; split; [reflexivity|]; split; [|eexists; reflexivity]);
    (eexists; split; [reflexivity | apply Nat2Z.is_nonneg]).
Qed.

(** X29: An outcome that a session returns is consistent: it reports a review,
    with success, the number of findings and a message that names the
    verdict; or a skip, with success and no number; or an error, without
    success and without a number.  So the outcome is a success exactly when
    it is no error, which is what decides the exit status of the task.  An
    attempt that returns never reports an error itself. *)
Theorem returned_outcome_is_consistent
        (config : ReviewerConfig) (request : ReviewRequest)
        (o : Oracle) (ls : list string) (out : ReviewOutcome) (w' : World)
        (Hrun : run (runReview config request) o ls = (Ok out, w')) :
  consistentOutcome out
  /\ (out_success out = true <-> out_action out <> Some error_outcome)
  /\ (forall pr o1 w1 out1 w2,
         performReview config pr o1 w1 = (Ok out1, w2) ->
         consistentOutcome out1 /\ out_action out1 <> Some error_outcome).
Proof.
  assert (Hc : consistentOutcome out).
  { assert (Herr : forall message, consistentOutcome (errorOutcome message)).
    { intros message. right. right. auto. }
    destruct (fails o 0%nat) as [e|] eqn:Hfetch.
    { rewrite (fetch_failed config request o ls e Hfetch) in Hrun.
      injection Hrun as <- _. apply Herr. }
    assert (Hflip : forall pr,
               yields (outcome <- performReview config pr ;;
                       setLabels pr false ;;; ret outcome) consistentOutcome).
    { intros pr o1 w1 a w2 H. apply bind_ok in H. destruct H as [x [w3 [H3 H]]].
      apply bind_ok in H. destruct H as [u [w4 [_ H]]]. injection H as <- _.
      exact (proj1 (performReview_consistent config pr _ _ _ _ H3)). }
    assert (Hpost : forall pr message,
               yields (postErrorComment pr message ;;; setLabels pr false ;;;
                       ret (errorOutcome message)) consistentOutcome).
    { intros pr message. apply yields_bind. intros _. apply yields_bind. intros _.
      apply yields_ret. apply Herr. }
    unfold run, runReview in Hrun.
    apply bind_ok in Hrun. destruct Hrun as [fetched [w1 [H1 H]]].
    rewrite (fetch_ok request o ls Hfetch) in H1. injection H1 as <- <-.
    cbv iota beta in H.
    apply bind_ok in H. destruct H as [u [w2 [_ H]]].
    revert H. apply yields_tryCatch; [apply Hflip|].
    intros message. destruct (retryOnError config); [|apply Hpost].
    apply yields_tryCatch; [apply Hflip | intros; apply Hpost]. }
  split; [exact Hc|]. split.
  - destruct Hc as [[Ha [Hs _]] | [[Ha [Hs _]] | [Ha [Hs _]]]]; rewrite Ha, Hs.
    + split; [discriminate | reflexivity].
    + split; [discriminate | reflexivity].
    + split; [discriminate|]. intros H. now elim H.
  - intros pr o1 w1 out1 w2 H. exact (performReview_consistent config pr _ _ _ _ H).
Qed.

(** X29 at a session whose engine executable is missing. *)
Lemma returned_outcome_is_consistent_witness :
  let res := run (runReview sampleConfig sampleRequest) cliMissingOracle ["bug"] in
  fst res = Ok (errorOutcome "Claude CLI is not available")
  /\ consistentOutcome (errorOutcome "Claude CLI is not available").
Proof.
  intros res.
  assert (Hrun : run (runReview sampleConfig sampleRequest) cliMissingOracle ["bug"]
                 = (Ok (errorOutcome "Claude CLI is not available"), snd res))
    by (vm_compute; reflexivity).
  split; [vm_compute; reflexivity|].
  exact (proj1 (returned_outcome_is_consistent sampleConfig sampleRequest cliMissingOracle
                  ["bug"] _ _ Hrun)).
Defined.

End SessionOutcomes.

Section SessionRejections.
Import Review Remote Remote.Notations Props Terms.
Import Reconciler CommentBuilder GitHubClient Session.










End SessionRejections.
